(** * Poki_MCP: the battle front end ([web/battle.js]) and the damage rule

    A shallow embedding of the browser front end of the Pokemon battle
    simulator, and of the damage rule its documentation states, together
    with the properties the design document claims about them.

    Conventions of the embedding.
    - In the stat and damage formulas a number is an exact rational ([Q])
      and [Math.floor] is [Qfloor]: finite numbers, exact arithmetic.  The
      module [Binary64] evaluates the stat formulas on binary64 as well, and
      the two are compared on the range of the game.
    - The page is a store from element ids to elements; a property access
      through [document.getElementById(id)] on an id the page lacks throws,
      as a property access on [null] does.
    - Functions that touch the page are written in a state-and-exception
      monad over the page; an [async] function that is awaited is run to
      completion, its [await]s being sequencing points, and one that is
      called without [await] is run as far as its first wait for a timer. *)

From Stdlib Require Import ZArith QArith Qround Lia Ascii String Floats.
From stdpp Require Import gmap strings list fin_maps pretty sorting.

Set Warnings "-clear-no-such-hyp".

Local Open Scope Z_scope.

(** ** Level-scaled stats ([calculateStatsAtLevel]) *)

Module Stats.

Record BaseStats := mkBaseStats {
  hp : Q;
  attack : Q;
  defense : Q;
  special_attack : Q;
  special_defense : Q;
  speed : Q
}.

(** The object [calculateStatsAtLevel] returns: every field went through
    [Math.floor], so every field is an integer. *)
Record LevelStats := mkLevelStats {
  l_hp : Z;
  l_attack : Z;
  l_defense : Z;
  l_special_attack : Z;
  l_special_defense : Z;
  l_speed : Z
}.

Local Open Scope Q_scope.

(** [function calculateStatsAtLevel(baseStats, level)], with its two local
    arrow functions [calcHP] and [calcStat]. *)
Definition calculateStatsAtLevel (baseStats : BaseStats) (level : Q) : LevelStats :=
  let calcHP := fun (base level : Q) =>
    Qfloor (((2 * base * level) / 100) + level + 10) in
  let calcStat := fun (base level : Q) =>
    Qfloor (((2 * base * level) / 100) + 5) in
  {| l_hp := calcHP (hp baseStats) level;
     l_attack := calcStat (attack baseStats) level;
     l_defense := calcStat (defense baseStats) level;
     l_special_attack := calcStat (special_attack baseStats) level;
     l_special_defense := calcStat (special_defense baseStats) level;
     l_speed := calcStat (speed baseStats) level |}.

(** The same two formulas on integers, with [Z]'s flooring division. *)
Definition calcHP_int (base level : Z) : Z := (2 * base * level / 100 + level + 10)%Z.
Definition calcStat_int (base level : Z) : Z := (2 * base * level / 100 + 5)%Z.

(** Pikachu's base stats, for examples. *)
Definition pikachuBase : BaseStats := mkBaseStats 35 55 40 50 50 90.

Definition nonneg_base (b : BaseStats) : Prop :=
  0 <= hp b /\ 0 <= attack b /\ 0 <= defense b /\
  0 <= special_attack b /\ 0 <= special_defense b /\ 0 <= speed b.

End Stats.

(** ** The stat formulas on binary64

    In the browser the numbers are IEEE 754 binary64.  The formulas are
    evaluated here on Rocq's primitive floats, which are binary64, to
    compare the exact model above with what the engine computes. *)

Module Binary64.

(** [Math.floor] of a finite float, as an integer; [None] for NaN and the
    infinities. *)
Definition floor64 (x : float) : option Z :=
  match Prim2SF x with
  | S754_zero _ => Some 0
  | S754_finite s m e =>
      let v := if s then Z.neg m else Z.pos m in
      Some (if 0 <=? e then v * 2 ^ e else v / 2 ^ (- e))
  | S754_infinity _ | S754_nan => None
  end.

(** The float of a non-negative integer below 2^63. *)
Definition ofInteger (n : Z) : float := PrimFloat.of_uint63 (Uint63.of_Z n).

Definition calcHP (base level : float) : option Z :=
  floor64 (((2 * base * level) / 100) + level + 10)%float.
Definition calcStat (base level : float) : option Z :=
  floor64 (((2 * base * level) / 100) + 5)%float.

(** Do binary64 and the integer formulas agree at [base], [level]? *)
Definition agrees (base level : Z) : bool :=
  bool_decide (calcHP (ofInteger base) (ofInteger level) = Some (Stats.calcHP_int base level))
  && bool_decide (calcStat (ofInteger base) (ofInteger level) = Some (Stats.calcStat_int base level)).

End Binary64.

(** ** The damage rule *)

Module Damage.

Local Open Scope Q_scope.

(** The formula as [README.md] prints it under "Damage Calculation":
    [Damage = ((2*Level/5+2) * Power * A/D) / 50 + 2], then
    [* STAB * Type Effectiveness * Critical * Random(0.85-1.0)].
    The README rounds nowhere. *)
Definition readmeDamage (Level Power A D STAB TypeEffectiveness Critical Random : Q) : Q :=
  (((2 * Level / 5 + 2) * Power * A / D) / 50 + 2)
  * STAB * TypeEffectiveness * Critical * Random.

(** Modelled from the spec: the damage routine of the battle engine
    ([battle_engine/battle_simulator.py], which the sources at hand do not
    contain), as section 4.3 of the design gives it.  Its first step,
    [base = floor(((2*attackerLevel/5 + 2) * power * atkStat/defStat)/50 + 2)].
    [defStat] is a computed stat and never 0; the value [Q] gives a
    quotient by 0 stands for nothing in the engine. *)
Definition baseDamage (attackerLevel power atkStat defStat : Q) : Z :=
  Qfloor (((2 * attackerLevel / 5 + 2) * power * atkStat / defStat) / 50 + 2).

(** Modelled from the spec: the second step of the same routine,
    [final = floor(base * stab * effectivenessMultiplier * critMultiplier * randomFactor)]. *)
Definition finalDamage (base : Z) (stab effectivenessMultiplier critMultiplier randomFactor : Q)
    : Z :=
  Qfloor (inject_Z base * stab * effectivenessMultiplier * critMultiplier * randomFactor).

(** Modelled from the spec: the two multipliers of 4.3, [stab = 1.5] iff
    the move's type is one of the attacker's types, else [1.0], and
    [critMultiplier = 1.5] iff the hit is critical, else [1.0]. *)
Definition stabOf (moveType : string) (attackerTypes : list string) : Q :=
  if bool_decide (moveType ∈ attackerTypes) then 3 # 2 else 1.
Definition critMultiplierOf (isCritical : bool) : Q :=
  if isCritical then 3 # 2 else 1.

(** Modelled from the spec: what section 3 of the design says of a move and
    of a combatant, as far as the damage routine reads them: the move's
    type, optional power and category; the combatant's level, types,
    computed stats and status. *)
Inductive Category := Physical | Special | StatusMove.
Inductive Condition := NoCondition | Burn | Poison | Paralysis.

Record MoveDefinition := mkMoveDefinition {
  move_type : string;
  move_power : option Q;
  move_category : Category
}.

Record BattlePokemon := mkBattlePokemon {
  bp_level : Q;
  bp_types : list string;
  bp_atk : Q;
  bp_def : Q;
  bp_spAtk : Q;
  bp_spDef : Q;
  bp_status : Condition
}.

(** Modelled from the spec: "atk/def stat pair chosen by move category
    (physical: atk/def, special: spAtk/spDef); burn halves the attacker's
    atk stat for physical moves only, applied before the ratio". *)
Definition attackStat (attacker : BattlePokemon) (move : MoveDefinition) : Q :=
  match move_category move with
  | Physical =>
      match bp_status attacker with
      | Burn => bp_atk attacker / 2
      | _ => bp_atk attacker
      end
  | _ => bp_spAtk attacker
  end.
Definition defenseStat (defender : BattlePokemon) (move : MoveDefinition) : Q :=
  match move_category move with
  | Physical => bp_def defender
  | _ => bp_spDef defender
  end.

(** Modelled from the spec: [computeDamage(attacker, defender, move,
    isCritical, effectivenessMultiplier, randomFactor)] of 4.3, a
    nonnegative integer, "0 only for status moves or 0-multiplier
    immunity": a status move, or a move without power, deals 0; so does any
    move against an immune target; every other move deals [final], and "at
    least 1 damage, regardless of rounding". *)
Definition computeDamage (attacker defender : BattlePokemon) (move : MoveDefinition)
    (isCritical : bool) (effectivenessMultiplier randomFactor : Q) : Z :=
  match move_category move, move_power move with
  | StatusMove, _ => 0
  | _, None => 0
  | _, Some power =>
      if Qeq_bool effectivenessMultiplier 0 then 0
      else
        let base := baseDamage (bp_level attacker) power
                      (attackStat attacker move) (defenseStat defender move) in
        let final := finalDamage base (stabOf (move_type move) (bp_types attacker))
                       effectivenessMultiplier (critMultiplierOf isCritical) randomFactor in
        Z.max 1 final
  end.

(** Modelled from the spec: a weak attacker of level 5, a sturdy defender
    that resists the move's type twice over, and the weak physical move. *)
Definition weakAttacker : BattlePokemon :=
  mkBattlePokemon 5 ["normal"] 10 10 10 10 NoCondition.
Definition sturdyDefender : BattlePokemon :=
  mkBattlePokemon 100 ["rock"; "steel"] 200 300 200 300 NoCondition.
Definition weakMove : MoveDefinition := mkMoveDefinition "normal" (Some 10) Physical.

End Damage.

(** ** The JavaScript library functions the front end calls *)

Module Js.

Local Open Scope string_scope.
Local Open Scope Z_scope.

(** [Number.prototype.toString] on an integer: decimal digits, a leading
    [-] for negatives. *)
Definition numberToString (n : Z) : string := pretty n.

(** [String.prototype.toUpperCase], on ASCII: the letters [a]..[z] are
    mapped to [A]..[Z], every other byte is kept. *)
Definition upper_ascii (c : ascii) : ascii :=
  let n := nat_of_ascii c in
  if ((97 <=? n)%nat && (n <=? 122)%nat)%bool then ascii_of_nat (n - 32) else c.

Fixpoint toUpperCase (s : string) : string :=
  match s with
  | EmptyString => EmptyString
  | String c rest => String (upper_ascii c) (toUpperCase rest)
  end.

(** [String.prototype.includes]: does [needle] occur in [s]? *)
Fixpoint includes (s needle : string) : bool :=
  if String.prefix needle s then true
  else match s with
       | EmptyString => false
       | String _ rest => includes rest needle
       end.

(** [parseInt(s)] without a radix: leading white space is skipped, then an
    optional sign, then an optional [0x]/[0X] prefix that selects base 16,
    then the longest run of digits of the base; [None] is [NaN] (no digit
    at all). *)
Definition digitValue (c : ascii) : option Z :=
  let n := Z.of_nat (nat_of_ascii c) in
  if ((48 <=? n) && (n <=? 57))%bool then Some (n - 48)
  else if ((97 <=? n) && (n <=? 122))%bool then Some (n - 97 + 10)
  else if ((65 <=? n) && (n <=? 90))%bool then Some (n - 65 + 10)
  else None.

Fixpoint parseDigits (radix : Z) (acc : option Z) (s : string) : option Z :=
  match s with
  | EmptyString => acc
  | String c rest =>
      match digitValue c with
      | Some d =>
          if d <? radix
          then parseDigits radix (Some (radix * default 0 acc + d)) rest
          else acc
      | None => acc
      end
  end.

Fixpoint skipWhiteSpace (s : string) : string :=
  match s with
  | String c rest => if Ascii.is_space c then skipWhiteSpace rest else s
  | EmptyString => s
  end.

Definition parseInt (s : string) : option Z :=
  let s := skipWhiteSpace s in
  let '(sign, s) :=
    match s with
    | String "-" rest => (-1, rest)
    | String "+" rest => (1, rest)
    | _ => (1, s)
    end in
  let '(radix, s) :=
    match s with
    | String "0" (String "x" rest) => (16, rest)
    | String "0" (String "X" rest) => (16, rest)
    | _ => (10, s)
    end in
  (fun n => sign * n) <$> parseDigits radix None s.

(** *** Objects parsed from JSON

    An object that [response.json()] has parsed is given by the members of
    its JSON text, in the order they are written.  A name that is written
    more than once is one property, at the place of its first occurrence
    and with the value written last. *)

(** The array index a property key is, if it is one: the decimal numeral,
    without sign or leading zero, of an integer below [2^32 - 1]. *)
Definition isDigit (c : ascii) : bool :=
  let n := nat_of_ascii c in ((48 <=? n)%nat && (n <=? 57)%nat)%bool.
Definition arrayIndex (key : string) : option Z :=
  match key with
  | EmptyString => None
  | String c rest =>
      if (forallb isDigit (list_ascii_of_string key)
          && (bool_decide (rest = EmptyString) || negb (Ascii.eqb c "0")))%bool
      then match parseDigits 10 None key with
           | Some n => if n <? 4294967295 then Some n else None
           | None => None
           end
      else None
  end.

(** The names in the order of their first occurrence. *)
Definition firstOccurrences (names : list string) : list string :=
  reverse (remove_dups (reverse names)).

(** [Object.keys(o)]: the keys that are array indices first, in ascending
    order, then the other keys in the order in which they were created. *)
Definition indexLe (a b : string) : Prop :=
  default 0 (arrayIndex a) ≤ default 0 (arrayIndex b).
#[global] Instance indexLe_dec (a b : string) : Decision (indexLe a b).
Proof. unfold indexLe. apply _. Defined.

Definition objectKeys {A} (members : list (string * A)) : list string :=
  let keys := firstOccurrences members.*1 in
  merge_sort indexLe (filter (λ key, is_Some (arrayIndex key)) keys)
  ++ filter (λ key, ¬ is_Some (arrayIndex key)) keys.

(** [o[key]]: the value written last under the name; [None] is
    [undefined]. *)
Fixpoint objectGet {A} (members : list (string * A)) (key : string) : option A :=
  match members with
  | [] => None
  | member :: rest =>
      match objectGet rest key with
      | Some v => Some v
      | None => if decide (member.1 = key) then Some member.2 else None
      end
  end.

(** [Object.entries(o)]: every key with its value. *)
Definition objectEntries {A} (members : list (string * A)) : list (string * A) :=
  omap (λ key, (λ v, (key, v)) <$> objectGet members key) (objectKeys members).

End Js.

(** ** The page: data, elements and the effect monad *)

Module Page.

Local Open Scope string_scope.

(** *** Server data (the JSON values the front end receives) *)

(** A Pokemon as [/api/pokemon/<name>] answers it and [battleState.pokemon1],
    [battleState.pokemon2] hold it. *)
Record PokemonData := mkPokemonData {
  pd_name : string;
  pd_front_default : option string;   (* sprites.front_default, may be null *)
  pd_base_stats : Stats.BaseStats;
  pd_types : list string
}.

Record Hp := mkHp { hp_current : Z; hp_max : Z }.

Record Status := mkStatus { condition : string }.

(** One entry of [turn.pokemon_states]: [{hp: {current, max}, status}];
    [status] may be absent. *)
Record PokemonState := mkPokemonState {
  ps_hp : Hp;
  ps_status : option Status
}.

(** A battle event: [type], [message], and the optional [pokemon] and
    [defender] fields ([None] is [undefined]). *)
Record BattleEvent := mkBattleEvent {
  ev_type : string;
  ev_message : string;
  ev_pokemon : option string;
  ev_defender : option string
}.

(** A turn record.  [pokemon_states] is an object keyed by Pokemon name;
    it is kept as the members of its JSON text, in the order the server
    wrote them ([Js.objectKeys] and [Js.objectGet] read it as the parsed
    object). *)
Record TurnRecord := mkTurnRecord {
  turn : Z;
  events : list BattleEvent;
  pokemon_states : option (list (string * PokemonState))
}.

Record Participant := mkParticipant {
  pt_name : string;
  final_hp : Hp
}.

Record BattleResult := mkBattleResult {
  winner : string;
  total_turns : Z;
  battle_log : list TurnRecord;
  participants_pokemon1 : Participant;
  participants_pokemon2 : Participant
}.

(** The answer of [/api/battle/simulate]: [{success: true, ...result}] or
    [{success: false, error}]. *)
Inductive SimulateResponse :=
  | Success (result : BattleResult)
  | Failure (error : option string).

(** The answer of [/api/battle/validate]. *)
Record ValidationResult := mkValidationResult {
  valid : bool;
  errors : list string
}.

(** What [await fetch(...)] followed by [await response.json()] can do:
    reject (network failure, body that is not JSON) or yield the value. *)
Inductive FetchReply (A : Type) : Type :=
  | Rejected (message : string)
  | Json (response : A).
Arguments Rejected {A} message.
Arguments Json {A} response.

(** The object [getBattleConfig] builds; [level] is what [parseInt]
    returned, [None] being [NaN]. *)
Record PokemonConfig := mkPokemonConfig {
  cfg_name : string;
  cfg_level : option Z;
  cfg_moves : list string
}.

Record BattleConfig := mkBattleConfig {
  cfg_pokemon1 : PokemonConfig;
  cfg_pokemon2 : PokemonConfig
}.

(** *** Elements *)

(** An element made by [document.createElement] and filled in before it is
    appended. *)
Record Node := mkNode {
  tagName : string;
  node_className : string;
  node_textContent : string
}.

(** The children of an element, in document order: markup assigned through
    [innerHTML], text assigned through [textContent], nodes appended by
    [appendChild]. *)
Inductive Item :=
  | Markup (html : string)
  | Text (text : string)
  | Child (n : Node).

(** A number that may have left the finite range (a quotient by zero). *)
Inductive number :=
  | Finite (q : Q)
  | NaN
  | PosInfinity
  | NegInfinity.

(** An element of the page that has an id, with the properties the script
    writes.  [width] is [style.width], which the script only ever sets to a
    number followed by a percent sign. *)
Record Element := mkElement {
  value : string;
  className : string;
  classList : list string;
  disabled : bool;
  display : string;
  width : option number;
  src : string;
  content : list Item
}.

Definition withClassName (v : string) (e : Element) : Element :=
  mkElement (value e) v (classList e) (disabled e) (display e) (width e) (src e) (content e).
Definition withClassList (v : list string) (e : Element) : Element :=
  mkElement (value e) (className e) v (disabled e) (display e) (width e) (src e) (content e).
Definition withDisabled (v : bool) (e : Element) : Element :=
  mkElement (value e) (className e) (classList e) v (display e) (width e) (src e) (content e).
Definition withDisplay (v : string) (e : Element) : Element :=
  mkElement (value e) (className e) (classList e) (disabled e) v (width e) (src e) (content e).
Definition withWidth (v : option number) (e : Element) : Element :=
  mkElement (value e) (className e) (classList e) (disabled e) (display e) v (src e) (content e).
Definition withSrc (v : string) (e : Element) : Element :=
  mkElement (value e) (className e) (classList e) (disabled e) (display e) (width e) v (content e).
Definition withContent (v : list Item) (e : Element) : Element :=
  mkElement (value e) (className e) (classList e) (disabled e) (display e) (width e) (src e) v.

(** [e.innerHTML = html], [e.textContent = text], [e.appendChild(n)]. *)
Definition withInnerHTML (html : string) (e : Element) : Element :=
  withContent (if decide (html = "") then [] else [Markup html]) e.
Definition withTextContent (text : string) (e : Element) : Element :=
  withContent (if decide (text = "") then [] else [Text text]) e.
Definition appendChild (n : Node) (e : Element) : Element :=
  withContent (content e ++ [Child n]) e.

Global Arguments withInnerHTML : simpl never.
Global Arguments withTextContent : simpl never.

(** [e.classList.add(c)], [e.classList.remove(c)]. *)
Definition classListAdd (c : string) (e : Element) : Element :=
  withClassList (if bool_decide (c ∈ classList e) then classList e else classList e ++ [c]) e.
Definition classListRemove (c : string) (e : Element) : Element :=
  withClassList (filter (λ x, x ≠ c) (classList e)) e.

(** *** The global state *)

(** The global [battleState] object (the fields the functions below read or
    write). *)
Record BattleState := mkBattleState {
  pokemon1 : option PokemonData;
  pokemon2 : option PokemonData;
  battleInProgress : bool;
  currentBattle : option BattleResult
}.

(** A callback handed to [setTimeout]. *)
Inductive Callback :=
  | RemoveClass (id : string) (c : string)
  | ClearBodyFilter.

(** A request the script has sent. *)
Inductive Request :=
  | Post (url : string) (body : BattleConfig).

(** Everything the script can read or change: the elements of the page by
    id, the global [battleState], [document.body.style.filter], the clock
    (in ms) with the pending timers (due time and callback, in the order
    they were set), and the requests sent so far. *)
Record World := mkWorld {
  document : gmap string Element;
  battleState : BattleState;
  bodyFilter : string;
  now : nat;
  timers : list (nat * Callback);
  requests : list Request
}.

Definition withDocument (d : gmap string Element) (w : World) : World :=
  mkWorld d (battleState w) (bodyFilter w) (now w) (timers w) (requests w).
Definition withBattleState (b : BattleState) (w : World) : World :=
  mkWorld (document w) b (bodyFilter w) (now w) (timers w) (requests w).
Definition withBodyFilter (f : string) (w : World) : World :=
  mkWorld (document w) (battleState w) f (now w) (timers w) (requests w).
Definition withTimers (t : nat) (ts : list (nat * Callback)) (w : World) : World :=
  mkWorld (document w) (battleState w) (bodyFilter w) t ts (requests w).
Definition withRequests (rs : list Request) (w : World) : World :=
  mkWorld (document w) (battleState w) (bodyFilter w) (now w) (timers w) rs.

(** *** The effect monad: state and exceptions *)

(** A call either returns a value or throws; in both cases the changes it
    made up to that point stay.  An exception is carried as its [message]. *)
Inductive Outcome (A : Type) : Type :=
  | Returned (a : A) (w : World)
  | Thrown (message : string) (w : World).
Arguments Returned {A} a w.
Arguments Thrown {A} message w.

Definition JS (A : Type) : Type := World → Outcome A.

Definition ret {A} (a : A) : JS A := λ w, Returned a w.
Definition bind {A B} (m : JS A) (k : A → JS B) : JS B :=
  λ w, match m w with
       | Returned a w' => k a w'
       | Thrown msg w' => Thrown msg w'
       end.
Definition throw {A} (message : string) : JS A := λ w, Thrown message w.

Declare Scope js_scope.
Delimit Scope js_scope with js.
Bind Scope js_scope with JS.
Notation "'let*' x ':=' m 'in' k" := (bind m (λ x, k))
  (at level 10, x name, m at level 100, k at level 200, only parsing) : js_scope.
Notation "m '>>' k" := (bind m (λ _, k))
  (at level 100, k at level 200, right associativity, only parsing) : js_scope.
Local Open Scope js_scope.

(** [try { body } catch (error) { handler(error.message) }]. *)
Definition tryCatch {A} (body : JS A) (handler : string → JS A) : JS A :=
  λ w, match body w with
       | Returned a w' => Returned a w'
       | Thrown msg w' => handler msg w'
       end.

(** [for (const x of xs) { body(x) }] and [xs.forEach(body)]. *)
Fixpoint forEach {A} (xs : list A) (body : A → JS unit) : JS unit :=
  match xs with
  | [] => ret tt
  | x :: rest => body x >> forEach rest body
  end.

(** [xs.forEach((x, index) => body(x, index))], [index] counting from
    [from]. *)
Fixpoint forEachIndexed {A} (from : Z) (xs : list A) (body : A → Z → JS unit) : JS unit :=
  match xs with
  | [] => ret tt
  | x :: rest => body x from >> forEachIndexed (from + 1) rest body
  end.

(** The message of the [TypeError] a property access on [null] raises; the
    wording is the engine's. *)
Definition nullAccess (what : string) : string :=
  "Cannot read properties of null (" +:+ what +:+ ")".

(** [document.getElementById(id).prop = v], as one update [f] of the
    element; throws when the page has no such element. *)
Definition assign (id : string) (f : Element → Element) : JS unit :=
  λ w, match document w !! id with
       | Some e => Returned tt (withDocument (<[id := f e]> (document w)) w)
       | None => Thrown (nullAccess id) w
       end.

(** [document.getElementById(id).prop], read. *)
Definition read {A} (id : string) (prop : Element → A) : JS A :=
  λ w, match document w !! id with
       | Some e => Returned (prop e) w
       | None => Thrown (nullAccess id) w
       end.

Definition getBattleState : JS BattleState := λ w, Returned (battleState w) w.
Definition setBattleInProgress (b : bool) : JS unit :=
  λ w, let s := battleState w in
       Returned tt (withBattleState
         (mkBattleState (pokemon1 s) (pokemon2 s) b (currentBattle s)) w).
Definition setCurrentBattle (c : option BattleResult) : JS unit :=
  λ w, let s := battleState w in
       Returned tt (withBattleState
         (mkBattleState (pokemon1 s) (pokemon2 s) (battleInProgress s) c) w).

(** [battleState.pokemon1.name] and the like: a property of a loaded
    Pokemon, a [TypeError] while none is loaded. *)
Definition ofLoaded {A} (slot : BattleState → option PokemonData) (what : string)
    (prop : PokemonData → A) : JS A :=
  λ w, match slot (battleState w) with
       | Some p => Returned (prop p) w
       | None => Thrown (nullAccess what) w
       end.

(** *** Timers *)

Definition setTimeout (callback : Callback) (delay : nat) : JS unit :=
  λ w, Returned tt (withTimers (now w) (timers w ++ [((now w + delay)%nat, callback)]) w).

Definition runCallback (c : Callback) (w : World) : World :=
  match c with
  | RemoveClass id cls => withDocument (alter (classListRemove cls) id (document w)) w
  | ClearBodyFilter => withBodyFilter "" w
  end.

(** Timers fire by due time, and in the order they were set when due at
    the same time. *)
Fixpoint insertByDue (t : nat * Callback) (ts : list (nat * Callback)) : list (nat * Callback) :=
  match ts with
  | [] => [t]
  | u :: rest => if (t.1 <? u.1)%nat then t :: ts else u :: insertByDue t rest
  end.
Definition sortByDue (ts : list (nat * Callback)) : list (nat * Callback) :=
  foldl (λ acc t, insertByDue t acc) [] ts.

(** [await sleep(ms)]: the clock advances by [ms]; the timers due by then
    have fired. *)
Definition sleep (ms : nat) : JS unit :=
  λ w, let target := (now w + ms)%nat in
       let due := filter (λ t, (t.1 ≤ target)%nat) (timers w) in
       let later := filter (λ t, ¬ (t.1 ≤ target)%nat) (timers w) in
       let w' := foldl (λ acc t, runCallback t.2 acc) w (sortByDue due) in
       Returned tt (withTimers target later w').

(** The state a call leaves behind, whether it returned or threw. *)
Definition worldOf {A} (o : Outcome A) : World :=
  match o with
  | Returned _ w => w
  | Thrown _ w => w
  end.

(** *** [async] functions

    The body of an [async] function whose waits are waits for a timer, cut
    at these waits: what it runs, and how long it then sleeps.  (An
    [await] of a function that sets no timer of its own, as
    [await animateEvent(event)], is no wait: the function goes on before
    any timer or handler gets to run.) *)
Inductive Step :=
  | Run (m : JS unit)
  | Sleep (ms : nat).

(** The call awaited: every step in turn, to the end or to the first
    throw. *)
Fixpoint awaited (steps : list Step) : JS unit :=
  match steps with
  | [] => ret tt
  | Run m :: rest => m >> awaited rest
  | Sleep ms :: rest => sleep ms >> awaited rest
  end.

(** The steps up to the first wait. *)
Fixpoint untilSleep (steps : list Step) : JS unit :=
  match steps with
  | [] => ret tt
  | Run m :: rest => m >> untilSleep rest
  | Sleep _ :: _ => ret tt
  end.

(** The steps from the first wait on. *)
Fixpoint pending (steps : list Step) : list Step :=
  match steps with
  | [] => []
  | Run _ :: rest => pending rest
  | Sleep _ :: _ => steps
  end.

(** The call not awaited: the caller gets the promise, and control, back
    at the first wait, or when the steps have ended or thrown before one;
    a throw rejects the promise, which nobody handles, and the caller goes
    on.  The steps [pending] then are not run here and are no part of the
    state: they run after the caller has returned, when the timers fire,
    provided no step has thrown. *)
Definition unawaited (steps : list Step) : JS unit :=
  λ w, Returned tt (worldOf (untilSleep steps w)).

(** [returns m w Q]: from [w] the call [m] returns, with a value and a
    state that satisfy [Q]. *)
Definition returns {A} (m : JS A) (w : World) (Q : A → World → Prop) : Prop :=
  match m w with
  | Returned a w' => Q a w'
  | Thrown _ _ => False
  end.

(** [changesOnly ids w w']: [w'] differs from [w] at most in the elements
    named in [ids]. *)
Definition changesOnly (ids : list string) (w w' : World) : Prop :=
  battleState w' = battleState w ∧ bodyFilter w' = bodyFilter w ∧
  now w' = now w ∧ timers w' = timers w ∧ requests w' = requests w ∧
  ∀ id, id ∉ ids → document w' !! id = document w !! id.

(** What the page shows inside the element [id]. *)
Definition contentOf (w : World) (id : string) : option (list Item) :=
  content <$> document w !! id.

End Page.

(** ** The functions of [web/battle.js] *)

Module Battle.

Import Page.
Local Open Scope string_scope.
Local Open Scope js_scope.

(** [const typeColors = {...}]: the keys with their colours, in source
    order. *)
Definition typeColors : list (string * string) :=
  [ ("normal", "#a8a878"); ("fire", "#f08030"); ("water", "#6890f0");
    ("electric", "#f8d030"); ("grass", "#78c850"); ("ice", "#98d8d8");
    ("fighting", "#c03028"); ("poison", "#a040a0"); ("ground", "#e0c068");
    ("flying", "#a890f0"); ("psychic", "#f85888"); ("bug", "#a8b820");
    ("rock", "#b8a038"); ("ghost", "#705898"); ("dragon", "#7038f8");
    ("dark", "#705848"); ("steel", "#b8b8d0"); ("fairy", "#ee99ac") ].

(** The object as a map, which is how a lookup [typeColors[t]] sees it. *)
Definition typeColorsMap : gmap string string := list_to_map typeColors.

(** *** Utility functions *)

Definition showLoading (message : string) : JS unit :=
  assign "loadingText" (withTextContent message) >>
  assign "loadingOverlay" (withDisplay "flex").

Definition hideLoading : JS unit :=
  assign "loadingOverlay" (withDisplay "none").

Definition showError (message : string) : JS unit :=
  assign "errorText" (withTextContent message) >>
  assign "errorMessage" (withDisplay "flex").

(** *** Requests *)

(** [await fetch(url, {method: 'POST', body: JSON.stringify(config)})] and
    [await response.json()]: the request goes out, and the reply is what
    the network and the server make of it. *)
Definition fetchJson {A} (url : string) (config : BattleConfig) (reply : FetchReply A)
    : JS A :=
  (λ w, Returned tt (withRequests (requests w ++ [Post url config]) w)) >>
  match reply with
  | Rejected message => throw message
  | Json response => ret response
  end.

(** *** Validation *)

Definition showValidationResults (result : ValidationResult) : JS unit :=
  assign "validationResults" (withDisplay "block") >>
  assign "validationResults"
    (withClassName ("validation-results " +:+ (if valid result then "success" else "error"))) >>
  assign "validationList" (withInnerHTML "") >>
  if valid result then
    assign "validationList"
      (appendChild (mkNode "li" "success" "âœ“ Battle configuration is valid!")) >>
    assign "battleBtn" (withDisabled false)
  else
    forEach (errors result) (λ error,
      assign "validationList"
        (appendChild (mkNode "li" "error" ("âœ— " +:+ error)))) >>
    assign "battleBtn" (withDisabled true).

(** *** Battle configuration *)

(** The local arrow function [getMoves] of [getBattleConfig]: the loop
    [for (let i = 1; i <= 4; i++)] pushes one select value per round. *)
Definition getMoves (pokemonNumber : Z) : JS (list string) :=
  foldl (λ (acc : JS (list string)) (i : Z),
          let* moves := acc in
          let* v := read ("pokemon" +:+ Js.numberToString pokemonNumber
                          +:+ "Move" +:+ Js.numberToString i) value in
          ret (moves ++ [v])%list)
        (ret []) (seqZ 1 4).

Definition getBattleConfig : JS BattleConfig :=
  let* name1 := ofLoaded pokemon1 "reading 'name'" pd_name in
  let* level1 := read "pokemon1Level" value in
  let* moves1 := getMoves 1 in
  let* name2 := ofLoaded pokemon2 "reading 'name'" pd_name in
  let* level2 := read "pokemon2Level" value in
  let* moves2 := getMoves 2 in
  ret (mkBattleConfig
         (mkPokemonConfig name1 (Js.parseInt level1) moves1)
         (mkPokemonConfig name2 (Js.parseInt level2) moves2)).

(** [validateBattle], for the [reply] its request will get. *)
Definition validateBattle (reply : FetchReply ValidationResult) : JS unit :=
  let* state := getBattleState in
  match pokemon1 state, pokemon2 state with
  | Some _, Some _ =>
      let* config := getBattleConfig in
      showLoading "Validating battle configuration..." >>
      tryCatch
        (let* result := fetchJson "/api/battle/validate" config reply in
         hideLoading >>
         showValidationResults result)
        (λ message,
           hideLoading >>
           showError ("Validation failed: " +:+ message))
  | _, _ => showError "Please load both PokÃ©mon first"
  end.

(** *** The arena *)

Definition numLe (x : number) (bound : Q) : bool :=
  match x with
  | Finite q => Qle_bool q bound
  | NegInfinity => true
  | NaN | PosInfinity => false
  end.

Definition updateHealthBar (pokemonNumber : Z) (percentage : number) : JS unit :=
  let healthBar := "healthBar" +:+ Js.numberToString pokemonNumber in
  assign healthBar (withWidth (Some percentage)) >>
  if numLe percentage 25 then assign healthBar (withClassName "health-fill low")
  else if numLe percentage 50 then assign healthBar (withClassName "health-fill medium")
  else assign healthBar (withClassName "health-fill").

Definition updateStatusEffects (pokemonNumber : Z) (status : option Status) : JS unit :=
  let statusDiv := "statusEffects" +:+ Js.numberToString pokemonNumber in
  assign statusDiv (withInnerHTML "") >>
  match status with
  | Some st =>
      if bool_decide (condition st ≠ "none")
      then assign statusDiv
             (appendChild (mkNode "span" "status-badge" (Js.toUpperCase (condition st))))
      else ret tt
  | None => ret tt
  end.

(** [(state.hp.current / state.hp.max) * 100]. *)
Definition healthPercentage (hp : Hp) : number :=
  if decide (hp_max hp = 0) then
    (if decide (hp_current hp = 0) then NaN
     else if decide (0 < hp_current hp) then PosInfinity else NegInfinity)
  else Finite ((inject_Z (hp_current hp) / inject_Z (hp_max hp)) * 100)%Q.

(** One round of the loop of [updatePokemonStates]: the health bar, the
    health text and the status display of the side [pokemonNumber]. *)
Definition updatePokemonState (state : PokemonState) (pokemonNumber : Z) : JS unit :=
  updateHealthBar pokemonNumber (healthPercentage (ps_hp state)) >>
  assign ("healthText" +:+ Js.numberToString pokemonNumber)
    (withTextContent (Js.numberToString (hp_current (ps_hp state)) +:+ "/"
                      +:+ Js.numberToString (hp_max (ps_hp state)) +:+ " HP")) >>
  updateStatusEffects pokemonNumber (ps_status state).

(** [Object.keys(states).forEach((pokemonName, index) => ...)]: the side
    is the place of the key, the state is looked up under the key. *)
Definition updatePokemonStates (states : list (string * PokemonState)) : JS unit :=
  forEachIndexed 0 (Js.objectKeys states) (λ pokemonName index,
    let pokemonNumber := index + 1 in
    match Js.objectGet states pokemonName with
    | Some state => updatePokemonState state pokemonNumber
    | None => throw (nullAccess "reading 'hp'")
    end).

Definition initializeBattleArena (config : BattleConfig) : JS unit :=
  let* sprite1 := ofLoaded pokemon1 "reading 'sprites'" pd_front_default in
  assign "battleSprite1" (withSrc (default "null" sprite1)) >>
  let* sprite2 := ofLoaded pokemon2 "reading 'sprites'" pd_front_default in
  assign "battleSprite2" (withSrc (default "null" sprite2)) >>
  assign "battleName1" (withTextContent (cfg_name (cfg_pokemon1 config))) >>
  assign "battleName2" (withTextContent (cfg_name (cfg_pokemon2 config))) >>
  updateHealthBar 1 (Finite 100) >>
  updateHealthBar 2 (Finite 100) >>
  assign "battleLog" (withInnerHTML "") >>
  assign "currentTurn" (withTextContent "1").

(** [animateEvent]: which sprite is animated is decided by comparing the
    event's Pokemon with [battleState.pokemon1.name]. *)
Definition spriteOf (who : option string) : JS string :=
  let* name1 := ofLoaded pokemon1 "reading 'name'" pd_name in
  ret (if decide (who = Some name1) then "battleSprite1" else "battleSprite2").

Definition animateEvent (event : BattleEvent) : JS unit :=
  if decide (ev_type event = "move_use") then
    let* attackerSprite := spriteOf (ev_pokemon event) in
    assign attackerSprite (classListAdd "attack-animation") >>
    setTimeout (RemoveClass attackerSprite "attack-animation") 500
  else if decide (ev_type event = "damage") then
    let* defenderSprite := spriteOf (ev_defender event) in
    assign defenderSprite (classListAdd "damage-animation") >>
    setTimeout (RemoveClass defenderSprite "damage-animation") 500
  else if decide (ev_type event = "critical") then
    (λ w, Returned tt (withBodyFilter "brightness(1.5)" w)) >>
    setTimeout ClearBodyFilter 200
  else if decide (ev_type event = "faint") then
    let* faintedSprite := spriteOf (ev_pokemon event) in
    assign faintedSprite (classListAdd "faint-animation")
  else ret tt.

Definition getLogClass (event : BattleEvent) : string :=
  if decide (ev_type event = "move_use") then "log-move"
  else if decide (ev_type event = "damage") then "log-damage"
  else if decide (ev_type event = "effectiveness") then
    (if Js.includes (ev_message event) "super effective"
     then "log-effectiveness super-effective"
     else if Js.includes (ev_message event) "not very effective"
     then "log-effectiveness not-very-effective"
     else "log-effectiveness")
  else if decide (ev_type event = "critical") then "log-critical"
  else if decide (ev_type event = "faint") then "log-faint"
  else "".

(** *** Results *)

Definition showBattleResults (battleResult : BattleResult) : JS unit :=
  assign "battleArena" (withDisplay "none") >>
  assign "resultsScreen" (withDisplay "block") >>
  (if bool_decide (winner battleResult ≠ "Draw")
   then assign "winnerAnnouncement"
          (withTextContent ("ðŸŽ‰ " +:+ winner battleResult +:+ " wins! ðŸŽ‰"))
   else assign "winnerAnnouncement" (withTextContent "ðŸ¤ It's a draw! ðŸ¤")) >>
  assign "summaryStats" (withInnerHTML ("
        <p><strong>Duration:</strong> "
    +:+ Js.numberToString (total_turns battleResult)
    +:+ " turns</p>
        <p><strong>Winner:</strong> "
    +:+ winner battleResult
    +:+ "</p>
        <p><strong>Final HP:</strong></p>
        <ul>
            <li>"
    +:+ pt_name (participants_pokemon1 battleResult)
    +:+ ": "
    +:+ Js.numberToString (hp_current (final_hp (participants_pokemon1 battleResult)))
    +:+ "/"
    +:+ Js.numberToString (hp_max (final_hp (participants_pokemon1 battleResult)))
    +:+ "</li>
            <li>"
    +:+ pt_name (participants_pokemon2 battleResult)
    +:+ ": "
    +:+ Js.numberToString (hp_current (final_hp (participants_pokemon2 battleResult)))
    +:+ "/"
    +:+ Js.numberToString (hp_max (final_hp (participants_pokemon2 battleResult)))
    +:+ "</li>
        </ul>
    ")) >>
  setBattleInProgress false.

Definition backToSetup : JS unit :=
  assign "battleArena" (withDisplay "none") >>
  assign "resultsScreen" (withDisplay "none") >>
  assign "battleSetup" (withDisplay "block") >>
  setBattleInProgress false >>
  setCurrentBattle None.

(** *** The battle *)

(** The two elements [animateBattle] appends to the battle log. *)
Definition turnHeader (t : TurnRecord) : Node :=
  mkNode "div" "log-entry log-turn" ("Turn " +:+ Js.numberToString (turn t) +:+ ":").
Definition logEntry (event : BattleEvent) : Node :=
  mkNode "div" ("log-entry " +:+ getLogClass event) (ev_message event).

(** The body of the inner loop of [animateBattle], for one event.  The
    assignment to [battleLog.scrollTop] only moves the view and is left
    out. *)
Definition animateLoggedEvent (event : BattleEvent) : JS unit :=
  animateEvent event >>
  assign "battleLog" (appendChild (logEntry event)) >>
  sleep 800.

(** The body of the outer loop of [animateBattle], for one turn. *)
Definition animateTurn (t : TurnRecord) : JS unit :=
  assign "currentTurn" (withTextContent (Js.numberToString (turn t))) >>
  assign "battleLog" (appendChild (turnHeader t)) >>
  forEach (events t) animateLoggedEvent >>
  match pokemon_states t with
  | Some states => updatePokemonStates states
  | None => ret tt
  end >>
  sleep 1000.

Definition animateBattle (battleResult : BattleResult) : JS unit :=
  forEach (battle_log battleResult) animateTurn >>
  showBattleResults battleResult.

(** [animateBattle] cut at its waits: per event the animation and the log
    entry, then 800 ms; per turn the header before the first event and
    the snapshot after the last, then 1000 ms; the results at the end. *)
Definition animateLoggedEventSteps (event : BattleEvent) : list Step :=
  [ Run (animateEvent event >> assign "battleLog" (appendChild (logEntry event)));
    Sleep 800 ].
Definition animateTurnSteps (t : TurnRecord) : list Step :=
  Run (assign "currentTurn" (withTextContent (Js.numberToString (turn t))) >>
       assign "battleLog" (appendChild (turnHeader t)))
  :: concat (animateLoggedEventSteps <$> events t)
  ++ [ Run (match pokemon_states t with
            | Some states => updatePokemonStates states
            | None => ret tt
            end);
       Sleep 1000 ].
Definition animateBattleSteps (battleResult : BattleResult) : list Step :=
  concat (animateTurnSteps <$> battle_log battleResult)
  ++ [ Run (showBattleResults battleResult) ].

(** What a turn, and what a whole battle log, is to leave in the battle
    log element: per turn record one turn header, then one entry per event
    of the turn, in the order of the records and of their events. *)
Definition turnEntries (t : TurnRecord) : list Item :=
  Child (turnHeader t) :: ((Child ∘ logEntry) <$> events t).
Definition battleLogEntries (battleResult : BattleResult) : list Item :=
  concat (turnEntries <$> battle_log battleResult).

(** The elements [animateBattle] and the functions it calls look up. *)
Definition arenaIds : list string :=
  [ "battleLog"; "currentTurn"; "battleSprite1"; "battleSprite2";
    "healthBar1"; "healthBar2"; "healthText1"; "healthText2";
    "statusEffects1"; "statusEffects2";
    "battleArena"; "resultsScreen"; "winnerAnnouncement"; "summaryStats" ].

(** The page has the arena's elements and the first Pokemon is loaded. *)
Definition arenaReady (w : World) : Prop :=
  is_Some (pokemon1 (battleState w)) ∧
  ∀ id, id ∈ arenaIds → is_Some (document w !! id).

(** The arena is ready, the battle log element holds [L], and the
    requests sent so far are [rs]. *)
Definition logIs (rs : list Request) (L : list Item) (w : World) : Prop :=
  arenaReady w ∧ contentOf w "battleLog" = Some L ∧ requests w = rs.

(** Each turn's snapshot covers the two combatants at most. *)
Definition twoSided (battleResult : BattleResult) : Prop :=
  Forall (λ t, ∀ states, pokemon_states t = Some states → (length states ≤ 2)%nat)
         (battle_log battleResult).

(** [result.error || 'Battle simulation failed']. *)
Definition errorOr (error : option string) (fallback : string) : string :=
  match error with
  | Some e => if decide (e = "") then fallback else e
  | None => fallback
  end.

(** [startBattle], for the [reply] its request will get.  The call
    [animateBattle(result)] is not awaited, and it is the last thing the
    [try] block does. *)
Definition startBattle (reply : FetchReply SimulateResponse) : JS unit :=
  let* state := getBattleState in
  if battleInProgress state then
    showError "Battle already in progress"
  else
    let* config := getBattleConfig in
    showLoading "Starting battle..." >>
    setBattleInProgress true >>
    tryCatch
      (assign "battleSetup" (withDisplay "none") >>
       assign "battleArena" (withDisplay "block") >>
       initializeBattleArena config >>
       let* result := fetchJson "/api/battle/simulate" config reply in
       hideLoading >>
       match result with
       | Success battleResult =>
           setCurrentBattle (Some battleResult) >>
           unawaited (animateBattleSteps battleResult)
       | Failure error => throw (errorOr error "Battle simulation failed")
       end)
      (λ message,
         hideLoading >>
         setBattleInProgress false >>
         showError ("Battle failed: " +:+ message) >>
         backToSetup).

End Battle.

(** ** A concrete page *)

Module Examples.

Import Page Battle.
Local Open Scope string_scope.

Definition blank : Element := mkElement "" "" [] false "" None "" [].

(** The ids [battle.js] looks up in the functions embedded here. *)
Definition pageIds : list string :=
  [ "loadingText"; "loadingOverlay"; "errorText"; "errorMessage";
    "validationResults"; "validationList"; "battleBtn";
    "pokemon1Level"; "pokemon2Level";
    "pokemon1Move1"; "pokemon1Move2"; "pokemon1Move3"; "pokemon1Move4";
    "pokemon2Move1"; "pokemon2Move2"; "pokemon2Move3"; "pokemon2Move4";
    "battleSetup"; "battleArena"; "resultsScreen";
    "battleSprite1"; "battleSprite2"; "battleName1"; "battleName2";
    "healthBar1"; "healthBar2"; "healthText1"; "healthText2";
    "statusEffects1"; "statusEffects2"; "battleLog"; "currentTurn";
    "winnerAnnouncement"; "summaryStats" ].

Definition withValue (v : string) (e : Element) : Element :=
  mkElement v (className e) (classList e) (disabled e) (display e) (width e) (src e) (content e).

(** The page as it is served: every element blank, the sliders at 50, the
    battle button disabled, nothing loaded. *)
Definition freshDocument : gmap string Element :=
  <["battleBtn" := withDisabled true blank]>
  (<["pokemon1Level" := withValue "50" blank]>
  (<["pokemon2Level" := withValue "50" blank]>
  (list_to_map ((λ id, (id, blank)) <$> pageIds)))).

Definition freshPage : World :=
  mkWorld freshDocument (mkBattleState None None false None) "" 0 [] [].

Definition pikachu : PokemonData :=
  mkPokemonData "pikachu" (Some "/sprites/25.png")
    (Stats.mkBaseStats 35 55 40 50 50 90) ["electric"].
Definition charizard : PokemonData :=
  mkPokemonData "charizard" None
    (Stats.mkBaseStats 78 84 78 109 85 100) ["fire"; "flying"].

(** Both Pokemon loaded, four moves chosen on each side, levels 50 and 36. *)
Definition readyDocument : gmap string Element :=
  <["pokemon2Level" := withValue "36" blank]>
  (<["pokemon1Move1" := withValue "thunderbolt" blank]>
  (<["pokemon1Move2" := withValue "quick-attack" blank]>
  (<["pokemon1Move3" := withValue "iron-tail" blank]>
  (<["pokemon1Move4" := withValue "thunder" blank]>
  (<["pokemon2Move1" := withValue "flamethrower" blank]>
  (<["pokemon2Move2" := withValue "dragon-pulse" blank]>
  (<["pokemon2Move3" := withValue "air-slash" blank]>
  (<["pokemon2Move4" := withValue "solar-beam" blank]> freshDocument)))))))).

Definition readyPage : World :=
  mkWorld readyDocument (mkBattleState (Some pikachu) (Some charizard) false None) "" 0 [] [].

(** The same page while a battle runs. *)
Definition busyPage : World :=
  mkWorld readyDocument (mkBattleState (Some pikachu) (Some charizard) true None) "" 0 [] [].

Definition sampleEvents : list BattleEvent :=
  [ mkBattleEvent "move_use" "pikachu used thunderbolt!" (Some "pikachu") None;
    mkBattleEvent "effectiveness" "It's super effective!" None None;
    mkBattleEvent "critical" "A critical hit!" None None;
    mkBattleEvent "damage" "charizard took 153 damage!" None (Some "charizard");
    mkBattleEvent "faint" "charizard fainted!" (Some "charizard") None ].

Definition sampleResult : BattleResult :=
  mkBattleResult "pikachu" 2
    [ mkTurnRecord 1
        [ mkBattleEvent "move_use" "charizard used air-slash!" (Some "charizard") None;
          mkBattleEvent "miss" "The attack missed!" None None ]
        (Some [ ("pikachu", mkPokemonState (mkHp 95 95) (Some (mkStatus "none")));
                ("charizard", mkPokemonState (mkHp 153 153) (Some (mkStatus "burn"))) ]);
      mkTurnRecord 2 sampleEvents
        (Some [ ("pikachu", mkPokemonState (mkHp 95 95) None);
                ("charizard", mkPokemonState (mkHp 0 153) (Some (mkStatus "burn"))) ]) ]
    (mkParticipant "pikachu" (mkHp 95 95))
    (mkParticipant "charizard" (mkHp 0 153)).

Definition sampleInvalid : ValidationResult :=
  mkValidationResult false ["surf is not learnable by pikachu"; "level must be 1-100"].

End Examples.

(** ** The rest of the set-up screen *)

Module Setup.

Import Page Battle.
Local Open Scope string_scope.
Local Open Scope js_scope.

Definition hideError : JS unit :=
  assign "errorMessage" (withDisplay "none").

(** The inner loop of [checkBattleReady], [for (let m = 1; m <= 4; m++)]
    over the selects of side [p]: it stops at the first select whose value
    is empty and reads no further one.  The result is [allMovesSelected]. *)
Fixpoint movesSelected (p : Z) (slots : list Z) : JS bool :=
  match slots with
  | [] => ret true
  | m :: rest =>
      let* v := read ("pokemon" +:+ Js.numberToString p
                      +:+ "Move" +:+ Js.numberToString m) value in
      if decide (v = "") then ret false else movesSelected p rest
  end.

(** The outer loop, [for (let p = 1; p <= 2; p++)], left by [break] as soon
    as [allMovesSelected] is false. *)
Fixpoint sidesSelected (sides : list Z) : JS bool :=
  match sides with
  | [] => ret true
  | p :: rest =>
      let* all := movesSelected p (seqZ 1 4) in
      if all then sidesSelected rest else ret false
  end.

Definition checkBattleReady : JS unit :=
  let* state := getBattleState in
  match pokemon1 state, pokemon2 state with
  | Some _, Some _ =>
      let* allMovesSelected := sidesSelected (seqZ 1 2) in
      assign "battleBtn" (withDisabled (negb allMovesSelected))
  | _, _ => assign "battleBtn" (withDisabled true)
  end.

(** *** Ways of speaking about a call *)

(** Every element named in [ids] is on the page. *)
Definition present (ids : list string) (w : World) : Prop :=
  ∀ id, id ∈ ids → is_Some (document w !! id).

(** [m] relates the state before to the state after by [R], whether it
    returns or throws. *)
Definition frames {A} (R : World → World → Prop) (m : JS A) : Prop :=
  ∀ w, R w (worldOf (m w)).

(** The page keeps its elements (none added, none removed), and
    [battleState] and the requests sent are as before. *)
Definition quiet (w w' : World) : Prop :=
  dom (document w') = dom (document w) ∧
  battleState w' = battleState w ∧
  requests w' = requests w.

(** Both Pokemon are loaded. *)
Definition loaded (w : World) : Prop :=
  is_Some (pokemon1 (battleState w)) ∧ is_Some (pokemon2 (battleState w)).

(** On a page that has the elements [ids], with both Pokemon loaded, [m]
    returns and is [quiet]. *)
Definition runs {A} (ids : list string) (m : JS A) : Prop :=
  ∀ w, present ids w → loaded w → returns m w (λ _ w', quiet w w').

(** [m] relates the state before to the state after by [Rret] when it
    returns and by [Rthrow] when it throws. *)
Definition outcomes {A} (Rret Rthrow : World → World → Prop) (m : JS A) : Prop :=
  ∀ w, match m w with
       | Returned _ w' => Rret w w'
       | Thrown _ w' => Rthrow w w'
       end.

(** As [quiet], but [battleInProgress] has been cleared. *)
Definition finished (w w' : World) : Prop :=
  dom (document w') = dom (document w) ∧
  battleState w'
  = mkBattleState (pokemon1 (battleState w)) (pokemon2 (battleState w)) false
      (currentBattle (battleState w)) ∧
  requests w' = requests w.

(** Every pending timer is due within [ms] from now. *)
Definition dueWithin (ms : nat) (w : World) : Prop :=
  Forall (λ t, (t.1 ≤ now w + ms)%nat) (timers w).

(** Clock and pending timers are as before. *)
Definition sameClock (w w' : World) : Prop :=
  now w' = now w ∧ timers w' = timers w.

(** The time [animateBattle] sleeps for a turn record: 800 ms per event and
    1000 ms at the end of the turn. *)
Definition turnDuration (t : TurnRecord) : nat :=
  (800 * length (events t) + 1000)%nat.

(** The text [updatePokemonStates] writes under a health bar. *)
Definition healthText (state : PokemonState) : string :=
  Js.numberToString (hp_current (ps_hp state)) +:+ "/"
  +:+ Js.numberToString (hp_max (ps_hp state)) +:+ " HP".

(** The elements that display the two sides' health and status. *)
Definition sideIds : list string :=
  [ "healthBar1"; "healthText1"; "statusEffects1";
    "healthBar2"; "healthText2"; "statusEffects2" ].

(** A turn record whose snapshot has more than two keys. *)
Definition crowded (t : TurnRecord) : Prop :=
  ∃ states, pokemon_states t = Some states ∧ (3 ≤ length (Js.objectKeys states))%nat.

(** What the battle log holds when the animation first waits: the header
    of the first turn and, if the turn has events, the entry of the
    first. *)
Definition firstEntries (battleResult : BattleResult) : list Item :=
  match battle_log battleResult with
  | [] => []
  | t :: _ =>
      Child (turnHeader t)
      :: match events t with
         | [] => []
         | event :: _ => [Child (logEntry event)]
         end
  end.

(** Nothing at all has changed. *)
Definition untouched (w w' : World) : Prop := w' = w.

(** The values of the eight move selects, side 1 first; [None] for a
    select the page lacks. *)
Definition moveSelectIds : list string :=
  [ "pokemon1Move1"; "pokemon1Move2"; "pokemon1Move3"; "pokemon1Move4";
    "pokemon2Move1"; "pokemon2Move2"; "pokemon2Move3"; "pokemon2Move4" ].
Definition selectedMoves (w : World) : list (option string) :=
  (λ id, value <$> document w !! id) <$> moveSelectIds.

(** The entries a validation result puts in the validation list. *)
Definition validationItems (result : ValidationResult) : list Item :=
  if valid result
  then [Child (mkNode "li" "success" "âœ“ Battle configuration is valid!")]
  else (λ error, Child (mkNode "li" "error" ("âœ— " +:+ error))) <$> errors result.

(** The badges a status puts in a status display: one, or none. *)
Definition statusItems (status : option Status) : list Item :=
  match status with
  | Some st =>
      if bool_decide (condition st ≠ "none")
      then [Child (mkNode "span" "status-badge" (Js.toUpperCase (condition st)))]
      else []
  | None => []
  end.

End Setup.

(** ** Loading Pokemon and resetting the set-up

    The functions of [web/battle.js] that fill and clear the set-up
    screen touch more of the browser than the battle does: the options of
    the move selects, the [alt] of the preview images, toasts appended to
    [document.body], the console, GET requests, and the two move lists of
    [battleState].  A [Session] is the page together with these. *)

Module Session.

Import Page Battle Examples Setup.
Local Open Scope string_scope.
Local Open Scope js_scope.

(** *** Strings *)

(** The strings of the model are byte strings.  On a string of ASCII
    characters the functions below do what the methods of [String] do; a
    string with any other byte is outside the model, and the functions
    give [None] for it. *)
Definition isAscii (s : string) : bool :=
  forallb (λ c, (nat_of_ascii c <? 128)%nat) (list_ascii_of_string s).

(** The letters [A]..[Z] mapped to [a]..[z], every other character
    kept. *)
Definition asciiLower (c : ascii) : ascii :=
  let n := nat_of_ascii c in
  if ((65 <=? n)%nat && (n <=? 90)%nat)%bool then ascii_of_nat (n + 32) else c.
Fixpoint lowered (s : string) : string :=
  match s with
  | EmptyString => EmptyString
  | String c rest => String (asciiLower c) (lowered rest)
  end.

(** The white space of ASCII (tab, line feed, vertical tab, form feed,
    carriage return, space) dropped at the end, and at both ends. *)
Fixpoint droppedEnd (s : string) : string :=
  match s with
  | EmptyString => EmptyString
  | String c rest =>
      let rest' := droppedEnd rest in
      if (Ascii.is_space c && bool_decide (rest' = EmptyString))%bool
      then EmptyString else String c rest'
  end.
Definition trimmed (s : string) : string := droppedEnd (Js.skipWhiteSpace s).

(** [String.prototype.toLowerCase] and [String.prototype.trim], on ASCII
    strings. *)
Definition toLowerCase (s : string) : option string :=
  if isAscii s then Some (lowered s) else None.
Definition trim (s : string) : option string :=
  if isAscii s then Some (trimmed s) else None.

(** The text is empty or ASCII white space only. *)
Fixpoint allSpace (s : string) : bool :=
  match s with
  | EmptyString => true
  | String c rest => Ascii.is_space c && allSpace rest
  end.

(** The double quote and the line feed, for the markup the script writes. *)
Definition quot : string := String "034"%char EmptyString.
Definition nl : string := String "010"%char EmptyString.

(** *** Server data *)

(** One entry of [movesData.moves]; [power] and [accuracy] may be null. *)
Record MoveData := mkMoveData {
  mv_name : string;
  mv_display_name : string;
  mv_type : string;
  mv_power : option Z;
  mv_accuracy : option Z;
  mv_pp : Z;
  mv_category : string;
  mv_effect : string
}.

(** What [/api/pokemon/<name>/moves] answers. *)
Record MovesData := mkMovesData { moves : list MoveData }.

(** A promise settles one way or the other. *)
Inductive Promise (A : Type) : Type :=
  | Rejects (message : string)
  | Resolves (a : A).
Arguments Rejects {A} message.
Arguments Resolves {A} a.

(** The response [fetch] resolves to: [response.ok] and what
    [response.json()] will give. *)
Record Response (A : Type) := mkResponse { ok : bool; json : Promise A }.
Arguments mkResponse {A} ok json.
Arguments ok {A} r.
Arguments json {A} r.

(** *** What the browser holds beside the page *)

(** An [<option>] as [updateMoveOptions] creates it: [value],
    [textContent] and the six entries of [dataset]. *)
Record MoveOption := mkMoveOption {
  opt_value : string;
  opt_textContent : string;
  data_type : string;
  data_power : string;
  data_accuracy : string;
  data_pp : string;
  data_category : string;
  data_effect : string
}.

(** The [<div>] that [showSuccess] creates, with its [style.cssText]. *)
Record Toast := mkToast { toast_node : Node; toast_cssText : string }.

Record Session := mkSession {
  page : World;
  pokemon1Moves : list MoveData;           (* battleState.pokemon1Moves *)
  pokemon2Moves : list MoveData;           (* battleState.pokemon2Moves *)
  alt : gmap string string;                (* the [alt] of the images, by id *)
  options : gmap string (list MoveOption); (* the options appended to a select, by id *)
  toasts : list (nat * Toast);             (* the toasts in [document.body], numbered as created *)
  created : nat;                           (* how many toasts have been created *)
  removals : list (nat * nat);             (* pending [toast.remove()]: due time, toast *)
  console : list (list string);            (* the lines logged, each with its arguments *)
  gets : list string                       (* the URLs requested with GET *)
}.

Definition withPage (w : World) (s : Session) : Session :=
  mkSession w (pokemon1Moves s) (pokemon2Moves s) (alt s) (options s)
            (toasts s) (created s) (removals s) (console s) (gets s).
Definition withPokemon1Moves (ms : list MoveData) (s : Session) : Session :=
  mkSession (page s) ms (pokemon2Moves s) (alt s) (options s)
            (toasts s) (created s) (removals s) (console s) (gets s).
Definition withPokemon2Moves (ms : list MoveData) (s : Session) : Session :=
  mkSession (page s) (pokemon1Moves s) ms (alt s) (options s)
            (toasts s) (created s) (removals s) (console s) (gets s).
Definition withAlt (a : gmap string string) (s : Session) : Session :=
  mkSession (page s) (pokemon1Moves s) (pokemon2Moves s) a (options s)
            (toasts s) (created s) (removals s) (console s) (gets s).
Definition withOptions (o : gmap string (list MoveOption)) (s : Session) : Session :=
  mkSession (page s) (pokemon1Moves s) (pokemon2Moves s) (alt s) o
            (toasts s) (created s) (removals s) (console s) (gets s).
Definition withToasts (ts : list (nat * Toast)) (n : nat) (rs : list (nat * nat))
    (s : Session) : Session :=
  mkSession (page s) (pokemon1Moves s) (pokemon2Moves s) (alt s) (options s)
            ts n rs (console s) (gets s).
Definition withConsole (c : list (list string)) (s : Session) : Session :=
  mkSession (page s) (pokemon1Moves s) (pokemon2Moves s) (alt s) (options s)
            (toasts s) (created s) (removals s) c (gets s).
Definition withGets (g : list string) (s : Session) : Session :=
  mkSession (page s) (pokemon1Moves s) (pokemon2Moves s) (alt s) (options s)
            (toasts s) (created s) (removals s) (console s) g.

(** *** The effect monad over a session *)

(** A call returns, or throws, or gets to a point where the model says
    nothing of what the script does ([Beyond]: a value is outside the
    model). *)
Inductive Result (A : Type) : Type :=
  | Done (a : A) (s : Session)
  | Failed (message : string) (s : Session)
  | Beyond (s : Session).
Arguments Done {A} a s.
Arguments Failed {A} message s.
Arguments Beyond {A} s.

Definition Script (A : Type) : Type := Session → Result A.

Definition sret {A} (a : A) : Script A := λ s, Done a s.
Definition sbind {A B} (m : Script A) (k : A → Script B) : Script B :=
  λ s, match m s with
       | Done a s' => k a s'
       | Failed msg s' => Failed msg s'
       | Beyond s' => Beyond s'
       end.
Definition sthrow {A} (message : string) : Script A := λ s, Failed message s.

(** A value the model may not have. *)
Definition known {A} (o : option A) : Script A :=
  λ s, match o with
       | Some a => Done a s
       | None => Beyond s
       end.

(** A call of one of the functions that only need the page. *)
Definition lift {A} (m : JS A) : Script A :=
  λ s, match m (page s) with
       | Returned a w => Done a (withPage w s)
       | Thrown msg w => Failed msg (withPage w s)
       end.

Declare Scope script_scope.
Delimit Scope script_scope with script.
Bind Scope script_scope with Script.
Notation "'let*' x ':=' m 'in' k" := (sbind m (λ x, k))
  (at level 10, x name, m at level 100, k at level 200, only parsing) : script_scope.
Notation "m '>>' k" := (sbind m (λ _, k))
  (at level 100, k at level 200, right associativity, only parsing) : script_scope.
Local Open Scope script_scope.

Definition stryCatch {A} (body : Script A) (handler : string → Script A) : Script A :=
  λ s, match body s with
       | Done a s' => Done a s'
       | Failed msg s' => handler msg s'
       | Beyond s' => Beyond s'
       end.

Fixpoint sforEach {A} (xs : list A) (body : A → Script unit) : Script unit :=
  match xs with
  | [] => sret tt
  | x :: rest => body x >> sforEach rest body
  end.

(** The session a call leaves behind, whether it returned or threw. *)
Definition sessionOf {A} (r : Result A) : Session :=
  match r with
  | Done _ s => s
  | Failed _ s => s
  | Beyond s => s
  end.

(** [battleState[`pokemon${pokemonNumber}`] = p]; for a number other than
    1 and 2 the property written is none the embedded functions read. *)
Definition setPokemon (pokemonNumber : Z) (p : option PokemonData) : JS unit :=
  λ w, let state := battleState w in
       Returned tt (withBattleState
         (if decide (pokemonNumber = 1)
          then mkBattleState p (pokemon2 state) (battleInProgress state) (currentBattle state)
          else if decide (pokemonNumber = 2)
          then mkBattleState (pokemon1 state) p (battleInProgress state) (currentBattle state)
          else state) w).

(** [battleState[`pokemon${pokemonNumber}`]]. *)
Definition pokemonOf (pokemonNumber : Z) (state : BattleState) : option PokemonData :=
  if decide (pokemonNumber = 1) then pokemon1 state
  else if decide (pokemonNumber = 2) then pokemon2 state
  else None.

(** [battleState[`pokemon${pokemonNumber}Moves`] = ms]. *)
Definition setMoves (pokemonNumber : Z) (ms : list MoveData) : Script unit :=
  λ s, Done tt (if decide (pokemonNumber = 1) then withPokemon1Moves ms s
                else if decide (pokemonNumber = 2) then withPokemon2Moves ms s
                else s).

(** [image.alt = v]. *)
Definition setAlt (id : string) (v : string) : Script unit :=
  λ s, match document (page s) !! id with
       | Some _ => Done tt (withAlt (<[id := v]> (alt s)) s)
       | None => Failed (nullAccess id) s
       end.

(** [select.innerHTML = '<option value=...>Select Move</option>']: the
    options of the select are replaced by the one the markup describes,
    which is thereby the selected one, so that [select.value] is its
    value, the empty string. *)
Definition placeholderOption : string :=
  "<option value=" +:+ quot +:+ quot +:+ ">Select Move</option>".
Definition clearSelect (select : string) : Script unit :=
  lift (assign select (λ e, withInnerHTML placeholderOption (withValue "" e))) >>
  λ s, Done tt (withOptions (<[select := []]> (options s)) s).

(** [select.appendChild(option)]. *)
Definition appendOption (select : string) (opt : MoveOption) : Script unit :=
  lift (assign select (appendChild (mkNode "option" "" (opt_textContent opt)))) >>
  λ s, Done tt (withOptions (<[select := (default [] (options s !! select) ++ [opt])%list]>
                               (options s)) s).

(** [console.log(...args)]. *)
Definition consoleLog (args : list string) : Script unit :=
  λ s, Done tt (withConsole (console s ++ [args])%list s).

(** [document.body.appendChild(toast)], which gives the toast its number,
    and [setTimeout(() => { toast.remove() }, delay)]. *)
Definition appendToBody (toast : Toast) : Script nat :=
  λ s, Done (created s)
            (withToasts (toasts s ++ [(created s, toast)])%list (S (created s)) (removals s) s).
Definition removeLater (toast : nat) (delay : nat) : Script unit :=
  λ s, Done tt (withToasts (toasts s) (created s)
                  (removals s ++ [((now (page s) + delay)%nat, toast)])%list s).

(** Time passes: the clock advances by [ms], the timers of the page due
    by then have fired, and so have the removals of toasts. *)
Definition elapse (ms : nat) : Script unit :=
  lift (sleep ms) >>
  λ s, let due := filter (λ r, (r.1 ≤ now (page s))%nat) (removals s) in
       let later := filter (λ r, ¬ (r.1 ≤ now (page s))%nat) (removals s) in
       Done tt (withToasts (filter (λ t, t.1 ∉ due.*2) (toasts s)) (created s) later s).

(** [await fetch(url)] and [await response.json()]. *)
Definition fetch {A} (url : string) (reply : Promise (Response A)) : Script (Response A) :=
  (λ s, Done tt (withGets (gets s ++ [url])%list s)) >>
  match reply with
  | Rejects message => sthrow message
  | Resolves response => sret response
  end.
Definition await {A} (p : Promise A) : Script A :=
  match p with
  | Rejects message => sthrow message
  | Resolves a => sret a
  end.

(** *** Notifications *)

Definition toastStyle : string :=
  nl +:+
  "        position: fixed;" +:+ nl +:+
  "        top: 20px;" +:+ nl +:+
  "        right: 20px;" +:+ nl +:+
  "        background: var(--success-color);" +:+ nl +:+
  "        color: white;" +:+ nl +:+
  "        padding: 15px 20px;" +:+ nl +:+
  "        border-radius: 8px;" +:+ nl +:+
  "        z-index: 1002;" +:+ nl +:+
  "        font-weight: bold;" +:+ nl +:+
  "        box-shadow: 0 4px 15px rgba(0, 0, 0, 0.2);" +:+ nl +:+
  "    ".

Definition showSuccess (message : string) : Script unit :=
  consoleLog ["Success:"; message] >>
  let toast := mkToast (mkNode "div" "success-toast" message) toastStyle in
  let* number := appendToBody toast in
  removeLater number 3000.

(** *** The preview and the move selects *)

Definition typeBadges (types : list string) : string :=
  String.concat ""
    ((λ type, "<span class=" +:+ quot +:+ "type-badge type-" +:+ type +:+ quot +:+ ">"
              +:+ Js.toUpperCase type +:+ "</span>") <$> types).

(** The markup [updatePokemonPreview] writes; [level] is what [parseInt]
    returned, and with [NaN] every stat is [NaN]. *)
Definition previewMarkup (pokemonData : PokemonData) (level : option Z) : string :=
  let shown (field : Stats.LevelStats → Z) : string :=
    match level with
    | Some l => Js.numberToString
                  (field (Stats.calculateStatsAtLevel (pd_base_stats pokemonData) (inject_Z l)))
    | None => "NaN"
    end in
  nl +:+
  "        <div class=" +:+ quot +:+ "pokemon-name" +:+ quot +:+ ">" +:+ pd_name pokemonData +:+ "</div>" +:+ nl +:+
  "        <div class=" +:+ quot +:+ "pokemon-types" +:+ quot +:+ ">" +:+ nl +:+
  "            " +:+ typeBadges (pd_types pokemonData) +:+ nl +:+
  "        </div>" +:+ nl +:+
  "        <div class=" +:+ quot +:+ "pokemon-stats" +:+ quot +:+ ">" +:+ nl +:+
  "            HP: " +:+ shown Stats.l_hp +:+ " | ATK: " +:+ shown Stats.l_attack +:+ " | DEF: " +:+ shown Stats.l_defense +:+ "<br>" +:+ nl +:+
  "            SP.ATK: " +:+ shown Stats.l_special_attack +:+ " | SP.DEF: " +:+ shown Stats.l_special_defense +:+ " | SPD: " +:+ shown Stats.l_speed +:+ nl +:+
  "        </div>" +:+ nl +:+
  "    ".

Definition updatePokemonPreview (pokemonNumber : Z) (pokemonData : PokemonData)
    : Script unit :=
  let sprite := "pokemon" +:+ Js.numberToString pokemonNumber +:+ "Sprite" in
  let info := "pokemon" +:+ Js.numberToString pokemonNumber +:+ "Info" in
  match pd_front_default pokemonData with
  | Some url =>
      if decide (url = "") then sret tt
      else lift (assign sprite (withSrc url)) >> setAlt sprite (pd_name pokemonData)
  | None => sret tt
  end >>
  let* level := lift (read ("pokemon" +:+ Js.numberToString pokemonNumber +:+ "Level") value) in
  lift (assign info (withInnerHTML (previewMarkup pokemonData (Js.parseInt level)))).

(** What [updatePokemonPreview] does to the image and to its [alt]:
    nothing unless the Pokemon has a sprite. *)
Definition previewSprite (pokemonData : PokemonData) (e : Element) : Element :=
  match pd_front_default pokemonData with
  | Some url => if decide (url = "") then e else withSrc url e
  | None => e
  end.
Definition previewAlt (sprite : string) (pokemonData : PokemonData)
    (a : gmap string string) : gmap string string :=
  match pd_front_default pokemonData with
  | Some url => if decide (url = "") then a else <[sprite := pd_name pokemonData]> a
  | None => a
  end.

Definition updatePokemonStats (pokemonNumber : Z) : Script unit :=
  let* state := lift getBattleState in
  match pokemonOf pokemonNumber state with
  | Some pokemon => updatePokemonPreview pokemonNumber pokemon
  | None => sret tt
  end.

(** [move.power || '...'], as the string [dataset] keeps: a dash for [null]
    and for 0. *)
Definition dash : string := "â€”".
Definition orDash (n : option Z) : string :=
  match n with
  | Some v => if decide (v = 0) then dash else Js.numberToString v
  | None => dash
  end.

Definition optionOf (move : MoveData) : MoveOption :=
  mkMoveOption (mv_name move) (mv_display_name move) (mv_type move)
    (orDash (mv_power move)) (orDash (mv_accuracy move)) (Js.numberToString (mv_pp move))
    (mv_category move) (mv_effect move).

Definition updateMoveOptions (pokemonNumber : Z) (moves : list MoveData) : Script unit :=
  sforEach (seqZ 1 4) (λ i,
    let select := "pokemon" +:+ Js.numberToString pokemonNumber
                  +:+ "Move" +:+ Js.numberToString i in
    clearSelect select >>
    sforEach moves (λ move, appendOption select (optionOf move))).

(** What [updateMoveOptions] leaves in one select: the placeholder, then
    one option per move, with the empty value selected. *)
Definition optionNodes (moves : list MoveData) : list Item :=
  (λ move, Child (mkNode "option" "" (mv_display_name move))) <$> moves.
Definition refilled (moves : list MoveData) (e : Element) : Element :=
  withContent (Markup placeholderOption :: optionNodes moves) (withValue "" e).

Definition withSelect (moves : list MoveData) (s : Session) (select : string) : Session :=
  withOptions (<[select := optionOf <$> moves]> (options s))
    (withPage (withDocument (alter (refilled moves) select (document (page s))) (page s)) s).

(** *** Loading *)

(** [loadPokemon], for the replies its two requests will get. *)
Definition loadPokemon (pokemonNumber : Z)
    (pokemonReply : Promise (Response PokemonData))
    (movesReply : Promise (Response MovesData)) : Script unit :=
  let* typed := lift (read ("pokemon" +:+ Js.numberToString pokemonNumber +:+ "Name") value) in
  let* pokemonName := known (trim typed ≫= toLowerCase) in
  if decide (pokemonName = "") then
    lift (showError "Please enter a PokÃ©mon name")
  else
    lift (showLoading "Loading PokÃ©mon data...") >>
    stryCatch
      (let* pokemonResponse := fetch ("/api/pokemon/" +:+ pokemonName) pokemonReply in
       if negb (ok pokemonResponse) then sthrow "PokÃ©mon not found"
       else
         let* pokemonData := await (json pokemonResponse) in
         let* level :=
           lift (read ("pokemon" +:+ Js.numberToString pokemonNumber +:+ "Level") value) in
         let* movesResponse :=
           fetch ("/api/pokemon/" +:+ pokemonName +:+ "/moves?level=" +:+ level) movesReply in
         if negb (ok movesResponse) then sthrow "Failed to load moves"
         else
           let* movesData := await (json movesResponse) in
           lift (setPokemon pokemonNumber (Some pokemonData)) >>
           setMoves pokemonNumber (moves movesData) >>
           updatePokemonPreview pokemonNumber pokemonData >>
           updateMoveOptions pokemonNumber (moves movesData) >>
           lift hideLoading >>
           showSuccess (pd_name pokemonData +:+ " loaded successfully!"))
      (λ message,
         lift hideLoading >>
         lift (showError ("Failed to load PokÃ©mon: " +:+ message))).

(** The reason [loadPokemon] gives when one of its requests fails, for the
    replies the two requests get; [None] when both succeed. *)
Definition loadError (pokemonReply : Promise (Response PokemonData))
    (movesReply : Promise (Response MovesData)) : option string :=
  match pokemonReply with
  | Rejects message => Some message
  | Resolves pokemonResponse =>
      if negb (ok pokemonResponse) then Some "PokÃ©mon not found"
      else match json pokemonResponse with
           | Rejects message => Some message
           | Resolves _ =>
               match movesReply with
               | Rejects message => Some message
               | Resolves movesResponse =>
                   if negb (ok movesResponse) then Some "Failed to load moves"
                   else match json movesResponse with
                        | Rejects message => Some message
                        | Resolves _ => None
                        end
               end
           end
  end.

(** *** Resetting *)

Definition emptyPreview : string :=
  nl +:+
  "            <div class=" +:+ quot +:+ "pokemon-name" +:+ quot +:+ ">Select a PokÃ©mon</div>" +:+ nl +:+
  "            <div class=" +:+ quot +:+ "pokemon-types" +:+ quot +:+ "></div>" +:+ nl +:+
  "            <div class=" +:+ quot +:+ "pokemon-stats" +:+ quot +:+ "></div>" +:+ nl +:+
  "        ".

Definition resetBattle : Script unit :=
  lift (setPokemon 1 None) >>
  lift (setPokemon 2 None) >>
  setMoves 1 [] >>
  setMoves 2 [] >>
  lift (assign "pokemon1Name" (withValue "")) >>
  lift (assign "pokemon2Name" (withValue "")) >>
  lift (assign "pokemon1Level" (withValue "50")) >>
  lift (assign "pokemon2Level" (withValue "50")) >>
  lift (assign "pokemon1LevelValue" (withTextContent "50")) >>
  lift (assign "pokemon2LevelValue" (withTextContent "50")) >>
  sforEach (seqZ 1 2) (λ i,
    lift (assign ("pokemon" +:+ Js.numberToString i +:+ "Sprite")
            (withSrc "/static/placeholder.png")) >>
    lift (assign ("pokemon" +:+ Js.numberToString i +:+ "Info")
            (withInnerHTML emptyPreview)) >>
    sforEach (seqZ 1 4) (λ j,
      clearSelect ("pokemon" +:+ Js.numberToString i +:+ "Move" +:+ Js.numberToString j) >>
      lift (assign ("pokemon" +:+ Js.numberToString i +:+ "Move" +:+ Js.numberToString j
                    +:+ "Info")
              (withInnerHTML "")))) >>
  lift (assign "validationResults" (withDisplay "none")) >>
  lift (assign "battleBtn" (withDisabled true)) >>
  showSuccess "Battle configuration reset!".

Definition newBattle : Script unit :=
  lift backToSetup >>
  resetBattle.

(** *** The set-up screen *)

(** The elements of the set-up screen these functions look up, beside
    those of [pageIds]. *)
Definition setupIds : list string :=
  [ "pokemon1Name"; "pokemon2Name"; "pokemon1LevelValue"; "pokemon2LevelValue";
    "pokemon1Sprite"; "pokemon2Sprite"; "pokemon1Info"; "pokemon2Info";
    "pokemon1Move1Info"; "pokemon1Move2Info"; "pokemon1Move3Info"; "pokemon1Move4Info";
    "pokemon2Move1Info"; "pokemon2Move2Info"; "pokemon2Move3Info"; "pokemon2Move4Info" ].

(** The page has every element the script looks up. *)
Definition complete (s : Session) : Prop :=
  present (pageIds ++ setupIds) (page s).

(** The four move selects of one side. *)
Definition moveSelectsOf (pokemonNumber : Z) : list string :=
  (λ i, "pokemon" +:+ Js.numberToString pokemonNumber +:+ "Move" +:+ Js.numberToString i)
    <$> seqZ 1 4.

(** The elements a successful [loadPokemon] writes to. *)
Definition loadedIds (pokemonNumber : Z) : list string :=
  [ "loadingText"; "loadingOverlay";
    "pokemon" +:+ Js.numberToString pokemonNumber +:+ "Sprite";
    "pokemon" +:+ Js.numberToString pokemonNumber +:+ "Info" ]
  ++ moveSelectsOf pokemonNumber.

(** The elements under the move selects that describe the chosen move,
    and the elements [resetBattle] writes to. *)
Definition moveInfoIds : list string :=
  [ "pokemon1Move1Info"; "pokemon1Move2Info"; "pokemon1Move3Info"; "pokemon1Move4Info";
    "pokemon2Move1Info"; "pokemon2Move2Info"; "pokemon2Move3Info"; "pokemon2Move4Info" ].
Definition resetIds : list string :=
  [ "pokemon1Name"; "pokemon2Name"; "pokemon1Level"; "pokemon2Level";
    "pokemon1LevelValue"; "pokemon2LevelValue"; "pokemon1Sprite"; "pokemon2Sprite";
    "pokemon1Info"; "pokemon2Info"; "validationResults"; "battleBtn" ]
  ++ moveSelectIds ++ moveInfoIds.

End Session.

(** ** Concrete sessions *)

Module Samples.

Import Page Battle Examples Setup Session.
Local Open Scope string_scope.

(** A battle of three: the snapshot of the second turn has a third entry. *)
Definition crowdedTurn : TurnRecord :=
  mkTurnRecord 2
    [ mkBattleEvent "move_use" "pidgey used gust!" (Some "pidgey") None ]
    (Some [ ("pikachu", mkPokemonState (mkHp 80 95) None);
            ("charizard", mkPokemonState (mkHp 153 153) (Some (mkStatus "burn")));
            ("pidgey", mkPokemonState (mkHp 40 40) None) ]).
Definition firstTurn : TurnRecord :=
  mkTurnRecord 1
    [ mkBattleEvent "move_use" "charizard used air-slash!" (Some "charizard") None;
      mkBattleEvent "miss" "The attack missed!" None None ]
    (Some [ ("pikachu", mkPokemonState (mkHp 95 95) (Some (mkStatus "none")));
            ("charizard", mkPokemonState (mkHp 153 153) (Some (mkStatus "burn"))) ]).
Definition lastTurn : TurnRecord :=
  mkTurnRecord 3 [ mkBattleEvent "faint" "pidgey fainted!" (Some "pidgey") None ] None.
Definition crowdedResult : BattleResult :=
  mkBattleResult "pikachu" 3 [firstTurn; crowdedTurn; lastTurn]
    (mkParticipant "pikachu" (mkHp 80 95))
    (mkParticipant "charizard" (mkHp 153 153)).

(** The moves the server answers for Pikachu. *)
Definition thunderbolt : MoveData :=
  mkMoveData "thunderbolt" "Thunderbolt" "electric" (Some 90) (Some 100) 15 "special"
    "Has a 10% chance to paralyze the target.".
Definition growl : MoveData :=
  mkMoveData "growl" "Growl" "normal" None (Some 100) 40 "status"
    "Lowers the target's Attack by one stage.".
Definition pikachuMoves : MovesData := mkMovesData [thunderbolt; growl].
Definition charizardMoves : MovesData :=
  mkMovesData
    [ mkMoveData "flamethrower" "Flamethrower" "fire" (Some 90) (Some 100) 15 "special"
        "Has a 10% chance to burn the target." ].

(** The set-up screen with a name typed on each side. *)
Definition formDocument (name1 name2 : string) (d : gmap string Element)
    : gmap string Element :=
  <["pokemon1Name" := withValue name1 blank]>
  (<["pokemon2Name" := withValue name2 blank]>
  (list_to_map ((λ id, (id, blank)) <$> setupIds) ∪ d)).

Definition sessionOn (w : World) : Session :=
  mkSession w [] [] ∅ ∅ [] 0 [] [] [].

(** Nothing loaded yet, "  Pikachu " and "Charizard" typed. *)
Definition formSession : Session :=
  sessionOn (mkWorld (formDocument "  Pikachu " "Charizard" freshDocument)
               (mkBattleState None None false None) "" 0 [] []).

(** Nothing typed on side 1 but spaces. *)
Definition blankNameSession : Session :=
  sessionOn (mkWorld (formDocument "   " "Charizard" freshDocument)
               (mkBattleState None None false None) "" 0 [] []).

(** After a battle: both Pokemon loaded, moves chosen, the result kept. *)
Definition playedSession : Session :=
  sessionOn (mkWorld (formDocument "pikachu" "charizard" readyDocument)
               (mkBattleState (Some pikachu) (Some charizard) false (Some sampleResult))
               "" 0 [] []).

(** The second turn of [sampleResult], and the event that ends it. *)
Definition faintEvent : BattleEvent :=
  mkBattleEvent "faint" "charizard fainted!" (Some "charizard") None.
Definition faintTurn : TurnRecord :=
  mkTurnRecord 2 sampleEvents
    (Some [ ("pikachu", mkPokemonState (mkHp 95 95) None);
            ("charizard", mkPokemonState (mkHp 0 153) (Some (mkStatus "burn"))) ]).

(** The ready page with the second image left faint-animated by an
    earlier battle. *)
Definition faintedPage : World :=
  withDocument
    (<["battleSprite2" := classListAdd "faint-animation" blank]> readyDocument) readyPage.

(** Pikachu against Pikachu: the page, and a battle the second one
    loses. *)
Definition mirrorPage : World :=
  mkWorld readyDocument (mkBattleState (Some pikachu) (Some pikachu) false None) "" 0 [] [].
Definition mirrorResult : BattleResult :=
  mkBattleResult "pikachu" 1
    [ mkTurnRecord 1
        [ mkBattleEvent "move_use" "pikachu used thunderbolt!" (Some "pikachu") None;
          mkBattleEvent "damage" "pikachu took 95 damage!" None (Some "pikachu");
          mkBattleEvent "faint" "pikachu fainted!" (Some "pikachu") None ]
        (Some [ ("pikachu", mkPokemonState (mkHp 95 95) None);
                ("pikachu", mkPokemonState (mkHp 0 95) None) ]) ]
    (mkParticipant "pikachu" (mkHp 95 95))
    (mkParticipant "pikachu" (mkHp 0 95)).

End Samples.

(** ** What stays of a battle *)

Module Lasting.

Import Page Battle Setup.
Local Open Scope string_scope.

(** The two images of the arena. *)
Definition spriteIds : list string := ["battleSprite1"; "battleSprite2"].

(** No pending timer will take the class [faint-animation] off the element
    [sprite], and the first Pokemon loaded is [first]. *)
Definition settled (sprite : string) (first : PokemonData) (w : World) : Prop :=
  Forall (λ t, t.2 ≠ RemoveClass sprite "faint-animation") (timers w) ∧
  pokemon1 (battleState w) = Some first.

(** The element [sprite] shows the faint animation. *)
Definition faintShown (sprite : string) (w : World) : Prop :=
  ∃ e, document w !! sprite = Some e ∧ "faint-animation" ∈ classList e.

(** What is [settled] stays so, and while it is, a faint animation that
    is shown stays shown. *)
Definition lasting (sprite : string) (first : PokemonData) (w w' : World) : Prop :=
  (settled sprite first w → settled sprite first w') ∧
  (settled sprite first w → faintShown sprite w → faintShown sprite w').

(** The element [sprite] shows the faint animation and nothing pending
    will take it off. *)
Definition stillFainted (sprite : string) (first : PokemonData) (w : World) : Prop :=
  settled sprite first w ∧ faintShown sprite w.

(** The image [animateEvent] animates for an event about the Pokemon
    [who], while the first Pokemon loaded is [first]. *)
Definition spriteFor (first : PokemonData) (who : option string) : string :=
  if decide (who = Some (pd_name first)) then "battleSprite1" else "battleSprite2".

(** *** A battle of two Pokemon of one name *)

(** Wherever [animateEvent] looks at a name of the event, the name is
    [name]. *)
Definition about (name : string) (event : BattleEvent) : Prop :=
  (ev_type event = "move_use" → ev_pokemon event = Some name) ∧
  (ev_type event = "damage" → ev_defender event = Some name) ∧
  (ev_type event = "faint" → ev_pokemon event = Some name).

(** Every event of the log is [about] the one name. *)
Definition mirrorLog (name : string) (battleResult : BattleResult) : Prop :=
  Forall (λ t, Forall (about name) (events t)) (battle_log battleResult).

(** No pending timer will change the element [id]. *)
Definition noTimerFor (id : string) (w : World) : Prop :=
  Forall (λ t, ∀ c, t.2 ≠ RemoveClass id c) (timers w).

(** While no timer is pending for the second image and the first Pokemon
    loaded is [first], this stays so and the second image is left as it
    is. *)
Definition idle (first : PokemonData) (w w' : World) : Prop :=
  noTimerFor "battleSprite2" w → pokemon1 (battleState w) = Some first →
  noTimerFor "battleSprite2" w' ∧ pokemon1 (battleState w') = Some first ∧
  document w' !! "battleSprite2" = document w !! "battleSprite2".

(** *** The timed animations *)

(** The classes [animateEvent] takes off again after half a second. *)
Definition transient : list string := ["attack-animation"; "damage-animation"].

(** The screen is not flashed and neither image carries a timed
    animation. *)
Definition calm (w : World) : Prop :=
  bodyFilter w = "" ∧
  ∀ sprite e c, sprite ∈ spriteIds → document w !! sprite = Some e →
    c ∈ transient → c ∉ classList e.

(** [calm], and no timer is pending. *)
Definition atRest (w : World) : Prop := timers w = [] ∧ calm w.

(** At rest, or one timer is pending, due within half a second, and the
    page is [calm] once its callback has run. *)
Definition winding (w : World) : Prop :=
  atRest w ∨
  ∃ t callback, timers w = [(t, callback)] ∧ (t ≤ now w + 500)%nat ∧
    calm (runCallback callback w).

(** What is at rest stays at rest. *)
Definition resting (w w' : World) : Prop := atRest w → atRest w'.

End Lasting.

(** * Properties *)

(** ** Stats *)

Module StatsProps.

Import Stats.
Local Open Scope Q_scope.

Lemma Qfloor_plus_int (x : Q) (n : Z) : Qfloor (x + inject_Z n) = (Qfloor x + n)%Z.
Proof.
  destruct x as [a b]. unfold Qfloor, Qplus, inject_Z; simpl.
  rewrite Z.mul_1_r, Pos.mul_1_r.
  apply Z.div_add. discriminate.
Qed.

Lemma scaled_le (base l1 l2 : Q) :
  0 <= base -> l1 <= l2 -> 2 * base * l1 / 100 <= 2 * base * l2 / 100.
Proof.
  intros Hb Hl. unfold Qdiv. apply Qmult_le_compat_r; [| discriminate].
  rewrite <- !Qmult_assoc.
  apply Qmult_le_l; [reflexivity |].
  destruct (Qle_lt_or_eq _ _ Hb) as [Hpos | Hz].
  - apply Qmult_le_l; assumption.
  - rewrite <- Hz. rewrite !Qmult_0_l. apply Qle_refl.
Qed.

(** C1. For every base-stats record and every level,
    [calculateStatsAtLevel] returns
    [hp = floor(2*baseHp*level/100 + level + 10)] and, for each of attack,
    defense, special_attack, special_defense and speed,
    [floor(2*base*level/100 + 5)]. *)
Theorem calculateStatsAtLevel_formula (baseStats : BaseStats) (level : Q) :
  let stats := calculateStatsAtLevel baseStats level in
  l_hp stats = Qfloor (2 * hp baseStats * level / 100 + level + 10) /\
  l_attack stats = Qfloor (2 * attack baseStats * level / 100 + 5) /\
  l_defense stats = Qfloor (2 * defense baseStats * level / 100 + 5) /\
  l_special_attack stats = Qfloor (2 * special_attack baseStats * level / 100 + 5) /\
  l_special_defense stats = Qfloor (2 * special_defense baseStats * level / 100 + 5) /\
  l_speed stats = Qfloor (2 * speed baseStats * level / 100 + 5).
Proof. cbv zeta. unfold calculateStatsAtLevel. simpl. repeat split. Qed.

(** On integer inputs the floors are [Z]'s flooring divisions. *)
Lemma calcHP_integers (base level : Z) :
  Qfloor (2 * inject_Z base * inject_Z level / 100 + inject_Z level + 10)
  = calcHP_int base level.
Proof.
  unfold calcHP_int.
  change 10 with (inject_Z 10). rewrite !Qfloor_plus_int. f_equal. f_equal.
  change 2 with (inject_Z 2). change 100 with (inject_Z 100).
  rewrite <- !inject_Z_mult. symmetry. apply Zdiv_Qdiv.
Qed.

Lemma calcStat_integers (base level : Z) :
  Qfloor (2 * inject_Z base * inject_Z level / 100 + 5) = calcStat_int base level.
Proof.
  unfold calcStat_int.
  change 5 with (inject_Z 5). rewrite Qfloor_plus_int. f_equal.
  change 2 with (inject_Z 2). change 100 with (inject_Z 100).
  rewrite <- !inject_Z_mult. symmetry. apply Zdiv_Qdiv.
Qed.

Lemma calculateStatsAtLevel_on_integers (h a d sa sd sp level : Z) :
  calculateStatsAtLevel
    (mkBaseStats (inject_Z h) (inject_Z a) (inject_Z d)
                 (inject_Z sa) (inject_Z sd) (inject_Z sp)) (inject_Z level)
  = mkLevelStats (calcHP_int h level) (calcStat_int a level) (calcStat_int d level)
                 (calcStat_int sa level) (calcStat_int sd level) (calcStat_int sp level).
Proof.
  unfold calculateStatsAtLevel.
  cbn [hp attack defense special_attack special_defense speed].
  by rewrite calcHP_integers, !calcStat_integers.
Qed.

(** Pikachu at level 50. *)
Example calculateStatsAtLevel_pikachu_50 :
  calculateStatsAtLevel pikachuBase 50 = mkLevelStats 95 60 45 55 55 95.
Proof. reflexivity. Qed.

(** Binary64 gives the same integers for every base stat in 0..255 (the
    range of a species' base stat) at every level in 1..100. *)
Lemma binary64_agrees_on_game_range :
  forallb (fun base => forallb (Binary64.agrees base) (seqZ 1 100)) (seqZ 0 256) = true.
Proof. vm_compute. reflexivity. Qed.

(** Monotonicity needs neither bound on the levels. *)
Lemma calcHP_mono (base l1 l2 : Q) :
  0 <= base -> l1 <= l2 ->
  (Qfloor (2 * base * l1 / 100 + l1 + 10) <= Qfloor (2 * base * l2 / 100 + l2 + 10))%Z.
Proof.
  intros Hb Hl. apply Qfloor_resp_le.
  apply Qplus_le_compat; [| apply Qle_refl].
  apply Qplus_le_compat; [apply scaled_le |]; assumption.
Qed.

Lemma calcStat_mono (base l1 l2 : Q) :
  0 <= base -> l1 <= l2 ->
  (Qfloor (2 * base * l1 / 100 + 5) <= Qfloor (2 * base * l2 / 100 + 5))%Z.
Proof.
  intros Hb Hl. apply Qfloor_resp_le.
  apply Qplus_le_compat; [apply scaled_le; assumption | apply Qle_refl].
Qed.

(** C3. For fixed non-negative base stats and levels [l1 <= l2] in
    [1,100], every stat [calculateStatsAtLevel] returns at [l1] is at most
    the corresponding stat at [l2]. *)
Theorem calculateStatsAtLevel_monotone (baseStats : BaseStats) (l1 l2 : Q) :
  nonneg_base baseStats ->
  1 <= l1 -> l1 <= l2 -> l2 <= 100 ->
  let s1 := calculateStatsAtLevel baseStats l1 in
  let s2 := calculateStatsAtLevel baseStats l2 in
  (l_hp s1 <= l_hp s2 /\ l_attack s1 <= l_attack s2 /\ l_defense s1 <= l_defense s2 /\
   l_special_attack s1 <= l_special_attack s2 /\
   l_special_defense s1 <= l_special_defense s2 /\ l_speed s1 <= l_speed s2)%Z.
Proof.
  intros (Hhp & Hatk & Hdef & Hspa & Hspd & Hspe) _ Hl _. cbv zeta.
  unfold calculateStatsAtLevel; simpl.
  repeat split; first [apply calcHP_mono | apply calcStat_mono]; assumption.
Qed.

Lemma calculateStatsAtLevel_monotone_witness :
  nonneg_base pikachuBase /\ 1 <= 50 /\ 50 <= 51 /\ 51 <= 100 /\
  (l_hp (calculateStatsAtLevel pikachuBase 50) <= l_hp (calculateStatsAtLevel pikachuBase 51) /\
   l_attack (calculateStatsAtLevel pikachuBase 50) <= l_attack (calculateStatsAtLevel pikachuBase 51) /\
   l_defense (calculateStatsAtLevel pikachuBase 50) <= l_defense (calculateStatsAtLevel pikachuBase 51) /\
   l_special_attack (calculateStatsAtLevel pikachuBase 50)
     <= l_special_attack (calculateStatsAtLevel pikachuBase 51) /\
   l_special_defense (calculateStatsAtLevel pikachuBase 50)
     <= l_special_defense (calculateStatsAtLevel pikachuBase 51) /\
   l_speed (calculateStatsAtLevel pikachuBase 50) <= l_speed (calculateStatsAtLevel pikachuBase 51))%Z.
Proof.
  assert (Hb : nonneg_base pikachuBase) by (repeat split; unfold Qle; simpl; lia).
  assert (H1 : 1 <= 50) by (unfold Qle; simpl; lia).
  assert (H2 : 50 <= 51) by (unfold Qle; simpl; lia).
  assert (H3 : 51 <= 100) by (unfold Qle; simpl; lia).
  exact (conj Hb (conj H1 (conj H2 (conj H3
           (calculateStatsAtLevel_monotone pikachuBase 50 51 Hb H1 H2 H3))))).
Defined.

End StatsProps.

(** ** The damage rule *)

Module DamageProps.

Import Damage.
Local Open Scope Q_scope.

(** The floors only ever round the README's unrounded product down. *)
Lemma finalDamage_le_readme (L P A D stab eff crit rand : Q) :
  0 <= stab -> 0 <= eff -> 0 <= crit -> 0 <= rand ->
  inject_Z (finalDamage (baseDamage L P A D) stab eff crit rand)
  <= readmeDamage L P A D stab eff crit rand.
Proof.
  intros Hs He Hc Hr. unfold finalDamage, readmeDamage, baseDamage.
  eapply Qle_trans; [apply Qfloor_le |].
  repeat (apply Qmult_le_compat_r; [| assumption]).
  apply Qfloor_le.
Qed.

(** C2, as amended.  For a damaging move (physical or special, with a
    power) the damage dealt is
    [floor(base * stab * effectivenessMultiplier * critMultiplier * randomFactor)]
    with
    [base = floor(((2*attackerLevel/5 + 2) * power * atkStat/defStat)/50 + 2)],
    [atkStat] and [defStat] being the stat pair of the move's category,
    except that against a target that is not immune it is never less than
    1.  So it is never negative, and it is 0 exactly against an immune
    target. *)
Theorem computeDamage_formula
    (attacker defender : BattlePokemon) (move : MoveDefinition) (power : Q)
    (isCritical : bool) (effectivenessMultiplier randomFactor : Q) :
  move_category move ≠ StatusMove → move_power move = Some power →
  let atkStat := attackStat attacker move in
  let defStat := defenseStat defender move in
  let base := Qfloor (((2 * bp_level attacker / 5 + 2) * power * atkStat / defStat) / 50 + 2) in
  let final := Qfloor (inject_Z base * stabOf (move_type move) (bp_types attacker)
                       * effectivenessMultiplier * critMultiplierOf isCritical
                       * randomFactor) in
  let damage := computeDamage attacker defender move isCritical
                  effectivenessMultiplier randomFactor in
  (effectivenessMultiplier == 0 → damage = final ∧ damage = 0%Z) ∧
  (¬ effectivenessMultiplier == 0 → damage = Z.max 1 final) ∧
  (0 ≤ damage)%Z ∧
  (damage = 0%Z ↔ effectivenessMultiplier == 0).
Proof.
  intros Hcat Hpow atkStat defStat base final damage.
  assert (Hd : damage = if Qeq_bool effectivenessMultiplier 0 then 0%Z else Z.max 1 final).
  { subst damage. unfold computeDamage. rewrite Hpow. by destruct (move_category move). }
  destruct (Qeq_bool effectivenessMultiplier 0) eqn:He.
  - apply Qeq_bool_iff in He.
    assert (Hz : inject_Z base * stabOf (move_type move) (bp_types attacker)
                 * effectivenessMultiplier * critMultiplierOf isCritical * randomFactor
                 == 0).
    { rewrite He. ring. }
    assert (Hf : final = 0%Z).
    { subst final. rewrite Hz. reflexivity. }
    split; [intros _; by rewrite Hd, Hf|]. split; [by intros Hne|].
    split; [by rewrite Hd|]. by rewrite Hd.
  - assert (Hne : ¬ effectivenessMultiplier == 0).
    { intros H. apply Qeq_bool_iff in H. congruence. }
    split; [by intros H|]. split; [by intros _|].
    split; [rewrite Hd; lia|]. split; [rewrite Hd; lia | done].
Qed.

(** On the weak move of the weak attacker, which the sturdy defender
    resists twice over. *)
Lemma computeDamage_formula_witness :
  move_category weakMove ≠ StatusMove ∧ move_power weakMove = Some 10 ∧
  computeDamage weakAttacker sturdyDefender weakMove false (1 # 4) (85 # 100) = 1%Z ∧
  computeDamage weakAttacker sturdyDefender weakMove false 0 (85 # 100) = 0%Z.
Proof.
  split; [discriminate|]. split; [reflexivity|].
  pose proof (computeDamage_formula weakAttacker sturdyDefender weakMove 10 false
                (1 # 4) (85 # 100) ltac:(discriminate) eq_refl) as (_ & H1 & _).
  pose proof (computeDamage_formula weakAttacker sturdyDefender weakMove 10 false
                0 (85 # 100) ltac:(discriminate) eq_refl) as (H0 & _).
  split; [exact (H1 ltac:(discriminate)) | exact (proj2 (H0 ltac:(reflexivity)))].
Defined.

(** Against C2 as it stands: the equation fails where the two floors
    give 0.  The weak move of the weak attacker (level 5, power 10, attack
    10, its own type) against the sturdy defender (defense 300, resisting
    twice over), no critical hit, at the lowest random factor: [base] is
    2, the formula comes to [floor(2 * 1.5 * 0.25 * 1 * 0.85) = 0], and
    the damage dealt is 1. *)
Example computeDamage_not_the_floor :
  let atkStat := attackStat weakAttacker weakMove in
  let defStat := defenseStat sturdyDefender weakMove in
  let stab := stabOf (move_type weakMove) (bp_types weakAttacker) in
  let base := Qfloor (((2 * bp_level weakAttacker / 5 + 2) * 10 * atkStat / defStat) / 50 + 2) in
  let final := Qfloor (inject_Z base * stab * (1 # 4) * critMultiplierOf false * (85 # 100)) in
  move_power weakMove = Some 10 ∧ atkStat = 10 ∧ defStat = 300 ∧ stab = 3 # 2 ∧
  base = 2%Z ∧ final = 0%Z ∧
  computeDamage weakAttacker sturdyDefender weakMove false (1 # 4) (85 # 100) = 1%Z ∧
  computeDamage weakAttacker sturdyDefender weakMove false (1 # 4) (85 # 100) ≠ final.
Proof. by repeat split. Qed.

(** The level-50 scenario: power 90, equal attack and defense, STAB, a
    super-effective hit, no critical, random factor 1. *)
Example computeDamage_level50 :
  let attacker := mkBattlePokemon 50 ["fire"; "flying"] 100 100 100 100 NoCondition in
  let move := mkMoveDefinition "fire" (Some 90) Special in
  baseDamage 50 90 100 100 = 41%Z /\
  computeDamage attacker attacker move false 2 1 = 123%Z.
Proof. split; reflexivity. Qed.

(** A burn halves the attack behind a physical move, and only that. *)
Example computeDamage_burned :
  let healthy := mkBattlePokemon 50 ["fire"] 100 100 100 100 NoCondition in
  let burned := mkBattlePokemon 50 ["fire"] 100 100 100 100 Burn in
  computeDamage healthy healthy (mkMoveDefinition "normal" (Some 90) Physical) false 1 1 = 41%Z ∧
  computeDamage burned healthy (mkMoveDefinition "normal" (Some 90) Physical) false 1 1 = 21%Z ∧
  computeDamage burned healthy (mkMoveDefinition "normal" (Some 90) Special) false 1 1 = 41%Z ∧
  computeDamage burned healthy (mkMoveDefinition "normal" None StatusMove) false 1 1 = 0%Z.
Proof. by repeat split. Qed.

End DamageProps.

(** ** The library functions on examples *)

Module JsProps.

Local Open Scope string_scope.

Example parseInt_decimal : Js.parseInt "50" = Some 50.
Proof. reflexivity. Qed.
Example parseInt_stops_at_non_digit : Js.parseInt "12.5" = Some 12.
Proof. reflexivity. Qed.
Example parseInt_sign_and_hex : Js.parseInt "  -0x1fz" = Some (-31).
Proof. reflexivity. Qed.
Example parseInt_no_digit : Js.parseInt "abc" = None ∧ Js.parseInt "" = None.
Proof. split; reflexivity. Qed.
Example toUpperCase_burn : Js.toUpperCase "burn" = "BURN".
Proof. reflexivity. Qed.
Example includes_super_effective :
  Js.includes "It's super effective!" "super effective" = true ∧
  Js.includes "It's super effective!" "not very effective" = false.
Proof. split; reflexivity. Qed.
Example numberToString_negative : Js.numberToString (-120) = "-120".
Proof. reflexivity. Qed.

Import Js.

(** *** Objects parsed from JSON *)

Lemma firstOccurrences_elem names key : key ∈ firstOccurrences names ↔ key ∈ names.
Proof. unfold firstOccurrences. by rewrite elem_of_reverse, elem_of_remove_dups, elem_of_reverse. Qed.

Lemma firstOccurrences_NoDup names : NoDup (firstOccurrences names).
Proof. unfold firstOccurrences. rewrite reverse_Permutation. apply NoDup_remove_dups. Qed.

Lemma objectKeys_Permutation {A} (members : list (string * A)) :
  objectKeys members ≡ₚ firstOccurrences members.*1.
Proof.
  unfold objectKeys. rewrite merge_sort_Permutation. apply filter_app_complement.
Qed.

Lemma objectKeys_elem {A} (members : list (string * A)) key :
  key ∈ objectKeys members ↔ key ∈ members.*1.
Proof. by rewrite objectKeys_Permutation, firstOccurrences_elem. Qed.

Lemma objectKeys_NoDup {A} (members : list (string * A)) : NoDup (objectKeys members).
Proof. rewrite objectKeys_Permutation. apply firstOccurrences_NoDup. Qed.

Lemma objectKeys_length {A} (members : list (string * A)) :
  (length (objectKeys members) ≤ length members)%nat.
Proof.
  rewrite <- (length_fmap fst members). apply submseteq_length, NoDup_submseteq.
  - apply objectKeys_NoDup.
  - intros key. apply objectKeys_elem.
Qed.

Lemma objectGet_is_Some {A} (members : list (string * A)) key :
  key ∈ members.*1 → is_Some (objectGet members key).
Proof.
  induction members as [|[k v] members IH]; simpl; [by intros ?%elem_of_nil|].
  intros Hin. destruct (objectGet members key) as [v'|] eqn:Hrest; [by eexists|].
  apply elem_of_cons in Hin as [<-|Hin].
  - rewrite decide_True by done. by eexists.
  - apply IH in Hin as [? ?]. done.
Qed.

Lemma objectGet_elem {A} (members : list (string * A)) key v :
  objectGet members key = Some v → (key, v) ∈ members.
Proof.
  induction members as [|[k v'] members IH]; simpl; [done|].
  destruct (objectGet members key) as [v''|] eqn:Hrest.
  - intros [= <-]. right. by apply IH.
  - case_decide; [|done]. intros [= <-]. subst. left.
Qed.

Lemma objectEntries_keys {A} (members : list (string * A)) :
  (objectEntries members).*1 = objectKeys members.
Proof.
  unfold objectEntries.
  assert (H : ∀ key, key ∈ objectKeys members → is_Some (objectGet members key)).
  { intros key Hin. by apply objectGet_is_Some, objectKeys_elem. }
  induction (objectKeys members) as [|key keys IH]; [done|]. simpl.
  destruct (H key) as [v Hv]; [left|]. rewrite Hv. simpl. f_equal.
  apply IH. intros k Hk. apply H. by right.
Qed.

Lemma objectEntries_length {A} (members : list (string * A)) :
  (length (objectEntries members) ≤ length members)%nat.
Proof.
  rewrite <- (length_fmap fst (objectEntries members)), objectEntries_keys.
  apply objectKeys_length.
Qed.

(** For names that are all different and none an array index, the object
    is as its text: every member one entry, in the order written. *)
Lemma remove_dups_NoDup {A} `{EqDecision A} (l : list A) : NoDup l → remove_dups l = l.
Proof.
  induction 1 as [|x l Hx _ IH]; [done|]. simpl. case_decide; [done|]. by rewrite IH.
Qed.

Lemma objectGet_NoDup {A} (members : list (string * A)) key v :
  NoDup members.*1 → (key, v) ∈ members → objectGet members key = Some v.
Proof.
  induction members as [|[k v'] members IH]; simpl; [by intros _ ?%elem_of_nil|].
  intros [Hk Hnd]%NoDup_cons Hin. apply elem_of_cons in Hin as [[= <- <-]|Hin].
  - destruct (objectGet members key) as [v''|] eqn:Hrest.
    + apply objectGet_elem in Hrest. destruct Hk.
      apply list_elem_of_fmap. by exists (key, v'').
    + by rewrite decide_True.
  - by rewrite (IH Hnd Hin).
Qed.

Lemma objectEntries_plain {A} (members : list (string * A)) :
  NoDup members.*1 → Forall (λ key, arrayIndex key = None) members.*1 →
  objectEntries members = members.
Proof.
  intros Hnd Hplain. unfold objectEntries, objectKeys, firstOccurrences.
  rewrite remove_dups_NoDup by (by rewrite reverse_Permutation).
  rewrite reverse_involutive.
  assert (E1 : filter (λ key, is_Some (arrayIndex key)) members.*1 = []).
  { clear Hnd. induction Hplain as [|key keys Hkey _ IH]; [done|].
    rewrite filter_cons_False; [done|]. rewrite Hkey. by intros [? ?]. }
  assert (E2 : filter (λ key, ¬ is_Some (arrayIndex key)) members.*1 = members.*1).
  { clear Hnd E1. induction Hplain as [|key keys Hkey _ IH]; [done|].
    rewrite filter_cons_True; [by rewrite IH|]. rewrite Hkey. by intros [? ?]. }
  rewrite E1, E2. simpl.
  assert (H : ∀ entries, entries ⊆ members →
            omap (λ key, (λ v, (key, v)) <$> objectGet members key) entries.*1 = entries).
  { induction entries as [|[k v] entries IH]; intros Hsub; [done|]. simpl.
    rewrite (objectGet_NoDup members k v Hnd) by (apply Hsub; left). simpl. f_equal.
    apply IH. intros x Hx. apply Hsub. by right. }
  by apply H.
Qed.

(** A name written twice is one key; array indices come first. *)
Example objectKeys_sample :
  objectKeys [("pikachu", 1); ("10", 2); ("charizard", 3); ("2", 4); ("pikachu", 5); ("02", 6)]
  = ["2"; "10"; "pikachu"; "charizard"; "02"] ∧
  objectEntries [("pikachu", 1); ("10", 2); ("charizard", 3); ("2", 4); ("pikachu", 5); ("02", 6)]
  = [("2", 4); ("10", 2); ("pikachu", 5); ("charizard", 3); ("02", 6)].
Proof. split; vm_compute; reflexivity. Qed.

End JsProps.

(** ** The effect monad *)

Module PageProps.

Import Page.
Local Open Scope string_scope.

Lemma returns_bind {A B} (m : JS A) (k : A → JS B) w (Q : B → World → Prop) :
  returns m w (λ a w', returns (k a) w' Q) → returns (bind m k) w Q.
Proof. unfold returns, bind. by destruct (m w). Qed.

Lemma returns_mono {A} (m : JS A) w (Q Q' : A → World → Prop) :
  returns m w Q → (∀ a w', Q a w' → Q' a w') → returns m w Q'.
Proof. unfold returns. destruct (m w); naive_solver. Qed.

Lemma returns_inv {A} (m : JS A) w (Q : A → World → Prop) :
  returns m w Q → ∃ a w', m w = Returned a w' ∧ Q a w'.
Proof. unfold returns. destruct (m w); naive_solver. Qed.

Lemma returns_assign id f w e (Q : unit → World → Prop) :
  document w !! id = Some e →
  Q tt (withDocument (<[id := f e]> (document w)) w) →
  returns (assign id f) w Q.
Proof. unfold returns, assign. by intros ->. Qed.

Lemma changesOnly_refl ids w : changesOnly ids w w.
Proof. by repeat split. Qed.

Lemma changesOnly_trans ids w1 w2 w3 :
  changesOnly ids w1 w2 → changesOnly ids w2 w3 → changesOnly ids w1 w3.
Proof.
  intros (?&?&?&?&?&H12) (?&?&?&?&?&H23).
  repeat split; try congruence.
  intros id Hid. rewrite H23, H12; done.
Qed.

Lemma changesOnly_assign ids w w' id e :
  id ∈ ids → changesOnly ids w w' →
  changesOnly ids w (withDocument (<[id := e]> (document w')) w').
Proof.
  intros Hin (?&?&?&?&?&H). repeat split; try done.
  intros id' Hid'. simpl. rewrite lookup_insert_ne; [by apply H | set_solver].
Qed.

Lemma changesOnly_weaken ids ids' w w' :
  ids ⊆ ids' → changesOnly ids w w' → changesOnly ids' w w'.
Proof.
  intros Hsub (?&?&?&?&?&H). repeat split; try done.
  intros id Hid. apply H. set_solver.
Qed.

(** Discharges [changesOnly] between a state and an explicit update of it. *)
Ltac solve_changesOnly :=
  repeat split; simpl; try done;
  let id := fresh "id" in let Hid := fresh "Hid" in
  intros id Hid; rewrite ?lookup_insert_ne by set_solver; done.

(** *** [async] functions: the call awaited and the call not awaited *)

Lemma bind_assoc {A B C} (m : JS A) (k : A → JS B) (k' : B → JS C) w :
  bind (bind m k) k' w = bind m (λ a, bind (k a) k') w.
Proof. unfold bind. by destruct (m w). Qed.

Lemma bind_ext {A B} (m : JS A) (k k' : A → JS B) w :
  (∀ a w', k a w' = k' a w') → bind m k w = bind m k' w.
Proof. intros H. unfold bind. by destruct (m w). Qed.

Lemma bind_eq {A B} (m m' : JS A) (k k' : A → JS B) w :
  m w = m' w → (∀ a w', k a w' = k' a w') → bind m k w = bind m' k' w.
Proof. intros Hm Hk. unfold bind. rewrite Hm. by destruct (m' w). Qed.

Lemma bind_unit (m : JS unit) w : bind m (λ _, ret tt) w = m w.
Proof. unfold bind, ret. by destruct (m w) as [[] w'|]. Qed.

Lemma awaited_app steps steps' w :
  awaited (steps ++ steps') w = bind (awaited steps) (λ _, awaited steps') w.
Proof.
  revert w. induction steps as [|[m|ms] steps IH]; intros w; [done| |];
    cbn [awaited app]; rewrite bind_assoc; apply bind_ext; intros _ w'; apply IH.
Qed.

(** An awaited call is its steps up to the first wait and then the steps
    pending. *)
Lemma awaited_split steps w :
  awaited steps w = bind (untilSleep steps) (λ _, awaited (pending steps)) w.
Proof.
  revert w. induction steps as [|[m|ms] steps IH]; intros w; [done| |done].
  cbn [awaited untilSleep pending]. rewrite bind_assoc. apply bind_ext. intros _ w'. apply IH.
Qed.

(** A wait among the steps: what follows it is run by neither
    [untilSleep] nor a call that is not awaited. *)
Lemma untilSleep_app steps ms steps' w :
  untilSleep (steps ++ Sleep ms :: steps') w = untilSleep (steps ++ [Sleep ms]) w.
Proof.
  revert w. induction steps as [|[m|ms'] steps IH]; intros w; [done| |done].
  cbn [untilSleep app]. apply bind_ext. intros _ w'. apply IH.
Qed.

Lemma pending_app steps ms steps' :
  pending (steps ++ Sleep ms :: steps') = (pending (steps ++ [Sleep ms]) ++ steps')%list.
Proof.
  induction steps as [|[m|ms'] steps IH]; [done | exact IH |].
  cbn [pending app]. by rewrite <- app_assoc.
Qed.

End PageProps.

Module BattleProps.

Import Page Battle Examples PageProps.
Local Open Scope string_scope.

(** C10. After [updateStatusEffects(pokemonNumber, status)] the status
    display of that side holds exactly one badge, showing the condition (in
    upper case), if and only if [status] is present and its condition is
    not ["none"]; otherwise the display is empty. *)
Theorem updateStatusEffects_single_badge
    (pokemonNumber : Z) (status : option Status) (w : World) (e : Element) :
  let statusDiv := "statusEffects" +:+ Js.numberToString pokemonNumber in
  document w !! statusDiv = Some e →
  ∃ w', updateStatusEffects pokemonNumber status w = Returned tt w' ∧
    (∀ st, status = Some st → condition st ≠ "none" →
       contentOf w' statusDiv
       = Some [Child (mkNode "span" "status-badge" (Js.toUpperCase (condition st)))]) ∧
    (status = None ∨ (∃ st, status = Some st ∧ condition st = "none") →
       contentOf w' statusDiv = Some []) ∧
    (∀ id, id ≠ statusDiv → document w' !! id = document w !! id) ∧
    battleState w' = battleState w.
Proof.
  intros statusDiv He.
  unfold updateStatusEffects. fold statusDiv.
  unfold bind, assign at 1. rewrite He.
  destruct status as [st|]; [destruct (decide (condition st = "none")) as [Hn|Hn] |].
  - rewrite bool_decide_eq_false_2 by naive_solver.
    eexists; split; [reflexivity|].
    unfold contentOf; simpl. rewrite lookup_insert_eq.
    split_and!; [naive_solver | done | intros; by rewrite lookup_insert_ne | done].
  - rewrite bool_decide_eq_true_2 by done.
    unfold assign; simpl. rewrite lookup_insert_eq.
    eexists; split; [reflexivity|].
    unfold contentOf; simpl. rewrite insert_insert_eq, lookup_insert_eq.
    split_and!; [intros st' Hst _; by simplify_eq | naive_solver
                | intros; by rewrite lookup_insert_ne | done].
  - eexists; split; [reflexivity|].
    unfold contentOf; simpl. rewrite lookup_insert_eq.
    split_and!; [done | done | intros; by rewrite lookup_insert_ne | done].
Qed.

Lemma forEach_appendChild {A} id (mk : A → Node) (xs : list A) w e :
  document w !! id = Some e →
  ∃ w', forEach xs (λ x, assign id (appendChild (mk x))) w = Returned tt w' ∧
    document w' !! id = Some (withContent (content e ++ ((Child ∘ mk) <$> xs)) e) ∧
    changesOnly [id] w w'.
Proof.
  revert w e. induction xs as [|x xs IH]; intros w e He.
  - exists w. split_and!; [done | | apply changesOnly_refl].
    rewrite He. destruct e. unfold withContent; simpl. by rewrite app_nil_r.
  - simpl. unfold bind, assign at 1. rewrite He.
    set (w1 := withDocument _ w).
    destruct (IH w1 (appendChild (mk x) e)) as (w' & Hrun & Hid & Hch).
    { subst w1; simpl. by rewrite lookup_insert_eq. }
    exists w'. split_and!; [done | |].
    + rewrite Hid. unfold appendChild, withContent; simpl.
      by rewrite <- app_assoc.
    + eapply changesOnly_trans; [| exact Hch].
      subst w1. apply changesOnly_assign; [set_solver | apply changesOnly_refl].
Qed.

(** C5, as amended.  For every validation result passed to
    [showValidationResults]: if it is not valid, the battle button is
    disabled when the call returns and exactly one error entry is rendered
    per reported error; if it is valid, the battle button is enabled.  The
    call itself changes nothing but the validation display and the
    button.  (That no battle starts after a validation that failed does
    not hold: the button is enabled again by the next
    [checkBattleReady].) *)
Theorem showValidationResults_button
    (result : ValidationResult) (w : World) (r l b : Element) :
  document w !! "validationResults" = Some r →
  document w !! "validationList" = Some l →
  document w !! "battleBtn" = Some b →
  ∃ w', showValidationResults result w = Returned tt w' ∧
    changesOnly ["validationResults"; "validationList"; "battleBtn"] w w' ∧
    (valid result = false →
       disabled <$> document w' !! "battleBtn" = Some true ∧
       contentOf w' "validationList"
       = Some ((λ error, Child (mkNode "li" "error" ("âœ— " +:+ error)))
               <$> errors result)) ∧
    (valid result = true →
       disabled <$> document w' !! "battleBtn" = Some false).
Proof.
  intros Hr Hl Hb. unfold showValidationResults.
  unfold bind at 1, assign at 1. rewrite Hr.
  unfold bind at 1, assign at 1. simpl. rewrite lookup_insert_eq, insert_insert_eq.
  unfold bind at 1, assign at 1. simpl. rewrite lookup_insert_ne, Hl by done.
  set (w1 := withDocument _ _).
  assert (Hw1 : changesOnly ["validationResults"; "validationList"; "battleBtn"] w w1).
  { subst w1. solve_changesOnly. }
  assert (Hb1 : document w1 !! "battleBtn" = Some b).
  { subst w1; simpl. by rewrite !lookup_insert_ne. }
  assert (Hl1 : document w1 !! "validationList" = Some (withInnerHTML "" l)).
  { subst w1; simpl. by rewrite lookup_insert_eq. }
  clearbody w1.
  destruct (valid result).
  - unfold bind, assign. rewrite Hl1. simpl.
    rewrite lookup_insert_ne, Hb1 by done.
    eexists; split; [reflexivity|]. split_and!; [| done |].
    + eapply changesOnly_trans; [exact Hw1 | solve_changesOnly].
    + intros _. simpl. by rewrite lookup_insert_eq.
  - destruct (forEach_appendChild "validationList"
                (λ error, mkNode "li" "error" ("âœ— " +:+ error))
                (errors result) w1 _ Hl1) as (w2 & Hrun & Hl2 & Hch).
    unfold bind. rewrite Hrun. unfold assign.
    assert (Hb2 : document w2 !! "battleBtn" = Some b).
    { destruct Hch as (_&_&_&_&_&Hch). rewrite Hch; [done | set_solver]. }
    rewrite Hb2.
    eexists; split; [reflexivity|]. split_and!; [| | done].
    + eapply changesOnly_trans; [exact Hw1 |].
      eapply changesOnly_trans;
        [eapply changesOnly_weaken; [| exact Hch]; set_solver | solve_changesOnly].
    + intros _. unfold contentOf. simpl.
      rewrite lookup_insert_eq, lookup_insert_ne, Hl2 by done. done.
Qed.

(** C7. [typeColors] defines exactly 18 keys, the 18 type labels, each
    once. *)
Theorem typeColors_eighteen_labels :
  typeColors.*1
  = [ "normal"; "fire"; "water"; "electric"; "grass"; "ice"; "fighting";
      "poison"; "ground"; "flying"; "psychic"; "bug"; "rock"; "ghost";
      "dragon"; "dark"; "steel"; "fairy" ] ∧
  length typeColors = 18%nat ∧
  NoDup (typeColors.*1) ∧
  size typeColorsMap = 18%nat.
Proof.
  split_and!; [reflexivity | reflexivity | | by vm_compute].
  apply (bool_decide_unpack _). by vm_compute.
Qed.

Lemma showError_spec message w :
  changesOnly ["errorText"; "errorMessage"] w (worldOf (showError message w)) ∧
  ∀ t m, document w !! "errorText" = Some t → document w !! "errorMessage" = Some m →
    ∃ w', showError message w = Returned tt w' ∧
      document w' !! "errorText" = Some (withTextContent message t) ∧
      document w' !! "errorMessage" = Some (withDisplay "flex" m).
Proof.
  unfold showError, bind, assign. split.
  - destruct (document w !! "errorText") as [t|] eqn:Ht; simpl;
      [| apply changesOnly_refl].
    rewrite lookup_insert_ne by done.
    destruct (document w !! "errorMessage") as [m|] eqn:Hm; simpl; solve_changesOnly.
  - intros t m -> Hm. simpl. rewrite lookup_insert_ne, Hm by done.
    eexists; split; [reflexivity|]. simpl.
    by rewrite lookup_insert_eq, lookup_insert_ne, lookup_insert_eq.
Qed.

(** C9. A call of [startBattle] while [battleState.battleInProgress] is
    true starts no battle: [battleState] is unchanged, no request is sent,
    and the page changes in nothing but the error message, which is shown. *)
Theorem startBattle_while_in_progress (reply : FetchReply SimulateResponse) (w : World) :
  battleInProgress (battleState w) = true →
  changesOnly ["errorText"; "errorMessage"] w (worldOf (startBattle reply w)) ∧
  ∀ t m, document w !! "errorText" = Some t → document w !! "errorMessage" = Some m →
    ∃ w', startBattle reply w = Returned tt w' ∧
      contentOf w' "errorText" = Some [Text "Battle already in progress"] ∧
      display <$> document w' !! "errorMessage" = Some "flex".
Proof.
  intros Hbusy.
  assert (Hrun : startBattle reply w = showError "Battle already in progress" w).
  { unfold startBattle, bind at 1, getBattleState. by rewrite Hbusy. }
  rewrite Hrun.
  destruct (showError_spec "Battle already in progress" w) as [Hch Hshow].
  split; [exact Hch|].
  intros t m Ht Hm. destruct (Hshow t m Ht Hm) as (w' & -> & Ht' & Hm').
  exists w'. split; [done|]. unfold contentOf. by rewrite Ht', Hm'.
Qed.

(** C8. [showBattleResults] announces the named side as the winner exactly
    when [battleResult.winner] is not ["Draw"], and a draw exactly when it
    is; in both cases the summary reports [total_turns] and each
    participant's final current/max hp. *)
Theorem showBattleResults_announcement
    (battleResult : BattleResult) (w : World) (a r t s : Element) :
  document w !! "battleArena" = Some a →
  document w !! "resultsScreen" = Some r →
  document w !! "winnerAnnouncement" = Some t →
  document w !! "summaryStats" = Some s →
  let p1 := participants_pokemon1 battleResult in
  let p2 := participants_pokemon2 battleResult in
  ∃ w', showBattleResults battleResult w = Returned tt w' ∧
    (winner battleResult ≠ "Draw" →
       contentOf w' "winnerAnnouncement"
       = Some [Text ("ðŸŽ‰ " +:+ winner battleResult +:+ " wins! ðŸŽ‰")]) ∧
    (winner battleResult = "Draw" →
       contentOf w' "winnerAnnouncement" = Some [Text "ðŸ¤ It's a draw! ðŸ¤"]) ∧
    "ðŸŽ‰ " +:+ winner battleResult +:+ " wins! ðŸŽ‰" ≠ "ðŸ¤ It's a draw! ðŸ¤" ∧
    (∃ s0 s1 s2 s3 s4,
       contentOf w' "summaryStats"
       = Some [Markup
           (s0 +:+ Js.numberToString (total_turns battleResult) +:+ " turns"
            +:+ s1 +:+ winner battleResult
            +:+ s2 +:+ pt_name p1 +:+ ": "
            +:+ Js.numberToString (hp_current (final_hp p1)) +:+ "/"
            +:+ Js.numberToString (hp_max (final_hp p1))
            +:+ s3 +:+ pt_name p2 +:+ ": "
            +:+ Js.numberToString (hp_current (final_hp p2)) +:+ "/"
            +:+ Js.numberToString (hp_max (final_hp p2)) +:+ s4)]) ∧
    battleInProgress (battleState w') = false.
Proof.
  intros Ha Hr Ht Hs p1 p2. unfold showBattleResults.
  unfold bind at 1, assign at 1. rewrite Ha.
  unfold bind at 1, assign at 1. simpl. rewrite lookup_insert_ne, Hr by done.
  assert (Hwin : ∀ x, "ðŸŽ‰ " +:+ x +:+ " wins! ðŸŽ‰" ≠ "ðŸ¤ It's a draw! ðŸ¤").
  { intros x H. vm_compute in H. discriminate H. }
  assert (Hrest : ∀ text w1 t1 s1,
    text ≠ "" →
    document w1 !! "winnerAnnouncement" = Some t1 →
    document w1 !! "summaryStats" = Some s1 →
    ∃ w', (assign "winnerAnnouncement" (withTextContent text) >>
           assign "summaryStats" (withInnerHTML ("
        <p><strong>Duration:</strong> "
    +:+ Js.numberToString (total_turns battleResult)
    +:+ " turns</p>
        <p><strong>Winner:</strong> "
    +:+ winner battleResult
    +:+ "</p>
        <p><strong>Final HP:</strong></p>
        <ul>
            <li>"
    +:+ pt_name (participants_pokemon1 battleResult)
    +:+ ": "
    +:+ Js.numberToString (hp_current (final_hp (participants_pokemon1 battleResult)))
    +:+ "/"
    +:+ Js.numberToString (hp_max (final_hp (participants_pokemon1 battleResult)))
    +:+ "</li>
            <li>"
    +:+ pt_name (participants_pokemon2 battleResult)
    +:+ ": "
    +:+ Js.numberToString (hp_current (final_hp (participants_pokemon2 battleResult)))
    +:+ "/"
    +:+ Js.numberToString (hp_max (final_hp (participants_pokemon2 battleResult)))
    +:+ "</li>
        </ul>
    ")) >>
           setBattleInProgress false)%js w1 = Returned tt w' ∧
      contentOf w' "winnerAnnouncement" = Some [Text text] ∧
      (∃ s0 s1 s2 s3 s4,
       contentOf w' "summaryStats"
       = Some [Markup
           (s0 +:+ Js.numberToString (total_turns battleResult) +:+ " turns"
            +:+ s1 +:+ winner battleResult
            +:+ s2 +:+ pt_name p1 +:+ ": "
            +:+ Js.numberToString (hp_current (final_hp p1)) +:+ "/"
            +:+ Js.numberToString (hp_max (final_hp p1))
            +:+ s3 +:+ pt_name p2 +:+ ": "
            +:+ Js.numberToString (hp_current (final_hp p2)) +:+ "/"
            +:+ Js.numberToString (hp_max (final_hp p2)) +:+ s4)]) ∧
      battleInProgress (battleState w') = false).
  { intros text w1 t1 s1 Htext Ht1 Hs1.
    unfold bind, assign, setBattleInProgress. rewrite Ht1. simpl.
    rewrite lookup_insert_ne, Hs1 by done.
    eexists; split; [reflexivity|]. unfold contentOf. simpl.
    rewrite lookup_insert_ne, !lookup_insert_eq by done. simpl.
    rewrite decide_False by done.
    split_and!; [done | | done].
    do 5 eexists. reflexivity. }
  set (w1 := withDocument _ _).
  assert (Ht1 : document w1 !! "winnerAnnouncement" = Some t).
  { subst w1; simpl. by rewrite !lookup_insert_ne. }
  assert (Hs1 : document w1 !! "summaryStats" = Some s).
  { subst w1; simpl. by rewrite !lookup_insert_ne. }
  clearbody w1.
  destruct (decide (winner battleResult = "Draw")) as [Hd|Hd].
  - rewrite bool_decide_eq_false_2 by naive_solver.
    destruct (Hrest "ðŸ¤ It's a draw! ðŸ¤" w1 t s) as (w' & Hrun & Hann & Hsum & Hprog);
      [done | done | done |].
    unfold bind at 1 in Hrun. unfold bind at 1.
    exists w'. split_and!; [exact Hrun | done | done | apply Hwin | done | done].
  - rewrite bool_decide_eq_true_2 by done.
    destruct (Hrest ("ðŸŽ‰ " +:+ winner battleResult +:+ " wins! ðŸŽ‰") w1 t s)
      as (w' & Hrun & Hann & Hsum & Hprog); [| done | done |].
    { intros H. vm_compute in H. discriminate H. }
    unfold bind at 1 in Hrun. unfold bind at 1.
    exists w'. split_and!; [exact Hrun | done | done | apply Hwin | done | done].
Qed.

Lemma getMoves_returns (pokemonNumber : Z) (w : World) (e1 e2 e3 e4 : Element) :
  let select i := "pokemon" +:+ Js.numberToString pokemonNumber
                  +:+ "Move" +:+ Js.numberToString i in
  document w !! select 1 = Some e1 → document w !! select 2 = Some e2 →
  document w !! select 3 = Some e3 → document w !! select 4 = Some e4 →
  getMoves pokemonNumber w = Returned [value e1; value e2; value e3; value e4] w.
Proof.
  intros select H1 H2 H3 H4. unfold getMoves.
  change (seqZ 1 4) with [1; 2; 3; 4]. cbn [foldl].
  fold (select 1) (select 2) (select 3) (select 4).
  unfold bind, read, ret. by rewrite H1, H2, H3, H4.
Qed.

(** C4, as the code has it. On a page where both Pokemon are loaded (and
    which has its two level sliders and eight move selects),
    [getBattleConfig] returns a configuration in which each side carries
    exactly 4 move identifiers, the values of that side's four selects in
    order, and as level what [parseInt] makes of that side's slider value;
    the page is left as it was. *)
Theorem getBattleConfig_loaded
    (w : World) (p1 p2 : PokemonData)
    (l1 l2 m11 m12 m13 m14 m21 m22 m23 m24 : Element) :
  pokemon1 (battleState w) = Some p1 →
  pokemon2 (battleState w) = Some p2 →
  document w !! "pokemon1Level" = Some l1 →
  document w !! "pokemon2Level" = Some l2 →
  document w !! "pokemon1Move1" = Some m11 → document w !! "pokemon1Move2" = Some m12 →
  document w !! "pokemon1Move3" = Some m13 → document w !! "pokemon1Move4" = Some m14 →
  document w !! "pokemon2Move1" = Some m21 → document w !! "pokemon2Move2" = Some m22 →
  document w !! "pokemon2Move3" = Some m23 → document w !! "pokemon2Move4" = Some m24 →
  ∃ config, getBattleConfig w = Returned config w ∧
    cfg_name (cfg_pokemon1 config) = pd_name p1 ∧
    cfg_name (cfg_pokemon2 config) = pd_name p2 ∧
    cfg_moves (cfg_pokemon1 config) = [value m11; value m12; value m13; value m14] ∧
    cfg_moves (cfg_pokemon2 config) = [value m21; value m22; value m23; value m24] ∧
    length (cfg_moves (cfg_pokemon1 config)) = 4%nat ∧
    length (cfg_moves (cfg_pokemon2 config)) = 4%nat ∧
    cfg_level (cfg_pokemon1 config) = Js.parseInt (value l1) ∧
    cfg_level (cfg_pokemon2 config) = Js.parseInt (value l2).
Proof.
  intros Hp1 Hp2 Hl1 Hl2 H11 H12 H13 H14 H21 H22 H23 H24.
  pose proof (getMoves_returns 1 w m11 m12 m13 m14 H11 H12 H13 H14) as Hm1.
  pose proof (getMoves_returns 2 w m21 m22 m23 m24 H21 H22 H23 H24) as Hm2.
  unfold getBattleConfig, bind, ofLoaded, read, ret.
  rewrite Hp1, Hl1, Hm1, Hp2, Hl2, Hm2.
  eexists; split; [reflexivity|]. simpl. by split_and!.
Qed.

(** A slider of range 1..100 holds the decimal numeral of an integer in
    that range, and [parseInt] reads it back. *)
Lemma parseInt_slider_value (n : Z) :
  (1 ≤ n ≤ 100)%Z → Js.parseInt (Js.numberToString n) = Some n.
Proof.
  intros Hn.
  assert (Hall : Forall (λ n, Js.parseInt (Js.numberToString n) = Some n) (seqZ 1 100)).
  { apply (bool_decide_unpack _). by vm_compute. }
  rewrite Forall_forall in Hall. apply Hall.
  apply elem_of_seqZ. lia.
Qed.

(** [validateBattle] asks for the configuration only once both Pokemon
    are loaded: before that it shows an error and sends nothing. *)
Lemma validateBattle_guard (reply : FetchReply ValidationResult) (w : World) :
  pokemon1 (battleState w) = None ∨ pokemon2 (battleState w) = None →
  validateBattle reply w = showError "Please load both PokÃ©mon first" w.
Proof.
  intros H. unfold validateBattle, bind at 1, getBattleState.
  destruct H as [-> | ->]; [done|]. by destruct (pokemon1 (battleState w)).
Qed.

(** C4 fails as stated for every page: while no Pokemon is loaded, as on
    the page just served, [getBattleConfig] throws on
    [battleState.pokemon1.name] and returns no configuration. *)
Lemma getBattleConfig_throws_on_fresh_page :
  ¬ ∃ config w', getBattleConfig freshPage = Returned config w'.
Proof. intros (config & w' & H). vm_compute in H. discriminate H. Qed.

(** *** The battle log under [animateBattle] *)

Ltac in_arena := apply (bool_decide_unpack _); by vm_compute.
Ltac str_neq := let H := fresh in intros H; vm_compute in H; discriminate H.

Lemma returns_seq {A B} (m : JS A) (k : A → JS B) w (P : World → Prop)
    (Q : B → World → Prop) :
  returns m w (λ _, P) → (∀ a w', P w' → returns (k a) w' Q) →
  returns (bind m k) w Q.
Proof.
  intros Hm Hk. apply returns_bind. eapply returns_mono; [exact Hm|].
  intros a w' HP. by apply Hk.
Qed.

Lemma logIs_update rs L w id e e' :
  logIs rs L w → document w !! id = Some e →
  (id = "battleLog" → content e' = content e) →
  logIs rs L (withDocument (<[id := e']> (document w)) w).
Proof.
  intros [[Hp Hids] [Hlog Hreq]] He Hc. split; [split; [done|] | split; [| done]].
  - intros id' Hin. simpl. destruct (decide (id = id')) as [->|Hne].
    + by rewrite lookup_insert_eq.
    + rewrite lookup_insert_ne by done. by apply Hids.
  - unfold contentOf in *. simpl. destruct (decide (id = "battleLog")) as [->|Hne].
    + rewrite lookup_insert_eq. rewrite He in Hlog. simpl in *.
      by rewrite Hc.
    + by rewrite lookup_insert_ne.
Qed.

Lemma assign_keeps rs id f L w :
  id ∈ arenaIds → id ≠ "battleLog" → logIs rs L w →
  returns (assign id f) w (λ _, logIs rs L).
Proof.
  intros Hin Hne HL. destruct (proj2 (proj1 HL) id Hin) as [e He].
  eapply returns_assign; [exact He|].
  eapply logIs_update; [done | done | done].
Qed.

Lemma assign_log_append rs n L w :
  logIs rs L w → returns (assign "battleLog" (appendChild n)) w (λ _, logIs rs (L ++ [Child n])).
Proof.
  intros [[Hp Hids] [Hlog Hreq]].
  destruct (Hids "battleLog") as [e He]; [in_arena|].
  eapply returns_assign; [exact He|].
  unfold contentOf in Hlog. rewrite He in Hlog. simpl in Hlog. simplify_eq.
  split; [split; [done|] | split; [| done]].
  - intros id' Hin. simpl. destruct (decide ("battleLog" = id')) as [<-|Hne].
    + by rewrite lookup_insert_eq.
    + rewrite lookup_insert_ne by done. by apply Hids.
  - unfold contentOf. simpl. by rewrite lookup_insert_eq.
Qed.

Lemma runCallback_keeps rs c L w : logIs rs L w → logIs rs L (runCallback c w).
Proof.
  intros [[Hp Hids] [Hlog Hreq]]. destruct c as [id cls|]; [|done].
  split; [split; [done|] | split; [| done]].
  - intros id' Hin. simpl. destruct (Hids id' Hin) as [e He].
    destruct (decide (id = id')) as [->|Hne].
    + rewrite lookup_alter_eq, He. simpl. eauto.
    + rewrite lookup_alter_ne by done. eauto.
  - unfold contentOf in *. simpl.
    destruct (decide (id = "battleLog")) as [->|Hne].
    + rewrite lookup_alter_eq.
      destruct (document w !! "battleLog") as [e|]; [|done]. done.
    + by rewrite lookup_alter_ne.
Qed.

Lemma sleep_keeps rs ms L w : logIs rs L w → returns (sleep ms) w (λ _, logIs rs L).
Proof.
  intros HL. unfold returns, sleep.
  set (cs := sortByDue _). clearbody cs.
  assert (Hfold : logIs rs L (foldl (λ acc t, runCallback t.2 acc) w cs)).
  { revert w HL. induction cs as [|c cs IH]; intros w HL; [done|].
    simpl. apply IH. by apply runCallback_keeps. }
  destruct Hfold as [[Hp Hids] [Hlog Hreq]]. by repeat split.
Qed.

Lemma setTimeout_keeps rs c d L w : logIs rs L w → returns (setTimeout c d) w (λ _, logIs rs L).
Proof. intros [[Hp Hids] [Hlog Hreq]]. by repeat split. Qed.

Lemma spriteOf_returns rs who L w :
  logIs rs L w →
  returns (spriteOf who) w
    (λ id w', w' = w ∧ (id = "battleSprite1" ∨ id = "battleSprite2")).
Proof.
  intros [[[p Hp] _] _]. unfold returns, spriteOf, bind, ofLoaded, ret.
  rewrite Hp. split; [done|]. case_decide; auto.
Qed.

Lemma animateSprite_keeps rs who cls (after : string → JS unit) L w :
  logIs rs L w →
  (∀ id w', logIs rs L w' → returns (after id) w' (λ _, logIs rs L)) →
  returns (let* sprite := spriteOf who in
           assign sprite (classListAdd cls) >> after sprite)%js w (λ _, logIs rs L).
Proof.
  intros HL Hafter. apply returns_bind.
  eapply returns_mono; [by eapply spriteOf_returns|].
  intros id w' [-> Hid]. simpl.
  eapply returns_seq; [| intros _ w1 H1; by apply Hafter].
  destruct Hid as [-> | ->]; (apply assign_keeps; [in_arena | done | done]).
Qed.

Lemma animateEvent_keeps rs event L w :
  logIs rs L w → returns (animateEvent event) w (λ _, logIs rs L).
Proof.
  intros HL. unfold animateEvent. repeat case_decide.
  - apply animateSprite_keeps; [done|]. intros id w' H'. by apply setTimeout_keeps.
  - apply animateSprite_keeps; [done|]. intros id w' H'. by apply setTimeout_keeps.
  - eapply returns_seq with (P := logIs rs L).
    + destruct HL as [[Hp Hids] [Hlog Hreq]]. by repeat split.
    + intros _ w' H'. by apply setTimeout_keeps.
  - apply returns_bind.
    eapply returns_mono; [by eapply spriteOf_returns|].
    intros id w' [-> [-> | ->]]; simpl; (apply assign_keeps; [in_arena | done | done]).
  - done.
Qed.

Lemma animateLoggedEvent_appends rs event L w :
  logIs rs L w →
  returns (animateLoggedEvent event) w (λ _, logIs rs (L ++ [Child (logEntry event)])).
Proof.
  intros HL. unfold animateLoggedEvent.
  eapply returns_seq; [by apply animateEvent_keeps|]. intros _ w1 H1.
  eapply returns_seq; [by apply assign_log_append|]. intros _ w2 H2.
  by apply sleep_keeps.
Qed.

Lemma forEach_appends rs {A} (body : A → JS unit) (f : A → list Item) xs L w :
  (∀ x L w, logIs rs L w → returns (body x) w (λ _, logIs rs (L ++ f x))) →
  logIs rs L w →
  returns (forEach xs body) w (λ _, logIs rs (L ++ concat (f <$> xs))).
Proof.
  intros Hbody. revert L w. induction xs as [|x xs IH]; intros L w HL.
  - simpl. by rewrite app_nil_r.
  - simpl. eapply returns_seq; [by apply Hbody|]. intros _ w1 H1.
    rewrite app_assoc. by apply IH.
Qed.

Lemma updateHealthBar_keeps rs n percentage L w :
  n = 1 ∨ n = 2 → logIs rs L w →
  returns (updateHealthBar n percentage) w (λ _, logIs rs L).
Proof.
  intros Hn HL. unfold updateHealthBar.
  assert (Hbar : ∀ f w', logIs rs L w' →
    returns (assign ("healthBar" +:+ Js.numberToString n) f) w' (λ _, logIs rs L)).
  { intros f w' H'. destruct Hn as [-> | ->];
      (apply assign_keeps; [in_arena | str_neq | done]). }
  eapply returns_seq; [by apply Hbar|]. intros _ w1 H1.
  repeat case_match; by apply Hbar.
Qed.

Lemma updateStatusEffects_keeps rs n status L w :
  n = 1 ∨ n = 2 → logIs rs L w →
  returns (updateStatusEffects n status) w (λ _, logIs rs L).
Proof.
  intros Hn HL. unfold updateStatusEffects.
  assert (Hdiv : ∀ f w', logIs rs L w' →
    returns (assign ("statusEffects" +:+ Js.numberToString n) f) w' (λ _, logIs rs L)).
  { intros f w' H'. destruct Hn as [-> | ->];
      (apply assign_keeps; [in_arena | str_neq | done]). }
  eapply returns_seq; [by apply Hdiv|]. intros _ w1 H1.
  repeat case_match; first [by apply Hdiv | done].
Qed.

Lemma updatePokemonState_keeps rs (state : PokemonState) n L w :
  n = 1 ∨ n = 2 → logIs rs L w →
  returns (updatePokemonState state n) w (λ _, logIs rs L).
Proof.
  intros Hn HL. unfold updatePokemonState.
  eapply returns_seq; [by apply updateHealthBar_keeps|]. intros _ w1 H1.
  eapply returns_seq; [| intros _ w2 H2; by apply updateStatusEffects_keeps].
  destruct Hn as [-> | ->]; (apply assign_keeps; [in_arena | str_neq | done]).
Qed.

(** The loop of [updatePokemonStates] goes over the entries of the
    object. *)
Lemma updatePokemonStates_entries states w :
  updatePokemonStates states w
  = forEachIndexed 0 (Js.objectEntries states)
      (λ entry index, updatePokemonState entry.2 (index + 1)) w.
Proof.
  unfold updatePokemonStates, Js.objectEntries.
  assert (H : ∀ key, key ∈ Js.objectKeys states → is_Some (Js.objectGet states key)).
  { intros key Hin. by apply JsProps.objectGet_is_Some, JsProps.objectKeys_elem. }
  revert w H. generalize 0.
  induction (Js.objectKeys states) as [|key keys IH]; intros i w H; [done|].
  destruct (H key) as [state Hstate]; [left|].
  cbn [forEachIndexed]. cbn -[updatePokemonState forEachIndexed Js.objectGet].
  rewrite Hstate. cbn -[updatePokemonState]. apply bind_ext. intros _ w1. apply IH. intros k Hk. apply H. by right.
Qed.

Lemma updatePokemonStates_keeps rs states L w :
  (length states ≤ 2)%nat → logIs rs L w →
  returns (updatePokemonStates states) w (λ _, logIs rs L).
Proof.
  intros Hlen HL. unfold returns. rewrite updatePokemonStates_entries.
  pose proof (JsProps.objectEntries_length states) as Hle.
  destruct (Js.objectEntries states) as [|s1 [|s2 [|s3 rest]]]; simpl in Hle; [done | | | lia].
  - simpl. eapply returns_seq; [| intros _ w1 H1; exact H1].
    apply (updatePokemonState_keeps rs s1.2 1); auto.
  - simpl. eapply returns_seq; [by apply (updatePokemonState_keeps rs s1.2 1); auto|].
    intros _ w1 H1. eapply returns_seq; [| intros _ w2 H2; exact H2].
    apply (updatePokemonState_keeps rs s2.2 2); auto.
Qed.

Lemma setBattleInProgress_keeps rs b L w :
  logIs rs L w → returns (setBattleInProgress b) w (λ _, logIs rs L).
Proof. intros [[Hp Hids] [Hlog Hreq]]. by repeat split. Qed.

Lemma showBattleResults_keeps rs battleResult L w :
  logIs rs L w → returns (showBattleResults battleResult) w (λ _, logIs rs L).
Proof.
  intros HL. unfold showBattleResults.
  eapply returns_seq; [by apply assign_keeps; [in_arena | done | done]|]. intros _ w1 H1.
  eapply returns_seq; [by apply assign_keeps; [in_arena | done | done]|]. intros _ w2 H2.
  eapply returns_seq with (P := logIs rs L).
  { case_match; (apply assign_keeps; [in_arena | done | done]). }
  intros _ w3 H3.
  eapply returns_seq; [by apply assign_keeps; [in_arena | done | done]|]. intros _ w4 H4.
  by apply setBattleInProgress_keeps.
Qed.

Lemma concat_singletons {A B} (f : A → B) (xs : list A) :
  concat ((λ x, [f x]) <$> xs) = f <$> xs.
Proof. induction xs as [|x xs IH]; [done|]. rewrite !fmap_cons. simpl. by f_equal. Qed.

Lemma animateTurn_appends rs t L w :
  (∀ states, pokemon_states t = Some states → (length states ≤ 2)%nat) →
  logIs rs L w →
  returns (animateTurn t) w (λ _, logIs rs (L ++ turnEntries t)).
Proof.
  intros Hst HL. unfold animateTurn, turnEntries.
  eapply returns_seq; [by apply assign_keeps; [in_arena | done | done]|]. intros _ w1 H1.
  eapply returns_seq; [by apply assign_log_append|]. intros _ w2 H2.
  eapply returns_seq.
  { apply (forEach_appends rs animateLoggedEvent (λ event, [Child (logEntry event)]));
      [apply animateLoggedEvent_appends | exact H2]. }
  intros _ w3 H3.
  rewrite (concat_singletons (Child ∘ logEntry)), <- app_assoc in H3. simpl in H3.
  eapply returns_seq; [| intros _ w4 H4; by apply sleep_keeps].
  destruct (pokemon_states t) as [states|]; [|done].
  apply updatePokemonStates_keeps; [by apply Hst | done].
Qed.

(** C6. [animateBattle] consumes the battle log passively and in order:
    on a page that has the arena's elements, with the first Pokemon
    loaded, and for a result whose snapshots cover at most the two
    combatants, it returns, the entries it has appended to the battle log
    are exactly one turn header per turn record followed by one entry per
    event of that turn, in the order of [battle_log], none skipped,
    duplicated or reordered, and it has sent no request. *)
Theorem animateBattle_log_in_order (battleResult : BattleResult) (w : World) (L : list Item) :
  arenaReady w →
  twoSided battleResult →
  contentOf w "battleLog" = Some L →
  ∃ w', animateBattle battleResult w = Returned tt w' ∧
    contentOf w' "battleLog" = Some (L ++ battleLogEntries battleResult)%list ∧
    requests w' = requests w.
Proof.
  intros Hready Htwo Hlog.
  assert (Hrun : ∀ rs, logIs rs L w →
            returns (animateBattle battleResult) w
              (λ _, logIs rs (L ++ battleLogEntries battleResult))).
  { intros rs HL. unfold animateBattle, battleLogEntries.
    eapply returns_seq; [| intros _ w1 H1; by apply showBattleResults_keeps].
    unfold twoSided in Htwo. clear Hready Hlog. revert L w HL.
    induction Htwo as [|t ts Ht Hts IH]; intros L w HL.
    - simpl. by rewrite app_nil_r.
    - rewrite fmap_cons. cbn [forEach concat].
      eapply returns_seq; [by apply animateTurn_appends|].
      intros _ w1 H1. rewrite app_assoc. by apply IH. }
  destruct (returns_inv _ _ _ (Hrun (requests w) (conj Hready (conj Hlog eq_refl))))
    as ([] & w' & Hret & [_ [Hlog' Hreq']]).
  eauto.
Qed.

(** ** The properties at work on the concrete page *)

Lemma readyPage_arenaReady : arenaReady readyPage.
Proof.
  split; [by eexists|].
  apply Forall_forall. apply (bool_decide_unpack _). by vm_compute.
Defined.

Lemma sampleResult_twoSided : twoSided sampleResult.
Proof.
  unfold twoSided. simpl.
  repeat (apply Forall_cons; split;
          [intros states Hst; injection Hst as <-; simpl; lia |]).
  apply Forall_nil_2.
Defined.

Lemma updateStatusEffects_single_badge_witness :
  document readyPage !! ("statusEffects" +:+ Js.numberToString 2) = Some blank ∧
  ∃ w', updateStatusEffects 2 (Some (mkStatus "burn")) readyPage = Returned tt w' ∧
    contentOf w' "statusEffects2" = Some [Child (mkNode "span" "status-badge" "BURN")].
Proof.
  assert (H : document readyPage !! ("statusEffects" +:+ Js.numberToString 2) = Some blank)
    by (vm_compute; reflexivity).
  split; [exact H|].
  destruct (updateStatusEffects_single_badge 2 (Some (mkStatus "burn")) readyPage blank H)
    as (w' & Hrun & Hbadge & _).
  exists w'. split; [exact Hrun|].
  exact (Hbadge (mkStatus "burn") eq_refl ltac:(discriminate)).
Defined.

Lemma showValidationResults_button_witness :
  document readyPage !! "validationResults" = Some blank ∧
  document readyPage !! "validationList" = Some blank ∧
  document readyPage !! "battleBtn" = Some (withDisabled true blank) ∧
  (∃ w', showValidationResults sampleInvalid readyPage = Returned tt w' ∧
    changesOnly ["validationResults"; "validationList"; "battleBtn"] readyPage w' ∧
    (valid sampleInvalid = false →
       disabled <$> document w' !! "battleBtn" = Some true ∧
       contentOf w' "validationList"
       = Some ((λ error, Child (mkNode "li" "error" ("âœ— " +:+ error)))
               <$> errors sampleInvalid)) ∧
    (valid sampleInvalid = true →
       disabled <$> document w' !! "battleBtn" = Some false)).
Proof.
  assert (Hr : document readyPage !! "validationResults" = Some blank)
    by (vm_compute; reflexivity).
  assert (Hl : document readyPage !! "validationList" = Some blank)
    by (vm_compute; reflexivity).
  assert (Hb : document readyPage !! "battleBtn" = Some (withDisabled true blank))
    by (vm_compute; reflexivity).
  exact (conj Hr (conj Hl (conj Hb
    (showValidationResults_button sampleInvalid readyPage _ _ _ Hr Hl Hb)))).
Defined.

Lemma startBattle_while_in_progress_witness :
  battleInProgress (battleState busyPage) = true ∧
  changesOnly ["errorText"; "errorMessage"] busyPage
    (worldOf (startBattle (Json (Success sampleResult)) busyPage)) ∧
  ∀ t m, document busyPage !! "errorText" = Some t →
    document busyPage !! "errorMessage" = Some m →
    ∃ w', startBattle (Json (Success sampleResult)) busyPage = Returned tt w' ∧
      contentOf w' "errorText" = Some [Text "Battle already in progress"] ∧
      display <$> document w' !! "errorMessage" = Some "flex".
Proof.
  assert (H : battleInProgress (battleState busyPage) = true) by reflexivity.
  exact (conj H (startBattle_while_in_progress (Json (Success sampleResult)) busyPage H)).
Defined.

Lemma showBattleResults_announcement_witness :
  document readyPage !! "battleArena" = Some blank ∧
  document readyPage !! "resultsScreen" = Some blank ∧
  document readyPage !! "winnerAnnouncement" = Some blank ∧
  document readyPage !! "summaryStats" = Some blank ∧
  (∃ w', showBattleResults sampleResult readyPage = Returned tt w' ∧
    (winner sampleResult ≠ "Draw" →
       contentOf w' "winnerAnnouncement"
       = Some [Text ("ðŸŽ‰ " +:+ winner sampleResult +:+ " wins! ðŸŽ‰")]) ∧
    (winner sampleResult = "Draw" →
       contentOf w' "winnerAnnouncement" = Some [Text "ðŸ¤ It's a draw! ðŸ¤"]) ∧
    "ðŸŽ‰ " +:+ winner sampleResult +:+ " wins! ðŸŽ‰" ≠ "ðŸ¤ It's a draw! ðŸ¤" ∧
    (∃ s0 s1 s2 s3 s4,
       contentOf w' "summaryStats"
       = Some [Markup
           (s0 +:+ Js.numberToString (total_turns sampleResult) +:+ " turns"
            +:+ s1 +:+ winner sampleResult
            +:+ s2 +:+ pt_name (participants_pokemon1 sampleResult) +:+ ": "
            +:+ Js.numberToString (hp_current (final_hp (participants_pokemon1 sampleResult))) +:+ "/"
            +:+ Js.numberToString (hp_max (final_hp (participants_pokemon1 sampleResult)))
            +:+ s3 +:+ pt_name (participants_pokemon2 sampleResult) +:+ ": "
            +:+ Js.numberToString (hp_current (final_hp (participants_pokemon2 sampleResult))) +:+ "/"
            +:+ Js.numberToString (hp_max (final_hp (participants_pokemon2 sampleResult))) +:+ s4)]) ∧
    battleInProgress (battleState w') = false).
Proof.
  assert (Ha : document readyPage !! "battleArena" = Some blank)
    by (vm_compute; reflexivity).
  assert (Hr : document readyPage !! "resultsScreen" = Some blank)
    by (vm_compute; reflexivity).
  assert (Ht : document readyPage !! "winnerAnnouncement" = Some blank)
    by (vm_compute; reflexivity).
  assert (Hs : document readyPage !! "summaryStats" = Some blank)
    by (vm_compute; reflexivity).
  exact (conj Ha (conj Hr (conj Ht (conj Hs
    (showBattleResults_announcement sampleResult readyPage _ _ _ _ Ha Hr Ht Hs))))).
Defined.

Lemma animateBattle_log_in_order_witness :
  arenaReady readyPage ∧ twoSided sampleResult ∧
  contentOf readyPage "battleLog" = Some [] ∧
  ∃ w', animateBattle sampleResult readyPage = Returned tt w' ∧
    contentOf w' "battleLog" = Some ([] ++ battleLogEntries sampleResult)%list ∧
    requests w' = requests readyPage.
Proof.
  assert (Hlog : contentOf readyPage "battleLog" = Some []) by (vm_compute; reflexivity).
  exact (conj readyPage_arenaReady (conj sampleResult_twoSided (conj Hlog
    (animateBattle_log_in_order sampleResult readyPage []
       readyPage_arenaReady sampleResult_twoSided Hlog)))).
Defined.

Lemma getBattleConfig_loaded_witness :
  pokemon1 (battleState readyPage) = Some pikachu ∧
  pokemon2 (battleState readyPage) = Some charizard ∧
  document readyPage !! "pokemon1Level" = Some (withValue "50" blank) ∧
  document readyPage !! "pokemon2Level" = Some (withValue "36" blank) ∧
  document readyPage !! "pokemon1Move1" = Some (withValue "thunderbolt" blank) ∧
  document readyPage !! "pokemon1Move2" = Some (withValue "quick-attack" blank) ∧
  document readyPage !! "pokemon1Move3" = Some (withValue "iron-tail" blank) ∧
  document readyPage !! "pokemon1Move4" = Some (withValue "thunder" blank) ∧
  document readyPage !! "pokemon2Move1" = Some (withValue "flamethrower" blank) ∧
  document readyPage !! "pokemon2Move2" = Some (withValue "dragon-pulse" blank) ∧
  document readyPage !! "pokemon2Move3" = Some (withValue "air-slash" blank) ∧
  document readyPage !! "pokemon2Move4" = Some (withValue "solar-beam" blank) ∧
  getBattleConfig readyPage
  = Returned
      (mkBattleConfig
         (mkPokemonConfig "pikachu" (Some 50)
            ["thunderbolt"; "quick-attack"; "iron-tail"; "thunder"])
         (mkPokemonConfig "charizard" (Some 36)
            ["flamethrower"; "dragon-pulse"; "air-slash"; "solar-beam"]))
      readyPage.
Proof.
  assert (Hp1 : pokemon1 (battleState readyPage) = Some pikachu) by reflexivity.
  assert (Hp2 : pokemon2 (battleState readyPage) = Some charizard) by reflexivity.
  assert (Hl1 : document readyPage !! "pokemon1Level" = Some (withValue "50" blank))
    by (vm_compute; reflexivity).
  assert (Hl2 : document readyPage !! "pokemon2Level" = Some (withValue "36" blank))
    by (vm_compute; reflexivity).
  assert (H11 : document readyPage !! "pokemon1Move1" = Some (withValue "thunderbolt" blank))
    by (vm_compute; reflexivity).
  assert (H12 : document readyPage !! "pokemon1Move2" = Some (withValue "quick-attack" blank))
    by (vm_compute; reflexivity).
  assert (H13 : document readyPage !! "pokemon1Move3" = Some (withValue "iron-tail" blank))
    by (vm_compute; reflexivity).
  assert (H14 : document readyPage !! "pokemon1Move4" = Some (withValue "thunder" blank))
    by (vm_compute; reflexivity).
  assert (H21 : document readyPage !! "pokemon2Move1" = Some (withValue "flamethrower" blank))
    by (vm_compute; reflexivity).
  assert (H22 : document readyPage !! "pokemon2Move2" = Some (withValue "dragon-pulse" blank))
    by (vm_compute; reflexivity).
  assert (H23 : document readyPage !! "pokemon2Move3" = Some (withValue "air-slash" blank))
    by (vm_compute; reflexivity).
  assert (H24 : document readyPage !! "pokemon2Move4" = Some (withValue "solar-beam" blank))
    by (vm_compute; reflexivity).
  repeat (split; [assumption|]).
  destruct (getBattleConfig_loaded readyPage pikachu charizard _ _ _ _ _ _ _ _ _ _
              Hp1 Hp2 Hl1 Hl2 H11 H12 H13 H14 H21 H22 H23 H24)
    as (config & Hrun & Hn1 & Hn2 & Hm1 & Hm2 & _ & _ & Hlv1 & Hlv2).
  rewrite Hrun. clear -Hn1 Hn2 Hm1 Hm2 Hlv1 Hlv2.
  destruct config as [[n1 lv1 ms1] [n2 lv2 ms2]].
  cbn [cfg_name cfg_moves cfg_level cfg_pokemon1 cfg_pokemon2] in *.
  rewrite Hn1, Hn2, Hm1, Hm2, Hlv1, Hlv2. reflexivity.
Defined.

(** ** The animation as steps *)

Lemma awaited_animateLoggedEvent event w :
  awaited (animateLoggedEventSteps event) w = animateLoggedEvent event w.
Proof.
  unfold animateLoggedEventSteps, animateLoggedEvent. cbn [awaited].
  rewrite bind_assoc. apply bind_ext. intros _ w1. apply bind_ext. intros _ w2.
  apply bind_unit.
Qed.

Lemma awaited_events events w :
  awaited (concat (animateLoggedEventSteps <$> events)) w = forEach events animateLoggedEvent w.
Proof.
  revert w. induction events as [|event events IH]; intros w; [done|].
  rewrite fmap_cons. cbn [concat forEach]. rewrite awaited_app.
  apply bind_eq; [apply awaited_animateLoggedEvent | intros _ w1; apply IH].
Qed.

Lemma awaited_animateTurn t w : awaited (animateTurnSteps t) w = animateTurn t w.
Proof.
  unfold animateTurnSteps, animateTurn. cbn [awaited].
  rewrite bind_assoc. apply bind_ext. intros _ w1. apply bind_ext. intros _ w2.
  rewrite awaited_app. apply bind_eq; [apply awaited_events | intros _ w3].
  cbn [awaited]. apply bind_ext. intros _ w4. apply bind_unit.
Qed.

Lemma awaited_turns turns w :
  awaited (concat (animateTurnSteps <$> turns)) w = forEach turns animateTurn w.
Proof.
  revert w. induction turns as [|t turns IH]; intros w; [done|].
  rewrite fmap_cons. cbn [concat forEach]. rewrite awaited_app.
  apply bind_eq; [apply awaited_animateTurn | intros _ w1; apply IH].
Qed.

(** The steps, awaited, are [animateBattle]. *)
Lemma awaited_animateBattle battleResult w :
  awaited (animateBattleSteps battleResult) w = animateBattle battleResult w.
Proof.
  unfold animateBattleSteps, animateBattle. rewrite awaited_app.
  apply bind_eq; [apply awaited_turns | intros _ w1].
  cbn [awaited]. apply bind_unit.
Qed.

(** ** Whole runs on the concrete page *)

(** A battle started from the ready page and answered with the sample
    result.  When [startBattle] returns, one request has gone out, the
    header of the first turn and the entry of its first event are in the
    log, and the battle is in progress; the steps then pending fill the
    log in order, announce the winner and end the battle, 7600 ms
    later. *)
Example startBattle_then_animation :
  let w' := worldOf (startBattle (Json (Success sampleResult)) readyPage) in
  let w'' := worldOf (awaited (pending (animateBattleSteps sampleResult)) w') in
  (length <$> contentOf w' "battleLog" = Some 2%nat ∧
   length (requests w') = 1%nat ∧
   battleInProgress (battleState w') = true ∧
   currentBattle (battleState w') = Some sampleResult ∧
   display <$> document w' !! "resultsScreen" = Some "" ∧
   Z.of_nat (now w') = 0%Z) ∧
  (contentOf w'' "battleLog" = Some (battleLogEntries sampleResult) ∧
   length (requests w'') = 1%nat ∧
   battleInProgress (battleState w'') = false ∧
   currentBattle (battleState w'') = Some sampleResult ∧
   display <$> document w'' !! "resultsScreen" = Some "block" ∧
   timers w'' = [] ∧ Z.of_nat (now w'') = 7600%Z).
Proof. vm_compute. by repeat split. Qed.

(** The request fails: the error is shown and the set-up screen is back. *)
Example startBattle_rejected :
  let w' := worldOf (startBattle (Rejected "Failed to fetch") readyPage) in
  contentOf w' "errorText" = Some [Text "Battle failed: Failed to fetch"] ∧
  battleInProgress (battleState w') = false ∧
  display <$> document w' !! "battleSetup" = Some "block" ∧
  contentOf w' "battleLog" = Some [].
Proof. vm_compute. by repeat split. Qed.

(** The server declines without a message: the fallback text is used. *)
Example startBattle_declined :
  contentOf (worldOf (startBattle (Json (Failure None)) readyPage)) "errorText"
  = Some [Text "Battle failed: Battle simulation failed"].
Proof. by vm_compute. Qed.

(** A validation that fails, on the ready page: two errors listed, the
    battle button disabled. *)
Example validateBattle_invalid :
  let w' := worldOf (validateBattle (Json sampleInvalid) readyPage) in
  length <$> contentOf w' "validationList" = Some 2%nat ∧
  disabled <$> document w' !! "battleBtn" = Some true ∧
  display <$> document w' !! "loadingOverlay" = Some "none".
Proof. vm_compute. by repeat split. Qed.

(** A snapshot with a third name makes [updatePokemonStates] look up
    [healthBar3], which the page does not have; a name written three times
    is one key, and one side. *)
Example updatePokemonStates_third_entry_throws :
  let state := mkPokemonState (mkHp 1 1) None in
  (∃ w', updatePokemonStates [("x", state); ("y", state); ("z", state)] readyPage
         = Thrown (nullAccess "healthBar3") w') ∧
  (∃ w', updatePokemonStates [("x", state); ("x", state); ("x", state)] readyPage
         = Returned tt w' ∧
         contentOf w' "healthText1" = Some [Text "1/1 HP"] ∧
         contentOf w' "healthText2" = Some []).
Proof.
  split.
  - eexists. vm_compute. reflexivity.
  - eexists. vm_compute. by repeat split.
Qed.

End BattleProps.

(** * Further properties of the code *)

(** ** Ways of speaking about a call *)

Module CallProps.

Import Page Battle Setup PageProps.
Local Open Scope string_scope.

Lemma frames_ret {A} (R : World → World → Prop) `{!Reflexive R} (a : A) :
  frames R (ret a).
Proof. intros w. simpl. reflexivity. Qed.

Lemma frames_throw {A} (R : World → World → Prop) `{!Reflexive R} message :
  frames R (throw (A:=A) message).
Proof. intros w. simpl. reflexivity. Qed.

Lemma frames_bind {A B} (R : World → World → Prop) `{!Transitive R}
    (m : JS A) (k : A → JS B) :
  frames R m → (∀ a, frames R (k a)) → frames R (bind m k).
Proof.
  intros Hm Hk w. unfold bind. specialize (Hm w).
  destruct (m w) as [a w1|msg w1]; simpl in *; [|done].
  etrans; [exact Hm | apply Hk].
Qed.

Lemma frames_tryCatch {A} (R : World → World → Prop) `{!Transitive R}
    (body : JS A) (handler : string → JS A) :
  frames R body → (∀ msg, frames R (handler msg)) → frames R (tryCatch body handler).
Proof.
  intros Hm Hk w. unfold tryCatch. specialize (Hm w).
  destruct (body w) as [a w1|msg w1]; simpl in *; [done|].
  etrans; [exact Hm | apply Hk].
Qed.

Lemma frames_forEach {A} (R : World → World → Prop) `{!Reflexive R} `{!Transitive R}
    (xs : list A) (body : A → JS unit) :
  (∀ x, frames R (body x)) → frames R (forEach xs body).
Proof.
  intros Hb. induction xs as [|x xs IH]; simpl.
  - by apply frames_ret.
  - apply frames_bind; [done | apply Hb | done].
Qed.

Lemma frames_read {A} (R : World → World → Prop) `{!Reflexive R} id (prop : Element → A) :
  frames R (read id prop).
Proof. intros w. unfold read. destruct (document w !! id); simpl; reflexivity. Qed.

Lemma frames_ofLoaded {A} (R : World → World → Prop) `{!Reflexive R}
    slot what (prop : PokemonData → A) :
  frames R (ofLoaded slot what prop).
Proof. intros w. unfold ofLoaded. destruct (slot (battleState w)); simpl; reflexivity. Qed.

Lemma frames_getBattleState (R : World → World → Prop) `{!Reflexive R} :
  frames R getBattleState.
Proof. intros w. simpl. reflexivity. Qed.

#[global] Instance untouched_refl : Reflexive untouched.
Proof. by intros w. Qed.
#[global] Instance untouched_trans : Transitive untouched.
Proof. unfold untouched. by intros w1 w2 w3 -> ->. Qed.

#[global] Instance quiet_refl : Reflexive quiet.
Proof. by intros w. Qed.
#[global] Instance quiet_trans : Transitive quiet.
Proof.
  intros w1 w2 w3 (?&?&?) (?&?&?). repeat split; congruence.
Qed.

#[global] Instance changesOnly_reflexive ids : Reflexive (changesOnly ids).
Proof. intros w. apply changesOnly_refl. Qed.
#[global] Instance changesOnly_transitive ids : Transitive (changesOnly ids).
Proof. intros w1 w2 w3. apply changesOnly_trans. Qed.

Lemma frames_quiet_assign id f : frames quiet (assign id f).
Proof.
  intros w. unfold assign. destruct (document w !! id) as [e|] eqn:He; simpl; [|done].
  repeat split. apply dom_insert_lookup_L. by rewrite He.
Qed.

Lemma frames_changesOnly_assign ids id f :
  id ∈ ids → frames (changesOnly ids) (assign id f).
Proof.
  intros Hin w. unfold assign. destruct (document w !! id) as [e|]; simpl.
  - repeat split. intros id' Hid'. simpl. rewrite lookup_insert_ne; [done | set_solver].
  - apply changesOnly_refl.
Qed.

Lemma frames_weaken {A} (R R' : World → World → Prop) (m : JS A) :
  (∀ w w', R w w' → R' w w') → frames R m → frames R' m.
Proof. intros HR Hm w. apply HR, Hm. Qed.

(** A call that touches nothing either returns or throws in the state it
    was made in. *)
Lemma untouched_cases {A} (m : JS A) w :
  frames untouched m →
  (∃ a, m w = Returned a w) ∨ (∃ message, m w = Thrown message w).
Proof.
  intros Hm. specialize (Hm w). unfold untouched in Hm.
  destruct (m w) as [a w'|msg w']; simpl in Hm; subst; eauto.
Qed.

Lemma quiet_present ids w w' : quiet w w' → present ids w → present ids w'.
Proof.
  intros (Hdom & _) Hp id Hin. apply elem_of_dom. rewrite Hdom.
  apply elem_of_dom. by apply Hp.
Qed.

Lemma quiet_absent id w w' :
  quiet w w' → document w !! id = None → document w' !! id = None.
Proof.
  intros (Hdom & _) Hn. apply not_elem_of_dom. rewrite Hdom.
  by apply not_elem_of_dom.
Qed.

Lemma quiet_loaded w w' : quiet w w' → loaded w → loaded w'.
Proof. intros (_ & Hbs & _) Hl. unfold loaded. by rewrite Hbs. Qed.

Lemma runs_ret {A} ids (a : A) : runs ids (ret a).
Proof. intros w _ _. unfold returns, ret. reflexivity. Qed.

Lemma runs_bind {A B} ids (m : JS A) (k : A → JS B) :
  runs ids m → (∀ a, runs ids (k a)) → runs ids (bind m k).
Proof.
  intros Hm Hk w Hp Hl. apply returns_bind.
  eapply returns_mono; [by apply Hm|]. intros a w1 Hq. simpl in *.
  eapply returns_mono;
    [apply Hk; [exact (quiet_present _ _ _ Hq Hp) | exact (quiet_loaded _ _ Hq Hl)]|].
  intros b w2 Hq2. simpl in *. by etrans.
Qed.

Lemma runs_assign ids id f : id ∈ ids → runs ids (assign id f).
Proof.
  intros Hin w Hp _. destruct (Hp id Hin) as [e He].
  pose proof (frames_quiet_assign id f w) as Hq.
  unfold returns. unfold assign in *. by rewrite He in *.
Qed.

Lemma runs_read {A} ids id (prop : Element → A) : id ∈ ids → runs ids (read id prop).
Proof.
  intros Hin w Hp _. destruct (Hp id Hin) as [e He].
  unfold returns, read. by rewrite He.
Qed.

Lemma runs_ofLoaded1 {A} ids what (prop : PokemonData → A) :
  runs ids (ofLoaded pokemon1 what prop).
Proof. intros w _ [[p Hp] _]. unfold returns, ofLoaded. by rewrite Hp. Qed.

Lemma runs_ofLoaded2 {A} ids what (prop : PokemonData → A) :
  runs ids (ofLoaded pokemon2 what prop).
Proof. intros w _ [_ [p Hp]]. unfold returns, ofLoaded. by rewrite Hp. Qed.

Lemma runs_forEach {A} ids (xs : list A) (body : A → JS unit) :
  (∀ x, runs ids (body x)) → runs ids (forEach xs body).
Proof.
  intros Hb. induction xs as [|x xs IH]; simpl; [apply runs_ret|].
  apply runs_bind; [apply Hb | done].
Qed.

Lemma runs_returns {A} ids (m : JS A) w :
  runs ids m → present ids w → loaded w →
  ∃ a w', m w = Returned a w' ∧ quiet w w' ∧ present ids w' ∧ loaded w'.
Proof.
  intros Hm Hp Hl. destruct (returns_inv _ _ _ (Hm w Hp Hl)) as (a & w' & Hrun & Hq).
  exists a, w'. split_and!; [done | done | by eapply quiet_present | by eapply quiet_loaded].
Qed.

Lemma assign_run id f w e :
  document w !! id = Some e →
  assign id f w = Returned tt (withDocument (<[id := f e]> (document w)) w).
Proof. unfold assign. by intros ->. Qed.

(** Normalises the fields of an explicitly updated state and the lookups
    in its page. *)
Ltac fields :=
  cbn [document battleState bodyFilter now timers requests
       withDocument withBattleState withBodyFilter withTimers withRequests] in *.
Ltac lookups :=
  fields; repeat first [rewrite lookup_insert_eq | rewrite lookup_insert_ne by done].

(** Membership in a list of identifiers given in full. *)
Ltac in_ids := apply (bool_decide_unpack _); by vm_compute.

End CallProps.

(** ** The set-up screen *)

Module SetupProps.

Import Page Battle Setup Examples PageProps CallProps.
Local Open Scope string_scope.

Lemma getMoves_untouched n : frames untouched (getMoves n).
Proof.
  unfold getMoves. change (seqZ 1 4) with [1; 2; 3; 4]. cbn [foldl].
  repeat (apply frames_bind; [apply _ | | intros ?]);
    first [apply frames_read | apply frames_ret]; apply _.
Qed.

Lemma getBattleConfig_untouched (w : World) : worldOf (getBattleConfig w) = w.
Proof.
  assert (H : frames untouched getBattleConfig); [| exact (H w)].
  unfold getBattleConfig.
  repeat (apply frames_bind; [apply _ | | intros ?]);
    first [apply frames_ofLoaded | apply frames_read | apply getMoves_untouched
          | apply frames_ret]; apply _.
Qed.

(** X1. [getBattleConfig] only reads: whether it returns or throws, the page,
    [battleState] and everything else are exactly as before. *)
Theorem getBattleConfig_read_only (w : World) : worldOf (getBattleConfig w) = w.
Proof. apply getBattleConfig_untouched. Qed.

Lemma getBattleConfig_needs_both w config w' :
  getBattleConfig w = Returned config w' →
  is_Some (pokemon1 (battleState w)) ∧ is_Some (pokemon2 (battleState w)).
Proof.
  unfold getBattleConfig, bind at 1, ofLoaded at 1.
  destruct (pokemon1 (battleState w)) as [p1|]; [|done].
  unfold bind at 1, read at 1.
  destruct (document w !! "pokemon1Level") as [l1|]; [|done].
  unfold bind at 1.
  destruct (untouched_cases (getMoves 1) w (getMoves_untouched 1))
    as [[ms ->] | [msg ->]]; [|done].
  unfold bind at 1, ofLoaded at 1.
  destruct (pokemon2 (battleState w)) as [p2|]; [|done]. eauto.
Qed.

Lemma startBattle_needs_both
    (reply : FetchReply SimulateResponse) (w : World) :
  battleInProgress (battleState w) = false →
  pokemon1 (battleState w) = None ∨ pokemon2 (battleState w) = None →
  ∃ message, startBattle reply w = Thrown message w.
Proof.
  intros Hidle Hnone. unfold startBattle, bind at 1, getBattleState. rewrite Hidle.
  unfold bind at 1.
  pose proof (getBattleConfig_untouched w) as Hro.
  destruct (getBattleConfig w) as [config w'|msg w'] eqn:Hcfg; simpl in Hro; subst w'.
  - apply getBattleConfig_needs_both in Hcfg as [[p1 H1] [p2 H2]].
    destruct Hnone; congruence.
  - eauto.
Qed.

(** X2. [startBattle] on a page where a Pokemon is missing throws before
    anything is shown, flagged or sent: the state is exactly as before. *)
Theorem startBattle_unloaded_changes_nothing
    (reply : FetchReply SimulateResponse) (w : World) :
  battleInProgress (battleState w) = false →
  pokemon1 (battleState w) = None ∨ pokemon2 (battleState w) = None →
  ∃ message, startBattle reply w = Thrown message w.
Proof. apply startBattle_needs_both. Qed.

Lemma movesSelected_all p w e1 e2 e3 e4 :
  let select m := "pokemon" +:+ Js.numberToString p +:+ "Move" +:+ Js.numberToString m in
  document w !! select 1 = Some e1 → document w !! select 2 = Some e2 →
  document w !! select 3 = Some e3 → document w !! select 4 = Some e4 →
  movesSelected p (seqZ 1 4) w
  = Returned (bool_decide (Forall (λ v, v ≠ "") [value e1; value e2; value e3; value e4])) w.
Proof.
  intros select H1 H2 H3 H4.
  change (seqZ 1 4) with [1; 2; 3; 4]. cbn [movesSelected].
  fold (select 1) (select 2) (select 3) (select 4).
  unfold bind, read, ret. rewrite H1.
  destruct (decide (value e1 = "")) as [E1|E1].
  { rewrite bool_decide_eq_false_2; [done|]. rewrite Forall_cons. naive_solver. }
  rewrite H2. destruct (decide (value e2 = "")) as [E2|E2].
  { rewrite bool_decide_eq_false_2; [done|]. rewrite !Forall_cons. naive_solver. }
  rewrite H3. destruct (decide (value e3 = "")) as [E3|E3].
  { rewrite bool_decide_eq_false_2; [done|]. rewrite !Forall_cons. naive_solver. }
  rewrite H4. destruct (decide (value e4 = "")) as [E4|E4].
  { rewrite bool_decide_eq_false_2; [done|]. rewrite !Forall_cons. naive_solver. }
  rewrite bool_decide_eq_true_2; [done|]. by repeat constructor.
Qed.

Lemma checkBattleReady_spec (w : World) (b : Element) (moves : list string) :
  document w !! "battleBtn" = Some b →
  selectedMoves w = Some <$> moves →
  ∃ w', checkBattleReady w = Returned tt w' ∧
    changesOnly ["battleBtn"] w w' ∧
    (∃ d, disabled <$> document w' !! "battleBtn" = Some d) ∧
    (disabled <$> document w' !! "battleBtn" = Some false ↔
     is_Some (pokemon1 (battleState w)) ∧ is_Some (pokemon2 (battleState w)) ∧
     Forall (λ v, v ≠ "") moves).
Proof.
  intros Hb Hsel.
  assert (Hdone : ∀ d, ∃ w', assign "battleBtn" (withDisabled d) w = Returned tt w' ∧
            changesOnly ["battleBtn"] w w' ∧
            disabled <$> document w' !! "battleBtn" = Some d).
  { intros d. unfold assign. rewrite Hb. eexists; split; [done|]. split.
    - solve_changesOnly.
    - simpl. by rewrite lookup_insert_eq. }
  unfold checkBattleReady, bind at 1, getBattleState. cbv beta.
  destruct (pokemon1 (battleState w)) as [p1|] eqn:Hp1; cbv beta iota; cycle 1.
  { destruct (Hdone true) as (w' & Hrun & Hch & Hd). exists w'. split_and!; [done.. | by eauto |].
    rewrite Hd. split; [done | by intros [[? ?] _]]. }
  destruct (pokemon2 (battleState w)) as [p2|] eqn:Hp2; cbv beta iota; cycle 1.
  { destruct (Hdone true) as (w' & Hrun & Hch & Hd). exists w'. split_and!; [done.. | by eauto |].
    rewrite Hd. split; [done | by intros (_ & [? ?] & _)]. }
  unfold selectedMoves, moveSelectIds in Hsel.
  destruct moves as [|v11 [|v12 [|v13 [|v14 [|v21 [|v22 [|v23 [|v24 [|]]]]]]]]];
    try discriminate Hsel.
  cbn [fmap list_fmap] in Hsel.
  injection Hsel as H11 H12 H13 H14 H21 H22 H23 H24.
  apply fmap_Some in H11 as (e11 & L11 & ->), H12 as (e12 & L12 & ->),
    H13 as (e13 & L13 & ->), H14 as (e14 & L14 & ->),
    H21 as (e21 & L21 & ->), H22 as (e22 & L22 & ->),
    H23 as (e23 & L23 & ->), H24 as (e24 & L24 & ->).
  change (seqZ 1 2) with [1; 2]. cbn [sidesSelected]. unfold bind at 1.
  unfold bind at 1. rewrite (movesSelected_all 1 w e11 e12 e13 e14 L11 L12 L13 L14).
  case_bool_decide as Hs1; cycle 1.
  { unfold ret. destruct (Hdone true) as (w' & Hrun & Hch & Hd).
    exists w'. split_and!; [done.. | by eauto |]. rewrite Hd. split; [done|].
    intros (_ & _ & Hall). exfalso. apply Hs1.
    rewrite !Forall_cons in Hall. rewrite !Forall_cons. naive_solver. }
  unfold bind at 1. rewrite (movesSelected_all 2 w e21 e22 e23 e24 L21 L22 L23 L24).
  case_bool_decide as Hs2.
  - unfold ret. destruct (Hdone false) as (w' & Hrun & Hch & Hd).
    exists w'. split_and!; [done.. | by eauto |]. rewrite Hd. split; [|done].
    intros _. split_and!; [done.. | by eauto |].
    rewrite !Forall_cons in Hs1, Hs2. rewrite !Forall_cons. naive_solver.
  - unfold ret. destruct (Hdone true) as (w' & Hrun & Hch & Hd).
    exists w'. split_and!; [done.. | by eauto |]. rewrite Hd. split; [done|].
    intros (_ & _ & Hall). exfalso. apply Hs2.
    rewrite !Forall_cons in Hall. rewrite !Forall_cons. naive_solver.
Qed.

(** X3. [checkBattleReady] sets the battle button, whatever state it was in:
    enabled exactly when both Pokemon are loaded and none of the eight move
    selects is empty, disabled otherwise; it changes nothing else. *)
Theorem checkBattleReady_enables_iff (w : World) (b : Element) (moves : list string) :
  document w !! "battleBtn" = Some b →
  selectedMoves w = Some <$> moves →
  ∃ w', checkBattleReady w = Returned tt w' ∧
    changesOnly ["battleBtn"] w w' ∧
    (∃ d, disabled <$> document w' !! "battleBtn" = Some d) ∧
    (disabled <$> document w' !! "battleBtn" = Some false ↔
     is_Some (pokemon1 (battleState w)) ∧ is_Some (pokemon2 (battleState w)) ∧
     Forall (λ v, v ≠ "") moves).
Proof. apply checkBattleReady_spec. Qed.

End SetupProps.

(** ** The arena's displays *)

Module ArenaProps.

Import Page Battle Setup Examples PageProps CallProps BattleProps.
Local Open Scope string_scope.

Lemma percentage_le_25 (current max : Z) :
  0 < max →
  Qle_bool (inject_Z current / inject_Z max * 100) 25 = bool_decide (4 * current ≤ max)%Z.
Proof.
  intros Hmax. destruct max as [|p|p]; try lia.
  apply eq_true_iff_eq. rewrite Qle_bool_iff, bool_decide_eq_true.
  unfold Qle, Qdiv, Qmult, Qinv, inject_Z; simpl. lia.
Qed.

Lemma percentage_le_50 (current max : Z) :
  0 < max →
  Qle_bool (inject_Z current / inject_Z max * 100) 50 = bool_decide (2 * current ≤ max)%Z.
Proof.
  intros Hmax. destruct max as [|p|p]; try lia.
  apply eq_true_iff_eq. rewrite Qle_bool_iff, bool_decide_eq_true.
  unfold Qle, Qdiv, Qmult, Qinv, inject_Z; simpl. lia.
Qed.

(** X4. The colour of a health bar, for a snapshot with a positive max hp: the
    bar is "low" exactly when the current hp is at most a quarter of the
    max, "medium" when above a quarter and at most a half, plain above. *)
Theorem healthBar_colour_by_quarters (n : Z) (hp : Hp) (w : World) (e : Element) :
  let healthBar := "healthBar" +:+ Js.numberToString n in
  document w !! healthBar = Some e →
  0 < hp_max hp →
  ∃ w', updateHealthBar n (healthPercentage hp) w = Returned tt w' ∧
    changesOnly [healthBar] w w' ∧
    className <$> document w' !! healthBar
    = Some (if bool_decide (4 * hp_current hp ≤ hp_max hp)%Z then "health-fill low"
            else if bool_decide (2 * hp_current hp ≤ hp_max hp)%Z then "health-fill medium"
            else "health-fill").
Proof.
  intros healthBar He Hmax. unfold updateHealthBar. fold healthBar.
  unfold healthPercentage. rewrite decide_False by lia.
  unfold bind, assign at 1. rewrite He. cbn [numLe].
  rewrite percentage_le_25, percentage_le_50 by done.
  repeat case_bool_decide; unfold assign; cbn [document withDocument];
    rewrite lookup_insert_eq; (eexists; split; [reflexivity|]);
    (split; [solve_changesOnly | cbn [document withDocument]; by rewrite lookup_insert_eq]).
Qed.

(** X5. A snapshot whose max hp is 0 (a quotient by zero) does not throw: with
    a non-negative current hp the bar gets the plain colour. *)
Theorem healthBar_zero_max (n : Z) (hp : Hp) (w : World) (e : Element) :
  let healthBar := "healthBar" +:+ Js.numberToString n in
  document w !! healthBar = Some e →
  hp_max hp = 0 → (0 ≤ hp_current hp)%Z →
  ∃ w', updateHealthBar n (healthPercentage hp) w = Returned tt w' ∧
    className <$> document w' !! healthBar = Some "health-fill".
Proof.
  intros healthBar He Hmax Hcur. unfold updateHealthBar. fold healthBar.
  unfold healthPercentage. rewrite decide_True by done.
  unfold bind, assign at 1. rewrite He.
  repeat case_decide; try lia; cbn [numLe]; unfold assign; cbn [document withDocument];
    rewrite lookup_insert_eq; (eexists; split; [reflexivity|]);
    cbn [document withDocument]; by rewrite lookup_insert_eq.
Qed.

Lemma forEachIndexed_ext {A B} (xs : list A) (ys : list B) (f : A → Z → JS unit)
    (g : B → Z → JS unit) i :
  Forall2 (λ x y, ∀ j, f x j = g y j) xs ys →
  forEachIndexed i xs f = forEachIndexed i ys g.
Proof.
  intros H. revert i. induction H as [|x y xs ys Hxy _ IH]; intros i; [done|].
  simpl. by rewrite Hxy, IH.
Qed.

(** What [updatePokemonStates] does with a snapshot of plain names: the
    members one by one, in the order written. *)
Lemma updatePokemonStates_plain (states : list (string * PokemonState)) (w : World) :
  NoDup states.*1 → Forall (λ name, Js.arrayIndex name = None) states.*1 →
  updatePokemonStates states w
  = forEachIndexed 0 states.*2 (λ state index, updatePokemonState state (index + 1)) w.
Proof.
  intros Hnd Hplain. rewrite updatePokemonStates_entries.
  rewrite (JsProps.objectEntries_plain states Hnd Hplain).
  clear Hnd Hplain.
  rewrite (forEachIndexed_ext states states.*2
             (λ entry index, updatePokemonState entry.2 (index + 1))
             (λ state index, updatePokemonState state (index + 1)) 0); [done|].
  induction states as [|[name state] states IH]; constructor; [done | exact IH].
Qed.

(** X6. [updatePokemonStates] goes by the place of a name in the snapshot, not
    by the Pokemon it names: two snapshots that hold the same states in
    the same order, each under names that differ from one another and are
    no array indices, have the same effect, so the state written first is
    shown on side 1 and the second on side 2, whichever Pokemon is which.
    (A name written twice is one key and takes one side; an array index
    moves to the front.) *)
Theorem updatePokemonStates_by_position
    (states states' : list (string * PokemonState)) (w : World) :
  NoDup states.*1 → Forall (λ name, Js.arrayIndex name = None) states.*1 →
  NoDup states'.*1 → Forall (λ name, Js.arrayIndex name = None) states'.*1 →
  states.*2 = states'.*2 →
  updatePokemonStates states w = updatePokemonStates states' w.
Proof.
  intros Hnd Hplain Hnd' Hplain' Heq.
  rewrite !updatePokemonStates_plain by done. by rewrite Heq.
Qed.

End ArenaProps.

(** ** Validation and status displays under repetition *)

Module ValidationProps.

Import Page Battle Setup Examples PageProps CallProps BattleProps.
Local Open Scope string_scope.

Lemma showValidationResults_quiet result : frames quiet (showValidationResults result).
Proof.
  unfold showValidationResults.
  repeat (apply frames_bind; [apply _ | apply frames_quiet_assign | intros _]).
  destruct (valid result).
  - apply frames_bind; [apply _ | apply frames_quiet_assign | intros _].
    apply frames_quiet_assign.
  - apply frames_bind; [apply _ | | intros _; apply frames_quiet_assign].
    apply frames_forEach; [apply _ | apply _ |]. intros x. apply frames_quiet_assign.
Qed.

(** What [showValidationResults] leaves in its three elements. *)
Lemma showValidationResults_spec result w r l b :
  document w !! "validationResults" = Some r →
  document w !! "validationList" = Some l →
  document w !! "battleBtn" = Some b →
  ∃ w', showValidationResults result w = Returned tt w' ∧
    changesOnly ["validationResults"; "validationList"; "battleBtn"] w w' ∧
    document w' !! "validationResults"
    = Some (withClassName ("validation-results " +:+
                           (if valid result then "success" else "error"))
              (withDisplay "block" r)) ∧
    document w' !! "validationList" = Some (withContent (validationItems result) l) ∧
    document w' !! "battleBtn" = Some (withDisabled (negb (valid result)) b).
Proof.
  intros Hr Hl Hb. unfold showValidationResults, validationItems.
  unfold bind at 1, assign at 1. rewrite Hr.
  unfold bind at 1, assign at 1. simpl. rewrite lookup_insert_eq, insert_insert_eq.
  unfold bind at 1, assign at 1. simpl. rewrite lookup_insert_ne, Hl by done.
  set (w1 := withDocument _ _).
  assert (Hw1 : changesOnly ["validationResults"; "validationList"; "battleBtn"] w w1).
  { subst w1. solve_changesOnly. }
  assert (Hb1 : document w1 !! "battleBtn" = Some b).
  { subst w1; simpl. by rewrite !lookup_insert_ne. }
  assert (Hl1 : document w1 !! "validationList" = Some (withInnerHTML "" l)).
  { subst w1; simpl. by rewrite lookup_insert_eq. }
  assert (Hr1 : document w1 !! "validationResults"
                = Some (withClassName ("validation-results " +:+
                           (if valid result then "success" else "error"))
                          (withDisplay "block" r))).
  { subst w1; simpl. by rewrite lookup_insert_ne, lookup_insert_eq. }
  clearbody w1.
  destruct (valid result).
  - unfold bind, assign. rewrite Hl1. simpl.
    rewrite lookup_insert_ne, Hb1 by done.
    eexists; split; [reflexivity|]. split_and!.
    + eapply changesOnly_trans; [exact Hw1 | solve_changesOnly].
    + simpl. by rewrite !lookup_insert_ne.
    + simpl. by rewrite lookup_insert_ne, lookup_insert_eq.
    + simpl. by rewrite lookup_insert_eq.
  - destruct (forEach_appendChild "validationList"
                (λ error, mkNode "li" "error" ("âœ— " +:+ error))
                (errors result) w1 _ Hl1) as (w2 & Hrun & Hl2 & Hch).
    unfold bind. rewrite Hrun. unfold assign.
    assert (Hb2 : document w2 !! "battleBtn" = Some b).
    { destruct Hch as (_&_&_&_&_&Hch). rewrite Hch; [done | set_solver]. }
    assert (Hr2 : document w2 !! "validationResults" = document w1 !! "validationResults").
    { destruct Hch as (_&_&_&_&_&Hch). rewrite Hch; [done | set_solver]. }
    rewrite Hb2.
    eexists; split; [reflexivity|]. split_and!.
    + eapply changesOnly_trans; [exact Hw1 |].
      eapply changesOnly_trans;
        [eapply changesOnly_weaken; [| exact Hch]; set_solver | solve_changesOnly].
    + simpl. by rewrite lookup_insert_ne, Hr2.
    + simpl. by rewrite lookup_insert_ne, Hl2.
    + simpl. by rewrite lookup_insert_eq.
Qed.

(** X7. A second validation replaces the first: after
    [showValidationResults r1] and then [showValidationResults r2], every
    element of the page is as after [showValidationResults r2] alone; the
    entries of the first do not stay in the list. *)
Theorem showValidationResults_replaces (r1 r2 : ValidationResult) (w : World)
    (r l b : Element) :
  document w !! "validationResults" = Some r →
  document w !! "validationList" = Some l →
  document w !! "battleBtn" = Some b →
  ∃ w1 w12 w2,
    showValidationResults r1 w = Returned tt w1 ∧
    showValidationResults r2 w1 = Returned tt w12 ∧
    showValidationResults r2 w = Returned tt w2 ∧
    document w12 = document w2 ∧
    contentOf w12 "validationList" = Some (validationItems r2).
Proof.
  intros Hr Hl Hb.
  destruct (showValidationResults_spec r1 w r l b Hr Hl Hb)
    as (w1 & Hrun1 & Hch1 & Hr1 & Hl1 & Hb1).
  destruct (showValidationResults_spec r2 w1 _ _ _ Hr1 Hl1 Hb1)
    as (w12 & Hrun12 & Hch12 & Hr12 & Hl12 & Hb12).
  destruct (showValidationResults_spec r2 w r l b Hr Hl Hb)
    as (w2 & Hrun2 & Hch2 & Hr2 & Hl2 & Hb2).
  exists w1, w12, w2. split_and!; [done..| |].
  - apply map_eq. intros id.
    destruct (decide (id = "validationResults")) as [->|N1]; [by rewrite Hr12, Hr2|].
    destruct (decide (id = "validationList")) as [->|N2]; [by rewrite Hl12, Hl2|].
    destruct (decide (id = "battleBtn")) as [->|N3]; [by rewrite Hb12, Hb2|].
    rewrite (proj2 (proj2 (proj2 (proj2 (proj2 Hch12)))) id) by set_solver.
    rewrite (proj2 (proj2 (proj2 (proj2 (proj2 Hch1)))) id) by set_solver.
    by rewrite (proj2 (proj2 (proj2 (proj2 (proj2 Hch2)))) id) by set_solver.
  - unfold contentOf. by rewrite Hl12.
Qed.

Lemma updateStatusEffects_run n status w e :
  document w !! ("statusEffects" +:+ Js.numberToString n) = Some e →
  updateStatusEffects n status w
  = Returned tt (withDocument
      (<["statusEffects" +:+ Js.numberToString n := withContent (statusItems status) e]>
         (document w)) w).
Proof.
  intros He. unfold updateStatusEffects, statusItems, bind, assign at 1. rewrite He.
  destruct status as [st|]; [case_bool_decide|]; try done.
  unfold assign. simpl. by rewrite lookup_insert_eq, insert_insert_eq.
Qed.

(** X8. A later status update replaces the earlier one: after
    [updateStatusEffects(n, s1)] and then [updateStatusEffects(n, s2)] the
    page is as after [updateStatusEffects(n, s2)] alone; the badge of the
    first call never stays beside that of the second. *)
Theorem updateStatusEffects_replaces (n : Z) (s1 s2 : option Status) (w : World)
    (e : Element) :
  document w !! ("statusEffects" +:+ Js.numberToString n) = Some e →
  ∃ w1 w12, updateStatusEffects n s1 w = Returned tt w1 ∧
    updateStatusEffects n s2 w1 = Returned tt w12 ∧
    updateStatusEffects n s2 w = Returned tt w12.
Proof.
  intros He.
  rewrite (updateStatusEffects_run n s1 w e He), (updateStatusEffects_run n s2 w e He).
  eexists _, _. split; [reflexivity|]. split; [|reflexivity].
  rewrite (updateStatusEffects_run n s2 _ (withContent (statusItems s1) e)).
  - simpl. by rewrite insert_insert_eq.
  - simpl. by rewrite lookup_insert_eq.
Qed.

End ValidationProps.

(** ** [validateBattle] *)

Module ValidateProps.

Import Page Battle Setup Examples PageProps CallProps BattleProps SetupProps ValidationProps.
Local Open Scope string_scope.

Lemma showLoading_quiet message : frames quiet (showLoading message).
Proof.
  unfold showLoading.
  apply frames_bind; [apply _ | apply frames_quiet_assign | intros _].
  apply frames_quiet_assign.
Qed.

Lemma hideLoading_quiet : frames quiet hideLoading.
Proof. apply frames_quiet_assign. Qed.

Lemma showError_quiet message : frames quiet (showError message).
Proof.
  unfold showError.
  apply frames_bind; [apply _ | apply frames_quiet_assign | intros _].
  apply frames_quiet_assign.
Qed.

Lemma fetchJson_run {A} url config (reply : FetchReply A) w :
  fetchJson url config reply w
  = match reply with
    | Rejected message =>
        Thrown message (withRequests (requests w ++ [Post url config])%list w)
    | Json response =>
        Returned response (withRequests (requests w ++ [Post url config])%list w)
    end.
Proof. unfold fetchJson, bind, throw, ret. by destruct reply. Qed.

Lemma getBattleConfig_returns w :
  present pageIds w → loaded w → ∃ config, getBattleConfig w = Returned config w.
Proof.
  intros Hp [[p1 Hp1] [p2 Hp2]].
  destruct (Hp "pokemon1Level") as [l1 Hl1]; [in_ids|].
  destruct (Hp "pokemon2Level") as [l2 Hl2]; [in_ids|].
  destruct (Hp "pokemon1Move1") as [m11 H11]; [in_ids|].
  destruct (Hp "pokemon1Move2") as [m12 H12]; [in_ids|].
  destruct (Hp "pokemon1Move3") as [m13 H13]; [in_ids|].
  destruct (Hp "pokemon1Move4") as [m14 H14]; [in_ids|].
  destruct (Hp "pokemon2Move1") as [m21 H21]; [in_ids|].
  destruct (Hp "pokemon2Move2") as [m22 H22]; [in_ids|].
  destruct (Hp "pokemon2Move3") as [m23 H23]; [in_ids|].
  destruct (Hp "pokemon2Move4") as [m24 H24]; [in_ids|].
  pose proof (getMoves_returns 1 w m11 m12 m13 m14 H11 H12 H13 H14) as Hm1.
  pose proof (getMoves_returns 2 w m21 m22 m23 m24 H21 H22 H23 H24) as Hm2.
  unfold getBattleConfig, bind, ofLoaded, read, ret.
  rewrite Hp1, Hl1, Hm1, Hp2, Hl2, Hm2. eauto.
Qed.

(** X9. [validateBattle] never touches [battleState] and sends at most one
    request, a validation request: whatever the reply, and whether it
    returns or throws, a call starts no battle. *)
Theorem validateBattle_starts_no_battle
    (reply : FetchReply ValidationResult) (w : World) :
  let w' := worldOf (validateBattle reply w) in
  battleState w' = battleState w ∧
  (requests w' = requests w ∨
   ∃ config, requests w' = (requests w ++ [Post "/api/battle/validate" config])%list).
Proof.
  set (P := λ w' : World,
    battleState w' = battleState w ∧
    (requests w' = requests w ∨
     ∃ config, requests w' = (requests w ++ [Post "/api/battle/validate" config])%list)).
  change (P (worldOf (validateBattle reply w))).
  assert (Hquiet : ∀ w1, quiet w w1 → P w1).
  { intros w1 (_ & Hbs & Hrq). split; auto. }
  unfold validateBattle, bind at 1, getBattleState. cbv beta.
  destruct (pokemon1 (battleState w)) as [p1|]; cbv beta iota;
    [|apply Hquiet, showError_quiet].
  destruct (pokemon2 (battleState w)) as [p2|]; cbv beta iota;
    [|apply Hquiet, showError_quiet].
  unfold bind at 1.
  pose proof (getBattleConfig_untouched w) as Hro.
  destruct (getBattleConfig w) as [config w0|msg w0]; simpl in Hro; subst w0;
    [|by apply Hquiet].
  unfold bind at 1.
  pose proof (showLoading_quiet "Validating battle configuration..." w) as Hq1.
  destruct (showLoading _ w) as [[] w1|msg w1]; simpl in Hq1; [|by apply Hquiet].
  set (handler := λ message : string, _).
  assert (Hh : ∀ msg, frames quiet (handler msg)).
  { intros msg. subst handler. cbv beta.
    apply frames_bind; [apply _ | apply hideLoading_quiet | intros _].
    apply showError_quiet. }
  unfold tryCatch, bind at 1. rewrite fetchJson_run.
  set (w2 := withRequests _ w1).
  assert (Hend : ∀ w3, quiet w2 w3 → P w3).
  { intros w3 (_ & Hbs & Hrq). destruct Hq1 as (_ & Hbs1 & Hrq1). subst w2. split.
    - rewrite Hbs. simpl. done.
    - right. exists config. rewrite Hrq. simpl. by rewrite Hrq1. }
  clearbody w2.
  destruct reply as [msg|result].
  - apply Hend, Hh.
  - assert (Hbody : frames quiet (bind hideLoading (λ _, showValidationResults result))).
    { apply frames_bind; [apply _ | apply hideLoading_quiet | intros _].
      apply showValidationResults_quiet. }
    apply Hend.
    exact (frames_tryCatch quiet _ handler Hbody Hh w2).
Qed.

(** X10. On a complete page with both Pokemon loaded [validateBattle] always
    returns and has hidden the loading overlay again.  With a reply, the
    battle button is disabled exactly when the result is not valid and the
    list holds the result's entries; when the request fails, "Validation
    failed: ..." is shown and button and list are as before. *)
Theorem validateBattle_outcome (reply : FetchReply ValidationResult) (w : World) :
  present pageIds w → loaded w →
  ∃ w', validateBattle reply w = Returned tt w' ∧
    display <$> document w' !! "loadingOverlay" = Some "none" ∧
    match reply with
    | Json result =>
        disabled <$> document w' !! "battleBtn" = Some (negb (valid result)) ∧
        contentOf w' "validationList" = Some (validationItems result)
    | Rejected message =>
        contentOf w' "errorText" = Some [Text ("Validation failed: " +:+ message)] ∧
        display <$> document w' !! "errorMessage" = Some "flex" ∧
        document w' !! "battleBtn" = document w !! "battleBtn" ∧
        document w' !! "validationList" = document w !! "validationList"
    end.
Proof.
  intros Hp Hl.
  destruct (getBattleConfig_returns w Hp Hl) as [config Hcfg].
  destruct Hl as [[p1 Hp1] [p2 Hp2]].
  destruct (Hp "loadingText") as [lt Hlt]; [in_ids|].
  destruct (Hp "loadingOverlay") as [lo Hlo]; [in_ids|].
  destruct (Hp "validationResults") as [vr Hvr]; [in_ids|].
  destruct (Hp "validationList") as [vl Hvl]; [in_ids|].
  destruct (Hp "battleBtn") as [bb Hbb]; [in_ids|].
  destruct (Hp "errorText") as [et Het]; [in_ids|].
  destruct (Hp "errorMessage") as [em Hem]; [in_ids|].
  unfold validateBattle, bind at 1, getBattleState. cbv beta. rewrite Hp1, Hp2.
  unfold bind at 1. rewrite Hcfg.
  unfold bind at 1, showLoading, bind at 1.
  rewrite (assign_run _ _ _ _ Hlt).
  rewrite (assign_run "loadingOverlay" _ _ lo) by (lookups; done).
  unfold tryCatch, bind at 1. rewrite fetchJson_run.
  destruct reply as [message|result].
  - unfold bind at 1, hideLoading.
    rewrite (assign_run "loadingOverlay" _ _ (withDisplay "flex" lo)) by (lookups; done).
    unfold showError, bind.
    rewrite (assign_run "errorText" _ _ et) by (lookups; done).
    rewrite (assign_run "errorMessage" _ _ em) by (lookups; done).
    eexists; split; [reflexivity|]. unfold contentOf. lookups.
    rewrite Hbb, Hvl. by split_and!.
  - unfold bind at 1, hideLoading.
    rewrite (assign_run "loadingOverlay" _ _ (withDisplay "flex" lo)) by (lookups; done).
    set (w3 := withDocument _ _).
    destruct (showValidationResults_spec result w3 vr vl bb)
      as (w' & Hrun & Hch & _ & Hl' & Hb'); [subst w3; lookups; done..|].
    rewrite Hrun. exists w'. split; [done|].
    destruct Hch as (_&_&_&_&_&Hch). rewrite (Hch "loadingOverlay") by set_solver.
    unfold contentOf. rewrite Hb', Hl'. subst w3. lookups. done.
Qed.

(** Against C5 as it stands: a validation that fails does not keep the
    battle from starting.  On the ready page, after
    [showValidationResults] has listed the errors and disabled the battle
    button, the [change] of a move select runs [checkBattleReady], which
    enables the button again, all moves being chosen; [startBattle] then
    asks nothing about the validation: the request goes out and the
    battle is in progress. *)
Example invalid_result_does_not_stop_the_battle :
  ∃ w1 w2 w3 config,
    valid sampleInvalid = false ∧
    showValidationResults sampleInvalid readyPage = Returned tt w1 ∧
    disabled <$> document w1 !! "battleBtn" = Some true ∧
    length <$> contentOf w1 "validationList" = Some (length (errors sampleInvalid)) ∧
    checkBattleReady w1 = Returned tt w2 ∧
    disabled <$> document w2 !! "battleBtn" = Some false ∧
    startBattle (Json (Success sampleResult)) w2 = Returned tt w3 ∧
    requests w3 = [Post "/api/battle/simulate" config] ∧
    battleInProgress (battleState w3) = true ∧
    currentBattle (battleState w3) = Some sampleResult ∧
    display <$> document w3 !! "battleArena" = Some "block".
Proof.
  eexists (worldOf (showValidationResults sampleInvalid readyPage)).
  eexists (worldOf (checkBattleReady
                      (worldOf (showValidationResults sampleInvalid readyPage)))).
  eexists (worldOf (startBattle (Json (Success sampleResult))
                      (worldOf (checkBattleReady
                         (worldOf (showValidationResults sampleInvalid readyPage)))))).
  eexists. vm_compute. split_and!; reflexivity.
Qed.

End ValidateProps.

(** ** The animation *)

Module AnimationProps.

Import Page Battle Setup Examples PageProps CallProps BattleProps.
Local Open Scope string_scope.

Lemma outcomes_frames {A} R (m : JS A) : frames R m → outcomes R R m.
Proof. intros H w. specialize (H w). by destruct (m w). Qed.

Lemma outcomes_bind {A B} (Rmid Rret' Rthrow' Rret Rthrow : World → World → Prop)
    (m : JS A) (k : A → JS B) :
  outcomes Rmid Rthrow m → (∀ a, outcomes Rret' Rthrow' (k a)) →
  (∀ w w1 w2, Rmid w w1 → Rret' w1 w2 → Rret w w2) →
  (∀ w w1 w2, Rmid w w1 → Rthrow' w1 w2 → Rthrow w w2) →
  outcomes Rret Rthrow (bind m k).
Proof.
  intros Hm Hk Hr Ht w. unfold bind. specialize (Hm w).
  destruct (m w) as [a w1|msg w1]; [|done].
  specialize (Hk a w1). destruct (k a w1); eauto.
Qed.

Lemma setTimeout_quiet c d : frames quiet (setTimeout c d).
Proof. by intros w. Qed.

Lemma runCallback_quiet c w : quiet w (runCallback c w).
Proof.
  destruct c as [id cls|]; [|done]. repeat split. simpl. apply dom_alter_L.
Qed.

Lemma runCallbacks_quiet (cs : list (nat * Callback)) w :
  quiet w (foldl (λ acc t, runCallback t.2 acc) w cs).
Proof.
  revert w. induction cs as [|c cs IH]; intros w; simpl; [done|].
  etrans; [apply runCallback_quiet | apply IH].
Qed.

Lemma sleep_quiet ms : frames quiet (sleep ms).
Proof.
  intros w. unfold sleep. simpl.
  destruct (runCallbacks_quiet
              (sortByDue (filter (λ t, (t.1 ≤ now w + ms)%nat) (timers w))) w)
    as (Hd & Hb & Hr).
  by repeat split.
Qed.

Lemma spriteOf_untouched who : frames untouched (spriteOf who).
Proof.
  unfold spriteOf. apply frames_bind; [apply _ | | intros ?].
  - apply frames_ofLoaded. apply _.
  - apply frames_ret. apply _.
Qed.

Lemma untouched_quiet {A} (m : JS A) : frames untouched m → frames quiet m.
Proof. apply frames_weaken. by intros w w' ->. Qed.

Lemma animateEvent_quiet event : frames quiet (animateEvent event).
Proof.
  unfold animateEvent. repeat case_decide.
  - apply frames_bind; [apply _ | apply untouched_quiet, spriteOf_untouched | intros s].
    apply frames_bind; [apply _ | apply frames_quiet_assign | intros _].
    apply setTimeout_quiet.
  - apply frames_bind; [apply _ | apply untouched_quiet, spriteOf_untouched | intros s].
    apply frames_bind; [apply _ | apply frames_quiet_assign | intros _].
    apply setTimeout_quiet.
  - apply frames_bind; [apply _ | by intros w | intros _]. apply setTimeout_quiet.
  - apply frames_bind; [apply _ | apply untouched_quiet, spriteOf_untouched | intros s].
    apply frames_quiet_assign.
  - apply frames_ret. apply _.
Qed.

Lemma updateHealthBar_quiet n percentage : frames quiet (updateHealthBar n percentage).
Proof.
  unfold updateHealthBar.
  apply frames_bind; [apply _ | apply frames_quiet_assign | intros _].
  repeat case_match; apply frames_quiet_assign.
Qed.

Lemma updateStatusEffects_quiet n status : frames quiet (updateStatusEffects n status).
Proof.
  unfold updateStatusEffects.
  apply frames_bind; [apply _ | apply frames_quiet_assign | intros _].
  repeat case_match; first [apply frames_quiet_assign | apply frames_ret; apply _].
Qed.

Lemma forEachIndexed_frames {A} (R : World → World → Prop)
    `{!Reflexive R} `{!Transitive R} (xs : list A) (body : A → Z → JS unit) i :
  (∀ x j, frames R (body x j)) → frames R (forEachIndexed i xs body).
Proof.
  intros Hb. revert i. induction xs as [|x xs IH]; intros i; simpl.
  - by apply frames_ret.
  - apply frames_bind; [done | apply Hb | intros _; apply IH].
Qed.

Lemma updatePokemonStates_quiet states : frames quiet (updatePokemonStates states).
Proof.
  unfold updatePokemonStates. apply forEachIndexed_frames; [apply _ | apply _ |].
  intros pokemonName j. cbv zeta. case_match; [|apply frames_throw; apply _].
  unfold updatePokemonState.
  apply frames_bind; [apply _ | apply updateHealthBar_quiet | intros _].
  apply frames_bind; [apply _ | apply frames_quiet_assign | intros _].
  apply updateStatusEffects_quiet.
Qed.

Lemma animateLoggedEvent_quiet event : frames quiet (animateLoggedEvent event).
Proof.
  unfold animateLoggedEvent.
  apply frames_bind; [apply _ | apply animateEvent_quiet | intros _].
  apply frames_bind; [apply _ | apply frames_quiet_assign | intros _].
  apply sleep_quiet.
Qed.

Lemma animateTurn_quiet t : frames quiet (animateTurn t).
Proof.
  unfold animateTurn.
  apply frames_bind; [apply _ | apply frames_quiet_assign | intros _].
  apply frames_bind; [apply _ | apply frames_quiet_assign | intros _].
  apply frames_bind; [apply _ | | intros _].
  { apply frames_forEach; [apply _ | apply _ | apply animateLoggedEvent_quiet]. }
  apply frames_bind; [apply _ | | intros _; apply sleep_quiet].
  destruct (pokemon_states t); [apply updatePokemonStates_quiet | apply frames_ret; apply _].
Qed.

Lemma quiet_finished w w1 w2 : quiet w w1 → finished w1 w2 → finished w w2.
Proof.
  intros (Hd & Hb & Hr) (Hd' & Hb' & Hr'). repeat split; try congruence.
Qed.

Lemma showBattleResults_outcomes battleResult :
  outcomes finished quiet (showBattleResults battleResult).
Proof.
  unfold showBattleResults.
  repeat (eapply (outcomes_bind quiet finished quiet);
          [apply outcomes_frames, frames_quiet_assign | intros _
          | apply quiet_finished | intros ? ? ? ? ?; by etrans]).
  eapply (outcomes_bind quiet finished quiet);
    [apply outcomes_frames; case_match; apply frames_quiet_assign | intros _
    | apply quiet_finished | intros ? ? ? ? ?; by etrans].
  eapply (outcomes_bind quiet finished quiet);
    [apply outcomes_frames, frames_quiet_assign | intros _
    | apply quiet_finished | intros ? ? ? ? ?; by etrans].
  intros w. by repeat split.
Qed.

Lemma animateBattle_outcomes battleResult :
  outcomes finished quiet (animateBattle battleResult).
Proof.
  unfold animateBattle.
  eapply (outcomes_bind quiet finished quiet).
  - apply outcomes_frames, frames_forEach; [apply _ | apply _ | apply animateTurn_quiet].
  - intros _. apply showBattleResults_outcomes.
  - apply quiet_finished.
  - intros ? ? ? ? ?. by etrans.
Qed.

(** X11. [animateBattle] changes [battleState] in one way only, and only at its
    very end: when it returns, [battleInProgress] has been cleared; when
    any step throws, [battleState] is exactly as before, so the page stays
    "in progress".  It sends no request either way, and adds or removes no
    element. *)
Theorem animateBattle_clears_flag_only_at_end (battleResult : BattleResult) (w : World) :
  match animateBattle battleResult w with
  | Returned _ w' => finished w w'
  | Thrown _ w' => quiet w w'
  end.
Proof. exact (animateBattle_outcomes battleResult w). Qed.

End AnimationProps.

(** ** The clock under [animateBattle] *)

Module ClockProps.

Import Page Battle Setup Examples PageProps CallProps BattleProps AnimationProps.
Local Open Scope string_scope.

Lemma bind_returned {A B} (m : JS A) (k : A → JS B) w b w' :
  bind m k w = Returned b w' → ∃ a w1, m w = Returned a w1 ∧ k a w1 = Returned b w'.
Proof. unfold bind. destruct (m w) as [a w1|]; [eauto | done]. Qed.

#[global] Instance sameClock_refl : Reflexive sameClock.
Proof. by intros w. Qed.
#[global] Instance sameClock_trans : Transitive sameClock.
Proof. intros w1 w2 w3 [? ?] [? ?]. split; congruence. Qed.

Lemma assign_sameClock id f : frames sameClock (assign id f).
Proof. intros w. unfold assign. by destruct (document w !! id). Qed.

Lemma assign_clock id f w w' :
  assign id f w = Returned tt w' → now w' = now w ∧ timers w' = timers w.
Proof. intros H. pose proof (assign_sameClock id f w) as C. by rewrite H in C. Qed.

Lemma updateHealthBar_sameClock n p : frames sameClock (updateHealthBar n p).
Proof.
  unfold updateHealthBar.
  apply frames_bind; [apply _ | apply assign_sameClock | intros _].
  repeat case_match; apply assign_sameClock.
Qed.

Lemma updateStatusEffects_sameClock n s : frames sameClock (updateStatusEffects n s).
Proof.
  unfold updateStatusEffects.
  apply frames_bind; [apply _ | apply assign_sameClock | intros _].
  repeat case_match; first [apply assign_sameClock | apply frames_ret; apply _].
Qed.

Lemma updatePokemonStates_sameClock states : frames sameClock (updatePokemonStates states).
Proof.
  unfold updatePokemonStates. apply forEachIndexed_frames; [apply _ | apply _ |].
  intros pokemonName j. cbv zeta. case_match; [|apply frames_throw; apply _].
  unfold updatePokemonState.
  apply frames_bind; [apply _ | apply updateHealthBar_sameClock | intros _].
  apply frames_bind; [apply _ | apply assign_sameClock | intros _].
  apply updateStatusEffects_sameClock.
Qed.

Lemma showBattleResults_sameClock r : frames sameClock (showBattleResults r).
Proof.
  unfold showBattleResults.
  repeat (apply frames_bind; [apply _ | apply assign_sameClock | intros _]).
  apply frames_bind; [apply _ | case_match; apply assign_sameClock | intros _].
  apply frames_bind; [apply _ | apply assign_sameClock | intros _].
  by intros w.
Qed.

Lemma runCallbacks_now (cs : list (nat * Callback)) w :
  now (foldl (λ acc t, runCallback t.2 acc) w cs) = now w ∧
  timers (foldl (λ acc t, runCallback t.2 acc) w cs) = timers w.
Proof.
  revert w. induction cs as [|[d c] cs IH]; intros w; simpl; [done|].
  destruct (IH (runCallback c w)) as [-> ->]. by destruct c.
Qed.

(** What [sleep] does to the clock: it advances by [ms], and the timers
    left are those due later. *)
Lemma sleep_clock ms w :
  ∃ w', sleep ms w = Returned tt w' ∧ now w' = (now w + ms)%nat ∧
    timers w' = filter (λ t, ¬ (t.1 ≤ now w + ms)%nat) (timers w).
Proof.
  unfold sleep. eexists; split; [reflexivity|]. simpl. done.
Qed.

Lemma none_later (n : nat) (ts : list (nat * Callback)) :
  Forall (λ t, (t.1 ≤ n)%nat) ts → filter (λ t, ¬ (t.1 ≤ n)%nat) ts = [].
Proof.
  induction 1 as [|t ts Ht _ IH]; [done|].
  rewrite filter_cons_False; [exact IH|]. intros Hnot. by apply Hnot.
Qed.

Lemma sleep_settles ms ms' w w' :
  sleep ms w = Returned tt w' → dueWithin ms' w → (ms' ≤ ms)%nat →
  now w' = (now w + ms)%nat ∧ timers w' = [].
Proof.
  destruct (sleep_clock ms w) as (w1 & -> & Hn & Ht). intros [= <-] Hdue Hle.
  split; [done|]. rewrite Ht. apply none_later.
  eapply Forall_impl; [exact Hdue|]. intros t Hle'. simpl in *. lia.
Qed.

Lemma animateEvent_clock event w w' :
  animateEvent event w = Returned tt w' → timers w = [] →
  now w' = now w ∧ dueWithin 500 w'.
Proof.
  intros Hrun Hempty.
  assert (Hsprite : ∀ who cls (after : string → JS unit),
    (∀ s w1 w2, after s w1 = Returned tt w2 → now w1 = now w → timers w1 = [] →
       now w2 = now w ∧ dueWithin 500 w2) →
    bind (spriteOf who) (λ sprite,
      bind (assign sprite (classListAdd cls)) (λ _, after sprite)) w = Returned tt w' →
    now w' = now w ∧ dueWithin 500 w').
  { intros who cls after Hafter Hb.
    apply bind_returned in Hb as (s & w1 & Hs & Hb).
    pose proof (spriteOf_untouched who w) as Hu. rewrite Hs in Hu. simpl in Hu.
    unfold untouched in Hu. subst w1.
    apply bind_returned in Hb as ([] & w2 & Ha & Hb).
    destruct (assign_clock _ _ _ _ Ha) as [Hn Ht].
    eapply Hafter; [exact Hb | done | congruence]. }
  assert (Htimer : ∀ c d w1 w2, (d ≤ 500)%nat →
    setTimeout c d w1 = Returned tt w2 → now w1 = now w → timers w1 = [] →
    now w2 = now w ∧ dueWithin 500 w2).
  { intros c d w1 w2 Hd [= <-] Hn Ht. split; [done|].
    unfold dueWithin. simpl. rewrite Ht. simpl. constructor; [simpl; lia | constructor]. }
  unfold animateEvent in Hrun. repeat case_decide.
  - eapply Hsprite; [|exact Hrun]. intros s w1 w2. apply Htimer. lia.
  - eapply Hsprite; [|exact Hrun]. intros s w1 w2. apply Htimer. lia.
  - apply bind_returned in Hrun as ([] & w1 & [= <-] & Hrun).
    eapply Htimer; [| exact Hrun | done | done]. lia.
  - apply bind_returned in Hrun as (s & w1 & Hs & Hb).
    pose proof (spriteOf_untouched (ev_pokemon event) w) as Hu. rewrite Hs in Hu.
    simpl in Hu. unfold untouched in Hu. subst w1.
    destruct (assign_clock _ _ _ _ Hb) as [Hn Ht].
    split; [done|]. unfold dueWithin. rewrite Ht, Hempty. constructor.
  - injection Hrun as <-. split; [done|]. unfold dueWithin. rewrite Hempty. constructor.
Qed.

Lemma animateLoggedEvent_clock event w w' :
  animateLoggedEvent event w = Returned tt w' → timers w = [] →
  now w' = (now w + 800)%nat ∧ timers w' = [].
Proof.
  intros Hrun Hempty. unfold animateLoggedEvent in Hrun.
  apply bind_returned in Hrun as ([] & w1 & Hev & Hrun).
  apply bind_returned in Hrun as ([] & w2 & Hlog & Hrun).
  destruct (animateEvent_clock _ _ _ Hev Hempty) as [Hn1 Hd1].
  destruct (assign_clock _ _ _ _ Hlog) as [Hn2 Ht2].
  destruct (sleep_settles 800 500 w2 w' Hrun) as [Hn Ht]; [| lia | ].
  - unfold dueWithin. rewrite Ht2, Hn2. exact Hd1.
  - split; [lia | done].
Qed.

Lemma forEach_clock {A} (body : A → JS unit) (d : A → nat) xs w w' :
  (∀ x w w', body x w = Returned tt w' → timers w = [] →
     now w' = (now w + d x)%nat ∧ timers w' = []) →
  forEach xs body w = Returned tt w' → timers w = [] →
  now w' = (now w + sum_list_with d xs)%nat ∧ timers w' = [].
Proof.
  intros Hbody. revert w. induction xs as [|x xs IH]; intros w Hrun Hempty.
  - injection Hrun as <-. simpl. split; [lia | done].
  - simpl in Hrun. apply bind_returned in Hrun as ([] & w1 & Hx & Hrun).
    destruct (Hbody x w w1 Hx Hempty) as [Hn1 Ht1].
    destruct (IH w1 Hrun Ht1) as [Hn Ht]. simpl. split; [lia | done].
Qed.

Lemma sum_list_with_const {A} (c : nat) (xs : list A) :
  sum_list_with (λ _, c) xs = (c * length xs)%nat.
Proof. induction xs as [|x xs IH]; cbn [sum_list_with length]; lia. Qed.

Lemma animateTurn_clock t w w' :
  animateTurn t w = Returned tt w' → timers w = [] →
  now w' = (now w + turnDuration t)%nat ∧ timers w' = [].
Proof.
  intros Hrun Hempty. unfold animateTurn in Hrun.
  apply bind_returned in Hrun as ([] & w1 & H1 & Hrun).
  apply bind_returned in Hrun as ([] & w2 & H2 & Hrun).
  apply bind_returned in Hrun as ([] & w3 & H3 & Hrun).
  apply bind_returned in Hrun as ([] & w4 & H4 & Hrun).
  destruct (assign_clock _ _ _ _ H1) as [N1 T1].
  destruct (assign_clock _ _ _ _ H2) as [N2 T2].
  destruct (forEach_clock animateLoggedEvent (λ _, 800%nat) (events t) w2 w3
              animateLoggedEvent_clock H3) as [N3 T3]; [congruence|].
  assert (C4 : sameClock w3 w4).
  { destruct (pokemon_states t) as [states|].
    - pose proof (updatePokemonStates_sameClock states w3) as C. by rewrite H4 in C.
    - by injection H4 as <-. }
  destruct C4 as [N4 T4].
  destruct (sleep_settles 1000 0 w4 w' Hrun) as [N5 T5]; [| lia |].
  { unfold dueWithin. rewrite T4, T3. constructor. }
  split; [|done]. unfold turnDuration.
  rewrite sum_list_with_const in N3. lia.
Qed.

Lemma animateBattle_clock (battleResult : BattleResult) (w w' : World) :
  animateBattle battleResult w = Returned tt w' →
  timers w = [] →
  now w' = (now w + sum_list_with turnDuration (battle_log battleResult))%nat ∧
  timers w' = [].
Proof.
  intros Hrun Hempty. unfold animateBattle in Hrun.
  apply bind_returned in Hrun as ([] & w1 & Hturns & Hshow).
  destruct (forEach_clock animateTurn turnDuration _ w w1 animateTurn_clock Hturns Hempty)
    as [Hn Ht].
  pose proof (showBattleResults_sameClock battleResult w1) as C.
  rewrite Hshow in C. destruct C as [Hn' Ht']. simpl in *. split; congruence.
Qed.

End ClockProps.

(** ** [startBattle], from the request to the end *)

Module StartProps.

Import Page Battle Setup Examples PageProps CallProps BattleProps SetupProps
       ValidateProps AnimationProps ClockProps.
Local Open Scope string_scope.

Lemma present_arenaReady w : present pageIds w → loaded w → arenaReady w.
Proof.
  intros Hp [H1 _]. split; [done|]. intros id Hin. apply Hp.
  revert id Hin. apply Forall_forall. apply (bool_decide_unpack _). by vm_compute.
Qed.

Lemma animateBattle_returns rs battleResult L w :
  twoSided battleResult → logIs rs L w →
  returns (animateBattle battleResult) w
    (λ _, logIs rs (L ++ battleLogEntries battleResult)).
Proof.
  intros Htwo HL. unfold animateBattle, battleLogEntries.
  eapply returns_seq; [| intros _ w1 H1; by apply showBattleResults_keeps].
  unfold twoSided in Htwo. revert L w HL.
  induction Htwo as [|t ts Ht Hts IH]; intros L w HL.
  - simpl. by rewrite app_nil_r.
  - rewrite fmap_cons. cbn [forEach concat].
    eapply returns_seq; [by apply animateTurn_appends|].
    intros _ w1 H1. rewrite app_assoc. by apply IH.
Qed.

(** X12. The animation takes 800 ms per event and 1000 ms per turn, and when it
    is over no animation timer is left pending: started on a ready arena
    with no pending timer, on a result whose snapshots are two-sided,
    [animateBattle] returns with the clock advanced by the sum of the
    turns' durations and with no timer pending. *)
Theorem animateBattle_duration (battleResult : BattleResult) (w : World) :
  arenaReady w → twoSided battleResult → timers w = [] →
  ∃ w', animateBattle battleResult w = Returned tt w' ∧
    now w' = (now w + sum_list_with turnDuration (battle_log battleResult))%nat ∧
    timers w' = [].
Proof.
  intros Hready Htwo Hempty.
  destruct (proj2 Hready "battleLog") as [e He]; [in_arena|].
  assert (Hlog : logIs (requests w) (content e) w).
  { split; [done|]. split; [|done]. unfold contentOf. by rewrite He. }
  destruct (returns_inv _ _ _ (animateBattle_returns _ battleResult _ w Htwo Hlog))
    as ([] & w' & Hrun & _).
  exists w'. split; [done|]. by eapply animateBattle_clock.
Qed.

Lemma showLoading_runs message : runs pageIds (showLoading message).
Proof.
  unfold showLoading. apply runs_bind; [apply runs_assign; in_ids | intros _].
  apply runs_assign; in_ids.
Qed.

Lemma updateHealthBar_runs n percentage :
  n = 1 ∨ n = 2 → runs pageIds (updateHealthBar n percentage).
Proof.
  intros Hn. unfold updateHealthBar.
  assert (Hbar : ∀ f, runs pageIds (assign ("healthBar" +:+ Js.numberToString n) f)).
  { intros f. destruct Hn as [-> | ->]; apply runs_assign; in_ids. }
  apply runs_bind; [apply Hbar | intros _]. repeat case_match; apply Hbar.
Qed.

Lemma initializeBattleArena_runs config : runs pageIds (initializeBattleArena config).
Proof.
  unfold initializeBattleArena.
  apply runs_bind; [apply runs_ofLoaded1 | intros ?].
  apply runs_bind; [apply runs_assign; in_ids | intros _].
  apply runs_bind; [apply runs_ofLoaded2 | intros ?].
  do 3 (apply runs_bind; [apply runs_assign; in_ids | intros _]).
  do 2 (apply runs_bind; [apply updateHealthBar_runs; auto | intros _]).
  apply runs_bind; [apply runs_assign; in_ids | intros _].
  apply runs_assign; in_ids.
Qed.

(** [initializeBattleArena] leaves the battle log empty, whatever it held. *)
Lemma initializeBattleArena_clears_log config w w' :
  initializeBattleArena config w = Returned tt w' →
  contentOf w' "battleLog" = Some [].
Proof.
  unfold initializeBattleArena. intros H.
  do 8 (apply bind_returned in H as (? & ? & _ & H)).
  apply bind_returned in H as ([] & w9 & Hlog & Hturn).
  unfold assign in Hlog, Hturn.
  destruct (document _ !! "battleLog") as [e|]; [|done]. injection Hlog as <-.
  simpl in Hturn. rewrite lookup_insert_ne in Hturn by done.
  destruct (document _ !! "currentTurn") as [c|]; [|done]. injection Hturn as <-.
  unfold contentOf. simpl. by rewrite lookup_insert_ne, lookup_insert_eq.
Qed.

(** The body of the [catch] block of [startBattle]. *)
Lemma recover_run message w :
  present pageIds w →
  ∃ w', bind hideLoading (λ _,
          bind (setBattleInProgress false) (λ _,
            bind (showError ("Battle failed: " +:+ message)) (λ _, backToSetup))) w
        = Returned tt w' ∧
    battleState w'
    = mkBattleState (pokemon1 (battleState w)) (pokemon2 (battleState w)) false None ∧
    requests w' = requests w ∧
    display <$> document w' !! "loadingOverlay" = Some "none" ∧
    contentOf w' "errorText" = Some [Text ("Battle failed: " +:+ message)] ∧
    display <$> document w' !! "errorMessage" = Some "flex" ∧
    display <$> document w' !! "battleSetup" = Some "block" ∧
    display <$> document w' !! "battleArena" = Some "none" ∧
    display <$> document w' !! "resultsScreen" = Some "none".
Proof.
  intros Hp.
  destruct (Hp "loadingOverlay") as [lo Hlo]; [in_ids|].
  destruct (Hp "errorText") as [et Het]; [in_ids|].
  destruct (Hp "errorMessage") as [em Hem]; [in_ids|].
  destruct (Hp "battleArena") as [ba Hba]; [in_ids|].
  destruct (Hp "resultsScreen") as [rs Hrs]; [in_ids|].
  destruct (Hp "battleSetup") as [bs Hbs]; [in_ids|].
  unfold hideLoading, showError, backToSetup, bind, setBattleInProgress, setCurrentBattle.
  rewrite (assign_run _ _ _ _ Hlo).
  rewrite (assign_run "errorText" _ _ et) by (lookups; done).
  rewrite (assign_run "errorMessage" _ _ em) by (lookups; done).
  rewrite (assign_run "battleArena" _ _ ba) by (lookups; done).
  rewrite (assign_run "resultsScreen" _ _ rs) by (lookups; done).
  rewrite (assign_run "battleSetup" _ _ bs) by (lookups; done).
  eexists; split; [reflexivity|]. unfold contentOf. lookups.
  split_and!; try done.
Qed.

(** [startBattle] up to its request: the state in which the reply is
    awaited. *)
Lemma startBattle_until_reply (w : World) :
  present pageIds w → loaded w → battleInProgress (battleState w) = false →
  ∃ config w4,
    getBattleConfig w = Returned config w ∧
    (∀ reply, startBattle reply w
       = tryCatch
           (bind (fetchJson "/api/battle/simulate" config reply) (λ result,
              bind hideLoading (λ _,
                match result with
                | Success battleResult =>
                    bind (setCurrentBattle (Some battleResult))
                         (λ _, unawaited (animateBattleSteps battleResult))
                | Failure error => throw (errorOr error "Battle simulation failed")
                end)))
           (λ message,
              bind hideLoading (λ _,
                bind (setBattleInProgress false) (λ _,
                  bind (showError ("Battle failed: " +:+ message)) (λ _, backToSetup))))
           w4) ∧
    present pageIds w4 ∧
    battleState w4
    = mkBattleState (pokemon1 (battleState w)) (pokemon2 (battleState w)) true
        (currentBattle (battleState w)) ∧
    requests w4 = requests w ∧
    contentOf w4 "battleLog" = Some [] ∧
    dom (document w4) = dom (document w).
Proof.
  intros Hp Hl Hidle.
  destruct (getBattleConfig_returns w Hp Hl) as [config Hcfg].
  destruct (runs_returns _ _ w (showLoading_runs "Starting battle...") Hp Hl)
    as ([] & w1 & Hload & Hq1 & Hp1 & Hl1).
  set (w2 := withBattleState
               (mkBattleState (pokemon1 (battleState w1)) (pokemon2 (battleState w1))
                  true (currentBattle (battleState w1))) w1).
  assert (Hp2 : present pageIds w2) by exact Hp1.
  assert (Hl2 : loaded w2) by exact Hl1.
  destruct (runs_returns _ _ w2
              (runs_assign pageIds "battleSetup" (withDisplay "none") ltac:(in_ids)) Hp2 Hl2)
    as ([] & w3a & Ha & Hqa & Hpa & Hla).
  destruct (runs_returns _ _ w3a
              (runs_assign pageIds "battleArena" (withDisplay "block") ltac:(in_ids)) Hpa Hla)
    as ([] & w3b & Hb & Hqb & Hpb & Hlb).
  destruct (runs_returns _ _ w3b (initializeBattleArena_runs config) Hpb Hlb)
    as ([] & w4 & Hinit & Hq4 & Hp4 & Hl4).
  exists config, w4. split; [done|]. split; [|split_and!].
  - intros reply. unfold startBattle, bind at 1, getBattleState. rewrite Hidle.
    unfold bind at 1. rewrite Hcfg.
    unfold bind at 1. rewrite Hload.
    unfold bind at 1, setBattleInProgress. fold w2.
    unfold tryCatch, bind at 1. rewrite Ha.
    unfold bind at 1. rewrite Hb.
    unfold bind at 1. rewrite Hinit. done.
  - done.
  - destruct Hq1 as (_ & B1 & _), Hqa as (_ & Ba & _), Hqb as (_ & Bb & _),
      Hq4 as (_ & B4 & _).
    rewrite B4, Bb, Ba. subst w2. simpl. by rewrite B1.
  - destruct Hq1 as (_ & _ & R1), Hqa as (_ & _ & Ra), Hqb as (_ & _ & Rb),
      Hq4 as (_ & _ & R4).
    rewrite R4, Rb, Ra. subst w2. simpl. done.
  - by eapply initializeBattleArena_clears_log.
  - destruct Hq1 as (D1 & _), Hqa as (Da & _), Hqb as (Db & _), Hq4 as (D4 & _).
    rewrite D4, Db, Da. subst w2. simpl. exact D1.
Qed.

(** X13. When the request fails or the server declines, [startBattle] still
    returns and the page is ready for another start: [battleInProgress] is
    false again, no battle is kept, the set-up screen is shown and the arena
    hidden, the loading overlay is hidden, "Battle failed: ..." is shown, and
    exactly one request, carrying the configuration, has been sent. *)
Theorem startBattle_failure_recovers
    (reply : FetchReply SimulateResponse) (reason : string) (w : World) :
  present pageIds w → loaded w → battleInProgress (battleState w) = false →
  reply = Rejected reason ∨
  (∃ error, reply = Json (Failure error) ∧
            reason = errorOr error "Battle simulation failed") →
  ∃ config w',
    getBattleConfig w = Returned config w ∧
    startBattle reply w = Returned tt w' ∧
    battleState w'
    = mkBattleState (pokemon1 (battleState w)) (pokemon2 (battleState w)) false None ∧
    requests w' = (requests w ++ [Post "/api/battle/simulate" config])%list ∧
    contentOf w' "errorText" = Some [Text ("Battle failed: " +:+ reason)] ∧
    display <$> document w' !! "errorMessage" = Some "flex" ∧
    display <$> document w' !! "loadingOverlay" = Some "none" ∧
    display <$> document w' !! "battleSetup" = Some "block" ∧
    display <$> document w' !! "battleArena" = Some "none".
Proof.
  intros Hp Hl Hidle Hreply.
  destruct (startBattle_until_reply w Hp Hl Hidle)
    as (config & w4 & Hcfg & Hstart & Hp4 & Hbs4 & Hrq4 & _).
  exists config. rewrite Hstart. unfold tryCatch, bind at 1. rewrite fetchJson_run.
  set (w5 := withRequests _ w4).
  assert (Hp5 : present pageIds w5) by exact Hp4.
  destruct Hreply as [-> | (error & -> & ->)].
  - destruct (recover_run reason w5 Hp5)
      as (w' & -> & Hbs & Hrq & Hlo & Het & Hem & Hsetup & Harena & _).
    exists w'. split_and!; try done.
    + rewrite Hbs. subst w5. simpl. by rewrite Hbs4.
    + rewrite Hrq. subst w5. simpl. by rewrite Hrq4.
  - destruct (Hp5 "loadingOverlay") as [lo Hlo5]; [in_ids|].
    unfold bind at 1, hideLoading at 1. rewrite (assign_run _ _ _ _ Hlo5).
    unfold throw.
    set (w6 := withDocument _ w5).
    assert (Hp6 : present pageIds w6).
    { eapply quiet_present; [|exact Hp5].
      pose proof (frames_quiet_assign "loadingOverlay" (withDisplay "none") w5) as Hq.
      by rewrite (assign_run _ _ _ _ Hlo5) in Hq. }
    destruct (recover_run (errorOr error "Battle simulation failed") w6 Hp6)
      as (w' & -> & Hbs & Hrq & Hlo & Het & Hem & Hsetup & Harena & _).
    exists w'. split_and!; try done.
    + rewrite Hbs. subst w6 w5. simpl. by rewrite Hbs4.
    + rewrite Hrq. subst w6 w5. simpl. by rewrite Hrq4.
Qed.

(** *** The call that is not awaited *)

Lemma returns_quiet {A} (m : JS A) w (P : A → World → Prop) :
  returns m w P → frames quiet m → ∃ a w', m w = Returned a w' ∧ P a w' ∧ quiet w w'.
Proof.
  intros Hret Hq. apply returns_inv in Hret as (a & w' & Hrun & HP).
  exists a, w'. split_and!; [done | done |]. specialize (Hq w). by rewrite Hrun in Hq.
Qed.

(** What holds of every step that is run holds of the steps up to the
    first wait. *)
Lemma untilSleep_frames (R : World → World → Prop) `{!Reflexive R} `{!Transitive R}
    (steps : list Step) :
  Forall (λ step, match step with Run m => frames R m | Sleep _ => True end) steps →
  frames R (untilSleep steps).
Proof.
  induction 1 as [|[m|ms] steps Hstep _ IH]; cbn [untilSleep].
  - by apply frames_ret.
  - apply frames_bind; [done | done | intros _; exact IH].
  - by apply frames_ret.
Qed.

(** And of the steps awaited, when it holds of a wait, and so of the
    steps left pending. *)
Lemma awaited_frames (R : World → World → Prop) `{!Reflexive R} `{!Transitive R}
    (steps : list Step) :
  (∀ ms, frames R (sleep ms)) →
  Forall (λ step, match step with Run m => frames R m | Sleep _ => True end) steps →
  frames R (awaited steps).
Proof.
  intros Hsleep. induction 1 as [|[m|ms] steps Hstep _ IH]; cbn [awaited].
  - by apply frames_ret.
  - apply frames_bind; [done | done | intros _; exact IH].
  - apply frames_bind; [done | apply Hsleep | intros _; exact IH].
Qed.

Lemma pending_Forall (P : Step → Prop) (steps : list Step) :
  Forall P steps → Forall P (pending steps).
Proof.
  induction 1 as [|[m|ms] steps Hstep Hsteps IH]; cbn [pending];
    [by apply Forall_nil | exact IH | by apply Forall_cons].
Qed.

Lemma unawaited_frames (R : World → World → Prop) (steps : list Step) :
  frames R (untilSleep steps) → frames R (unawaited steps).
Proof. intros H w. exact (H w). Qed.

(** What holds of the calls that [animateBattle] makes holds of each of
    its steps. *)
Lemma animateTurnSteps_frames (R : World → World → Prop) `{!Reflexive R} `{!Transitive R} t :
  (∀ text, frames R (assign "currentTurn" (withTextContent text))) →
  (∀ child, frames R (assign "battleLog" (appendChild child))) →
  (∀ event, frames R (animateEvent event)) →
  (∀ states, frames R (updatePokemonStates states)) →
  Forall (λ step, match step with Run m => frames R m | Sleep _ => True end)
         (animateTurnSteps t).
Proof.
  intros Hturn Hlog Hevent Hstates. unfold animateTurnSteps. apply Forall_cons. split.
  { apply frames_bind; [done | apply Hturn | intros _; apply Hlog]. }
  apply Forall_app. split.
  - induction (events t) as [|event events IH]; [by apply Forall_nil|].
    rewrite fmap_cons. cbn [concat]. apply Forall_app. split; [|exact IH].
    repeat (apply Forall_cons; split); [| done | by apply Forall_nil].
    apply frames_bind; [done | apply Hevent | intros _; apply Hlog].
  - repeat (apply Forall_cons; split); [| done | by apply Forall_nil].
    destruct (pokemon_states t); [apply Hstates | by apply frames_ret].
Qed.

Lemma animateBattleSteps_frames (R : World → World → Prop) `{!Reflexive R} `{!Transitive R}
    battleResult :
  (∀ text, frames R (assign "currentTurn" (withTextContent text))) →
  (∀ child, frames R (assign "battleLog" (appendChild child))) →
  (∀ event, frames R (animateEvent event)) →
  (∀ states, frames R (updatePokemonStates states)) →
  frames R (showBattleResults battleResult) →
  Forall (λ step, match step with Run m => frames R m | Sleep _ => True end)
         (animateBattleSteps battleResult).
Proof.
  intros Hturn Hlog Hevent Hstates Hshow. unfold animateBattleSteps.
  apply Forall_app. split; [|by repeat (apply Forall_cons; split); [| by apply Forall_nil]].
  induction (battle_log battleResult) as [|t turns IH]; [by apply Forall_nil|].
  rewrite fmap_cons. cbn [concat]. apply Forall_app. split; [|exact IH].
  by apply animateTurnSteps_frames.
Qed.

Lemma animateTurnSteps_quiet t :
  Forall (λ step, match step with Run m => frames quiet m | Sleep _ => True end)
         (animateTurnSteps t).
Proof.
  apply animateTurnSteps_frames; try apply _.
  - intros text. apply frames_quiet_assign.
  - intros child. apply frames_quiet_assign.
  - apply animateEvent_quiet.
  - apply updatePokemonStates_quiet.
Qed.

(** The steps of a turn end in a wait, so the steps up to the first wait
    of the whole animation are those of its first turn. *)
Lemma untilSleep_first_turn battleResult t turns w :
  battle_log battleResult = t :: turns →
  untilSleep (animateBattleSteps battleResult) w = untilSleep (animateTurnSteps t) w.
Proof.
  intros Hlog. unfold animateBattleSteps. rewrite Hlog, fmap_cons. cbn [concat].
  assert (Hshape : ∃ steps, animateTurnSteps t = (steps ++ [Sleep 1000])%list).
  { eexists (_ :: _ ++ [_])%list. unfold animateTurnSteps. cbn [app].
    by rewrite <- app_assoc. }
  destruct Hshape as [steps ->]. rewrite <- !app_assoc. cbn [app]. apply untilSleep_app.
Qed.

(** The animation up to its first wait: the header of the first turn and
    the entry of its first event are in the log, and nothing else of what
    [quiet] speaks of has changed. *)
Lemma untilSleep_animateBattle rs battleResult t turns L w :
  battle_log battleResult = t :: turns →
  (∀ states, pokemon_states t = Some states → (length states ≤ 2)%nat) →
  logIs rs L w →
  ∃ w1, untilSleep (animateBattleSteps battleResult) w = Returned tt w1 ∧
    logIs rs (L ++ firstEntries battleResult) w1 ∧ quiet w w1.
Proof.
  intros Hlog Htwo HL.
  assert (Hq : frames quiet (untilSleep (animateTurnSteps t))).
  { apply untilSleep_frames; [apply _ | apply _ | apply animateTurnSteps_quiet]. }
  assert (Hret : returns (untilSleep (animateTurnSteps t)) w
                   (λ _, logIs rs (L ++ firstEntries battleResult))).
  { unfold firstEntries, animateTurnSteps. rewrite Hlog. cbn [untilSleep].
    eapply returns_seq.
    { eapply returns_seq; [by apply assign_keeps; [in_arena | done | done]|].
      intros _ w1 H1. by apply assign_log_append. }
    intros _ w2 H2. destruct (events t) as [|event events].
    - rewrite fmap_nil. cbn [concat app untilSleep].
      eapply returns_seq; [| intros _ w3 H3; exact H3].
      destruct (pokemon_states t) as [states|]; [|done].
      apply updatePokemonStates_keeps; [by apply Htwo | done].
    - rewrite fmap_cons. cbn [concat app animateLoggedEventSteps untilSleep].
      eapply returns_seq; [| intros _ w3 H3; exact H3].
      eapply returns_seq; [by apply animateEvent_keeps|]. intros _ w3 H3.
      replace (L ++ [Child (turnHeader t); Child (logEntry event)])%list
        with ((L ++ [Child (turnHeader t)]) ++ [Child (logEntry event)])%list
        by (by rewrite <- app_assoc).
      by apply assign_log_append. }
  destruct (returns_quiet _ w _ Hret Hq) as ([] & w1 & Hrun & HL1 & Hq1).
  exists w1. by rewrite (untilSleep_first_turn _ t turns w Hlog).
Qed.

(** X14. A battle that is won: [startBattle] returns as soon as the animation
    waits for the first time, and the animation goes on by itself.
    Started on a complete page with both Pokemon loaded, and answered with
    a result of at least one turn whose snapshots are two-sided,
    [startBattle] returns with the battle in progress, the result kept as
    [currentBattle], exactly one request sent, and in the log (whatever
    it held before) the header of the first turn and the entry of its
    first event.  The steps of [animateBattle] then pending run to their
    end: the log holds exactly the entries of this battle, and
    [battleInProgress] is false again. *)
Theorem startBattle_success_then_animation (battleResult : BattleResult) (w : World) :
  present pageIds w → loaded w → battleInProgress (battleState w) = false →
  twoSided battleResult → battle_log battleResult ≠ [] →
  ∃ config w1 w2,
    getBattleConfig w = Returned config w ∧
    startBattle (Json (Success battleResult)) w = Returned tt w1 ∧
    contentOf w1 "battleLog" = Some (firstEntries battleResult) ∧
    battleState w1
    = mkBattleState (pokemon1 (battleState w)) (pokemon2 (battleState w)) true
        (Some battleResult) ∧
    requests w1 = (requests w ++ [Post "/api/battle/simulate" config])%list ∧
    awaited (pending (animateBattleSteps battleResult)) w1 = Returned tt w2 ∧
    contentOf w2 "battleLog" = Some (battleLogEntries battleResult) ∧
    battleState w2
    = mkBattleState (pokemon1 (battleState w)) (pokemon2 (battleState w)) false
        (Some battleResult) ∧
    requests w2 = requests w1.
Proof.
  intros Hp Hl Hidle Htwo Hturns.
  destruct (battle_log battleResult) as [|t turns] eqn:Hlog; [done|]. clear Hturns.
  destruct (startBattle_until_reply w Hp Hl Hidle)
    as (config & w4 & Hcfg & Hstart & Hp4 & Hbs4 & Hrq4 & Hlog4 & _).
  exists config. rewrite Hstart. unfold tryCatch, bind at 1. rewrite fetchJson_run.
  set (w5 := withRequests _ w4).
  assert (Hp5 : present pageIds w5) by exact Hp4.
  destruct (Hp5 "loadingOverlay") as [lo Hlo5]; [in_ids|].
  unfold bind at 1, hideLoading at 1. rewrite (assign_run _ _ _ _ Hlo5).
  unfold bind at 1, setCurrentBattle.
  set (w7 := withBattleState _ _).
  assert (Hp7 : present pageIds w7).
  { subst w7. intros id Hin. lookups.
    destruct (decide (id = "loadingOverlay")) as [->|Hne].
    - rewrite lookup_insert_eq. eauto.
    - rewrite lookup_insert_ne by done. by apply Hp4. }
  assert (Hl7 : loaded w7).
  { subst w7 w5. unfold loaded. lookups. rewrite Hbs4. simpl. exact Hl. }
  assert (Hlog7 : logIs (requests w7) [] w7).
  { split; [by apply present_arenaReady|]. split; [|done].
    subst w7 w5. unfold contentOf in *. lookups. exact Hlog4. }
  assert (Hfirst : ∀ states, pokemon_states t = Some states → (length states ≤ 2)%nat).
  { unfold twoSided in Htwo. rewrite Hlog in Htwo. by apply Forall_cons in Htwo as [? _]. }
  destruct (untilSleep_animateBattle _ battleResult t turns [] w7 Hlog Hfirst Hlog7)
    as (w1 & Hrun1 & Hlog1 & Hq1).
  pose proof (animateBattle_returns _ battleResult [] w7 Htwo Hlog7) as Hret.
  pose proof (animateBattle_outcomes battleResult w7) as Hend.
  unfold returns in Hret.
  rewrite <- awaited_animateBattle, awaited_split in Hret, Hend.
  unfold bind in Hret, Hend. rewrite Hrun1 in Hret, Hend.
  destruct (awaited (pending (animateBattleSteps battleResult)) w1) as [[] w2|] eqn:Hrun2;
    [|done].
  exists w1, w2. unfold unawaited. rewrite Hrun1.
  destruct Hq1 as (_ & Hbs1 & Hrq1).
  assert (Hbs7 : battleState w7
                 = mkBattleState (pokemon1 (battleState w)) (pokemon2 (battleState w)) true
                     (Some battleResult)).
  { subst w7 w5. lookups. by rewrite Hbs4. }
  assert (Hrq7 : requests w7 = (requests w ++ [Post "/api/battle/simulate" config])%list).
  { subst w7 w5. lookups. by rewrite Hrq4. }
  split_and!; try done.
  - by destruct Hlog1 as (_ & Hlog' & _).
  - by rewrite Hbs1.
  - by rewrite Hrq1.
  - by destruct Hret as (_ & Hlog' & _).
  - destruct Hend as (_ & Hbs' & _). rewrite Hbs', Hbs7. done.
  - destruct Hend as (_ & _ & Hrq'). by rewrite Hrq', Hrq1.
Qed.

End StartProps.

(** ** Snapshots with more than two entries *)

Module CrowdedProps.

Import Page Battle Setup Examples PageProps CallProps BattleProps SetupProps
       ValidateProps AnimationProps ClockProps StartProps.
Local Open Scope string_scope.

Lemma bind_run {A B} (m : JS A) (k : A → JS B) w a w' :
  m w = Returned a w' → bind m k w = k a w'.
Proof. intros Hrun. unfold bind. by rewrite Hrun. Qed.

Lemma bind_throw {A B} (m : JS A) (k : A → JS B) w message w' :
  m w = Thrown message w' → bind m k w = Thrown message w'.
Proof. intros Hrun. unfold bind. by rewrite Hrun. Qed.

Lemma updateHealthBar_absent n p w :
  document w !! ("healthBar" +:+ Js.numberToString n) = None →
  updateHealthBar n p w = Thrown (nullAccess ("healthBar" +:+ Js.numberToString n)) w.
Proof.
  intros Hnone. unfold updateHealthBar. apply bind_throw.
  unfold assign. by rewrite Hnone.
Qed.

Lemma app_nonempty (s t : string) : t ≠ "" → s +:+ t ≠ "".
Proof. intros Ht. destruct s; [exact Ht | discriminate]. Qed.

Lemma healthText_nonempty state : healthText state ≠ "".
Proof. unfold healthText. apply app_nonempty. discriminate. Qed.

Lemma updateHealthBar_changesOnly ids n p :
  "healthBar" +:+ Js.numberToString n ∈ ids →
  frames (changesOnly ids) (updateHealthBar n p).
Proof.
  intros Hin. unfold updateHealthBar.
  apply frames_bind; [apply _ | by apply frames_changesOnly_assign | intros _].
  repeat case_match; by apply frames_changesOnly_assign.
Qed.

Lemma updateStatusEffects_changesOnly ids n s :
  "statusEffects" +:+ Js.numberToString n ∈ ids →
  frames (changesOnly ids) (updateStatusEffects n s).
Proof.
  intros Hin. unfold updateStatusEffects.
  apply frames_bind; [apply _ | by apply frames_changesOnly_assign | intros _].
  repeat case_match;
    first [by apply frames_changesOnly_assign | apply frames_ret; apply _].
Qed.

Lemma updateStatusEffects_runs n s : n = 1 ∨ n = 2 → runs pageIds (updateStatusEffects n s).
Proof.
  intros Hn. unfold updateStatusEffects.
  assert (Hdiv : ∀ f, runs pageIds (assign ("statusEffects" +:+ Js.numberToString n) f)).
  { intros f. destruct Hn as [-> | ->]; apply runs_assign; in_ids. }
  apply runs_bind; [apply Hdiv | intros _].
  repeat case_match; first [apply Hdiv | apply runs_ret].
Qed.

(** One round of the loop of [updatePokemonStates], for side 1 or 2. *)
Lemma showEntry_spec (state : PokemonState) n w :
  n = 1 ∨ n = 2 → present pageIds w → loaded w →
  ∃ w',
    updatePokemonState state n w = Returned tt w' ∧
    quiet w w' ∧
    changesOnly ["healthBar" +:+ Js.numberToString n;
                 "healthText" +:+ Js.numberToString n;
                 "statusEffects" +:+ Js.numberToString n] w w' ∧
    contentOf w' ("healthText" +:+ Js.numberToString n) = Some [Text (healthText state)].
Proof.
  intros Hn Hp Hl.
  set (ids := ["healthBar" +:+ Js.numberToString n;
               "healthText" +:+ Js.numberToString n;
               "statusEffects" +:+ Js.numberToString n]).
  set (m := updatePokemonState state n).
  assert (Hruns : runs pageIds m).
  { subst m. unfold updatePokemonState. apply runs_bind; [by apply updateHealthBar_runs | intros _].
    apply runs_bind; [| intros _; by apply updateStatusEffects_runs].
    destruct Hn as [-> | ->]; apply runs_assign; in_ids. }
  assert (Hch : frames (changesOnly ids) m).
  { subst m ids. unfold updatePokemonState.
    apply frames_bind; [apply _ | apply updateHealthBar_changesOnly; set_solver | intros _].
    apply frames_bind; [apply _ | apply frames_changesOnly_assign; set_solver | intros _].
    apply updateStatusEffects_changesOnly. set_solver. }
  destruct (runs_returns _ _ w Hruns Hp Hl) as ([] & w' & Hrun & Hq & _ & _).
  exists w'. split_and!; [done | done | |].
  - specialize (Hch w). by rewrite Hrun in Hch.
  - subst m. unfold updatePokemonState in Hrun. fold (healthText state) in Hrun.
    apply bind_returned in Hrun as ([] & w1 & _ & Hrun).
    apply bind_returned in Hrun as ([] & w2 & Htext & Hstatus).
    pose proof (updateStatusEffects_changesOnly
                  ["statusEffects" +:+ Js.numberToString n] n (ps_status state)
                  ltac:(set_solver) w2) as Hst.
    rewrite Hstatus in Hst. destruct Hst as (_&_&_&_&_&Hst). simpl in Hst.
    unfold contentOf. rewrite Hst.
    + unfold assign in Htext.
      destruct (document w1 !! _) as [e|]; [|done]. injection Htext as <-.
      simpl. rewrite lookup_insert_eq. simpl. unfold withTextContent.
      by rewrite decide_False by apply healthText_nonempty.
    + destruct Hn as [-> | ->]; intros Hin; apply list_elem_of_singleton in Hin;
        vm_compute in Hin; discriminate Hin.
Qed.

Lemma third_entry_throws
    (states : list (string * PokemonState))
    (e1 e2 e3 : string * PokemonState) (rest : list (string * PokemonState)) (w : World) :
  Js.objectEntries states = e1 :: e2 :: e3 :: rest →
  present pageIds w → loaded w →
  document w !! "healthBar3" = None →
  ∃ w', updatePokemonStates states w
        = Thrown (nullAccess "healthBar3") w' ∧
    quiet w w' ∧
    changesOnly sideIds w w' ∧
    contentOf w' "healthText1" = Some [Text (healthText e1.2)] ∧
    contentOf w' "healthText2" = Some [Text (healthText e2.2)].
Proof.
  intros Hentries Hp Hl Hnone.
  destruct (showEntry_spec e1.2 1 w (or_introl eq_refl) Hp Hl)
    as (w1 & Hrun1 & Hq1 & Hch1 & Ht1).
  destruct (showEntry_spec e2.2 2 w1 (or_intror eq_refl)
              (quiet_present _ _ _ Hq1 Hp) (quiet_loaded _ _ Hq1 Hl))
    as (w2 & Hrun2 & Hq2 & Hch2 & Ht2).
  exists w2. rewrite updatePokemonStates_entries, Hentries. cbn [forEachIndexed].
  change (0 + 1 + 1 + 1) with 3. change (0 + 1 + 1) with 2. change (0 + 1) with 1.
  rewrite (bind_run _ _ _ _ _ Hrun1), (bind_run _ _ _ _ _ Hrun2).
  unfold updatePokemonState at 1.
  rewrite (bind_throw _ _ _ _ _ (bind_throw _ _ _ _ _
             (updateHealthBar_absent 3 _ w2 (quiet_absent "healthBar3" w w2
                ltac:(by etrans) Hnone)))).
  split_and!; [done | by etrans | | | done].
  - etrans; (eapply changesOnly_weaken; [| eassumption]);
      intros id Hin; vm_compute in Hin |- *; set_solver.
  - destruct Hch2 as (_&_&_&_&_&Hch2). unfold contentOf in *.
    rewrite Hch2; [exact Ht1|].
    intros Hin. vm_compute in Hin. set_solver.
Qed.

(** X15. On a page that has the elements of two sides only, a snapshot with a
    third key makes [updatePokemonStates] throw on [healthBar3], after the
    first two entries of the object have been displayed. *)
Theorem updatePokemonStates_third_entry
    (states : list (string * PokemonState))
    (e1 e2 e3 : string * PokemonState) (rest : list (string * PokemonState)) (w : World) :
  Js.objectEntries states = e1 :: e2 :: e3 :: rest →
  present pageIds w → loaded w →
  document w !! "healthBar3" = None →
  ∃ w', updatePokemonStates states w
        = Thrown (nullAccess "healthBar3") w' ∧
    quiet w w' ∧
    contentOf w' "healthText1" = Some [Text (healthText e1.2)] ∧
    contentOf w' "healthText2" = Some [Text (healthText e2.2)].
Proof.
  intros Hentries Hp Hl Hnone.
  destruct (third_entry_throws states e1 e2 e3 rest w Hentries Hp Hl Hnone)
    as (w' & ? & ? & ? & ? & ?).
  by exists w'.
Qed.

Lemma animateTurn_crowded t L w :
  crowded t → present pageIds w → loaded w →
  document w !! "healthBar3" = None →
  contentOf w "battleLog" = Some L →
  ∃ w', animateTurn t w = Thrown (nullAccess "healthBar3") w' ∧
    quiet w w' ∧ contentOf w' "battleLog" = Some (L ++ turnEntries t)%list.
Proof.
  intros (states & Hstates & Hlen) Hp Hl Hnone HL.
  assert (Hlog : logIs (requests w) L w).
  { split; [by apply present_arenaReady | done]. }
  unfold animateTurn, turnEntries.
  destruct (returns_quiet _ w _
              (assign_keeps (requests w) "currentTurn"
                 (withTextContent (Js.numberToString (turn t))) L w
                 ltac:(in_arena) ltac:(done) Hlog)
              (frames_quiet_assign _ _)) as ([] & w1 & Hrun1 & Hlog1 & Hq1).
  rewrite (bind_run _ _ _ _ _ Hrun1).
  destruct (returns_quiet _ w1 _
              (assign_log_append (requests w) (turnHeader t) L w1 Hlog1)
              (frames_quiet_assign _ _)) as ([] & w2 & Hrun2 & Hlog2 & Hq2).
  rewrite (bind_run _ _ _ _ _ Hrun2).
  destruct (returns_quiet _ w2 _
              (forEach_appends (requests w) animateLoggedEvent
                 (λ event, [Child (logEntry event)]) (events t) _ w2
                 (animateLoggedEvent_appends (requests w)) Hlog2)
              ltac:(apply frames_forEach;
                       [apply _ | apply _ | apply animateLoggedEvent_quiet]))
    as ([] & w3 & Hrun3 & Hlog3 & Hq3).
  rewrite (bind_run _ _ _ _ _ Hrun3).
  rewrite (concat_singletons (Child ∘ logEntry)), <- app_assoc in Hlog3. simpl in Hlog3.
  assert (Hq : quiet w w3) by (etrans; [exact Hq1 | by etrans]).
  rewrite Hstates.
  rewrite <- JsProps.objectEntries_keys, length_fmap in Hlen.
  destruct (Js.objectEntries states) as [|e1 [|e2 [|e3 rest]]] eqn:Hentries;
    simpl in Hlen; try lia.
  destruct (third_entry_throws states e1 e2 e3 rest w3 Hentries
              (quiet_present _ _ _ Hq Hp) (quiet_loaded _ _ Hq Hl)
              (quiet_absent _ _ _ Hq Hnone)) as (w4 & Hrun4 & Hq4 & Hch4 & _).
  exists w4. rewrite (bind_throw _ _ _ _ _ Hrun4).
  split_and!; [done | by etrans |].
  destruct Hch4 as (_&_&_&_&_&Hch4). destruct Hlog3 as (_ & Hc3 & _).
  unfold contentOf in *. rewrite Hch4; [exact Hc3|].
  intros Hin. vm_compute in Hin. set_solver.
Qed.

Lemma animateTurn_twoSided t L w :
  (∀ states, pokemon_states t = Some states → (length states ≤ 2)%nat) →
  present pageIds w → loaded w → contentOf w "battleLog" = Some L →
  ∃ w', animateTurn t w = Returned tt w' ∧ quiet w w' ∧
    contentOf w' "battleLog" = Some (L ++ turnEntries t)%list.
Proof.
  intros Htwo Hp Hl HL.
  assert (Hlog : logIs (requests w) L w).
  { split; [by apply present_arenaReady | done]. }
  destruct (returns_quiet _ w _ (animateTurn_appends _ t L w Htwo Hlog)
              (animateTurn_quiet t)) as ([] & w' & Hrun & Hlog' & Hq).
  exists w'. split_and!; [done | done | by destruct Hlog' as (_ & -> & _)].
Qed.

Lemma animateBattle_stops_at_crowded_turn_aux
    (battleResult : BattleResult) (before after : list TurnRecord) (t : TurnRecord)
    (L : list Item) (w : World) :
  battle_log battleResult = (before ++ t :: after)%list →
  Forall (λ t, ∀ states, pokemon_states t = Some states → (length states ≤ 2)%nat) before →
  crowded t →
  present pageIds w → loaded w →
  document w !! "healthBar3" = None →
  contentOf w "battleLog" = Some L →
  ∃ w', animateBattle battleResult w = Thrown (nullAccess "healthBar3") w' ∧
    battleState w' = battleState w ∧
    contentOf w' "battleLog"
      = Some (L ++ concat (turnEntries <$> before) ++ turnEntries t)%list.
Proof.
  intros Hlog Hbefore Hcrowded Hp Hl Hnone HL.
  unfold animateBattle. rewrite Hlog. clear Hlog.
  cut (∃ w', forEach (before ++ t :: after)%list animateTurn w
             = Thrown (nullAccess "healthBar3") w' ∧ quiet w w' ∧
             contentOf w' "battleLog"
             = Some (L ++ concat (turnEntries <$> before) ++ turnEntries t)%list).
  { intros (w' & Hrun & Hq & Hc). exists w'.
    rewrite (bind_throw _ _ _ _ _ Hrun). split_and!; [done | apply Hq | done]. }
  revert L w Hp Hl Hnone HL.
  induction Hbefore as [|t0 before Ht0 _ IH]; intros L w Hp Hl Hnone HL.
  - destruct (animateTurn_crowded t L w Hcrowded Hp Hl Hnone HL) as (w' & Hrun & Hq & Hc).
    exists w'. simpl. by rewrite (bind_throw _ _ _ _ _ Hrun).
  - destruct (animateTurn_twoSided t0 L w Ht0 Hp Hl HL) as (w1 & Hrun1 & Hq1 & Hc1).
    destruct (IH _ w1 (quiet_present _ _ _ Hq1 Hp) (quiet_loaded _ _ Hq1 Hl)
                (quiet_absent _ _ _ Hq1 Hnone) Hc1) as (w' & Hrun & Hq & Hc).
    exists w'. cbn [app forEach]. rewrite (bind_run _ _ _ _ _ Hrun1).
    split_and!; [done | by etrans |].
    rewrite Hc, fmap_cons. simpl. by rewrite <- !app_assoc.
Qed.

(** X16. A turn whose snapshot has a third entry stops the animation: on a
    page with the elements of two sides only, [animateBattle] throws when
    it reaches the first such turn, having logged the turns up to and
    including it; the flag [battleInProgress] is left as it was and the
    later turns and the results are never shown. *)
Theorem animateBattle_stops_at_crowded_turn
    (battleResult : BattleResult) (before after : list TurnRecord) (t : TurnRecord)
    (L : list Item) (w : World) :
  battle_log battleResult = (before ++ t :: after)%list →
  Forall (λ t, ∀ states, pokemon_states t = Some states → (length states ≤ 2)%nat) before →
  crowded t →
  present pageIds w → loaded w →
  document w !! "healthBar3" = None →
  contentOf w "battleLog" = Some L →
  ∃ w', animateBattle battleResult w = Thrown (nullAccess "healthBar3") w' ∧
    battleState w' = battleState w ∧
    contentOf w' "battleLog"
      = Some (L ++ concat (turnEntries <$> before) ++ turnEntries t)%list.
Proof. apply animateBattle_stops_at_crowded_turn_aux. Qed.

(** X17. A battle whose result has such a turn, after a first turn that is
    two-sided, leaves the page stuck.  The call of [animateBattle] is not
    awaited, so [startBattle] returns as if all were well, with the battle
    in progress and the result kept; the steps then pending throw at the
    crowded turn, which nobody catches: [battleState] stays as it is,
    [battleInProgress] true, and the log ends with the entries of that
    turn. *)
Theorem startBattle_stuck_after_crowded_turn
    (battleResult : BattleResult) (before after : list TurnRecord) (t : TurnRecord)
    (w : World) :
  present pageIds w → loaded w → battleInProgress (battleState w) = false →
  document w !! "healthBar3" = None →
  battle_log battleResult = (before ++ t :: after)%list → before ≠ [] →
  Forall (λ t, ∀ states, pokemon_states t = Some states → (length states ≤ 2)%nat) before →
  crowded t →
  ∃ w1 w2, startBattle (Json (Success battleResult)) w = Returned tt w1 ∧
    battleInProgress (battleState w1) = true ∧
    currentBattle (battleState w1) = Some battleResult ∧
    awaited (pending (animateBattleSteps battleResult)) w1
    = Thrown (nullAccess "healthBar3") w2 ∧
    battleState w2 = battleState w1 ∧
    contentOf w2 "battleLog"
      = Some (concat (turnEntries <$> before) ++ turnEntries t)%list.
Proof.
  intros Hp Hl Hidle Hnone Hlog Hne Hbefore Hcrowded.
  destruct (startBattle_until_reply w Hp Hl Hidle)
    as (config & w4 & Hcfg & Hstart & Hp4 & Hbs4 & Hrq4 & Hlog4 & Hdom4).
  rewrite Hstart. unfold tryCatch, bind at 1. rewrite fetchJson_run.
  set (w5 := withRequests _ w4).
  assert (Hp5 : present pageIds w5) by exact Hp4.
  destruct (Hp5 "loadingOverlay") as [lo Hlo5]; [in_ids|].
  unfold bind at 1, hideLoading at 1. rewrite (assign_run _ _ _ _ Hlo5).
  unfold bind at 1, setCurrentBattle.
  set (w7 := withBattleState _ _).
  assert (Hp7 : present pageIds w7).
  { subst w7. intros id Hin. lookups.
    destruct (decide (id = "loadingOverlay")) as [->|Hne'].
    - rewrite lookup_insert_eq. eauto.
    - rewrite lookup_insert_ne by done. by apply Hp4. }
  assert (Hl7 : loaded w7).
  { subst w7 w5. unfold loaded. lookups. rewrite Hbs4. simpl. exact Hl. }
  assert (Hnone7 : document w7 !! "healthBar3" = None).
  { subst w7 w5. lookups.
    apply not_elem_of_dom. rewrite Hdom4. by apply not_elem_of_dom. }
  assert (Hlog7 : contentOf w7 "battleLog" = Some []).
  { subst w7 w5. unfold contentOf in *. lookups. exact Hlog4. }
  destruct (animateBattle_stops_at_crowded_turn_aux battleResult before after t [] w7
              Hlog Hbefore Hcrowded Hp7 Hl7 Hnone7 Hlog7) as (w' & Hrun & Hbs' & Hc').
  destruct before as [|t0 before]; [done|].
  assert (Hfirst : ∀ states, pokemon_states t0 = Some states → (length states ≤ 2)%nat).
  { by apply Forall_cons in Hbefore as [? _]. }
  assert (HlogIs : logIs (requests w7) [] w7).
  { split; [by apply present_arenaReady | done]. }
  destruct (untilSleep_animateBattle _ battleResult t0 _ [] w7 Hlog Hfirst HlogIs)
    as (w1 & Hrun1 & _ & (_ & Hbs1 & _)).
  rewrite <- awaited_animateBattle, awaited_split in Hrun.
  unfold bind in Hrun. rewrite Hrun1 in Hrun.
  exists w1, w'. unfold unawaited. rewrite Hrun1.
  split_and!; [done | | | done | by rewrite Hbs', Hbs1 | done].
  - rewrite Hbs1. subst w7 w5. lookups. by rewrite Hbs4.
  - rewrite Hbs1. subst w7 w5. by lookups.
Qed.

End CrowdedProps.

(** ** Loading and resetting *)

Module SessionProps.

Import Page Battle Examples Setup Session PageProps CallProps BattleProps SetupProps
       ValidateProps AnimationProps ClockProps StartProps.
Local Open Scope string_scope.

Lemma sbind_run {A B} (m : Script A) (k : A → Script B) s a s' :
  m s = Done a s' → sbind m k s = k a s'.
Proof. intros Hrun. unfold sbind. by rewrite Hrun. Qed.

Lemma sbind_fail {A B} (m : Script A) (k : A → Script B) s message s' :
  m s = Failed message s' → sbind m k s = Failed message s'.
Proof. intros Hrun. unfold sbind. by rewrite Hrun. Qed.

Lemma lift_run {A} (m : JS A) s a w :
  m (page s) = Returned a w → lift m s = Done a (withPage w s).
Proof. intros Hrun. unfold lift. by rewrite Hrun. Qed.

Lemma lift_fail {A} (m : JS A) s message w :
  m (page s) = Thrown message w → lift m s = Failed message (withPage w s).
Proof. intros Hrun. unfold lift. by rewrite Hrun. Qed.

Lemma lift_assign id f s e :
  document (page s) !! id = Some e →
  lift (assign id f) s
  = Done tt (withPage (withDocument (<[id := f e]> (document (page s))) (page s)) s).
Proof. intros He. apply lift_run. by apply assign_run. Qed.

Lemma lift_read {A} id (prop : Element → A) s e :
  document (page s) !! id = Some e → lift (read id prop) s = Done (prop e) (withPage (page s) s).
Proof. intros He. apply lift_run. unfold read. by rewrite He. Qed.

Lemma withPage_page s : withPage (page s) s = s.
Proof. by destruct s. Qed.

Ltac sfields :=
  cbn [page pokemon1Moves pokemon2Moves alt options toasts created removals console gets
       withPage withPokemon1Moves withPokemon2Moves withAlt withOptions withToasts
       withConsole withGets
       document battleState bodyFilter now timers requests
       withDocument withBattleState withBodyFilter withTimers withRequests] in *.

(** Every pending removal is of a toast that has been created. *)
Lemma showSuccess_run message s :
  showSuccess message s
  = Done tt (withToasts
               (toasts s ++ [(created s, mkToast (mkNode "div" "success-toast" message)
                                           toastStyle)])%list
               (S (created s))
               (removals s ++ [((now (page s) + 3000)%nat, created s)])%list
               (withConsole (console s ++ [["Success:"; message]])%list s)).
Proof. done. Qed.

Lemma elapse_run ms s :
  ∃ w, sleep ms (page s) = Returned tt w ∧ now w = (now (page s) + ms)%nat ∧
    elapse ms s
    = Done tt (withToasts
                 (filter (λ t, t.1 ∉ (filter (λ r, (r.1 ≤ now (page s) + ms)%nat)
                                        (removals s)).*2) (toasts s))
                 (created s)
                 (filter (λ r, ¬ (r.1 ≤ now (page s) + ms)%nat) (removals s))
                 (withPage w s)).
Proof.
  destruct (sleep_clock ms (page s)) as (w & Hrun & Hnow & _).
  exists w. split_and!; [done | done |].
  unfold elapse. rewrite (sbind_run _ _ _ _ _ (lift_run _ _ _ _ Hrun)).
  sfields. by rewrite Hnow.
Qed.

(** X18. A toast stays for three seconds: [showSuccess] appends it to the
    body and logs the message; it is still there as long as less than
    3000 ms have passed, and gone once 3000 ms have. *)
Theorem showSuccess_toast_lasts_three_seconds (message : string) (ms : nat) (s : Session) :
  Forall (λ r, (r.2 < created s)%nat) (removals s) →
  ∃ s1 s2,
    showSuccess message s = Done tt s1 ∧ elapse ms s1 = Done tt s2 ∧
    let toast := (created s, mkToast (mkNode "div" "success-toast" message) toastStyle) in
    toasts s1 = (toasts s ++ [toast])%list ∧
    console s1 = (console s ++ [["Success:"; message]])%list ∧
    page s1 = page s ∧
    ((ms < 3000)%nat → toast ∈ toasts s2) ∧
    ((3000 ≤ ms)%nat → ∀ t, t ∈ toasts s2 → t.1 ≠ created s).
Proof.
  intros Hnum. eexists. rewrite showSuccess_run.
  match goal with |- ∃ s2, Done tt ?x = _ ∧ _ => set (s1 := x) end.
  destruct (elapse_run ms s1) as (w & _ & _ & Hrun). rewrite Hrun.
  eexists. split; [reflexivity|]. split; [reflexivity|]. subst s1. sfields.
  split_and!; [done | done | done | |].
  - intros Hlt. apply list_elem_of_filter. split; [|set_solver].
    simpl. rewrite filter_app, fmap_app, not_elem_of_app. split.
    + intros Hin. apply list_elem_of_fmap in Hin as (r & Heq & Hin).
      apply list_elem_of_filter in Hin as [_ Hin].
      rewrite Forall_forall in Hnum. specialize (Hnum _ Hin). lia.
    + rewrite filter_cons_False, filter_nil by (simpl; lia). set_solver.
  - intros Hge t Hin Heq. apply list_elem_of_filter in Hin as [Hnot _].
    apply Hnot. rewrite Heq, filter_app, fmap_app, elem_of_app. right.
    rewrite filter_cons_True by (simpl; lia). set_solver.
Qed.

(** *** Running a script step by step *)

Lemma sbind_step {A B} (m : Script A) (k : A → Script B) s a s1 r :
  m s = Done a s1 → k a s1 = r → sbind m k s = r.
Proof. intros Hrun <-. by apply sbind_run. Qed.

Lemma insert_as_alter (m : gmap string Element) i f e :
  m !! i = Some e → <[i := f e]> m = alter f i m.
Proof.
  intros He. apply map_eq. intros j. destruct (decide (i = j)) as [<-|Hne].
  - by rewrite lookup_insert_eq, lookup_alter_eq, He.
  - by rewrite lookup_insert_ne, lookup_alter_ne.
Qed.

Lemma alter_is_Some (m : gmap string Element) f i j :
  is_Some (alter f i m !! j) ↔ is_Some (m !! j).
Proof.
  destruct (decide (i = j)) as [<-|Hne].
  - rewrite lookup_alter_eq. apply fmap_is_Some.
  - by rewrite lookup_alter_ne.
Qed.

Lemma lift_alter id f s :
  is_Some (document (page s) !! id) →
  lift (assign id f) s
  = Done tt (withPage (withDocument (alter f id (document (page s))) (page s)) s).
Proof.
  intros [e He]. rewrite (lift_assign _ _ _ _ He). by rewrite (insert_as_alter _ _ _ _ He).
Qed.

Lemma lift_read_prop {A} id (prop : Element → A) s v :
  prop <$> document (page s) !! id = Some v → lift (read id prop) s = Done v s.
Proof.
  intros Hv. destruct (document (page s) !! id) as [e|] eqn:He; [|done].
  injection Hv as <-. rewrite (lift_read _ _ _ _ He). by rewrite withPage_page.
Qed.

Ltac slookups :=
  sfields;
  repeat first [ rewrite lookup_alter_ne by done | rewrite lookup_alter_eq
               | rewrite lookup_insert_ne by done | rewrite lookup_insert_eq ].

(** *** The move selects *)

Lemma appendOption_run select opt s e :
  document (page s) !! select = Some e →
  appendOption select opt s
  = Done tt (withOptions
               (<[select := (default [] (options s !! select) ++ [opt])%list]> (options s))
               (withPage (withDocument
                            (<[select := appendChild (mkNode "option" "" (opt_textContent opt)) e]>
                               (document (page s))) (page s)) s)).
Proof.
  intros He. unfold appendOption. by rewrite (sbind_run _ _ _ _ _ (lift_assign _ _ s e He)).
Qed.

Lemma clearSelect_run select s e :
  document (page s) !! select = Some e →
  clearSelect select s
  = Done tt (withOptions (<[select := []]> (options s))
               (withPage (withDocument
                            (<[select := withContent [Markup placeholderOption]
                                           (withValue "" e)]>
                               (document (page s))) (page s)) s)).
Proof.
  intros He. unfold clearSelect. by rewrite (sbind_run _ _ _ _ _ (lift_assign _ _ s e He)).
Qed.

Lemma clearSelect_alter select s :
  is_Some (document (page s) !! select) →
  clearSelect select s = Done tt (withSelect [] s select).
Proof.
  intros [e He]. rewrite (clearSelect_run _ _ _ He). unfold withSelect.
  by rewrite <- (insert_as_alter _ _ (refilled []) _ He).
Qed.

Lemma appendOptions_run select moves s e os :
  document (page s) !! select = Some e → options s !! select = Some os →
  sforEach moves (λ move, appendOption select (optionOf move)) s
  = Done tt (withOptions (<[select := (os ++ (optionOf <$> moves))%list]> (options s))
              (withPage (withDocument
                           (<[select := withContent (content e ++ optionNodes moves)%list e]>
                              (document (page s))) (page s)) s)).
Proof.
  revert s e os. induction moves as [|move moves IH]; intros s e os He Hos.
  - simpl. unfold sret. f_equal. rewrite !app_nil_r.
    destruct s as [[d ? ? ? ? ?] ? ? ? o ? ? ? ? ?], e. simpl in *.
    unfold withOptions, withPage, withDocument, withContent. simpl.
    by rewrite !insert_id.
  - cbn [sforEach].
    rewrite (sbind_run _ _ s tt _ (appendOption_run _ _ s e He)).
    rewrite Hos. cbn [default].
    erewrite IH; [| sfields; apply lookup_insert_eq | sfields; apply lookup_insert_eq].
    sfields. f_equal. rewrite !insert_insert_eq.
    unfold appendChild, optionNodes, withOptions, withPage, withDocument, withContent.
    destruct s as [[d ? ? ? ? ?] ? ? ? o ? ? ? ? ?], e. simpl.
    by rewrite <- !(app_assoc _ [_]).
Qed.

(** The body of the loop of [updateMoveOptions], for one select. *)
Lemma fillSelect_run select moves s :
  is_Some (document (page s) !! select) →
  sbind (clearSelect select)
    (λ _, sforEach moves (λ move, appendOption select (optionOf move))) s
  = Done tt (withSelect moves s select).
Proof.
  intros [e He]. rewrite (sbind_run _ _ _ _ _ (clearSelect_run _ _ _ He)).
  erewrite appendOptions_run; [| sfields; apply lookup_insert_eq..].
  sfields. unfold withSelect. rewrite !insert_insert_eq.
  rewrite <- (insert_as_alter _ _ (refilled moves) _ He). simpl.
  by destruct s as [[d ? ? ? ? ?] ? ? ? o ? ? ? ? ?], e.
Qed.

Lemma withSelect_present moves s select id :
  is_Some (document (page (withSelect moves s select)) !! id)
  ↔ is_Some (document (page s) !! id).
Proof. unfold withSelect. sfields. apply alter_is_Some. Qed.

Lemma updateMoveOptions_run n moves s :
  (∀ id, id ∈ moveSelectsOf n → is_Some (document (page s) !! id)) →
  updateMoveOptions n moves s = Done tt (foldl (withSelect moves) s (moveSelectsOf n)).
Proof.
  unfold updateMoveOptions, moveSelectsOf. generalize (seqZ 1 4). intros l. revert s.
  induction l as [|i l IH]; intros s Hp; [done|].
  rewrite fmap_cons. cbn [sforEach foldl]. cbv zeta.
  eapply sbind_step; [apply fillSelect_run, Hp; set_solver|].
  apply IH. intros id Hin. apply withSelect_present, Hp. set_solver.
Qed.

(** *** The calls that only need the page *)

Lemma lift_bind {A B} (m : JS A) (k : A → JS B) s :
  lift (bind m k) s = sbind (lift m) (λ a, lift (k a)) s.
Proof. unfold lift, bind, sbind. by destruct (m (page s)). Qed.

Ltac there Hc :=
  sfields; repeat apply (proj2 (alter_is_Some _ _ _ _));
  first [ assumption | apply Hc; apply (bool_decide_unpack _); by vm_compute ].

Lemma lift_showLoading message s :
  is_Some (document (page s) !! "loadingText") →
  is_Some (document (page s) !! "loadingOverlay") →
  lift (showLoading message) s
  = Done tt (withPage (withDocument
                         (alter (withDisplay "flex") "loadingOverlay"
                            (alter (withTextContent message) "loadingText"
                               (document (page s)))) (page s)) s).
Proof.
  intros H1 H2. unfold showLoading. rewrite lift_bind.
  eapply sbind_step; [by apply lift_alter|].
  rewrite lift_alter; [done|]. sfields. by apply alter_is_Some.
Qed.

Lemma lift_hideLoading s :
  is_Some (document (page s) !! "loadingOverlay") →
  lift hideLoading s
  = Done tt (withPage (withDocument
                         (alter (withDisplay "none") "loadingOverlay" (document (page s)))
                         (page s)) s).
Proof. intros H. by apply lift_alter. Qed.

Lemma lift_showError message s :
  is_Some (document (page s) !! "errorText") →
  is_Some (document (page s) !! "errorMessage") →
  lift (showError message) s
  = Done tt (withPage (withDocument
                         (alter (withDisplay "flex") "errorMessage"
                            (alter (withTextContent message) "errorText"
                               (document (page s)))) (page s)) s).
Proof.
  intros H1 H2. unfold showError. rewrite lift_bind.
  eapply sbind_step; [by apply lift_alter|].
  rewrite lift_alter; [done|]. sfields. by apply alter_is_Some.
Qed.

Lemma stryCatch_done {A} (body : Script A) handler s a s' :
  body s = Done a s' → stryCatch body handler s = Done a s'.
Proof. intros Hrun. unfold stryCatch. by rewrite Hrun. Qed.

Lemma stryCatch_failed {A} (body : Script A) handler s message s' :
  body s = Failed message s' → stryCatch body handler s = handler message s'.
Proof. intros Hrun. unfold stryCatch. by rewrite Hrun. Qed.

Lemma stryCatch_step {A} (body : Script A) handler s message s1 r :
  body s = Failed message s1 → handler message s1 = r → stryCatch body handler s = r.
Proof. intros Hrun <-. by apply stryCatch_failed. Qed.

(** *** The preview *)

Lemma previewMarkup_nonempty pokemonData level : previewMarkup pokemonData level ≠ "".
Proof. unfold previewMarkup. discriminate. Qed.

Lemma alter_same (m : gmap string Element) i : alter (λ e, e) i m = m.
Proof. apply map_eq. intros j. destruct (decide (i = j)) as [<-|Hne].
  - rewrite lookup_alter_eq. by destruct (m !! i).
  - by rewrite lookup_alter_ne.
Qed.

Lemma updatePokemonPreview_run n pokemonData level s :
  is_Some (document (page s) !! ("pokemon" +:+ Js.numberToString n +:+ "Sprite")) →
  is_Some (document (page s) !! ("pokemon" +:+ Js.numberToString n +:+ "Info")) →
  value <$> document (page s) !! ("pokemon" +:+ Js.numberToString n +:+ "Level") = Some level →
  "pokemon" +:+ Js.numberToString n +:+ "Sprite"
    ≠ "pokemon" +:+ Js.numberToString n +:+ "Level" →
  updatePokemonPreview n pokemonData s
  = Done tt (withAlt (previewAlt ("pokemon" +:+ Js.numberToString n +:+ "Sprite")
                        pokemonData (alt s))
               (withPage
                  (withDocument
                     (alter (withInnerHTML (previewMarkup pokemonData (Js.parseInt level)))
                        ("pokemon" +:+ Js.numberToString n +:+ "Info")
                        (alter (previewSprite pokemonData)
                           ("pokemon" +:+ Js.numberToString n +:+ "Sprite")
                           (document (page s)))) (page s)) s)).
Proof.
  intros Hsprite Hinfo Hlevel Hne. unfold updatePokemonPreview. cbv zeta.
  set (sprite := "pokemon" +:+ Js.numberToString n +:+ "Sprite") in *.
  set (info := "pokemon" +:+ Js.numberToString n +:+ "Info") in *.
  set (lvl := "pokemon" +:+ Js.numberToString n +:+ "Level") in *.
  assert (Hsame : alter (previewSprite pokemonData) sprite (document (page s))
                  = document (page s) →
          previewAlt sprite pokemonData (alt s) = alt s →
          sbind (sret tt) (λ _,
            sbind (lift (read lvl value)) (λ level,
              lift (assign info
                      (withInnerHTML (previewMarkup pokemonData (Js.parseInt level)))))) s
          = Done tt (withAlt (previewAlt sprite pokemonData (alt s))
               (withPage
                  (withDocument
                     (alter (withInnerHTML (previewMarkup pokemonData (Js.parseInt level)))
                        info (alter (previewSprite pokemonData) sprite (document (page s))))
                     (page s)) s))).
  { intros -> ->. eapply sbind_step; [reflexivity|].
    eapply sbind_step; [by apply lift_read_prop|].
    rewrite lift_alter by done. by destruct s. }
  unfold previewSprite, previewAlt in *.
  destruct (pd_front_default pokemonData) as [url|]; [destruct (decide (url = ""))|].
  - apply Hsame; [apply alter_same | done].
  - eapply sbind_step.
    { eapply sbind_step; [by apply lift_alter|].
      unfold setAlt. sfields. destruct Hsprite as [e He].
      by rewrite lookup_alter_eq, He. }
    eapply sbind_step.
    { apply lift_read_prop. sfields. by rewrite lookup_alter_ne. }
    rewrite lift_alter; [done|]. sfields. by apply alter_is_Some.
  - apply Hsame; [apply alter_same | done].
Qed.

(** *** Names *)

Lemma skipWhiteSpace_allSpace s : allSpace s = true → Js.skipWhiteSpace s = "".
Proof.
  induction s as [|c s IH]; [done|]. simpl. intros [Hc Hs]%andb_prop.
  rewrite Hc. by apply IH.
Qed.

Lemma skipWhiteSpace_head s :
  allSpace s = false →
  ∃ c rest, Js.skipWhiteSpace s = String c rest ∧ Ascii.is_space c = false.
Proof.
  induction s as [|c s IH]; [done|]. simpl. intros Hs.
  destruct (Ascii.is_space c) eqn:Hc; [by apply IH | by exists c, s].
Qed.

Lemma droppedEnd_head c rest : Ascii.is_space c = false → droppedEnd (String c rest) ≠ "".
Proof. intros Hc. simpl. by rewrite Hc. Qed.

Lemma is_space_ascii c : Ascii.is_space c = true → (nat_of_ascii c <? 128)%nat = true.
Proof. destruct c as [[] [] [] [] [] [] [] []]; by vm_compute. Qed.

Lemma allSpace_isAscii s : allSpace s = true → isAscii s = true.
Proof.
  induction s as [|c s IH]; [done|]. simpl. intros [Hc Hs]%andb_prop.
  unfold isAscii. simpl. rewrite (is_space_ascii c Hc). by apply IH.
Qed.

(** A text of white space only gives the empty name. *)
Lemma blank_name typed : allSpace typed = true → trim typed ≫= toLowerCase = Some "".
Proof.
  intros Hs. unfold trim, trimmed. rewrite (allSpace_isAscii typed Hs).
  by rewrite skipWhiteSpace_allSpace.
Qed.

Lemma known_run {A} (o : option A) a s : o = Some a → known o s = Done a s.
Proof. by intros ->. Qed.

(** *** Loading *)

Ltac literal t := let v := eval vm_compute in t in change t with v in *.
Ltac side Hn :=
  destruct Hn as [-> | ->];
  [ literal ("pokemon" +:+ Js.numberToString 1 +:+ "Name");
    literal ("pokemon" +:+ Js.numberToString 1 +:+ "Level");
    literal ("pokemon" +:+ Js.numberToString 1 +:+ "Sprite");
    literal ("pokemon" +:+ Js.numberToString 1 +:+ "Info");
    literal (moveSelectsOf 1)
  | literal ("pokemon" +:+ Js.numberToString 2 +:+ "Name");
    literal ("pokemon" +:+ Js.numberToString 2 +:+ "Level");
    literal ("pokemon" +:+ Js.numberToString 2 +:+ "Sprite");
    literal ("pokemon" +:+ Js.numberToString 2 +:+ "Info");
    literal (moveSelectsOf 2) ].

Lemma fetch_run {A} url (response : Response A) s :
  fetch url (Resolves response) s = Done response (withGets (gets s ++ [url])%list s).
Proof. done. Qed.

Lemma fetch_fail {A} url message s :
  fetch (A := A) url (Rejects message) s = Failed message (withGets (gets s ++ [url])%list s).
Proof. done. Qed.

Lemma lift_setPokemon1 p s :
  lift (setPokemon 1 p) s
  = Done tt (withPage (withBattleState
                         (mkBattleState p (pokemon2 (battleState (page s)))
                            (battleInProgress (battleState (page s)))
                            (currentBattle (battleState (page s)))) (page s)) s).
Proof. done. Qed.

Lemma lift_setPokemon2 p s :
  lift (setPokemon 2 p) s
  = Done tt (withPage (withBattleState
                         (mkBattleState (pokemon1 (battleState (page s))) p
                            (battleInProgress (battleState (page s)))
                            (currentBattle (battleState (page s)))) (page s)) s).
Proof. done. Qed.

Lemma setMoves1_run ms s : setMoves 1 ms s = Done tt (withPokemon1Moves ms s).
Proof. done. Qed.

Lemma setMoves2_run ms s : setMoves 2 ms s = Done tt (withPokemon2Moves ms s).
Proof. done. Qed.

Ltac snorm :=
  unfold withPage, withPokemon1Moves, withPokemon2Moves, withAlt, withOptions, withToasts,
    withConsole, withGets, withSelect, withDocument, withBattleState, withBodyFilter,
    withTimers, withRequests;
  cbn [foldl page pokemon1Moves pokemon2Moves alt options toasts created removals console gets
       document battleState bodyFilter now timers requests
       pokemon1 pokemon2 battleInProgress currentBattle].
Ltac step tac := eapply sbind_step; [tac|]; snorm.
Ltac present_in Hc :=
  snorm; repeat apply (proj2 (alter_is_Some _ _ _ _));
  first [ assumption | apply Hc; apply (bool_decide_unpack _); by vm_compute ].
Ltac elem Hc :=
  match goal with
  | |- context [document (page ?s) !! ?id] =>
      let e := fresh "e" in let He := fresh "He" in
      destruct (Hc id ltac:(apply (bool_decide_unpack _); by vm_compute)) as [e He];
      rewrite He; try done
  end.

Lemma withInnerHTML_content html e :
  html ≠ "" → content (withInnerHTML html e) = [Markup html].
Proof. intros Hne. unfold withInnerHTML. by rewrite decide_False. Qed.

Ltac names k :=
  literal ("pokemon" +:+ Js.numberToString k +:+ "Name");
  literal ("pokemon" +:+ Js.numberToString k +:+ "Level");
  literal ("pokemon" +:+ Js.numberToString k +:+ "Sprite");
  literal ("pokemon" +:+ Js.numberToString k +:+ "Info");
  literal (moveSelectsOf k).
Ltac load_success k Hc Hname Hlevel setPokemon_run setMoves_run :=
  unfold loadPokemon; names k;
  step ltac:(by apply lift_read_prop);
  step ltac:(apply known_run; eassumption);
  rewrite decide_False by done;
  step ltac:(apply lift_showLoading; present_in Hc);
  apply stryCatch_done;
  step ltac:(apply fetch_run); cbn [ok negb json await];
  step ltac:(reflexivity);
  step ltac:(apply lift_read_prop; slookups; exact Hlevel);
  step ltac:(apply fetch_run); cbn [ok negb json await];
  step ltac:(reflexivity);
  step ltac:(apply setPokemon_run);
  step ltac:(apply setMoves_run);
  step ltac:(apply updatePokemonPreview_run; names k;
             [present_in Hc | present_in Hc | slookups; exact Hlevel | done]);
  names k;
  step ltac:(apply updateMoveOptions_run; names k;
             intros id Hin; snorm; repeat apply (proj2 (alter_is_Some _ _ _ _));
             apply Hc; revert id Hin; apply Forall_forall;
             apply (bool_decide_unpack _); by vm_compute);
  names k; snorm;
  step ltac:(apply lift_hideLoading; present_in Hc);
  rewrite showSuccess_run; snorm; reflexivity.

Lemma loadPokemon_loads
    (n : Z) (pokemonData : PokemonData) (movesData : MovesData)
    (typed pokemonName level : string) (s : Session) :
  n = 1 ∨ n = 2 → complete s →
  value <$> document (page s) !! ("pokemon" +:+ Js.numberToString n +:+ "Name") = Some typed →
  trim typed ≫= toLowerCase = Some pokemonName → pokemonName ≠ "" →
  value <$> document (page s) !! ("pokemon" +:+ Js.numberToString n +:+ "Level") = Some level →
  ∃ s',
    loadPokemon n (Resolves (mkResponse true (Resolves pokemonData)))
      (Resolves (mkResponse true (Resolves movesData))) s = Done tt s' ∧
    pokemonOf n (battleState (page s')) = Some pokemonData ∧
    pokemonOf (3 - n) (battleState (page s')) = pokemonOf (3 - n) (battleState (page s)) ∧
    battleInProgress (battleState (page s')) = battleInProgress (battleState (page s)) ∧
    currentBattle (battleState (page s')) = currentBattle (battleState (page s)) ∧
    (if decide (n = 1) then pokemon1Moves s' else pokemon2Moves s') = moves movesData ∧
    Forall (λ select,
              value <$> document (page s') !! select = Some "" ∧
              contentOf (page s') select
              = Some (Markup placeholderOption :: optionNodes (moves movesData)) ∧
              options s' !! select = Some (optionOf <$> moves movesData))
           (moveSelectsOf n) ∧
    contentOf (page s') ("pokemon" +:+ Js.numberToString n +:+ "Info")
    = Some [Markup (previewMarkup pokemonData (Js.parseInt level))] ∧
    display <$> document (page s') !! "loadingOverlay" = Some "none" ∧
    gets s'
    = (gets s ++ [ "/api/pokemon/" +:+ pokemonName;
                   "/api/pokemon/" +:+ pokemonName +:+ "/moves?level=" +:+ level ])%list ∧
    toasts s'
    = (toasts s ++ [(created s,
                     mkToast (mkNode "div" "success-toast"
                                (pd_name pokemonData +:+ " loaded successfully!"))
                       toastStyle)])%list ∧
    (∀ id, id ∉ loadedIds n → document (page s') !! id = document (page s) !! id) ∧
    complete s' ∧
    requests (page s') = requests (page s).
Proof.
  intros Hn Hc Hname Hknown Hnonempty Hlevel.
  side Hn.
  - eexists. split; [load_success 1 Hc Hname Hlevel lift_setPokemon1 setMoves1_run|].
    snorm. unfold contentOf. snorm.
    split_and!; try done; try (by rewrite <- app_assoc);
      try (repeat (apply Forall_cons; split; [split_and!|]); [.. | by apply Forall_nil]);
      try (intros id Hid; vm_compute in Hid; rewrite !lookup_alter_ne; [done | set_solver..]);
      try (intros id Hid; snorm; repeat apply (proj2 (alter_is_Some _ _ _ _)); by apply Hc);
      slookups; try done; elem Hc.
  - eexists. split; [load_success 2 Hc Hname Hlevel lift_setPokemon2 setMoves2_run|].
    snorm. unfold contentOf. snorm.
    split_and!; try done; try (by rewrite <- app_assoc);
      try (repeat (apply Forall_cons; split; [split_and!|]); [.. | by apply Forall_nil]);
      try (intros id Hid; vm_compute in Hid; rewrite !lookup_alter_ne; [done | set_solver..]);
      try (intros id Hid; snorm; repeat apply (proj2 (alter_is_Some _ _ _ _)); by apply Hc);
      slookups; try done; elem Hc.
Qed.

(** X19. [loadPokemon] when both requests succeed: the Pokemon and its moves
    are stored for that side and the other side is untouched; the preview
    shows the stats at the level of the slider; each of the side's four
    selects holds the placeholder and one option per move, in the order of
    the answer, with the empty value selected, whatever it held before; the
    overlay is hidden and a toast announces the load; two GET requests were
    sent, the second with the level as typed; no other element is written
    to, the battle button among them. *)
Theorem loadPokemon_success
    (n : Z) (pokemonData : PokemonData) (movesData : MovesData)
    (typed pokemonName level : string) (s : Session) :
  n = 1 ∨ n = 2 → complete s →
  value <$> document (page s) !! ("pokemon" +:+ Js.numberToString n +:+ "Name") = Some typed →
  trim typed ≫= toLowerCase = Some pokemonName → pokemonName ≠ "" →
  value <$> document (page s) !! ("pokemon" +:+ Js.numberToString n +:+ "Level") = Some level →
  ∃ s',
    loadPokemon n (Resolves (mkResponse true (Resolves pokemonData)))
      (Resolves (mkResponse true (Resolves movesData))) s = Done tt s' ∧
    pokemonOf n (battleState (page s')) = Some pokemonData ∧
    pokemonOf (3 - n) (battleState (page s')) = pokemonOf (3 - n) (battleState (page s)) ∧
    battleInProgress (battleState (page s')) = battleInProgress (battleState (page s)) ∧
    currentBattle (battleState (page s')) = currentBattle (battleState (page s)) ∧
    (if decide (n = 1) then pokemon1Moves s' else pokemon2Moves s') = moves movesData ∧
    Forall (λ select,
              value <$> document (page s') !! select = Some "" ∧
              contentOf (page s') select
              = Some (Markup placeholderOption :: optionNodes (moves movesData)) ∧
              options s' !! select = Some (optionOf <$> moves movesData))
           (moveSelectsOf n) ∧
    contentOf (page s') ("pokemon" +:+ Js.numberToString n +:+ "Info")
    = Some [Markup (previewMarkup pokemonData (Js.parseInt level))] ∧
    display <$> document (page s') !! "loadingOverlay" = Some "none" ∧
    gets s'
    = (gets s ++ [ "/api/pokemon/" +:+ pokemonName;
                   "/api/pokemon/" +:+ pokemonName +:+ "/moves?level=" +:+ level ])%list ∧
    toasts s'
    = (toasts s ++ [(created s,
                     mkToast (mkNode "div" "success-toast"
                                (pd_name pokemonData +:+ " loaded successfully!"))
                       toastStyle)])%list ∧
    (∀ id, id ∉ loadedIds n → document (page s') !! id = document (page s) !! id) ∧
    complete s' ∧
    requests (page s') = requests (page s).
Proof. apply loadPokemon_loads. Qed.


(** X20. A blank name is refused before anything is sent: when the text typed
    is empty or white space only, [loadPokemon] shows "Please enter a
    Pokemon name" and returns; no request goes out, the loading overlay is
    not shown, and nothing else on the page or in [battleState] changes. *)
Theorem loadPokemon_blank_name
    (n : Z) (pokemonReply : Promise (Response PokemonData))
    (movesReply : Promise (Response MovesData)) (typed : string) (s : Session) :
  value <$> document (page s) !! ("pokemon" +:+ Js.numberToString n +:+ "Name") = Some typed →
  allSpace typed = true →
  is_Some (document (page s) !! "errorText") →
  is_Some (document (page s) !! "errorMessage") →
  ∃ s',
    loadPokemon n pokemonReply movesReply s = Done tt s' ∧
    gets s' = gets s ∧
    contentOf (page s') "errorText" = Some [Text "Please enter a PokÃ©mon name"] ∧
    display <$> document (page s') !! "errorMessage" = Some "flex" ∧
    changesOnly ["errorText"; "errorMessage"] (page s) (page s') ∧
    toasts s' = toasts s ∧ options s' = options s.
Proof.
  intros Hname Hspace Htext Hmessage.
  eexists. split.
  { unfold loadPokemon. step ltac:(by apply lift_read_prop).
    step ltac:(by apply known_run, blank_name).
    rewrite decide_True by done.
    by apply lift_showError. }
  snorm. unfold contentOf. snorm.
  destruct Htext as [et Het], Hmessage as [em Hem].
  split_and!; try done; slookups; try by rewrite ?Het, ?Hem.
  repeat split. intros id Hid. snorm. rewrite !lookup_alter_ne; [done | set_solver..].
Qed.

Ltac recover Hc :=
  step ltac:(apply lift_hideLoading; present_in Hc);
  rewrite lift_showError by present_in Hc; snorm; reflexivity.
Ltac load_failure k Hc Hlevel :=
  unfold loadPokemon; names k;
  step ltac:(by apply lift_read_prop);
  step ltac:(apply known_run; eassumption);
  rewrite decide_False by done;
  step ltac:(apply lift_showLoading; present_in Hc);
  eapply stryCatch_step;
  [ first
      [ apply sbind_fail; apply fetch_fail
      | step ltac:(apply fetch_run); cbn [ok negb json await];
        first
          [ reflexivity
          | apply sbind_fail; reflexivity
          | step ltac:(reflexivity);
            step ltac:(apply lift_read_prop; slookups; exact Hlevel);
            first
              [ apply sbind_fail; apply fetch_fail
              | step ltac:(apply fetch_run); cbn [ok negb json await];
                first [ reflexivity | apply sbind_fail; reflexivity ] ] ] ]
  | recover Hc ].

(** X21. All or nothing: when a request of [loadPokemon] fails, whichever it is
    and however (the request rejected, a response that is not ok, a body
    that is no JSON), the call still returns; [battleState], the stored
    moves, the options of the selects and the preview are as before, so a
    Pokemon loaded earlier stays; the overlay is hidden again and the
    reason is shown after "Failed to load Pokemon: "; one request was sent,
    or two. *)
Theorem loadPokemon_failure_changes_nothing
    (n : Z) (pokemonReply : Promise (Response PokemonData))
    (movesReply : Promise (Response MovesData)) (reason typed pokemonName : string)
    (s : Session) :
  n = 1 ∨ n = 2 → complete s →
  value <$> document (page s) !! ("pokemon" +:+ Js.numberToString n +:+ "Name") = Some typed →
  trim typed ≫= toLowerCase = Some pokemonName → pokemonName ≠ "" →
  loadError pokemonReply movesReply = Some reason →
  ∃ s',
    loadPokemon n pokemonReply movesReply s = Done tt s' ∧
    battleState (page s') = battleState (page s) ∧
    pokemon1Moves s' = pokemon1Moves s ∧ pokemon2Moves s' = pokemon2Moves s ∧
    options s' = options s ∧ alt s' = alt s ∧ toasts s' = toasts s ∧
    changesOnly ["loadingText"; "loadingOverlay"; "errorText"; "errorMessage"]
      (page s) (page s') ∧
    contentOf (page s') "errorText"
    = Some [Text ("Failed to load PokÃ©mon: " +:+ reason)] ∧
    display <$> document (page s') !! "errorMessage" = Some "flex" ∧
    display <$> document (page s') !! "loadingOverlay" = Some "none" ∧
    ∃ later, gets s' = (gets s ++ ("/api/pokemon/" +:+ pokemonName) :: later)%list ∧
             (length later ≤ 1)%nat.
Proof.
  intros Hn Hc Hname Hknown Hnonempty Hreason.
  assert (∃ level, value <$> document (page s)
                     !! ("pokemon" +:+ Js.numberToString n +:+ "Level") = Some level)
    as [level Hlevel].
  { destruct Hn as [-> | ->].
    - destruct (Hc "pokemon1Level") as [e He]; [in_ids|]. exists (value e).
      literal ("pokemon" +:+ Js.numberToString 1 +:+ "Level"). by rewrite He.
    - destruct (Hc "pokemon2Level") as [e He]; [in_ids|]. exists (value e).
      literal ("pokemon" +:+ Js.numberToString 2 +:+ "Level"). by rewrite He. }
  assert (Hfacts : ∀ s' later,
    (length later ≤ 1)%nat →
    s' = mkSession
           (mkWorld
              (alter (withDisplay "flex") "errorMessage"
                 (alter (withTextContent ("Failed to load PokÃ©mon: " +:+ reason)) "errorText"
                    (alter (withDisplay "none") "loadingOverlay"
                       (alter (withDisplay "flex") "loadingOverlay"
                          (alter (withTextContent "Loading PokÃ©mon data...") "loadingText"
                             (document (page s)))))))
              (battleState (page s)) (bodyFilter (page s)) (now (page s))
              (timers (page s)) (requests (page s)))
           (pokemon1Moves s) (pokemon2Moves s) (alt s) (options s) (toasts s)
           (created s) (removals s) (console s)
           (gets s ++ ("/api/pokemon/" +:+ pokemonName) :: later)%list →
    battleState (page s') = battleState (page s) ∧
    pokemon1Moves s' = pokemon1Moves s ∧ pokemon2Moves s' = pokemon2Moves s ∧
    options s' = options s ∧ alt s' = alt s ∧ toasts s' = toasts s ∧
    changesOnly ["loadingText"; "loadingOverlay"; "errorText"; "errorMessage"]
      (page s) (page s') ∧
    contentOf (page s') "errorText"
    = Some [Text ("Failed to load PokÃ©mon: " +:+ reason)] ∧
    display <$> document (page s') !! "errorMessage" = Some "flex" ∧
    display <$> document (page s') !! "loadingOverlay" = Some "none" ∧
    ∃ later, gets s' = (gets s ++ ("/api/pokemon/" +:+ pokemonName) :: later)%list ∧
             (length later ≤ 1)%nat).
  { intros s' later Hlen ->. snorm. unfold contentOf. snorm.
    split_and!; try done; try (by exists later); try (slookups; try done; elem Hc).
    repeat split. intros id Hid. snorm. rewrite !lookup_alter_ne; [done | set_solver..]. }
  unfold loadError in Hreason.
  destruct pokemonReply as [m1 | [ok1 [m1 | data]]]; cbn [ok json negb] in Hreason.
  - injection Hreason as <-. side Hn.
    + eexists; split; [load_failure 1 Hc Hlevel | eapply (Hfacts _ []); [simpl; lia | reflexivity]].
    + eexists; split; [load_failure 2 Hc Hlevel | eapply (Hfacts _ []); [simpl; lia | reflexivity]].
  - destruct ok1; cbn [negb] in Hreason; injection Hreason as <-; side Hn.
    + eexists; split; [load_failure 1 Hc Hlevel | eapply (Hfacts _ []); [simpl; lia | reflexivity]].
    + eexists; split; [load_failure 2 Hc Hlevel | eapply (Hfacts _ []); [simpl; lia | reflexivity]].
    + eexists; split; [load_failure 1 Hc Hlevel | eapply (Hfacts _ []); [simpl; lia | reflexivity]].
    + eexists; split; [load_failure 2 Hc Hlevel | eapply (Hfacts _ []); [simpl; lia | reflexivity]].
  - destruct ok1; cbn [negb] in Hreason.
    2:{ injection Hreason as <-. side Hn.
        + eexists; split; [load_failure 1 Hc Hlevel | eapply (Hfacts _ []); [simpl; lia | reflexivity]].
        + eexists; split; [load_failure 2 Hc Hlevel | eapply (Hfacts _ []); [simpl; lia | reflexivity]]. }
    destruct movesReply as [m2 | [ok2 [m2 | movesData]]]; cbn [ok json negb] in Hreason.
    + injection Hreason as <-. side Hn.
      * eexists; split; [load_failure 1 Hc Hlevel | eapply (Hfacts _ [_]); [simpl; lia | by rewrite <- app_assoc]].
      * eexists; split; [load_failure 2 Hc Hlevel | eapply (Hfacts _ [_]); [simpl; lia | by rewrite <- app_assoc]].
    + destruct ok2; cbn [negb] in Hreason; injection Hreason as <-; side Hn.
      * eexists; split; [load_failure 1 Hc Hlevel | eapply (Hfacts _ [_]); [simpl; lia | by rewrite <- app_assoc]].
      * eexists; split; [load_failure 2 Hc Hlevel | eapply (Hfacts _ [_]); [simpl; lia | by rewrite <- app_assoc]].
      * eexists; split; [load_failure 1 Hc Hlevel | eapply (Hfacts _ [_]); [simpl; lia | by rewrite <- app_assoc]].
      * eexists; split; [load_failure 2 Hc Hlevel | eapply (Hfacts _ [_]); [simpl; lia | by rewrite <- app_assoc]].
    + destruct ok2; cbn [negb] in Hreason; [done|].
      injection Hreason as <-. side Hn.
      * eexists; split; [load_failure 1 Hc Hlevel | eapply (Hfacts _ [_]); [simpl; lia | by rewrite <- app_assoc]].
      * eexists; split; [load_failure 2 Hc Hlevel | eapply (Hfacts _ [_]); [simpl; lia | by rewrite <- app_assoc]].
Qed.

(** *** Resetting *)

Lemma sbind_assoc {A B C} (m : Script A) (k1 : A → Script B) (k2 : B → Script C) s :
  sbind (sbind m k1) k2 s = sbind m (λ a, sbind (k1 a) k2) s.
Proof. unfold sbind. by destruct (m s). Qed.

Lemma sbind_sret {A B} (a : A) (k : A → Script B) s : sbind (sret a) k s = k a s.
Proof. done. Qed.

Ltac run1 Hc :=
  lazymatch goal with
  | |- sbind (sbind _ _) _ _ = _ => rewrite sbind_assoc
  | |- sbind (sret _) _ _ = _ => rewrite sbind_sret
  | |- sbind (lift (assign _ _)) _ _ = _ => step ltac:(apply lift_alter; present_in Hc)
  | |- sbind (clearSelect _) _ _ = _ => step ltac:(apply clearSelect_alter; present_in Hc)
  | |- sbind (lift (setPokemon 1 _)) _ _ = _ => step ltac:(apply lift_setPokemon1)
  | |- sbind (lift (setPokemon 2 _)) _ _ = _ => step ltac:(apply lift_setPokemon2)
  | |- sbind (setMoves 1 _) _ _ = _ => step ltac:(apply setMoves1_run)
  | |- sbind (setMoves 2 _) _ _ = _ => step ltac:(apply setMoves2_run)
  end.

Ltac reset_run Hc :=
  unfold resetBattle;
  change (seqZ 1 2) with [1; 2]; change (seqZ 1 4) with [1; 2; 3; 4];
  cbn [sforEach];
  literal (Js.numberToString 1); literal (Js.numberToString 2);
  literal (Js.numberToString 3); literal (Js.numberToString 4);
  repeat match goal with
         | |- context [?a +:+ ?b] =>
             let v := eval vm_compute in (a +:+ b) in change (a +:+ b) with v
         end;
  repeat run1 Hc;
  rewrite showSuccess_run; snorm; reflexivity.

Lemma resetBattle_resets (s : Session) :
  complete s →
  ∃ s',
    resetBattle s = Done tt s' ∧
    battleState (page s')
    = mkBattleState None None (battleInProgress (battleState (page s)))
        (currentBattle (battleState (page s))) ∧
    pokemon1Moves s' = [] ∧ pokemon2Moves s' = [] ∧
    Forall (λ select,
              value <$> document (page s') !! select = Some "" ∧
              contentOf (page s') select = Some [Markup placeholderOption] ∧
              options s' !! select = Some [])
           moveSelectIds ∧
    Forall (λ id, contentOf (page s') id = Some []) moveInfoIds ∧
    Forall (λ id, value <$> document (page s') !! id = Some "")
           ["pokemon1Name"; "pokemon2Name"] ∧
    Forall (λ id, value <$> document (page s') !! id = Some "50")
           ["pokemon1Level"; "pokemon2Level"] ∧
    Forall (λ id, contentOf (page s') id = Some [Text "50"])
           ["pokemon1LevelValue"; "pokemon2LevelValue"] ∧
    Forall (λ id, src <$> document (page s') !! id = Some "/static/placeholder.png")
           ["pokemon1Sprite"; "pokemon2Sprite"] ∧
    Forall (λ id, contentOf (page s') id = Some [Markup emptyPreview])
           ["pokemon1Info"; "pokemon2Info"] ∧
    display <$> document (page s') !! "validationResults" = Some "none" ∧
    disabled <$> document (page s') !! "battleBtn" = Some true ∧
    toasts s'
    = (toasts s ++ [(created s,
                     mkToast (mkNode "div" "success-toast" "Battle configuration reset!")
                       toastStyle)])%list ∧
    gets s' = gets s ∧ requests (page s') = requests (page s) ∧
    (∀ id, id ∉ resetIds → document (page s') !! id = document (page s) !! id) ∧
    complete s'.
Proof.
  intros Hc. eexists. split; [reset_run Hc|].
  snorm. unfold contentOf. snorm.
  unfold moveSelectIds, moveInfoIds.
  split_and!; try done;
    try (repeat (apply Forall_cons; split; [try split_and!|]); [.. | by apply Forall_nil]);
    try (intros id Hid; vm_compute in Hid; rewrite !lookup_alter_ne; [done | set_solver..]);
    try (intros id Hid; snorm; repeat apply (proj2 (alter_is_Some _ _ _ _)); by apply Hc);
    try (slookups; try done; elem Hc).
Qed.

(** X22. [resetBattle] clears the set-up: both Pokemon and their stored moves
    are dropped; every move select is back to the placeholder alone with
    the empty value, and the text under it is cleared; the names are
    emptied, the sliders and their labels are at 50, the previews show
    the placeholder image and "Select a Pokemon"; the validation results
    are hidden and the battle button is disabled; a toast says so.  It
    sends nothing, writes to no other element, and leaves
    [battleInProgress] and [currentBattle] as they were. *)
Theorem resetBattle_clears_setup (s : Session) :
  complete s →
  ∃ s',
    resetBattle s = Done tt s' ∧
    battleState (page s')
    = mkBattleState None None (battleInProgress (battleState (page s)))
        (currentBattle (battleState (page s))) ∧
    pokemon1Moves s' = [] ∧ pokemon2Moves s' = [] ∧
    Forall (λ select,
              value <$> document (page s') !! select = Some "" ∧
              contentOf (page s') select = Some [Markup placeholderOption] ∧
              options s' !! select = Some [])
           moveSelectIds ∧
    Forall (λ id, contentOf (page s') id = Some []) moveInfoIds ∧
    Forall (λ id, value <$> document (page s') !! id = Some "")
           ["pokemon1Name"; "pokemon2Name"] ∧
    Forall (λ id, value <$> document (page s') !! id = Some "50")
           ["pokemon1Level"; "pokemon2Level"] ∧
    Forall (λ id, contentOf (page s') id = Some [Text "50"])
           ["pokemon1LevelValue"; "pokemon2LevelValue"] ∧
    Forall (λ id, src <$> document (page s') !! id = Some "/static/placeholder.png")
           ["pokemon1Sprite"; "pokemon2Sprite"] ∧
    Forall (λ id, contentOf (page s') id = Some [Markup emptyPreview])
           ["pokemon1Info"; "pokemon2Info"] ∧
    display <$> document (page s') !! "validationResults" = Some "none" ∧
    disabled <$> document (page s') !! "battleBtn" = Some true ∧
    toasts s'
    = (toasts s ++ [(created s,
                     mkToast (mkNode "div" "success-toast" "Battle configuration reset!")
                       toastStyle)])%list ∧
    gets s' = gets s ∧ requests (page s') = requests (page s) ∧
    (∀ id, id ∉ resetIds → document (page s') !! id = document (page s) !! id) ∧
    complete s'.
Proof. apply resetBattle_resets. Qed.

End SessionProps.

(** ** Loading, resetting and starting, together *)

Module ComposeProps.

Import Page Battle Examples Setup Session PageProps CallProps BattleProps SetupProps
       ValidateProps AnimationProps ClockProps StartProps SessionProps.
Local Open Scope string_scope.

Lemma selectedMoves_all (w : World) (v : string) :
  Forall (λ select, value <$> document w !! select = Some v) moveSelectIds →
  selectedMoves w = Some <$> replicate 8 v.
Proof.
  unfold selectedMoves, moveSelectIds. rewrite !Forall_cons. cbn [fmap list_fmap].
  intros (-> & -> & -> & -> & -> & -> & -> & -> & _). done.
Qed.

(** X23. After [resetBattle] no battle can be started until Pokemon are loaded
    again: on an idle page [startBattle] throws, whatever the server would
    answer, without changing anything, and [checkBattleReady] leaves the
    battle button disabled. *)
Theorem resetBattle_then_startBattle_refused (s : Session) :
  complete s → battleInProgress (battleState (page s)) = false →
  ∃ s', resetBattle s = Done tt s' ∧
    (∀ reply, ∃ message, startBattle reply (page s') = Thrown message (page s')) ∧
    ∃ w, checkBattleReady (page s') = Returned tt w ∧
         disabled <$> document w !! "battleBtn" = Some true.
Proof.
  intros Hc Hidle.
  destruct (resetBattle_resets s Hc)
    as (s' & Hrun & Hbs & _ & _ & Hsel & _ & _ & _ & _ & _ & _ & _ & Hbtn & _ & _ & _ & _ & Hc').
  exists s'. split_and!; [done | |].
  - intros reply. apply startBattle_needs_both; rewrite Hbs; [done | by left].
  - destruct (Hc' "battleBtn") as [b Hb]; [in_ids|].
    unfold checkBattleReady, bind at 1, getBattleState. rewrite Hbs. cbv beta iota.
    cbn [pokemon1 pokemon2]. rewrite (assign_run _ _ _ _ Hb).
    eexists. split; [done|]. simpl. by rewrite lookup_insert_eq.
Qed.

Lemma lift_backToSetup (s : Session) :
  complete s →
  lift backToSetup s
  = Done tt (withPage
               (withBattleState
                  (mkBattleState (pokemon1 (battleState (page s)))
                     (pokemon2 (battleState (page s))) false None)
                  (withDocument
                     (alter (withDisplay "block") "battleSetup"
                        (alter (withDisplay "none") "resultsScreen"
                           (alter (withDisplay "none") "battleArena"
                              (document (page s))))) (page s))) s).
Proof.
  intros Hc. unfold backToSetup.
  rewrite lift_bind. step ltac:(apply lift_alter; present_in Hc).
  rewrite lift_bind. step ltac:(apply lift_alter; present_in Hc).
  rewrite lift_bind. step ltac:(apply lift_alter; present_in Hc).
  done.
Qed.

(** X24. [newBattle] brings the page back to a fresh set-up, whatever state it
    was in: [battleState] is as when the page was loaded (no Pokemon, no
    battle in progress or kept), the set-up screen is shown and the arena
    and the results are hidden, every move select is empty and the battle
    button is disabled. *)
Theorem newBattle_returns_to_fresh_setup (s : Session) :
  complete s →
  ∃ s',
    newBattle s = Done tt s' ∧
    battleState (page s') = mkBattleState None None false None ∧
    pokemon1Moves s' = [] ∧ pokemon2Moves s' = [] ∧
    display <$> document (page s') !! "battleSetup" = Some "block" ∧
    display <$> document (page s') !! "battleArena" = Some "none" ∧
    display <$> document (page s') !! "resultsScreen" = Some "none" ∧
    Forall (λ select,
              value <$> document (page s') !! select = Some "" ∧
              options s' !! select = Some [])
           moveSelectIds ∧
    display <$> document (page s') !! "validationResults" = Some "none" ∧
    disabled <$> document (page s') !! "battleBtn" = Some true ∧
    requests (page s') = requests (page s) ∧ gets s' = gets s.
Proof.
  intros Hc. unfold newBattle.
  pose proof (lift_backToSetup s Hc) as Hback.
  match type of Hback with _ = Done tt ?x => set (s1 := x) in * end.
  assert (Hc1 : complete s1).
  { intros id Hid. subst s1. snorm. repeat apply (proj2 (alter_is_Some _ _ _ _)).
    by apply Hc. }
  destruct (resetBattle_resets s1 Hc1)
    as (s' & Hrun & Hbs & Hm1 & Hm2 & Hsel & _ & _ & _ & _ & _ & _ & Hval & Hbtn & _
        & Hgets & Hreq & Hframe & _).
  exists s'. rewrite (sbind_run _ _ _ _ _ Hback).
  split_and!; try done.
  - rewrite !Hframe by (vm_compute; set_solver). subst s1. slookups. by elem Hc.
  - rewrite !Hframe by (vm_compute; set_solver). subst s1. slookups. by elem Hc.
  - rewrite !Hframe by (vm_compute; set_solver). subst s1. slookups. by elem Hc.
  - eapply Forall_impl; [exact Hsel|]. by intros id (? & _ & ?).
Qed.

Lemma levelOf (n : Z) (s : Session) :
  n = 1 ∨ n = 2 → complete s →
  ∃ level, value <$> document (page s)
             !! ("pokemon" +:+ Js.numberToString n +:+ "Level") = Some level.
Proof.
  intros [-> | ->] Hc.
  - destruct (Hc "pokemon1Level") as [e He]; [in_ids|]. exists (value e).
    literal ("pokemon" +:+ Js.numberToString 1 +:+ "Level"). by rewrite He.
  - destruct (Hc "pokemon2Level") as [e He]; [in_ids|]. exists (value e).
    literal ("pokemon" +:+ Js.numberToString 2 +:+ "Level"). by rewrite He.
Qed.

(** X25. Loading both Pokemon makes a battle possible but not yet ready: after
    a successful [loadPokemon(1)] and [loadPokemon(2)], each for a name
    that is not empty, both Pokemon are in
    [battleState], all eight move selects hold the empty value, and
    [checkBattleReady] disables the battle button until moves are chosen. *)
Theorem loading_both_leaves_moves_to_choose
    (pokemonData1 pokemonData2 : PokemonData) (movesData1 movesData2 : MovesData)
    (typed1 typed2 name1 name2 : string) (s : Session) :
  complete s →
  value <$> document (page s) !! "pokemon1Name" = Some typed1 →
  trim typed1 ≫= toLowerCase = Some name1 → name1 ≠ "" →
  value <$> document (page s) !! "pokemon2Name" = Some typed2 →
  trim typed2 ≫= toLowerCase = Some name2 → name2 ≠ "" →
  ∃ s1 s2 w,
    loadPokemon 1 (Resolves (mkResponse true (Resolves pokemonData1)))
      (Resolves (mkResponse true (Resolves movesData1))) s = Done tt s1 ∧
    loadPokemon 2 (Resolves (mkResponse true (Resolves pokemonData2)))
      (Resolves (mkResponse true (Resolves movesData2))) s1 = Done tt s2 ∧
    pokemon1 (battleState (page s2)) = Some pokemonData1 ∧
    pokemon2 (battleState (page s2)) = Some pokemonData2 ∧
    selectedMoves (page s2) = Some <$> replicate 8 "" ∧
    checkBattleReady (page s2) = Returned tt w ∧
    disabled <$> document w !! "battleBtn" = Some true.
Proof.
  intros Hc Hname1 Hknown1 Hne1 Hname2 Hknown2 Hne2.
  destruct (levelOf 1 s (or_introl eq_refl) Hc) as [level1 Hlevel1].
  destruct (loadPokemon_loads 1 pokemonData1 movesData1 typed1 name1 level1 s
              (or_introl eq_refl) Hc Hname1 Hknown1 Hne1 Hlevel1)
    as (s1 & Hrun1 & Hp1 & Hp2 & _ & _ & _ & Hsel1 & _ & _ & _ & _ & Hframe1 & Hc1 & _).
  destruct (levelOf 2 s1 (or_intror eq_refl) Hc1) as [level2 Hlevel2].
  assert (Hname2' : value <$> document (page s1) !! "pokemon2Name" = Some typed2).
  { rewrite Hframe1; [done|]. vm_compute. set_solver. }
  destruct (loadPokemon_loads 2 pokemonData2 movesData2 typed2 name2 level2 s1
              (or_intror eq_refl) Hc1 Hname2' Hknown2 Hne2 Hlevel2)
    as (s2 & Hrun2 & Hq2 & Hq1 & _ & _ & _ & Hsel2 & _ & _ & _ & _ & Hframe2 & Hc2 & _).
  assert (H1 : pokemon1 (battleState (page s2)) = Some pokemonData1).
  { change (pokemon1 (battleState (page s2)))
      with (pokemonOf (3 - 2) (battleState (page s2))). rewrite Hq1. exact Hp1. }
  assert (H2 : pokemon2 (battleState (page s2)) = Some pokemonData2) by exact Hq2.
  assert (Hsel : Forall (λ select, value <$> document (page s2) !! select = Some "")
                   moveSelectIds).
  { literal (moveSelectsOf 1). literal (moveSelectsOf 2). unfold moveSelectIds.
    rewrite !Forall_cons in Hsel1, Hsel2. rewrite !Forall_cons.
    destruct Hsel1 as ((A1 & _) & (A2 & _) & (A3 & _) & (A4 & _) & _).
    destruct Hsel2 as ((B1 & _) & (B2 & _) & (B3 & _) & (B4 & _) & _).
    split_and!; try done; (rewrite Hframe2; [done|]; vm_compute; set_solver). }
  destruct (Hc2 "battleBtn") as [b Hb]; [in_ids|].
  destruct (checkBattleReady_spec (page s2) b (replicate 8 "") Hb (selectedMoves_all _ _ Hsel))
    as (w & Hready & _ & [d Hd] & Hiff).
  exists s1, s2, w. split_and!; try done.
  - by apply selectedMoves_all.
  - rewrite Hd. destruct d; [done|]. exfalso.
    destruct (proj1 Hiff Hd) as (_ & _ & Hall).
    apply Forall_cons in Hall as [Hne _]. done.
Qed.

(** X26. Moving a level slider: [updatePokemonStats] does nothing at all while
    the side has no Pokemon; once one is loaded it writes the preview anew,
    with the stats at the level the slider now shows, and touches nothing
    but the preview and its image. *)
Theorem updatePokemonStats_follows_slider (n : Z) (level : string) (s : Session) :
  n = 1 ∨ n = 2 → complete s →
  value <$> document (page s) !! ("pokemon" +:+ Js.numberToString n +:+ "Level") = Some level →
  ∃ s', updatePokemonStats n s = Done tt s' ∧
    match pokemonOf n (battleState (page s)) with
    | None => s' = s
    | Some pokemon =>
        contentOf (page s') ("pokemon" +:+ Js.numberToString n +:+ "Info")
        = Some [Markup (previewMarkup pokemon (Js.parseInt level))] ∧
        battleState (page s') = battleState (page s) ∧
        options s' = options s ∧ toasts s' = toasts s ∧ gets s' = gets s ∧
        ∀ id, id ∉ [ "pokemon" +:+ Js.numberToString n +:+ "Sprite";
                     "pokemon" +:+ Js.numberToString n +:+ "Info" ] →
              document (page s') !! id = document (page s) !! id
    end.
Proof.
  intros Hn Hc Hlevel. unfold updatePokemonStats.
  assert (Hstate : lift getBattleState s = Done (battleState (page s)) s).
  { unfold lift, getBattleState. by rewrite withPage_page. }
  rewrite (sbind_run _ _ _ _ _ Hstate).
  destruct (pokemonOf n (battleState (page s))) as [pokemon|]; [|by exists s].
  eexists. split.
  { apply updatePokemonPreview_run; [side Hn; present_in Hc.. | exact Hlevel | side Hn; done]. }
  snorm. unfold contentOf. snorm. split_and!; try done.
  - side Hn; slookups; elem Hc; simpl;
      by rewrite withInnerHTML_content by apply previewMarkup_nonempty.
  - intros id Hid. rewrite !lookup_alter_ne; [done | set_solver..].
Qed.

End ComposeProps.

(** ** The faint animation *)

Module LastingProps.

Import Page Battle Setup Lasting Examples PageProps CallProps BattleProps SetupProps
       ValidateProps AnimationProps ClockProps StartProps.
Local Open Scope string_scope.

Section Lasting.

Variable sprite : string.
Variable first : PokemonData.

#[global] Instance lasting_refl : Reflexive (lasting sprite first).
Proof. by intros w. Qed.
#[global] Instance lasting_trans : Transitive (lasting sprite first).
Proof. intros w1 w2 w3 [S1 F1] [S2 F2]. split; [naive_solver|]. intros HS HF. eauto. Qed.

Lemma lasting_assign id f :
  (∀ e, "faint-animation" ∈ classList e → "faint-animation" ∈ classList (f e)) →
  frames (lasting sprite first) (assign id f).
Proof.
  intros Hf w. unfold assign. destruct (document w !! id) as [e|] eqn:He; [|done].
  split; [done|]. intros _ (e' & He' & Hin). unfold faintShown. simpl.
  destruct (decide (id = sprite)) as [->|Hne].
  - rewrite lookup_insert_eq. exists (f e). split; [done|]. apply Hf. by simplify_eq.
  - rewrite lookup_insert_ne by done. by exists e'.
Qed.

(** An assignment to [className] replaces the class list; the script makes
    none on the two images. *)
Lemma lasting_assign_other id f :
  id ≠ sprite → frames (lasting sprite first) (assign id f).
Proof.
  intros Hne w. unfold assign. destruct (document w !! id) as [e|] eqn:He; [|done].
  split; [done|]. intros _ (e' & He' & Hin). unfold faintShown. simpl.
  rewrite lookup_insert_ne by done. by exists e'.
Qed.

Lemma classListAdd_keeps c e :
  "faint-animation" ∈ classList e → "faint-animation" ∈ classList (classListAdd c e).
Proof. intros Hin. unfold classListAdd. simpl. case_bool_decide; set_solver. Qed.

Lemma lasting_setTimeout c d :
  c ≠ RemoveClass sprite "faint-animation" →
  frames (lasting sprite first) (setTimeout c d).
Proof.
  intros Hc w. split; [|done]. intros [HT HP]. split; [|done]. simpl.
  apply Forall_app. split; [done|]. by constructor.
Qed.

Lemma runCallback_lasting c w :
  c ≠ RemoveClass sprite "faint-animation" → lasting sprite first w (runCallback c w).
Proof.
  intros Hc. destruct c as [id cls|]; [|done]. split; [done|].
  intros _ (e & He & Hin). unfold faintShown. simpl.
  destruct (decide (id = sprite)) as [->|Hne].
  - rewrite lookup_alter_eq, He. eexists. split; [done|]. simpl.
    apply list_elem_of_filter. split; [|done]. intros <-. done.
  - rewrite lookup_alter_ne by done. by exists e.
Qed.

Lemma runCallbacks_lasting (cs : list (nat * Callback)) w :
  Forall (λ t, t.2 ≠ RemoveClass sprite "faint-animation") cs →
  lasting sprite first w (foldl (λ acc t, runCallback t.2 acc) w cs).
Proof.
  intros Hcs. revert w. induction Hcs as [|c cs Hc _ IH]; intros w; simpl; [done|].
  etrans; [by apply runCallback_lasting | apply IH].
Qed.

Lemma Forall_filtered {A} (P Q : A → Prop) `{!∀ x, Decision (Q x)} (l : list A) :
  Forall P l → Forall P (filter Q l).
Proof.
  rewrite !Forall_forall. intros HP x Hx. apply HP.
  by apply list_elem_of_filter in Hx as [_ ?].
Qed.

Lemma insertByDue_Forall (P : nat * Callback → Prop) t ts :
  P t → Forall P ts → Forall P (insertByDue t ts).
Proof.
  intros Ht Hts. induction Hts as [|u ts Hu Hts IH]; simpl; [by repeat constructor|].
  case_match; repeat constructor; done.
Qed.

Lemma sortByDue_Forall (P : nat * Callback → Prop) ts :
  Forall P ts → Forall P (sortByDue ts).
Proof.
  unfold sortByDue. generalize (@nil (nat * Callback)) (Forall_nil_2 P).
  intros acc Hacc Hts. revert acc Hacc.
  induction Hts as [|t ts Ht _ IH]; intros acc Hacc; simpl; [done|].
  apply IH. by apply insertByDue_Forall.
Qed.

Lemma runCallbacks_clock (cs : list (nat * Callback)) w :
  timers (foldl (λ acc t, runCallback t.2 acc) w cs) = timers w ∧
  battleState (foldl (λ acc t, runCallback t.2 acc) w cs) = battleState w.
Proof.
  revert w. induction cs as [|[d c] cs IH]; intros w; simpl; [done|].
  destruct (IH (runCallback c w)) as [-> ->]. by destruct c.
Qed.

Lemma lasting_sleep ms : frames (lasting sprite first) (sleep ms).
Proof.
  intros w. unfold sleep. simpl.
  set (due := filter (λ t, (t.1 ≤ now w + ms)%nat) (timers w)).
  split.
  - intros [HT HP]. split; simpl.
    + by apply Forall_filtered.
    + by rewrite (proj2 (runCallbacks_clock (sortByDue due) w)).
  - intros [HT HP] HF.
    assert (Hdue : Forall (λ t, t.2 ≠ RemoveClass sprite "faint-animation") (sortByDue due)).
    { apply sortByDue_Forall. by apply Forall_filtered. }
    destruct (runCallbacks_lasting _ w Hdue) as [_ Hkeep].
    destruct (Hkeep (conj HT HP) HF) as (e & He & Hin). by exists e.
Qed.

Lemma lasting_state (b : BattleState → BattleState) :
  (∀ s, pokemon1 (b s) = pokemon1 s) →
  frames (lasting sprite first) (λ w, Returned tt (withBattleState (b (battleState w)) w)).
Proof.
  intros Hb w. split; [|done]. intros [HT HP]. split; [done|]. simpl. by rewrite Hb.
Qed.

Lemma lasting_step (f : World → World) :
  (∀ w, document (f w) = document w ∧ timers (f w) = timers w ∧
        pokemon1 (battleState (f w)) = pokemon1 (battleState w)) →
  frames (lasting sprite first) (λ w, Returned tt (f w)).
Proof.
  intros Hf w. destruct (Hf w) as (Hd & Ht & Hp). unfold lasting, settled, faintShown. simpl.
  rewrite Hd, Ht, Hp. done.
Qed.

Lemma lasting_setBattleInProgress b : frames (lasting sprite first) (setBattleInProgress b).
Proof. by apply (lasting_step (λ w, withBattleState _ w)). Qed.

Lemma lasting_setCurrentBattle c : frames (lasting sprite first) (setCurrentBattle c).
Proof. by apply (lasting_step (λ w, withBattleState _ w)). Qed.

Lemma lasting_untouched {A} (m : JS A) :
  frames untouched m → frames (lasting sprite first) m.
Proof. apply frames_weaken. by intros w w' ->. Qed.

Lemma lasting_fetchJson {A} url config (reply : FetchReply A) :
  frames (lasting sprite first) (fetchJson url config reply).
Proof.
  unfold fetchJson. apply frames_bind; [apply _ | | intros _].
  - by apply (lasting_step (λ w, withRequests _ w)).
  - destruct reply; [apply frames_throw | apply frames_ret]; apply _.
Qed.

Hypothesis sprite_is_image : sprite ∈ spriteIds.

Lemma healthBar_other n : "healthBar" +:+ n ≠ sprite.
Proof.
  pose proof sprite_is_image as Hs. unfold spriteIds in Hs. set_unfold.
  intros <-. simpl in Hs. naive_solver.
Qed.

Lemma validationResults_other : "validationResults" ≠ sprite.
Proof.
  pose proof sprite_is_image as Hs. unfold spriteIds in Hs. set_unfold.
  intros <-. simpl in Hs. naive_solver.
Qed.

Ltac kept :=
  lazymatch goal with
  | |- frames _ (assign _ (withClassName _)) =>
      apply lasting_assign_other; first [apply healthBar_other | apply validationResults_other]
  | |- _ => apply lasting_assign; intros e He; first [exact He | by apply classListAdd_keeps]
  end.

Ltac seq := apply frames_bind; [apply _ | | intros ?].

Lemma lasting_showLoading message : frames (lasting sprite first) (showLoading message).
Proof. unfold showLoading. seq; kept. Qed.

Lemma lasting_hideLoading : frames (lasting sprite first) hideLoading.
Proof. unfold hideLoading. kept. Qed.

Lemma lasting_showError message : frames (lasting sprite first) (showError message).
Proof. unfold showError. seq; kept. Qed.

Lemma lasting_backToSetup : frames (lasting sprite first) backToSetup.
Proof.
  unfold backToSetup. do 3 (seq; [kept|]).
  seq; [apply lasting_setBattleInProgress | apply lasting_setCurrentBattle].
Qed.

Lemma lasting_showValidationResults result :
  frames (lasting sprite first) (showValidationResults result).
Proof.
  unfold showValidationResults. do 3 (seq; [kept|]).
  destruct (valid result).
  - seq; kept.
  - seq; [|kept]. apply frames_forEach; [apply _ | apply _ |]. intros x. kept.
Qed.

Lemma lasting_getBattleConfig : frames (lasting sprite first) getBattleConfig.
Proof. apply lasting_untouched. intros w. apply getBattleConfig_untouched. Qed.

Lemma lasting_validateBattle reply : frames (lasting sprite first) (validateBattle reply).
Proof.
  unfold validateBattle. seq; [apply frames_getBattleState; apply _|].
  repeat case_match; try apply lasting_showError.
  seq; [apply lasting_getBattleConfig|]. seq; [apply lasting_showLoading|].
  apply frames_tryCatch; [apply _ | | intros msg].
  - seq; [apply lasting_fetchJson|]. seq; [apply lasting_hideLoading|].
    apply lasting_showValidationResults.
  - seq; [apply lasting_hideLoading | apply lasting_showError].
Qed.

Lemma lasting_updateHealthBar n percentage :
  frames (lasting sprite first) (updateHealthBar n percentage).
Proof. unfold updateHealthBar. seq; [kept|]. repeat case_match; kept. Qed.

Lemma lasting_updateStatusEffects n status :
  frames (lasting sprite first) (updateStatusEffects n status).
Proof.
  unfold updateStatusEffects. seq; [kept|].
  repeat case_match; first [kept | apply frames_ret; apply _].
Qed.

Lemma lasting_updatePokemonStates states :
  frames (lasting sprite first) (updatePokemonStates states).
Proof.
  unfold updatePokemonStates. apply forEachIndexed_frames; [apply _ | apply _ |].
  intros x j. cbv zeta. case_match; [|apply frames_throw; apply _].
  unfold updatePokemonState. seq; [apply lasting_updateHealthBar|]. seq; [kept|].
  apply lasting_updateStatusEffects.
Qed.

Lemma lasting_initializeBattleArena config :
  frames (lasting sprite first) (initializeBattleArena config).
Proof.
  unfold initializeBattleArena.
  seq; [apply frames_ofLoaded; apply _|]. seq; [kept|].
  seq; [apply frames_ofLoaded; apply _|]. seq; [kept|].
  do 2 (seq; [kept|]). do 2 (seq; [apply lasting_updateHealthBar|]). seq; kept.
Qed.

Lemma lasting_animateEvent event : frames (lasting sprite first) (animateEvent event).
Proof.
  unfold animateEvent. repeat case_decide.
  - seq; [apply lasting_untouched, spriteOf_untouched|]. seq; [kept|].
    by apply lasting_setTimeout.
  - seq; [apply lasting_untouched, spriteOf_untouched|]. seq; [kept|].
    by apply lasting_setTimeout.
  - seq; [by apply (lasting_step (λ w, withBodyFilter _ w)) | by apply lasting_setTimeout].
  - seq; [apply lasting_untouched, spriteOf_untouched | kept].
  - apply frames_ret. apply _.
Qed.

Lemma lasting_animateLoggedEvent event :
  frames (lasting sprite first) (animateLoggedEvent event).
Proof.
  unfold animateLoggedEvent. seq; [apply lasting_animateEvent|]. seq; [kept|].
  apply lasting_sleep.
Qed.

Lemma lasting_animateTurn t : frames (lasting sprite first) (animateTurn t).
Proof.
  unfold animateTurn. do 2 (seq; [kept|]).
  seq; [apply frames_forEach; [apply _ | apply _ | apply lasting_animateLoggedEvent]|].
  seq; [|apply lasting_sleep].
  destruct (pokemon_states t); [apply lasting_updatePokemonStates | apply frames_ret; apply _].
Qed.

Lemma lasting_showBattleResults battleResult :
  frames (lasting sprite first) (showBattleResults battleResult).
Proof.
  unfold showBattleResults. do 2 (seq; [kept|]).
  seq; [case_bool_decide; kept|]. seq; [kept|]. apply lasting_setBattleInProgress.
Qed.

Lemma lasting_animateBattle battleResult :
  frames (lasting sprite first) (animateBattle battleResult).
Proof.
  unfold animateBattle.
  seq; [apply frames_forEach; [apply _ | apply _ | apply lasting_animateTurn]|].
  apply lasting_showBattleResults.
Qed.

Lemma lasting_animateBattleSteps battleResult :
  Forall (λ step, match step with
                  | Run m => frames (lasting sprite first) m
                  | Sleep _ => True
                  end)
         (animateBattleSteps battleResult).
Proof.
  apply animateBattleSteps_frames; try apply _.
  - intros text. kept.
  - intros child. kept.
  - apply lasting_animateEvent.
  - apply lasting_updatePokemonStates.
  - apply lasting_showBattleResults.
Qed.

Lemma lasting_pending battleResult :
  frames (lasting sprite first) (awaited (pending (animateBattleSteps battleResult))).
Proof.
  apply awaited_frames; [apply _ | apply _ | apply lasting_sleep |].
  apply pending_Forall, lasting_animateBattleSteps.
Qed.

Lemma lasting_startBattle reply : frames (lasting sprite first) (startBattle reply).
Proof.
  unfold startBattle. seq; [apply frames_getBattleState; apply _|].
  case_match; [apply lasting_showError|].
  seq; [apply lasting_getBattleConfig|]. seq; [apply lasting_showLoading|].
  seq; [apply lasting_setBattleInProgress|].
  apply frames_tryCatch; [apply _ | | intros msg].
  - do 2 (seq; [kept|]). seq; [apply lasting_initializeBattleArena|].
    seq; [apply lasting_fetchJson|]. seq; [apply lasting_hideLoading|].
    case_match; [|apply frames_throw; apply _].
    seq; [apply lasting_setCurrentBattle|].
    apply unawaited_frames, untilSleep_frames; [apply _ | apply _ |].
    apply lasting_animateBattleSteps.
  - seq; [apply lasting_hideLoading|]. seq; [apply lasting_setBattleInProgress|].
    seq; [apply lasting_showError | apply lasting_backToSetup].
Qed.

Lemma lasting_movesSelected p slots : frames (lasting sprite first) (movesSelected p slots).
Proof.
  induction slots as [|m rest IH]; cbn [movesSelected]; [apply frames_ret; apply _|].
  seq; [apply frames_read; apply _|]. case_decide; [apply frames_ret; apply _ | apply IH].
Qed.

Lemma lasting_sidesSelected sides : frames (lasting sprite first) (sidesSelected sides).
Proof.
  induction sides as [|p rest IH]; cbn [sidesSelected]; [apply frames_ret; apply _|].
  seq; [apply lasting_movesSelected|]. case_match; [apply IH | apply frames_ret; apply _].
Qed.

Lemma lasting_checkBattleReady : frames (lasting sprite first) checkBattleReady.
Proof.
  unfold checkBattleReady. seq; [apply frames_getBattleState; apply _|].
  repeat case_match; try kept.
  seq; [|kept]. apply lasting_sidesSelected.
Qed.

Lemma lasting_returned {A} (m : JS A) w a w' :
  frames (lasting sprite first) m → m w = Returned a w' → lasting sprite first w w'.
Proof. intros Hm Hrun. specialize (Hm w). by rewrite Hrun in Hm. Qed.

Lemma stillFainted_lasting w w' :
  lasting sprite first w w' → stillFainted sprite first w → stillFainted sprite first w'.
Proof. intros [HS HF] [H1 H2]. split; auto. Qed.

(** A loop one round of which shows the faint animation leaves it shown. *)
Lemma forEach_shows {A} (body : A → JS unit) x xs w w' :
  (∀ y, frames (lasting sprite first) (body y)) →
  (∀ w w', settled sprite first w → body x w = Returned tt w' → faintShown sprite w') →
  x ∈ xs → settled sprite first w → forEach xs body w = Returned tt w' →
  faintShown sprite w'.
Proof.
  intros Hbody Hx Hin. revert w. induction xs as [|y ys IH]; intros w Hs Hrun.
  - by apply elem_of_nil in Hin.
  - cbn [forEach] in Hrun. apply bind_returned in Hrun as ([] & w1 & Hy & Hrest).
    pose proof (lasting_returned _ _ _ _ (Hbody y) Hy) as [Hs1 _].
    apply elem_of_cons in Hin as [<-|Hin].
    + assert (Hloop : frames (lasting sprite first) (forEach ys body)).
      { apply frames_forEach; [apply _ | apply _ | done]. }
      apply (lasting_returned _ _ _ _ Hloop Hrest); eauto.
    + apply (IH Hin w1); auto.
Qed.

End Lasting.

Lemma spriteFor_image first who : spriteFor first who ∈ spriteIds.
Proof. unfold spriteFor, spriteIds. case_decide; set_solver. Qed.

Lemma animateEvent_shows first event w w' :
  pokemon1 (battleState w) = Some first → ev_type event = "faint" →
  animateEvent event w = Returned tt w' →
  faintShown (spriteFor first (ev_pokemon event)) w'.
Proof.
  intros Hp Hty. unfold animateEvent. rewrite Hty.
  repeat (case_decide; [done|]). case_decide; [|done].
  unfold spriteOf, ofLoaded, bind, ret. rewrite Hp. fold (spriteFor first (ev_pokemon event)).
  unfold assign. destruct (document w !! _) as [e|] eqn:He; [|done].
  intros [= <-]. exists (classListAdd "faint-animation" e). simpl.
  rewrite lookup_insert_eq. split; [done|].
  unfold classListAdd. simpl. case_bool_decide; set_solver.
Qed.

Lemma animateLoggedEvent_shows first event w w' :
  ev_type event = "faint" → settled (spriteFor first (ev_pokemon event)) first w →
  animateLoggedEvent event w = Returned tt w' →
  faintShown (spriteFor first (ev_pokemon event)) w'.
Proof.
  intros Hty Hs Hrun. unfold animateLoggedEvent in Hrun.
  apply bind_returned in Hrun as ([] & w1 & Hev & Hrest).
  pose proof (animateEvent_shows first _ _ _ (proj2 Hs) Hty Hev) as Hshown.
  pose proof (lasting_returned (spriteFor first (ev_pokemon event)) first _ _ _ _
                (lasting_animateEvent _ first event) Hev) as [Hs1 _].
  assert (Hk : frames (lasting (spriteFor first (ev_pokemon event)) first)
                 (bind (assign "battleLog" (appendChild (logEntry event))) (λ _, sleep 800))).
  { apply frames_bind; [apply _ | | intros _; apply lasting_sleep].
    apply lasting_assign. by intros e He. }
  apply (lasting_returned _ _ _ _ _ _ Hk Hrest); auto.
Qed.

Lemma animateTurn_shows first t event w w' :
  event ∈ events t → ev_type event = "faint" →
  settled (spriteFor first (ev_pokemon event)) first w →
  animateTurn t w = Returned tt w' →
  faintShown (spriteFor first (ev_pokemon event)) w'.
Proof.
  intros Hin Hty Hs Hrun. unfold animateTurn in Hrun.
  set (sprite := spriteFor first (ev_pokemon event)) in *.
  assert (Himg : sprite ∈ spriteIds) by apply spriteFor_image.
  apply bind_returned in Hrun as ([] & w1 & H1 & Hrun).
  apply bind_returned in Hrun as ([] & w2 & H2 & Hrun).
  apply bind_returned in Hrun as ([] & w3 & H3 & Hrun).
  assert (Hs1 : settled sprite first w1).
  { eapply (lasting_returned sprite first); [|exact H1|done]. apply lasting_assign. by intros e He. }
  assert (Hs2 : settled sprite first w2).
  { eapply (lasting_returned sprite first); [|exact H2|done]. apply lasting_assign. by intros e He. }
  assert (Hs3 : settled sprite first w3).
  { eapply (lasting_returned sprite first); [|exact H3|done].
    apply frames_forEach; [apply _ | apply _ |]. by apply lasting_animateLoggedEvent. }
  assert (Hshown : faintShown sprite w3).
  { eapply (forEach_shows sprite first animateLoggedEvent event); [| |done|exact Hs2|exact H3].
    - by apply lasting_animateLoggedEvent.
    - intros v v' Hv. by apply animateLoggedEvent_shows. }
  assert (Hk : frames (lasting sprite first)
                 (bind (match pokemon_states t with
                        | Some states => updatePokemonStates states
                        | None => ret tt
                        end) (λ _, sleep 1000))).
  { apply frames_bind; [apply _ | | intros _; apply lasting_sleep].
    destruct (pokemon_states t); [by apply lasting_updatePokemonStates | apply frames_ret; apply _]. }
  apply (lasting_returned _ _ _ _ _ _ Hk Hrun); auto.
Qed.

Lemma animateBattle_shows first battleResult t event w w' :
  t ∈ battle_log battleResult → event ∈ events t → ev_type event = "faint" →
  settled (spriteFor first (ev_pokemon event)) first w →
  animateBattle battleResult w = Returned tt w' →
  stillFainted (spriteFor first (ev_pokemon event)) first w'.
Proof.
  intros Ht Hin Hty Hs Hrun.
  set (sprite := spriteFor first (ev_pokemon event)) in *.
  assert (Himg : sprite ∈ spriteIds) by apply spriteFor_image.
  split.
  { by apply (lasting_returned _ _ _ _ _ _ (lasting_animateBattle sprite first Himg _) Hrun). }
  unfold animateBattle in Hrun.
  apply bind_returned in Hrun as ([] & w1 & H1 & Hrun).
  assert (Hloop : frames (lasting sprite first) (forEach (battle_log battleResult) animateTurn)).
  { apply frames_forEach; [apply _ | apply _ |]. by apply lasting_animateTurn. }
  assert (Hshown : faintShown sprite w1).
  { eapply (forEach_shows sprite first animateTurn t); [| |done|exact Hs|exact H1].
    - by apply lasting_animateTurn.
    - intros v v' Hv. by apply animateTurn_shows. }
  apply (lasting_returned _ _ _ _ _ _ (lasting_showBattleResults sprite first _) Hrun).
  - by apply (lasting_returned _ _ _ _ _ _ Hloop H1).
  - done.
Qed.

(** X27. The faint animation is never taken off.  While the image [sprite] of
    the arena shows it and no pending timer removes it, it is still so
    after [startBattle], whatever the reply, after the steps of the
    animation that [startBattle] leaves pending, however far they run,
    after [animateBattle], after [validateBattle], after [backToSetup] and
    after [checkBattleReady], whether the call returns or throws. *)
Theorem faint_animation_is_never_taken_off (sprite : string) (first : PokemonData)
    (w : World) :
  sprite ∈ spriteIds → stillFainted sprite first w →
  (∀ reply, stillFainted sprite first (worldOf (startBattle reply w))) ∧
  (∀ battleResult,
     stillFainted sprite first
       (worldOf (awaited (pending (animateBattleSteps battleResult)) w))) ∧
  (∀ battleResult, stillFainted sprite first (worldOf (animateBattle battleResult w))) ∧
  (∀ reply, stillFainted sprite first (worldOf (validateBattle reply w))) ∧
  stillFainted sprite first (worldOf (backToSetup w)) ∧
  stillFainted sprite first (worldOf (checkBattleReady w)).
Proof.
  intros Himg Hw. split_and!; intros; (eapply stillFainted_lasting; [|exact Hw]).
  - by apply lasting_startBattle.
  - by apply lasting_pending.
  - by apply lasting_animateBattle.
  - by apply lasting_validateBattle.
  - by apply lasting_backToSetup.
  - by apply lasting_checkBattleReady.
Qed.

(** X28. A battle in which a Pokemon faints leaves its image faint-animated,
    also for the next battle.  On a ready arena, for a result whose
    snapshots are two-sided and whose log has a [faint] event,
    [animateBattle] returns with the faint animation on the image of the
    event's Pokemon ([battleSprite1] when the event names the first
    Pokemon loaded, [battleSprite2] otherwise), and whatever reply a
    following [startBattle] gets, the image shows the animation after
    it. *)
Theorem animateBattle_leaves_image_fainted (first : PokemonData)
    (battleResult : BattleResult) (t : TurnRecord) (event : BattleEvent) (w : World) :
  arenaReady w → twoSided battleResult →
  settled (spriteFor first (ev_pokemon event)) first w →
  t ∈ battle_log battleResult → event ∈ events t → ev_type event = "faint" →
  ∃ w', animateBattle battleResult w = Returned tt w' ∧
    stillFainted (spriteFor first (ev_pokemon event)) first w' ∧
    ∀ reply, faintShown (spriteFor first (ev_pokemon event)) (worldOf (startBattle reply w')).
Proof.
  intros Hready Htwo Hs Ht Hin Hty.
  destruct (proj2 Hready "battleLog") as [e He]; [in_arena|].
  assert (Hlog : logIs (requests w) (content e) w).
  { split; [done|]. split; [|done]. unfold contentOf. by rewrite He. }
  destruct (returns_inv _ _ _ (animateBattle_returns _ battleResult _ w Htwo Hlog))
    as ([] & w' & Hrun & _).
  exists w'. split; [done|].
  pose proof (animateBattle_shows first _ _ _ _ _ Ht Hin Hty Hs Hrun) as Hstill.
  split; [done|]. intros reply.
  apply (stillFainted_lasting _ first w'); [|done].
  apply lasting_startBattle, spriteFor_image.
Qed.

Section Mirror.

Variable first : PokemonData.

#[global] Instance idle_refl : Reflexive (idle first).
Proof. by intros w. Qed.
#[global] Instance idle_trans : Transitive (idle first).
Proof.
  intros w1 w2 w3 H12 H23 HT HP. destruct (H12 HT HP) as (HT2 & HP2 & HD2).
  destruct (H23 HT2 HP2) as (HT3 & HP3 & HD3). split_and!; [done..|congruence].
Qed.

Ltac other := let H := fresh in intros H; simpl in H; discriminate H.

Lemma idle_assign id f : id ≠ "battleSprite2" → frames (idle first) (assign id f).
Proof.
  intros Hne w. unfold assign. destruct (document w !! id) as [e|] eqn:He; [|done].
  intros HT HP. split_and!; [done..|]. simpl. by rewrite lookup_insert_ne.
Qed.

Lemma idle_step (f : World → World) :
  (∀ w, document (f w) = document w ∧ timers (f w) = timers w ∧
        pokemon1 (battleState (f w)) = pokemon1 (battleState w)) →
  frames (idle first) (λ w, Returned tt (f w)).
Proof.
  intros Hf w. destruct (Hf w) as (Hd & Ht & Hp). unfold idle, noTimerFor. simpl.
  rewrite Hd, Ht, Hp. done.
Qed.

Lemma idle_setTimeout c d :
  (∀ cls, c ≠ RemoveClass "battleSprite2" cls) → frames (idle first) (setTimeout c d).
Proof.
  intros Hc w HT HP. split_and!; [|done..]. simpl.
  apply Forall_app. split; [done|]. by constructor.
Qed.

Lemma runCallbacks_idle (cs : list (nat * Callback)) w :
  Forall (λ t, ∀ c, t.2 ≠ RemoveClass "battleSprite2" c) cs →
  document (foldl (λ acc t, runCallback t.2 acc) w cs) !! "battleSprite2"
  = document w !! "battleSprite2".
Proof.
  intros Hcs. revert w. induction Hcs as [|[d c] cs Hc _ IH]; intros w; simpl; [done|].
  rewrite IH. destruct c as [id cls|]; [|done]. simpl.
  rewrite lookup_alter_ne; [done|]. intros ->. by apply (Hc cls).
Qed.

Lemma idle_sleep ms : frames (idle first) (sleep ms).
Proof.
  intros w. unfold sleep. simpl.
  set (due := filter (λ t, (t.1 ≤ now w + ms)%nat) (timers w)).
  intros HT HP. split_and!; simpl.
  - by apply Forall_filtered.
  - by rewrite (proj2 (runCallbacks_clock (sortByDue due) w)).
  - apply runCallbacks_idle. apply sortByDue_Forall. by apply Forall_filtered.
Qed.

Lemma frames_forEach_Forall {A} (R : World → World → Prop) `{!Reflexive R} `{!Transitive R}
    (P : A → Prop) (xs : list A) (body : A → JS unit) :
  Forall P xs → (∀ x, P x → frames R (body x)) → frames R (forEach xs body).
Proof.
  intros Hxs Hbody. induction Hxs as [|x xs Hx _ IH]; cbn [forEach].
  - by apply frames_ret.
  - apply frames_bind; [done | by apply Hbody | done].
Qed.

Ltac seq := apply frames_bind; [apply _ | | intros ?].
Ltac away := apply idle_assign; other.

(** Within a call that reads the first Pokemon's name, the name is that of
    [first]. *)
Lemma idle_spriteOf who (k : string → JS unit) :
  frames (idle first) (k (spriteFor first who)) →
  frames (idle first) (bind (spriteOf who) k).
Proof.
  intros Hk w HT HP.
  assert (Heq : spriteOf who w = Returned (spriteFor first who) w).
  { unfold spriteOf, ofLoaded, bind, ret. by rewrite HP. }
  unfold bind at 1 2 3. rewrite Heq. by apply (Hk w).
Qed.

Lemma idle_animateEvent event :
  about (pd_name first) event → frames (idle first) (animateEvent event).
Proof.
  intros (Hmove & Hdamage & Hfaint). unfold animateEvent. repeat case_decide.
  - apply idle_spriteOf. unfold spriteFor. rewrite decide_True by auto.
    seq; [away|]. apply idle_setTimeout. intros cls [=].
  - apply idle_spriteOf. unfold spriteFor. rewrite decide_True by auto.
    seq; [away|]. apply idle_setTimeout. intros cls [=].
  - seq; [by apply (idle_step (λ w, withBodyFilter _ w)) | by apply idle_setTimeout].
  - apply idle_spriteOf. unfold spriteFor. rewrite decide_True by auto. away.
  - apply frames_ret. apply _.
Qed.

Lemma idle_animateLoggedEvent event :
  about (pd_name first) event → frames (idle first) (animateLoggedEvent event).
Proof.
  intros Hev. unfold animateLoggedEvent. seq; [by apply idle_animateEvent|].
  seq; [away | apply idle_sleep].
Qed.

Lemma idle_updateHealthBar n percentage : frames (idle first) (updateHealthBar n percentage).
Proof. unfold updateHealthBar. seq; [away|]. repeat case_match; away. Qed.

Lemma idle_updateStatusEffects n status : frames (idle first) (updateStatusEffects n status).
Proof.
  unfold updateStatusEffects. seq; [away|].
  repeat case_match; first [away | apply frames_ret; apply _].
Qed.

Lemma idle_updatePokemonStates states : frames (idle first) (updatePokemonStates states).
Proof.
  unfold updatePokemonStates. apply forEachIndexed_frames; [apply _ | apply _ |].
  intros x j. cbv zeta. case_match; [|apply frames_throw; apply _].
  unfold updatePokemonState. seq; [apply idle_updateHealthBar|]. seq; [away|].
  apply idle_updateStatusEffects.
Qed.

Lemma idle_animateTurn t :
  Forall (about (pd_name first)) (events t) → frames (idle first) (animateTurn t).
Proof.
  intros Hevents. unfold animateTurn. do 2 (seq; [away|]).
  seq; [by apply (frames_forEach_Forall _ _ _ _ Hevents), idle_animateLoggedEvent|].
  seq; [|apply idle_sleep].
  destruct (pokemon_states t); [apply idle_updatePokemonStates | apply frames_ret; apply _].
Qed.

Lemma idle_showBattleResults battleResult : frames (idle first) (showBattleResults battleResult).
Proof.
  unfold showBattleResults. do 2 (seq; [away|]).
  seq; [case_bool_decide; away|]. seq; [away|].
  by apply (idle_step (λ w, withBattleState _ w)).
Qed.

Lemma idle_animateBattle battleResult :
  mirrorLog (pd_name first) battleResult → frames (idle first) (animateBattle battleResult).
Proof.
  intros Hlog. unfold animateBattle.
  seq; [|apply idle_showBattleResults].
  apply (frames_forEach_Forall _ _ _ _ Hlog). intros t Ht. by apply idle_animateTurn.
Qed.

End Mirror.

(** X29. In a battle of two Pokemon of one name the second image is never
    animated.  [animateEvent] picks the image by comparing the event's
    name with the name of the first Pokemon loaded, so when every event of
    the log names that Pokemon, [animateBattle] leaves the element
    [battleSprite2] exactly as it was, whether it returns or throws;
    every animation, the second Pokemon's too, has gone to
    [battleSprite1]. *)
Theorem animateBattle_mirror_match (first : PokemonData) (battleResult : BattleResult)
    (w : World) :
  pokemon1 (battleState w) = Some first → noTimerFor "battleSprite2" w →
  mirrorLog (pd_name first) battleResult →
  document (worldOf (animateBattle battleResult w)) !! "battleSprite2"
  = document w !! "battleSprite2".
Proof.
  intros HP HT Hlog. by destruct (idle_animateBattle first battleResult Hlog w HT HP) as (_ & _ & ?).
Qed.

#[global] Instance resting_refl : Reflexive resting.
Proof. intros w H. exact H. Qed.
#[global] Instance resting_trans : Transitive resting.
Proof. intros w1 w2 w3 H12 H23 H. apply H23, H12, H. Qed.

Lemma frames_returned {A} (R : World → World → Prop) (m : JS A) w a w' :
  frames R m → m w = Returned a w' → R w w'.
Proof. intros Hm Hrun. specialize (Hm w). by rewrite Hrun in Hm. Qed.

Ltac nosprite :=
  let H := fresh in intros H; unfold spriteIds in H; set_unfold; simpl in H; naive_solver.

Lemma assign_inv id f w w' :
  assign id f w = Returned tt w' →
  ∃ e, document w !! id = Some e ∧ w' = withDocument (<[id := f e]> (document w)) w.
Proof. unfold assign. destruct (document w !! id) as [e|]; [|done]. intros [= <-]. eauto. Qed.

Lemma calm_insert id x w :
  id ∉ spriteIds → calm w → calm (withDocument (<[id := x]> (document w)) w).
Proof.
  intros Hid [HB HC]. split; [done|]. simpl. intros sprite e c Hs He Hc.
  rewrite lookup_insert_ne in He by (intros ->; done). eauto.
Qed.

Lemma resting_assign id f : id ∉ spriteIds → frames resting (assign id f).
Proof.
  intros Hid w. unfold assign. destruct (document w !! id) as [e|] eqn:He; [|done].
  intros [HT HC]. split; [done|]. by apply calm_insert.
Qed.

Lemma resting_step (f : World → World) :
  (∀ w, document (f w) = document w ∧ timers (f w) = timers w ∧
        bodyFilter (f w) = bodyFilter w) →
  frames resting (λ w, Returned tt (f w)).
Proof.
  intros Hf w. destruct (Hf w) as (Hd & Ht & Hb). unfold resting, atRest, calm. simpl.
  rewrite Hd, Ht, Hb. done.
Qed.

Lemma removed_after_added c c' e :
  c' = c ∨ c' ∉ classList e → c' ∉ classList (classListRemove c (classListAdd c e)).
Proof.
  intros Hc Hin. unfold classListRemove, classListAdd in Hin. simpl in Hin.
  apply list_elem_of_filter in Hin as [Hne Hin].
  destruct Hc as [->|Hc]; [done|]. case_bool_decide; [done|].
  set_unfold. naive_solver.
Qed.

Lemma animated_winding who c w w' :
  c ∈ transient → atRest w →
  bind (spriteOf who) (λ s,
    bind (assign s (classListAdd c)) (λ _, setTimeout (RemoveClass s c) 500)) w
  = Returned tt w' →
  winding w'.
Proof.
  intros Hc (HT & HB & HC) Hrun.
  apply bind_returned in Hrun as (s & w1 & Hs & Hrun).
  pose proof (spriteOf_untouched who w) as Hu. rewrite Hs in Hu. simpl in Hu.
  unfold untouched in Hu. subst w1.
  apply bind_returned in Hrun as ([] & w2 & Ha & Hrun).
  apply assign_inv in Ha as (e & He & ->). unfold setTimeout in Hrun. injection Hrun as <-.
  right. eexists _, _. split_and!.
  - simpl. rewrite HT. reflexivity.
  - simpl. lia.
  - split; [done|]. simpl. intros sprite e' c' Hsp He' Hc'.
    destruct (decide (sprite = s)) as [->|Hne].
    + rewrite lookup_alter_eq, lookup_insert_eq in He'. simpl in He'. injection He' as <-.
      apply removed_after_added. destruct (decide (c' = c)); [by left | right; eauto].
    + rewrite lookup_alter_ne, lookup_insert_ne in He' by done. eauto.
Qed.

Lemma animateEvent_winding event w w' :
  animateEvent event w = Returned tt w' → atRest w → winding w'.
Proof.
  intros Hrun Hrest. unfold animateEvent in Hrun. repeat case_decide.
  - eapply animated_winding; [|done|exact Hrun]. unfold transient. set_solver.
  - eapply animated_winding; [|done|exact Hrun]. unfold transient. set_solver.
  - destruct Hrest as (HT & HB & HC).
    apply bind_returned in Hrun as ([] & w1 & [= <-] & Hrun).
    unfold setTimeout in Hrun. injection Hrun as <-.
    right. eexists _, _. split_and!.
    + simpl. rewrite HT. reflexivity.
    + simpl. lia.
    + by split.
  - destruct Hrest as (HT & HB & HC).
    apply bind_returned in Hrun as (s & w1 & Hs & Hrun).
    pose proof (spriteOf_untouched (ev_pokemon event) w) as Hu. rewrite Hs in Hu.
    simpl in Hu. unfold untouched in Hu. subst w1.
    apply assign_inv in Hrun as (e & He & ->).
    left. split; [done|]. split; [done|]. simpl. intros sprite e' c' Hsp He' Hc'.
    destruct (decide (sprite = s)) as [->|Hne].
    + rewrite lookup_insert_eq in He'. injection He' as <-.
      pose proof (HC s e c' Hsp He Hc') as Hnot.
      unfold classListAdd. simpl. case_bool_decide; [done|].
      unfold transient in Hc'. set_unfold. naive_solver.
    + rewrite lookup_insert_ne in He' by done. eauto.
  - injection Hrun as <-. by left.
Qed.

Lemma assign_winding id f w w' :
  id ∉ spriteIds → assign id f w = Returned tt w' → winding w → winding w'.
Proof.
  intros Hid Ha Hw. apply assign_inv in Ha as (e & He & ->).
  destruct Hw as [[HT HC]|(t & callback & HT & Hle & [HB HC])].
  - left. split; [done|]. by apply calm_insert.
  - right. exists t, callback. split_and!; [done..|]. split.
    + by destruct callback.
    + intros sprite e' c Hsp He' Hc. apply (HC sprite e' c Hsp); [|done].
      rewrite <- He'. assert (id ≠ sprite) by (intros ->; done).
      destruct callback as [id' cls|]; simpl.
      * destruct (decide (id' = sprite)) as [->|Hne].
        -- by rewrite !lookup_alter_eq, lookup_insert_ne.
        -- by rewrite !lookup_alter_ne, lookup_insert_ne.
      * by rewrite lookup_insert_ne.
Qed.

(** Half a second is over before any pause of the animation is. *)
Lemma sleep_winding ms w w' :
  (500 ≤ ms)%nat → winding w → sleep ms w = Returned tt w' → atRest w'.
Proof.
  intros Hms Hw. unfold sleep. intros [= <-].
  destruct Hw as [[HT HC]|(t & callback & HT & Hle & HC)]; rewrite HT.
  - split; [done|]. exact HC.
  - rewrite (filter_cons_True (λ u : nat * Callback, (u.1 ≤ now w + ms)%nat))
      by (simpl; lia).
    rewrite (filter_cons_False (λ u : nat * Callback, ¬ (u.1 ≤ now w + ms)%nat))
      by (simpl; lia).
    rewrite !filter_nil. split; [done|]. exact HC.
Qed.

Lemma animateLoggedEvent_rest event w w' :
  animateLoggedEvent event w = Returned tt w' → atRest w → atRest w'.
Proof.
  intros Hrun Hrest. unfold animateLoggedEvent in Hrun.
  apply bind_returned in Hrun as ([] & w1 & Hev & Hrun).
  apply bind_returned in Hrun as ([] & w2 & Hlog & Hrun).
  apply (sleep_winding 800 w2 w'); [lia | | done].
  eapply assign_winding; [| exact Hlog |]; [nosprite|].
  by apply (animateEvent_winding event w).
Qed.

Lemma forEach_keeps {A} (P : World → Prop) (body : A → JS unit) xs w w' :
  (∀ x w w', body x w = Returned tt w' → P w → P w') →
  forEach xs body w = Returned tt w' → P w → P w'.
Proof.
  intros Hbody. revert w. induction xs as [|x xs IH]; intros w Hrun HP.
  - by injection Hrun as <-.
  - cbn [forEach] in Hrun. apply bind_returned in Hrun as ([] & w1 & Hx & Hrun). eauto.
Qed.

Ltac rseq := apply frames_bind; [apply _ | | intros ?].
Ltac apart := apply resting_assign; nosprite.

Lemma resting_updateHealthBar n percentage : frames resting (updateHealthBar n percentage).
Proof. unfold updateHealthBar. rseq; [apart|]. repeat case_match; apart. Qed.

Lemma resting_updateStatusEffects n status : frames resting (updateStatusEffects n status).
Proof.
  unfold updateStatusEffects. rseq; [apart|].
  repeat case_match; first [apart | apply frames_ret; apply _].
Qed.

Lemma resting_updatePokemonStates states : frames resting (updatePokemonStates states).
Proof.
  unfold updatePokemonStates. apply forEachIndexed_frames; [apply _ | apply _ |].
  intros x j. cbv zeta. case_match; [|apply frames_throw; apply _].
  unfold updatePokemonState. rseq; [apply resting_updateHealthBar|]. rseq; [apart|].
  apply resting_updateStatusEffects.
Qed.

Lemma resting_showBattleResults battleResult : frames resting (showBattleResults battleResult).
Proof.
  unfold showBattleResults. do 2 (rseq; [apart|]).
  rseq; [case_bool_decide; apart|]. rseq; [apart|].
  by apply (resting_step (λ w, withBattleState _ w)).
Qed.

Lemma animateTurn_rest t w w' :
  animateTurn t w = Returned tt w' → atRest w → atRest w'.
Proof.
  intros Hrun Hrest. unfold animateTurn in Hrun.
  apply bind_returned in Hrun as ([] & w1 & H1 & Hrun).
  apply bind_returned in Hrun as ([] & w2 & H2 & Hrun).
  apply bind_returned in Hrun as ([] & w3 & H3 & Hrun).
  apply bind_returned in Hrun as ([] & w4 & H4 & Hrun).
  apply (sleep_winding 1000 w4 w'); [lia | left | done].
  assert (Hstates : frames resting (match pokemon_states t with
                                    | Some states => updatePokemonStates states
                                    | None => ret tt
                                    end)).
  { destruct (pokemon_states t); [apply resting_updatePokemonStates | apply frames_ret; apply _]. }
  apply (frames_returned resting _ w3 _ w4 Hstates H4).
  apply (forEach_keeps atRest animateLoggedEvent _ w2 w3 animateLoggedEvent_rest H3).
  eapply (frames_returned resting); [| exact H2 |]; [apart|].
  eapply (frames_returned resting); [| exact H1 |]; [apart | done].
Qed.

Lemma animateBattle_rest battleResult w w' :
  animateBattle battleResult w = Returned tt w' → atRest w → atRest w'.
Proof.
  intros Hrun Hrest. unfold animateBattle in Hrun.
  apply bind_returned in Hrun as ([] & w1 & Hturns & Hshow).
  apply (frames_returned resting _ w1 _ w' (resting_showBattleResults battleResult) Hshow).
  by apply (forEach_keeps atRest animateTurn _ w w1 animateTurn_rest Hturns).
Qed.

(** X30. Every timed animation is over when the battle is.  Started at rest
    (no timer pending, the screen not flashed, neither image in an attack
    or damage animation) on a ready arena, on a result whose snapshots
    are two-sided, [animateBattle] returns at rest: the half second of an
    attack or damage animation and the 200 ms of a flash end within the
    800 ms pause that follows the event. *)
Theorem animateBattle_ends_timed_animations (battleResult : BattleResult) (w : World) :
  arenaReady w → twoSided battleResult → atRest w →
  ∃ w', animateBattle battleResult w = Returned tt w' ∧ atRest w'.
Proof.
  intros Hready Htwo Hrest.
  destruct (proj2 Hready "battleLog") as [e He]; [in_arena|].
  assert (Hlog : logIs (requests w) (content e) w).
  { split; [done|]. split; [|done]. unfold contentOf. by rewrite He. }
  destruct (returns_inv _ _ _ (animateBattle_returns _ battleResult _ w Htwo Hlog))
    as ([] & w' & Hrun & _).
  exists w'. split; [done|]. by apply (animateBattle_rest battleResult w).
Qed.

End LastingProps.

(** ** The properties above on concrete pages *)

Module Instances.

Import Page Battle Examples Setup Session Samples Lasting PageProps CallProps BattleProps
       SetupProps ArenaProps ValidationProps ValidateProps AnimationProps ClockProps
       StartProps CrowdedProps SessionProps ComposeProps LastingProps.
Local Open Scope string_scope.

Ltac computed := vm_compute; reflexivity.
Ltac all_present :=
  let id := fresh "id" in let Hin := fresh "Hin" in
  intros id Hin; revert id Hin; apply Forall_forall;
  apply (bool_decide_unpack _); by vm_compute.

Lemma readyPage_present : present pageIds readyPage.
Proof. all_present. Qed.

Lemma readyPage_loaded : loaded readyPage.
Proof. split; eexists; reflexivity. Qed.

Lemma readyPage_two_sides : document readyPage !! "healthBar3" = None.
Proof. computed. Qed.

Lemma formSession_complete : complete formSession.
Proof. all_present. Qed.

Lemma blankNameSession_complete : complete blankNameSession.
Proof. all_present. Qed.

Lemma playedSession_complete : complete playedSession.
Proof. all_present. Qed.

Lemma startBattle_unloaded_changes_nothing_witness :
  battleInProgress (battleState freshPage) = false ∧
  (pokemon1 (battleState freshPage) = None ∨ pokemon2 (battleState freshPage) = None) ∧
  ∃ message, startBattle (Rejected "offline") freshPage = Thrown message freshPage.
Proof.
  exact (conj eq_refl (conj (or_introl eq_refl)
    (startBattle_unloaded_changes_nothing (Rejected "offline") freshPage
       eq_refl (or_introl eq_refl)))).
Defined.

Lemma readyPage_button : document readyPage !! "battleBtn" = Some (withDisabled true blank).
Proof. computed. Qed.

Lemma readyPage_moves :
  selectedMoves readyPage
  = Some <$> [ "thunderbolt"; "quick-attack"; "iron-tail"; "thunder";
               "flamethrower"; "dragon-pulse"; "air-slash"; "solar-beam" ].
Proof. computed. Qed.

Lemma checkBattleReady_enables_iff_witness :
  document readyPage !! "battleBtn" = Some (withDisabled true blank) ∧
  selectedMoves readyPage
  = Some <$> [ "thunderbolt"; "quick-attack"; "iron-tail"; "thunder";
               "flamethrower"; "dragon-pulse"; "air-slash"; "solar-beam" ] ∧
  ∃ w', checkBattleReady readyPage = Returned tt w' ∧
    changesOnly ["battleBtn"] readyPage w' ∧
    (∃ d, disabled <$> document w' !! "battleBtn" = Some d) ∧
    (disabled <$> document w' !! "battleBtn" = Some false ↔
     is_Some (pokemon1 (battleState readyPage)) ∧
     is_Some (pokemon2 (battleState readyPage)) ∧
     Forall (λ v, v ≠ "")
       [ "thunderbolt"; "quick-attack"; "iron-tail"; "thunder";
         "flamethrower"; "dragon-pulse"; "air-slash"; "solar-beam" ]).
Proof.
  exact (conj readyPage_button (conj readyPage_moves
    (checkBattleReady_enables_iff readyPage _ _ readyPage_button readyPage_moves))).
Defined.

Lemma readyPage_healthBar1 : document readyPage !! "healthBar1" = Some blank.
Proof. computed. Qed.

Lemma healthBar_colour_by_quarters_witness :
  document readyPage !! "healthBar1" = Some blank ∧ 0 < hp_max (mkHp 30 120) ∧
  ∃ w', updateHealthBar 1 (healthPercentage (mkHp 30 120)) readyPage = Returned tt w' ∧
    changesOnly ["healthBar1"] readyPage w' ∧
    className <$> document w' !! "healthBar1" = Some "health-fill low".
Proof.
  exact (conj readyPage_healthBar1 (conj eq_refl
    (healthBar_colour_by_quarters 1 (mkHp 30 120) readyPage blank
       readyPage_healthBar1 eq_refl))).
Defined.

Lemma healthBar_zero_max_witness :
  document readyPage !! "healthBar1" = Some blank ∧
  hp_max (mkHp 0 0) = 0 ∧ (0 ≤ hp_current (mkHp 0 0))%Z ∧
  ∃ w', updateHealthBar 1 (healthPercentage (mkHp 0 0)) readyPage = Returned tt w' ∧
    className <$> document w' !! "healthBar1" = Some "health-fill".
Proof.
  assert (Hle : (0 ≤ hp_current (mkHp 0 0))%Z) by (simpl; lia).
  exact (conj readyPage_healthBar1 (conj eq_refl (conj Hle
    (healthBar_zero_max 1 (mkHp 0 0) readyPage blank readyPage_healthBar1 eq_refl Hle)))).
Defined.

Lemma snapshot_names_differ : NoDup ["pikachu"; "charizard"].
Proof. apply NoDup_ListNoDup. repeat constructor; simpl; intuition discriminate. Qed.

Lemma snapshot_names_differ' : NoDup ["charizard"; "pikachu"].
Proof. apply NoDup_ListNoDup. repeat constructor; simpl; intuition discriminate. Qed.

Lemma snapshot_names_plain :
  Forall (λ name, Js.arrayIndex name = None) ["pikachu"; "charizard"].
Proof. by repeat constructor. Qed.

Lemma snapshot_names_plain' :
  Forall (λ name, Js.arrayIndex name = None) ["charizard"; "pikachu"].
Proof. by repeat constructor. Qed.

Lemma updatePokemonStates_by_position_witness :
  NoDup [ ("pikachu", mkPokemonState (mkHp 95 95) None);
          ("charizard", mkPokemonState (mkHp 0 153) None) ].*1 ∧
  Forall (λ name, Js.arrayIndex name = None)
    [ ("pikachu", mkPokemonState (mkHp 95 95) None);
      ("charizard", mkPokemonState (mkHp 0 153) None) ].*1 ∧
  NoDup [ ("charizard", mkPokemonState (mkHp 95 95) None);
          ("pikachu", mkPokemonState (mkHp 0 153) None) ].*1 ∧
  Forall (λ name, Js.arrayIndex name = None)
    [ ("charizard", mkPokemonState (mkHp 95 95) None);
      ("pikachu", mkPokemonState (mkHp 0 153) None) ].*1 ∧
  [ ("pikachu", mkPokemonState (mkHp 95 95) None);
    ("charizard", mkPokemonState (mkHp 0 153) None) ].*2
  = [ ("charizard", mkPokemonState (mkHp 95 95) None);
      ("pikachu", mkPokemonState (mkHp 0 153) None) ].*2 ∧
  updatePokemonStates [ ("pikachu", mkPokemonState (mkHp 95 95) None);
                        ("charizard", mkPokemonState (mkHp 0 153) None) ] readyPage
  = updatePokemonStates [ ("charizard", mkPokemonState (mkHp 95 95) None);
                          ("pikachu", mkPokemonState (mkHp 0 153) None) ] readyPage.
Proof.
  exact (conj snapshot_names_differ (conj snapshot_names_plain
    (conj snapshot_names_differ' (conj snapshot_names_plain' (conj eq_refl
      (updatePokemonStates_by_position
         [ ("pikachu", mkPokemonState (mkHp 95 95) None);
           ("charizard", mkPokemonState (mkHp 0 153) None) ]
         [ ("charizard", mkPokemonState (mkHp 95 95) None);
           ("pikachu", mkPokemonState (mkHp 0 153) None) ] readyPage
         snapshot_names_differ snapshot_names_plain
         snapshot_names_differ' snapshot_names_plain' eq_refl)))))).
Defined.

Lemma readyPage_validationResults :
  document readyPage !! "validationResults" = Some blank.
Proof. computed. Qed.

Lemma readyPage_validationList : document readyPage !! "validationList" = Some blank.
Proof. computed. Qed.

Lemma showValidationResults_replaces_witness :
  document readyPage !! "validationResults" = Some blank ∧
  document readyPage !! "validationList" = Some blank ∧
  document readyPage !! "battleBtn" = Some (withDisabled true blank) ∧
  ∃ w1 w12 w2,
    showValidationResults sampleInvalid readyPage = Returned tt w1 ∧
    showValidationResults (mkValidationResult true []) w1 = Returned tt w12 ∧
    showValidationResults (mkValidationResult true []) readyPage = Returned tt w2 ∧
    document w12 = document w2 ∧
    contentOf w12 "validationList" = Some (validationItems (mkValidationResult true [])).
Proof.
  exact (conj readyPage_validationResults (conj readyPage_validationList
    (conj readyPage_button
      (showValidationResults_replaces sampleInvalid (mkValidationResult true []) readyPage
         _ _ _ readyPage_validationResults readyPage_validationList readyPage_button)))).
Defined.

Lemma readyPage_statusEffects1 : document readyPage !! "statusEffects1" = Some blank.
Proof. computed. Qed.

Lemma updateStatusEffects_replaces_witness :
  document readyPage !! "statusEffects1" = Some blank ∧
  ∃ w1 w12, updateStatusEffects 1 (Some (mkStatus "burn")) readyPage = Returned tt w1 ∧
    updateStatusEffects 1 None w1 = Returned tt w12 ∧
    updateStatusEffects 1 None readyPage = Returned tt w12.
Proof.
  exact (conj readyPage_statusEffects1
    (updateStatusEffects_replaces 1 (Some (mkStatus "burn")) None readyPage blank
       readyPage_statusEffects1)).
Defined.

Lemma validateBattle_outcome_witness :
  present pageIds readyPage ∧ loaded readyPage ∧
  ∃ w', validateBattle (Json sampleInvalid) readyPage = Returned tt w' ∧
    display <$> document w' !! "loadingOverlay" = Some "none" ∧
    disabled <$> document w' !! "battleBtn" = Some true ∧
    contentOf w' "validationList" = Some (validationItems sampleInvalid).
Proof.
  exact (conj readyPage_present (conj readyPage_loaded
    (validateBattle_outcome (Json sampleInvalid) readyPage
       readyPage_present readyPage_loaded))).
Defined.

Lemma readyPage_idle : timers readyPage = [].
Proof. reflexivity. Qed.

Lemma animateBattle_duration_witness :
  arenaReady readyPage ∧ twoSided sampleResult ∧ timers readyPage = [] ∧
  ∃ w', animateBattle sampleResult readyPage = Returned tt w' ∧
    now w' = (now readyPage + (2600 + 5000))%nat ∧ timers w' = [].
Proof.
  exact (conj readyPage_arenaReady (conj sampleResult_twoSided (conj readyPage_idle
    (animateBattle_duration sampleResult readyPage
       readyPage_arenaReady sampleResult_twoSided readyPage_idle)))).
Defined.

Lemma startBattle_failure_recovers_witness :
  present pageIds readyPage ∧ loaded readyPage ∧
  battleInProgress (battleState readyPage) = false ∧
  ∃ config w',
    getBattleConfig readyPage = Returned config readyPage ∧
    startBattle (Json (Failure None)) readyPage = Returned tt w' ∧
    battleState w' = mkBattleState (Some pikachu) (Some charizard) false None ∧
    requests w' = (requests readyPage ++ [Post "/api/battle/simulate" config])%list ∧
    contentOf w' "errorText" = Some [Text "Battle failed: Battle simulation failed"] ∧
    display <$> document w' !! "errorMessage" = Some "flex" ∧
    display <$> document w' !! "loadingOverlay" = Some "none" ∧
    display <$> document w' !! "battleSetup" = Some "block" ∧
    display <$> document w' !! "battleArena" = Some "none".
Proof.
  exact (conj readyPage_present (conj readyPage_loaded (conj eq_refl
    (startBattle_failure_recovers (Json (Failure None)) "Battle simulation failed" readyPage
       readyPage_present readyPage_loaded eq_refl
       (or_intror (ex_intro _ None (conj eq_refl eq_refl))))))).
Defined.

Lemma sampleResult_has_turns : battle_log sampleResult ≠ [].
Proof. discriminate. Qed.

Lemma startBattle_success_then_animation_witness :
  present pageIds readyPage ∧ loaded readyPage ∧
  battleInProgress (battleState readyPage) = false ∧ twoSided sampleResult ∧
  battle_log sampleResult ≠ [] ∧
  ∃ config w1 w2,
    getBattleConfig readyPage = Returned config readyPage ∧
    startBattle (Json (Success sampleResult)) readyPage = Returned tt w1 ∧
    contentOf w1 "battleLog" = Some (firstEntries sampleResult) ∧
    battleState w1 = mkBattleState (Some pikachu) (Some charizard) true (Some sampleResult) ∧
    requests w1 = (requests readyPage ++ [Post "/api/battle/simulate" config])%list ∧
    awaited (pending (animateBattleSteps sampleResult)) w1 = Returned tt w2 ∧
    contentOf w2 "battleLog" = Some (battleLogEntries sampleResult) ∧
    battleState w2 = mkBattleState (Some pikachu) (Some charizard) false (Some sampleResult) ∧
    requests w2 = requests w1.
Proof.
  exact (conj readyPage_present (conj readyPage_loaded (conj eq_refl
    (conj sampleResult_twoSided (conj sampleResult_has_turns
      (startBattle_success_then_animation sampleResult readyPage
         readyPage_present readyPage_loaded eq_refl sampleResult_twoSided
         sampleResult_has_turns)))))).
Defined.

Lemma updatePokemonStates_third_entry_witness :
  Js.objectEntries
    [ ("pikachu", mkPokemonState (mkHp 80 95) None);
      ("charizard", mkPokemonState (mkHp 153 153) (Some (mkStatus "burn")));
      ("pidgey", mkPokemonState (mkHp 40 40) None) ]
  = [ ("pikachu", mkPokemonState (mkHp 80 95) None);
      ("charizard", mkPokemonState (mkHp 153 153) (Some (mkStatus "burn")));
      ("pidgey", mkPokemonState (mkHp 40 40) None) ] ∧
  present pageIds readyPage ∧ loaded readyPage ∧
  document readyPage !! "healthBar3" = None ∧
  ∃ w', updatePokemonStates
          [ ("pikachu", mkPokemonState (mkHp 80 95) None);
            ("charizard", mkPokemonState (mkHp 153 153) (Some (mkStatus "burn")));
            ("pidgey", mkPokemonState (mkHp 40 40) None) ] readyPage
        = Thrown (nullAccess "healthBar3") w' ∧
    quiet readyPage w' ∧
    contentOf w' "healthText1" = Some [Text "80/95 HP"] ∧
    contentOf w' "healthText2" = Some [Text "153/153 HP"].
Proof.
  exact (conj eq_refl (conj readyPage_present (conj readyPage_loaded
    (conj readyPage_two_sides
      (updatePokemonStates_third_entry
         [ ("pikachu", mkPokemonState (mkHp 80 95) None);
           ("charizard", mkPokemonState (mkHp 153 153) (Some (mkStatus "burn")));
           ("pidgey", mkPokemonState (mkHp 40 40) None) ]
         ("pikachu", mkPokemonState (mkHp 80 95) None)
         ("charizard", mkPokemonState (mkHp 153 153) (Some (mkStatus "burn")))
         ("pidgey", mkPokemonState (mkHp 40 40) None) [] readyPage
         eq_refl readyPage_present readyPage_loaded readyPage_two_sides))))).
Defined.

Lemma firstTurn_twoSided :
  Forall (λ t, ∀ states, pokemon_states t = Some states → (length states ≤ 2)%nat)
         [firstTurn].
Proof. constructor; [|constructor]. intros states [= <-]. simpl. lia. Qed.

Lemma crowdedTurn_crowded : crowded crowdedTurn.
Proof. eexists. split; [reflexivity|]. vm_compute. lia. Qed.

Lemma readyPage_log : contentOf readyPage "battleLog" = Some [].
Proof. computed. Qed.

Lemma animateBattle_stops_at_crowded_turn_witness :
  battle_log crowdedResult = ([firstTurn] ++ crowdedTurn :: [lastTurn])%list ∧
  Forall (λ t, ∀ states, pokemon_states t = Some states → (length states ≤ 2)%nat)
         [firstTurn] ∧
  crowded crowdedTurn ∧
  present pageIds readyPage ∧ loaded readyPage ∧
  document readyPage !! "healthBar3" = None ∧
  contentOf readyPage "battleLog" = Some [] ∧
  ∃ w', animateBattle crowdedResult readyPage = Thrown (nullAccess "healthBar3") w' ∧
    battleState w' = battleState readyPage ∧
    contentOf w' "battleLog"
    = Some ([] ++ concat (turnEntries <$> [firstTurn]) ++ turnEntries crowdedTurn)%list.
Proof.
  exact (conj eq_refl (conj firstTurn_twoSided (conj crowdedTurn_crowded
    (conj readyPage_present (conj readyPage_loaded (conj readyPage_two_sides
      (conj readyPage_log
        (animateBattle_stops_at_crowded_turn crowdedResult [firstTurn] [lastTurn]
           crowdedTurn [] readyPage eq_refl firstTurn_twoSided crowdedTurn_crowded
           readyPage_present readyPage_loaded readyPage_two_sides readyPage_log)))))))).
Defined.

Lemma firstTurn_comes_first : [firstTurn] ≠ [].
Proof. discriminate. Qed.

Lemma startBattle_stuck_after_crowded_turn_witness :
  present pageIds readyPage ∧ loaded readyPage ∧
  battleInProgress (battleState readyPage) = false ∧
  document readyPage !! "healthBar3" = None ∧
  battle_log crowdedResult = ([firstTurn] ++ crowdedTurn :: [lastTurn])%list ∧
  [firstTurn] ≠ [] ∧
  Forall (λ t, ∀ states, pokemon_states t = Some states → (length states ≤ 2)%nat)
         [firstTurn] ∧
  crowded crowdedTurn ∧
  ∃ w1 w2, startBattle (Json (Success crowdedResult)) readyPage = Returned tt w1 ∧
    battleInProgress (battleState w1) = true ∧
    currentBattle (battleState w1) = Some crowdedResult ∧
    awaited (pending (animateBattleSteps crowdedResult)) w1
    = Thrown (nullAccess "healthBar3") w2 ∧
    battleState w2 = battleState w1 ∧
    contentOf w2 "battleLog"
    = Some (concat (turnEntries <$> [firstTurn]) ++ turnEntries crowdedTurn)%list.
Proof.
  exact (conj readyPage_present (conj readyPage_loaded (conj eq_refl
    (conj readyPage_two_sides (conj eq_refl (conj firstTurn_comes_first
      (conj firstTurn_twoSided (conj crowdedTurn_crowded
        (startBattle_stuck_after_crowded_turn crowdedResult [firstTurn] [lastTurn]
           crowdedTurn readyPage readyPage_present readyPage_loaded eq_refl
           readyPage_two_sides eq_refl firstTurn_comes_first firstTurn_twoSided
           crowdedTurn_crowded))))))))).
Defined.

Lemma formSession_numbered :
  Forall (λ r : nat * nat, (r.2 < created formSession)%nat) (removals formSession).
Proof. constructor. Qed.

Lemma showSuccess_toast_lasts_three_seconds_witness :
  Forall (λ r : nat * nat, (r.2 < created formSession)%nat) (removals formSession) ∧
  ∃ s1 s2,
    showSuccess "pikachu loaded successfully!" formSession = Done tt s1 ∧
    elapse 1000 s1 = Done tt s2 ∧
    (created formSession,
     mkToast (mkNode "div" "success-toast" "pikachu loaded successfully!") toastStyle)
      ∈ toasts s2.
Proof.
  split; [exact formSession_numbered|].
  destruct (showSuccess_toast_lasts_three_seconds "pikachu loaded successfully!" 1000
              formSession formSession_numbered)
    as (s1 & s2 & Hshow & Hwait & _ & _ & _ & Hstill & _).
  exists s1, s2. split; [exact Hshow|]. split; [exact Hwait|]. apply Hstill. lia.
Defined.

Lemma formSession_name1 :
  value <$> document (page formSession) !! ("pokemon" +:+ Js.numberToString 1 +:+ "Name")
  = Some "  Pikachu ".
Proof. computed. Qed.

Lemma formSession_level1 :
  value <$> document (page formSession) !! ("pokemon" +:+ Js.numberToString 1 +:+ "Level")
  = Some "50".
Proof. computed. Qed.

Lemma pikachu_named : "pikachu" ≠ "".
Proof. discriminate. Qed.

Lemma charizard_named : "charizard" ≠ "".
Proof. discriminate. Qed.

Lemma loadPokemon_success_witness :
  complete formSession ∧
  value <$> document (page formSession) !! ("pokemon" +:+ Js.numberToString 1 +:+ "Name")
  = Some "  Pikachu " ∧
  trim "  Pikachu " ≫= toLowerCase = Some "pikachu" ∧ "pikachu" ≠ "" ∧
  value <$> document (page formSession) !! ("pokemon" +:+ Js.numberToString 1 +:+ "Level")
  = Some "50" ∧
  ∃ s',
    loadPokemon 1 (Resolves (mkResponse true (Resolves pikachu)))
      (Resolves (mkResponse true (Resolves pikachuMoves))) formSession = Done tt s' ∧
    pokemon1 (battleState (page s')) = Some pikachu ∧
    gets s' = ["/api/pokemon/pikachu"; "/api/pokemon/pikachu/moves?level=50"] ∧
    options s' !! "pokemon1Move1" = Some [optionOf thunderbolt; optionOf growl].
Proof.
  split; [exact formSession_complete|]. split; [exact formSession_name1|].
  split; [reflexivity|]. split; [exact pikachu_named|]. split; [exact formSession_level1|].
  destruct (loadPokemon_success 1 pikachu pikachuMoves "  Pikachu " "pikachu" "50"
              formSession (or_introl eq_refl) formSession_complete formSession_name1
              eq_refl pikachu_named formSession_level1)
    as (s' & Hrun & Hp & _ & _ & _ & _ & Hsel & _ & _ & Hgets & _).
  exists s'. split; [exact Hrun|]. split; [exact Hp|]. split; [exact Hgets|].
  apply Forall_cons in Hsel as [(_ & _ & Hopts) _]. exact Hopts.
Defined.

Lemma blankNameSession_name1 :
  value <$> document (page blankNameSession)
              !! ("pokemon" +:+ Js.numberToString 1 +:+ "Name")
  = Some "   ".
Proof. computed. Qed.

Lemma blankNameSession_errorText :
  is_Some (document (page blankNameSession) !! "errorText").
Proof. apply blankNameSession_complete. in_ids. Qed.

Lemma blankNameSession_errorMessage :
  is_Some (document (page blankNameSession) !! "errorMessage").
Proof. apply blankNameSession_complete. in_ids. Qed.

Lemma loadPokemon_blank_name_witness :
  value <$> document (page blankNameSession)
              !! ("pokemon" +:+ Js.numberToString 1 +:+ "Name")
  = Some "   " ∧
  allSpace "   " = true ∧
  is_Some (document (page blankNameSession) !! "errorText") ∧
  is_Some (document (page blankNameSession) !! "errorMessage") ∧
  ∃ s',
    loadPokemon 1 (Resolves (mkResponse true (Resolves pikachu)))
      (Resolves (mkResponse true (Resolves pikachuMoves))) blankNameSession = Done tt s' ∧
    gets s' = gets blankNameSession ∧
    contentOf (page s') "errorText" = Some [Text "Please enter a PokÃ©mon name"] ∧
    display <$> document (page s') !! "errorMessage" = Some "flex" ∧
    changesOnly ["errorText"; "errorMessage"] (page blankNameSession) (page s') ∧
    toasts s' = toasts blankNameSession ∧ options s' = options blankNameSession.
Proof.
  exact (conj blankNameSession_name1 (conj eq_refl (conj blankNameSession_errorText
    (conj blankNameSession_errorMessage
      (loadPokemon_blank_name 1 _ _ "   " blankNameSession blankNameSession_name1 eq_refl
         blankNameSession_errorText blankNameSession_errorMessage))))).
Defined.

Lemma loadPokemon_failure_changes_nothing_witness :
  complete formSession ∧
  value <$> document (page formSession) !! ("pokemon" +:+ Js.numberToString 1 +:+ "Name")
  = Some "  Pikachu " ∧
  trim "  Pikachu " ≫= toLowerCase = Some "pikachu" ∧ "pikachu" ≠ "" ∧
  loadError (Resolves (mkResponse false (Rejects "Unexpected token")))
    (Rejects (A := Response MovesData) "offline")
  = Some "PokÃ©mon not found" ∧
  ∃ s',
    loadPokemon 1 (Resolves (mkResponse false (Rejects "Unexpected token")))
      (Rejects "offline") formSession = Done tt s' ∧
    battleState (page s') = battleState (page formSession) ∧
    contentOf (page s') "errorText"
    = Some [Text "Failed to load PokÃ©mon: PokÃ©mon not found"] ∧
    display <$> document (page s') !! "loadingOverlay" = Some "none".
Proof.
  split; [exact formSession_complete|]. split; [exact formSession_name1|].
  split; [reflexivity|]. split; [exact pikachu_named|]. split; [reflexivity|].
  destruct (loadPokemon_failure_changes_nothing 1
              (Resolves (mkResponse false (Rejects "Unexpected token"))) (Rejects "offline")
              "PokÃ©mon not found" "  Pikachu " "pikachu" formSession
              (or_introl eq_refl) formSession_complete formSession_name1 eq_refl
              pikachu_named eq_refl)
    as (s' & Hrun & Hbs & _ & _ & _ & _ & _ & _ & Htext & _ & Hoverlay & _).
  exists s'. split; [exact Hrun|]. split; [exact Hbs|]. split; [exact Htext | exact Hoverlay].
Defined.

Lemma resetBattle_clears_setup_witness :
  complete playedSession ∧
  ∃ s',
    resetBattle playedSession = Done tt s' ∧
    battleState (page s') = mkBattleState None None false (Some sampleResult) ∧
    value <$> document (page s') !! "pokemon1Move1" = Some "" ∧
    disabled <$> document (page s') !! "battleBtn" = Some true.
Proof.
  split; [exact playedSession_complete|].
  destruct (resetBattle_clears_setup playedSession playedSession_complete)
    as (s' & Hrun & Hbs & _ & _ & Hsel & _ & _ & _ & _ & _ & _ & _ & Hbtn & _).
  exists s'. split; [exact Hrun|]. split; [exact Hbs|]. split; [|exact Hbtn].
  apply Forall_cons in Hsel as [(Hvalue & _) _]. exact Hvalue.
Defined.

Lemma resetBattle_then_startBattle_refused_witness :
  complete playedSession ∧ battleInProgress (battleState (page playedSession)) = false ∧
  ∃ s', resetBattle playedSession = Done tt s' ∧
    (∀ reply, ∃ message, startBattle reply (page s') = Thrown message (page s')) ∧
    ∃ w, checkBattleReady (page s') = Returned tt w ∧
         disabled <$> document w !! "battleBtn" = Some true.
Proof.
  exact (conj playedSession_complete (conj eq_refl
    (resetBattle_then_startBattle_refused playedSession playedSession_complete eq_refl))).
Defined.

Lemma newBattle_returns_to_fresh_setup_witness :
  complete playedSession ∧
  ∃ s',
    newBattle playedSession = Done tt s' ∧
    battleState (page s') = mkBattleState None None false None ∧
    display <$> document (page s') !! "battleSetup" = Some "block" ∧
    disabled <$> document (page s') !! "battleBtn" = Some true.
Proof.
  split; [exact playedSession_complete|].
  destruct (newBattle_returns_to_fresh_setup playedSession playedSession_complete)
    as (s' & Hrun & Hbs & _ & _ & Hsetup & _ & _ & _ & _ & Hbtn & _).
  exists s'. split; [exact Hrun|]. split; [exact Hbs|]. split; [exact Hsetup | exact Hbtn].
Defined.

Lemma formSession_name1' :
  value <$> document (page formSession) !! "pokemon1Name" = Some "  Pikachu ".
Proof. computed. Qed.

Lemma formSession_name2 :
  value <$> document (page formSession) !! "pokemon2Name" = Some "Charizard".
Proof. computed. Qed.

Lemma loading_both_leaves_moves_to_choose_witness :
  complete formSession ∧
  value <$> document (page formSession) !! "pokemon1Name" = Some "  Pikachu " ∧
  trim "  Pikachu " ≫= toLowerCase = Some "pikachu" ∧ "pikachu" ≠ "" ∧
  value <$> document (page formSession) !! "pokemon2Name" = Some "Charizard" ∧
  trim "Charizard" ≫= toLowerCase = Some "charizard" ∧ "charizard" ≠ "" ∧
  ∃ s1 s2 w,
    loadPokemon 1 (Resolves (mkResponse true (Resolves pikachu)))
      (Resolves (mkResponse true (Resolves pikachuMoves))) formSession = Done tt s1 ∧
    loadPokemon 2 (Resolves (mkResponse true (Resolves charizard)))
      (Resolves (mkResponse true (Resolves charizardMoves))) s1 = Done tt s2 ∧
    pokemon1 (battleState (page s2)) = Some pikachu ∧
    pokemon2 (battleState (page s2)) = Some charizard ∧
    selectedMoves (page s2) = Some <$> replicate 8 "" ∧
    checkBattleReady (page s2) = Returned tt w ∧
    disabled <$> document w !! "battleBtn" = Some true.
Proof.
  exact (conj formSession_complete (conj formSession_name1' (conj eq_refl
    (conj pikachu_named (conj formSession_name2 (conj eq_refl (conj charizard_named
      (loading_both_leaves_moves_to_choose pikachu charizard pikachuMoves charizardMoves
         "  Pikachu " "Charizard" "pikachu" "charizard" formSession formSession_complete
         formSession_name1' eq_refl pikachu_named formSession_name2 eq_refl
         charizard_named)))))))).
Defined.

Lemma playedSession_level2 :
  value <$> document (page playedSession)
              !! ("pokemon" +:+ Js.numberToString 2 +:+ "Level")
  = Some "36".
Proof. computed. Qed.

Lemma updatePokemonStats_follows_slider_witness :
  complete playedSession ∧
  value <$> document (page playedSession)
              !! ("pokemon" +:+ Js.numberToString 2 +:+ "Level")
  = Some "36" ∧
  ∃ s', updatePokemonStats 2 playedSession = Done tt s' ∧
    contentOf (page s') ("pokemon" +:+ Js.numberToString 2 +:+ "Info")
    = Some [Markup (previewMarkup charizard (Some 36))].
Proof.
  split; [exact playedSession_complete|]. split; [exact playedSession_level2|].
  destruct (updatePokemonStats_follows_slider 2 "36" playedSession (or_intror eq_refl)
              playedSession_complete playedSession_level2)
    as (s' & Hrun & Hinfo & _).
  exists s'. split; [exact Hrun | exact Hinfo].
Defined.

Lemma battleSprite2_image : "battleSprite2" ∈ spriteIds.
Proof. unfold spriteIds. set_solver. Qed.

Lemma faintedPage_stillFainted : stillFainted "battleSprite2" pikachu faintedPage.
Proof.
  split; [split; [constructor | reflexivity]|].
  exists (classListAdd "faint-animation" blank). split; [computed|]. set_solver.
Qed.

Lemma faint_animation_is_never_taken_off_witness :
  "battleSprite2" ∈ spriteIds ∧ stillFainted "battleSprite2" pikachu faintedPage ∧
  (∀ reply, stillFainted "battleSprite2" pikachu (worldOf (startBattle reply faintedPage))) ∧
  (∀ battleResult,
     stillFainted "battleSprite2" pikachu
       (worldOf (awaited (pending (animateBattleSteps battleResult)) faintedPage))) ∧
  (∀ battleResult,
     stillFainted "battleSprite2" pikachu (worldOf (animateBattle battleResult faintedPage))) ∧
  (∀ reply, stillFainted "battleSprite2" pikachu (worldOf (validateBattle reply faintedPage))) ∧
  stillFainted "battleSprite2" pikachu (worldOf (backToSetup faintedPage)) ∧
  stillFainted "battleSprite2" pikachu (worldOf (checkBattleReady faintedPage)).
Proof.
  exact (conj battleSprite2_image (conj faintedPage_stillFainted
    (faint_animation_is_never_taken_off "battleSprite2" pikachu faintedPage
       battleSprite2_image faintedPage_stillFainted))).
Defined.

Lemma readyPage_settled : settled (spriteFor pikachu (ev_pokemon faintEvent)) pikachu readyPage.
Proof. split; [constructor | reflexivity]. Qed.

Lemma faintTurn_logged : faintTurn ∈ battle_log sampleResult.
Proof. unfold sampleResult, faintTurn. simpl. set_solver. Qed.

Lemma faintEvent_logged : faintEvent ∈ events faintTurn.
Proof. unfold faintTurn, faintEvent, sampleEvents. simpl. set_solver. Qed.

Lemma animateBattle_leaves_image_fainted_witness :
  arenaReady readyPage ∧ twoSided sampleResult ∧
  settled (spriteFor pikachu (ev_pokemon faintEvent)) pikachu readyPage ∧
  faintTurn ∈ battle_log sampleResult ∧ faintEvent ∈ events faintTurn ∧
  ev_type faintEvent = "faint" ∧
  ∃ w', animateBattle sampleResult readyPage = Returned tt w' ∧
    stillFainted (spriteFor pikachu (ev_pokemon faintEvent)) pikachu w' ∧
    ∀ reply, faintShown (spriteFor pikachu (ev_pokemon faintEvent))
               (worldOf (startBattle reply w')).
Proof.
  exact (conj readyPage_arenaReady (conj sampleResult_twoSided (conj readyPage_settled
    (conj faintTurn_logged (conj faintEvent_logged (conj eq_refl
    (animateBattle_leaves_image_fainted pikachu sampleResult faintTurn faintEvent readyPage
       readyPage_arenaReady sampleResult_twoSided readyPage_settled
       faintTurn_logged faintEvent_logged eq_refl))))))).
Defined.

Lemma mirrorPage_idle : noTimerFor "battleSprite2" mirrorPage.
Proof. constructor. Qed.

Lemma mirrorResult_mirrorLog : mirrorLog (pd_name pikachu) mirrorResult.
Proof.
  unfold mirrorLog, mirrorResult. simpl.
  repeat (apply Forall_cons; split); try by apply Forall_nil.
  all: unfold about; simpl; split_and!; intros H; first [reflexivity | discriminate H].
Qed.

Lemma animateBattle_mirror_match_witness :
  pokemon1 (battleState mirrorPage) = Some pikachu ∧ noTimerFor "battleSprite2" mirrorPage ∧
  mirrorLog (pd_name pikachu) mirrorResult ∧
  document (worldOf (animateBattle mirrorResult mirrorPage)) !! "battleSprite2"
  = document mirrorPage !! "battleSprite2".
Proof.
  exact (conj eq_refl (conj mirrorPage_idle (conj mirrorResult_mirrorLog
    (animateBattle_mirror_match pikachu mirrorResult mirrorPage
       eq_refl mirrorPage_idle mirrorResult_mirrorLog)))).
Defined.

Lemma readyPage_atRest : atRest readyPage.
Proof.
  split; [reflexivity|]. split; [reflexivity|]. intros sprite e c Hs He Hc.
  unfold spriteIds in Hs. set_unfold in Hs.
  destruct Hs as [Hs|[Hs|[]]]; subst sprite; vm_compute in He; injection He as <-;
    apply not_elem_of_nil.
Qed.

Lemma animateBattle_ends_timed_animations_witness :
  arenaReady readyPage ∧ twoSided sampleResult ∧ atRest readyPage ∧
  ∃ w', animateBattle sampleResult readyPage = Returned tt w' ∧ atRest w'.
Proof.
  exact (conj readyPage_arenaReady (conj sampleResult_twoSided (conj readyPage_atRest
    (animateBattle_ends_timed_animations sampleResult readyPage
       readyPage_arenaReady sampleResult_twoSided readyPage_atRest)))).
Defined.

End Instances.
